(** * StudentSpendAnalyzer: a shallow embedding of the analysis engine

    The module under study is the [StudentSpendAnalyzer] class (the core
    data-analysis module of the repository): spending metrics, budget
    analysis, category breakdown, timeline reduction, the student lookup
    and the structural validator.

    JavaScript numbers are IEEE-754 binary64 values; they are embedded as
    Rocq's primitive [float], whose operations are the same binary64
    operations.  [Number.prototype.toFixed] works on the exact value of
    the double and is embedded through [Prim2SF]. *)

From Stdlib Require Import Floats.
From Stdlib Require Import ZArith List String Ascii Bool Lia.
From Stdlib Require Import DecimalString.
From Stdlib Require Import Sorting.Sorted Sorting.Permutation.
From Stdlib Require Import QArith Qabs Qround Qpower Lqa.
Import ListNotations.

Set Warnings "-inexact-float,-register-all".

Local Close Scope Q_scope.

Local Open Scope string_scope.
Local Open Scope list_scope.

(** ** JavaScript numbers *)

Module JsNumber.

Definition num := float.

(** [ToBoolean] on a number: [0], [-0] and [NaN] are falsy. *)
Definition truthy (x : num) : bool := negb (is_zero x || is_nan x).

(** [x || 0] where [x] is a number. *)
Definition orZero (x : num) : num := if truthy x then x else 0%float.

(** The integer [n] for which [n / 10^d - m * 2^e] is as close to zero
    as possible, the larger one on a tie (step 10.a of
    [Number.prototype.toFixed]). *)
Definition scaledRound (m : positive) (e d : Z) : Z :=
  let p := (Zpos m * 10 ^ d)%Z in
  if (0 <=? e)%Z then (p * 2 ^ e)%Z
  else ((2 * p + 2 ^ (- e)) / (2 * 2 ^ (- e)))%Z.

(** [10^21 <= m * 2^e], the threshold above which [toFixed] falls back
    to [ToString]. *)
Definition atLeast1e21 (m : positive) (e : Z) : bool :=
  if (0 <=? e)%Z then (10 ^ 21 <=? Zpos m * 2 ^ e)%Z
  else (10 ^ 21 * 2 ^ (- e) <=? Zpos m)%Z.

(** [parseFloat] of the decimal numeral [[-]n / 10^d]: the double
    nearest to it (ties to even).  The quotient of the two integers is
    rounded once, by the binary64 division of the specification. *)
Definition parseDecimal (neg : bool) (n d : Z) : num :=
  match n with
  | Zpos p =>
      SF2Prim (SFdiv prec emax (S754_finite neg p 0)
                               (S754_finite false (Z.to_pos (10 ^ d)) 0))
  | _ => if neg then PrimFloat.neg_zero else PrimFloat.zero
  end.

(** [parseFloat(x.toFixed(d))] for [0 <= d <= 100]. *)
Definition toFixedNum (x : num) (d : Z) : num :=
  match Prim2SF x with
  | S754_nan => x
  | S754_infinity _ => x
  | S754_zero _ => PrimFloat.zero
  | S754_finite s m e =>
      if atLeast1e21 m e then x
      else parseDecimal s (scaledRound m e d) d
  end.

(** An array length as a number. *)
Definition ofNat (n : nat) : num := of_uint63 (Uint63.of_Z (Z.of_nat n)).

End JsNumber.

Import JsNumber.

(** ** Plain objects used as maps

    An object literal [{}] filled by assignment [o[k] = v].  Own string
    keys are enumerated ([Object.entries], [Object.values]) with the
    array-index keys first, in ascending numeric order, and the other
    keys after them in creation order.  A key that is not an own
    property is looked up in [Object.prototype], which an object literal
    inherits. *)

Module JsObject.

Section Obj.
Context {V : Type}.

(** Own properties in creation order. *)
Definition t := list (string * V).

Definition empty : t := [].

Fixpoint get (o : t) (k : string) : option V :=
  match o with
  | [] => None
  | (k', v) :: o' => if String.eqb k' k then Some v else get o' k
  end.

Fixpoint set (o : t) (k : string) (v : V) : t :=
  match o with
  | [] => [(k, v)]
  | (k', v') :: o' =>
      if String.eqb k' k then (k', v) :: o' else (k', v') :: set o' k v
  end.
End Obj.

Arguments t : clear implicits.

(** The string-keyed members of [Object.prototype]: eleven methods and
    the accessor [__proto__]. *)
Definition prototypeMethods : list string :=
  ["constructor"; "__defineGetter__"; "__defineSetter__"; "hasOwnProperty";
   "__lookupGetter__"; "__lookupSetter__"; "isPrototypeOf";
   "propertyIsEnumerable"; "toString"; "valueOf"; "toLocaleString"].

Definition isPrototypeMethod (k : string) : bool :=
  existsb (String.eqb k) prototypeMethods.

Definition isProto (k : string) : bool := String.eqb k "__proto__".

Definition digitValue (c : ascii) : option Z :=
  let n := Z.of_nat (nat_of_ascii c) in
  if ((48 <=? n) && (n <=? 57))%Z then Some (n - 48)%Z else None.

Fixpoint digitsValue (s : string) (acc : Z) : option Z :=
  match s with
  | EmptyString => Some acc
  | String c s' =>
      match digitValue c with
      | Some v => digitsValue s' (10 * acc + v)%Z
      | None => None
      end
  end.

(** A canonical numeric string denoting an integer in [0, 2^32 - 2]. *)
Definition arrayIndex (k : string) : option Z :=
  match k with
  | EmptyString => None
  | String c rest =>
      if (Ascii.eqb c "0" && negb (String.eqb rest EmptyString))%bool then None
      else
        match digitsValue k 0 with
        | Some v => if (v <=? 2 ^ 32 - 2)%Z then Some v else None
        | None => None
        end
  end.

Section Entries.
Context {V : Type}.

Fixpoint insertIndex (i : Z) (kv : string * V)
         (l : list (Z * (string * V))) : list (Z * (string * V)) :=
  match l with
  | [] => [(i, kv)]
  | (j, kv') :: l' =>
      if (i <? j)%Z then (i, kv) :: l else (j, kv') :: insertIndex i kv l'
  end.

Fixpoint indexed (o : t V) : list (Z * (string * V)) :=
  match o with
  | [] => []
  | kv :: o' =>
      match arrayIndex (fst kv) with
      | Some i => insertIndex i kv (indexed o')
      | None => indexed o'
      end
  end.

Definition named (o : t V) : list (string * V) :=
  filter (fun kv => match arrayIndex (fst kv) with
                    | Some _ => false
                    | None => true
                    end) o.

(** [Object.entries(o)]. *)
Definition entries (o : t V) : list (string * V) :=
  map snd (indexed o) ++ named o.

(** [Object.values(o)]. *)
Definition values (o : t V) : list V := map snd (entries o).
End Entries.

End JsObject.

(** ** Arrays: [Array.prototype.sort]

    The sort is stable; the comparator's result [v] orders [x] after [y]
    when [v > 0] ([NaN] counts as [0]).  For a consistent comparator every
    stable sort returns the list computed here.  For a comparator that is
    not consistent (a date that [new Date] cannot parse among dates that it
    can) the order is left to the engine: what follows from the order is
    stated for consistent comparators, and at one array whose neighbours
    all compare as equal, which the engine's merge sort takes for a single
    ascending run and returns as it is, as the sort here does. *)

Module JsArray.

Section Sort.
Context {A : Type}.
Variable cmp : A -> A -> num.

Fixpoint insertBy (x : A) (l : list A) : list A :=
  match l with
  | [] => [x]
  | y :: l' =>
      if (0 <? cmp x y)%float then y :: insertBy x l' else x :: l
  end.

Definition sort (l : list A) : list A := fold_right insertBy [] l.
End Sort.

End JsArray.

(** ** Data model *)

Record Transaction := mkTransaction {
  date : string;
  category : string;
  amount : num
}.

Record Student := mkStudent {
  studentId : string;
  name : string;
  semester : string;
  monthlyBudget : num;
  transactions : list Transaction
}.

Record SpendingMetrics := mkSpendingMetrics {
  total : num;
  average : num;
  transactionCount : nat;
  dailyAverage : num
}.

Record BudgetAnalysis := mkBudgetAnalysis {
  allocated : num;
  spent : num;
  remaining : num;
  utilization : num;
  status : string;
  isOverBudget : bool
}.

Record CategoryEntry := mkCategoryEntry {
  cName : string;
  cAmount : num;
  percentage : num;
  cTransactionCount : num;
  averagePerTransaction : num
}.

(** A day of the timeline; [dDate = None] is the [null] of the sentinel. *)
Record DayEntry := mkDayEntry {
  dDate : option string;
  dAmount : num
}.

Record Timeline := mkTimeline {
  dailySpending : list DayEntry;
  highestSpendingDay : DayEntry;
  lowestSpendingDay : DayEntry
}.

(** ** Calls that may throw *)

(** A call returns, throws [new Error(msg)] or throws a [TypeError]. *)
Inductive Result (A : Type) :=
| Returned (a : A)
| Thrown (msg : string)
| TypeErrorThrown.

Arguments Returned {A} a.
Arguments Thrown {A} msg.
Arguments TypeErrorThrown {A}.

(** Sequencing: the first throw ends the call. *)
Definition andThen {A B : Type} (r : Result A) (k : A -> Result B) : Result B :=
  match r with
  | Returned a => k a
  | Thrown msg => Thrown msg
  | TypeErrorThrown => TypeErrorThrown
  end.

(** [arr.map(f)] for a callback that may throw. *)
Fixpoint mapResult {A B : Type} (f : A -> Result B) (l : list A) : Result (list B) :=
  match l with
  | [] => Returned []
  | x :: rest =>
      andThen (f x) (fun y =>
      andThen (mapResult f rest) (fun ys => Returned (y :: ys)))
  end.

(** ** The metrics engine *)

(** [transactions.reduce((sum, t) => sum + t.amount, 0)] *)
Definition sumAmounts (ts : list Transaction) : num :=
  fold_left (fun sum t => (sum + amount t)%float) ts 0%float.

(** [new Set(transactions.map(t => t.date)).size] *)
Definition getUniqueDays (ts : list Transaction) : nat :=
  List.length (nodup string_dec (map date ts)).

Definition calculateSpendingMetrics (ts : list Transaction) : SpendingMetrics :=
  match ts with
  | [] => mkSpendingMetrics 0%float 0%float 0%nat 0%float
  | _ =>
      let total := sumAmounts ts in
      let average := (total / ofNat (List.length ts))%float in
      let uniqueDays := getUniqueDays ts in
      let dailyAverage :=
        if (0 <? ofNat uniqueDays)%float
        then (total / ofNat uniqueDays)%float else 0%float in
      mkSpendingMetrics (toFixedNum total 2) (toFixedNum average 2)
                        (List.length ts) (toFixedNum dailyAverage 2)
  end.

Definition getBudgetStatus (utilizationPercentage : num) : string :=
  if (utilizationPercentage <=? 50)%float then "Conservative"
  else if (utilizationPercentage <=? 75)%float then "Moderate"
  else if (utilizationPercentage <=? 90)%float then "High"
  else if (utilizationPercentage <=? 100)%float then "Near Limit"
  else "Over Budget".

(** The percentage handed to [getBudgetStatus], before any rounding. *)
Definition utilizationPercentage (ts : list Transaction) (budget : num) : num :=
  if (0 <? budget)%float then (sumAmounts ts / budget * 100)%float else 0%float.

Definition analyzeBudget (ts : list Transaction) (budget : num) : BudgetAnalysis :=
  let totalSpent := sumAmounts ts in
  let remaining := (budget - totalSpent)%float in
  let u := utilizationPercentage ts budget in
  mkBudgetAnalysis budget (toFixedNum totalSpent 2) (toFixedNum remaining 2)
                   (toFixedNum u 1) (getBudgetStatus u)
                   (budget <? totalSpent)%float.

(** ** Accumulators

    [categoryTotals], [categoryTransactionCounts] and [dailySpending] are
    object literals filled by [o[k] = (o[k] || 0) + v].  Under a key that
    is no member of [Object.prototype] the value is a number.  Under the
    name of an inherited method the first read yields the function, which
    is truthy, and [+] joins its source text and the number: the key then
    holds a string, and a string it stays.  Under [__proto__] the read
    yields [Object.prototype], of which [+] makes a string as well, and
    the assignment reaches the setter of the accessor, which ignores a
    value that is not an object: no own property is made. *)

(** What a key of an accumulator holds.  Of a string only what the code
    can observe is kept: it is not empty (it starts with the text of a
    function), it is not the text of a number, and it has no [toFixed]. *)
Inductive Slot :=
| Number (x : num)
| Text.

(** What [o[k]] reads: the own property, else the member inherited from
    [Object.prototype], else [undefined]. *)
Inductive Read :=
| Own (v : Slot)
| Member
| Undefined.

Definition readSlot (o : JsObject.t Slot) (k : string) : Read :=
  match JsObject.get o k with
  | Some v => Own v
  | None =>
      if (JsObject.isPrototypeMethod k || JsObject.isProto k)%bool
      then Member else Undefined
  end.

(** [(x || 0) + v] for a number [v]: a function, [Object.prototype] and a
    string that is not empty are truthy, and [+] joins them with [v]. *)
Definition orZeroPlus (x : Read) (v : num) : Slot :=
  match x with
  | Own (Number n) => Number (orZero n + v)%float
  | Own Text => Text
  | Member => Text
  | Undefined => Number (0 + v)%float
  end.

(** [o[k] = x]: the setter of [__proto__] ignores a string; any other
    key becomes, or stays, an own property. *)
Definition assign (o : JsObject.t Slot) (k : string) (x : Slot) : JsObject.t Slot :=
  if JsObject.isProto k then o else JsObject.set o k x.

(** [o[k] = (o[k] || 0) + v] *)
Definition accumulate (o : JsObject.t Slot) (k : string) (v : num) : JsObject.t Slot :=
  assign o k (orZeroPlus (readSlot o k) v).

(** [ToNumber]: [NaN] for a string that is not the text of a number, for
    a function and for [undefined]. *)
Definition slotNumber (s : Slot) : num :=
  match s with
  | Number x => x
  | Text => nan
  end.

Definition readNumber (r : Read) : num :=
  match r with
  | Own s => slotNumber s
  | Member | Undefined => nan
  end.

(** [sum + amount]: a string as soon as one of the two is one. *)
Definition plus (sum amount : Slot) : Slot :=
  match sum, amount with
  | Number s, Number a => Number (s + a)%float
  | _, _ => Text
  end.

(** ** The category breakdown *)

Definition categoryTotals (ts : list Transaction) : JsObject.t Slot :=
  fold_left (fun o t => accumulate o (category t) (amount t)) ts JsObject.empty.

Definition categoryTransactionCounts (ts : list Transaction) : JsObject.t Slot :=
  fold_left (fun o t => accumulate o (category t) 1%float) ts JsObject.empty.

(** [Object.values(categoryTotals).reduce((sum, amount) => sum + amount, 0)] *)
Definition grandTotal (totals : JsObject.t Slot) : Slot :=
  fold_left plus (JsObject.values totals) (Number 0%float).

(** The callback of [Object.entries(categoryTotals).map]: [amount.toFixed]
    throws a [TypeError] on a string.  The count read for an amount that
    is a number is a number too, both objects being filled under the same
    keys. *)
Definition categoryEntry (counts : JsObject.t Slot) (totalSpent : Slot)
           (kv : string * Slot) : Result CategoryEntry :=
  let '(c, amount) := kv in
  match amount with
  | Text => TypeErrorThrown
  | Number a =>
      let T := slotNumber totalSpent in
      let n := readNumber (readSlot counts c) in
      Returned
        (mkCategoryEntry c (toFixedNum a 2)
           (if (0 <? T)%float then toFixedNum (a / T * 100)%float 1 else 0%float)
           n (toFixedNum (a / n)%float 2))
  end.

(** [(a, b) => b.amount - a.amount] *)
Definition byAmountDesc (a b : CategoryEntry) : num := (cAmount b - cAmount a)%float.

(** The [categories] array before it is sorted. *)
Definition categoryEntries (ts : list Transaction) : Result (list CategoryEntry) :=
  let totals := categoryTotals ts in
  let counts := categoryTransactionCounts ts in
  let totalSpent := grandTotal totals in
  mapResult (categoryEntry counts totalSpent) (JsObject.entries totals).

Definition analyzeCategoricalSpending (ts : list Transaction) :
  Result (list CategoryEntry) :=
  andThen (categoryEntries ts) (fun categories =>
  Returned (JsArray.sort byAmountDesc categories)).

(** ** The timeline *)

Definition sentinelDay : DayEntry := mkDayEntry None 0%float.

Section Timeline.

(** The time value of [new Date(s)] ([NaN] for an invalid date). *)
Variable dateValue : string -> num.

Definition dayValue (d : DayEntry) : num :=
  match dDate d with
  | Some s => dateValue s
  | None => 0%float
  end.

(** [(a, b) => new Date(a.date) - new Date(b.date)] *)
Definition byDate (a b : DayEntry) : num := (dayValue a - dayValue b)%float.

(** The object [dailySpending] that the loop fills; the name is that of
    a field of the result, too. *)
Definition dailyTotals (ts : list Transaction) : JsObject.t Slot :=
  fold_left (fun o t => accumulate o (date t) (amount t)) ts JsObject.empty.

(** The callback of [Object.entries(dailySpending).map]. *)
Definition dayEntry (kv : string * Slot) : Result DayEntry :=
  let '(d, amount) := kv in
  match amount with
  | Text => TypeErrorThrown
  | Number a => Returned (mkDayEntry (Some d) (toFixedNum a 2))
  end.

Definition sortedDays (ts : list Transaction) : Result (list DayEntry) :=
  andThen (mapResult dayEntry (JsObject.entries (dailyTotals ts))) (fun days =>
  Returned (JsArray.sort byDate days)).

Definition pickHigher (max day : DayEntry) : DayEntry :=
  if (dAmount max <? dAmount day)%float then day else max.

Definition pickLower (min day : DayEntry) : DayEntry :=
  if (dAmount day <? dAmount min)%float then day else min.

Definition analyzeSpendingTimeline (ts : list Transaction) : Result Timeline :=
  andThen (sortedDays ts) (fun days =>
  let init := hd sentinelDay days in
  Returned (mkTimeline days (fold_left pickHigher days init)
                       (fold_left pickLower days init))).

End Timeline.

(** ** The analyzer object and the student lookup *)

Record StudentInfo := mkStudentInfo {
  infoId : string;
  infoName : string;
  infoSemester : string;
  infoBudget : num
}.

Record Analysis := mkAnalysis {
  studentInfo : StudentInfo;
  spending : SpendingMetrics;
  budget : BudgetAnalysis;
  categories : list CategoryEntry;
  timeline : Timeline
}.

Record Dataset := mkDataset { students : list Student }.

(** The instance state: [this.data], [null] until a load. *)
Record Analyzer := mkAnalyzer { data : option Dataset }.

(** [constructor()] *)
Definition newAnalyzer : Analyzer := mkAnalyzer None.

(** [loadData(jsonData)] *)
Definition loadData (_ : Analyzer) (jsonData : Dataset) : Analyzer :=
  mkAnalyzer (Some jsonData).

Definition noDataMessage : string := "No data loaded. Call loadData() first.".

Definition notFoundMessage (id : string) : string :=
  "Student " ++ id ++ " not found".

Section AnalyzeStudent.

Variable dateValue : string -> num.

Definition analyzeStudent (this : Analyzer) (id : string) : Result Analysis :=
  match data this with
  | None => Thrown noDataMessage
  | Some d =>
      match find (fun s => String.eqb (studentId s) id) (students d) with
      | None => Thrown (notFoundMessage id)
      | Some student =>
          let spending := calculateSpendingMetrics (transactions student) in
          let budget := analyzeBudget (transactions student) (monthlyBudget student) in
          andThen (analyzeCategoricalSpending (transactions student)) (fun categories =>
          andThen (analyzeSpendingTimeline dateValue (transactions student)) (fun timeline =>
          Returned
            (mkAnalysis
               (mkStudentInfo (studentId student) (name student)
                              (semester student) (monthlyBudget student))
               spending budget categories timeline)))
      end
  end.

End AnalyzeStudent.

(** [getStudentIds()] *)
Definition getStudentIds (this : Analyzer) : list string :=
  match data this with
  | Some d => map studentId (students d)
  | None => []
  end.

(** ** The validator, over untyped JSON-shaped values *)

Inductive JsValue :=
| JUndefined
| JNull
| JBool (b : bool)
| JNumber (x : num)
| JString (s : string)
| JArray (elems : list JsValue)
| JObject (props : list (string * JsValue)).

(** [ToBoolean] *)
Definition toBoolean (v : JsValue) : bool :=
  match v with
  | JUndefined | JNull => false
  | JBool b => b
  | JNumber x => truthy x
  | JString s => negb (String.eqb s "")
  | JArray _ | JObject _ => true
  end.

(** [v.k] for the field names the validator reads; [None] is the
    [TypeError] of reading a property of [null] or [undefined]. *)
Definition getProp (v : JsValue) (k : string) : option JsValue :=
  match v with
  | JUndefined | JNull => None
  | JObject props =>
      Some match JsObject.get props k with
           | Some x => x
           | None => JUndefined
           end
  | _ => Some JUndefined
  end.

Definition isUndefined (v : JsValue) : bool :=
  match v with
  | JUndefined => true
  | _ => false
  end.

(** [Array.isArray(v)] *)
Definition isArray (v : JsValue) : bool :=
  match v with
  | JArray _ => true
  | _ => false
  end.

(** What a call of the validator does. *)
Inductive Outcome :=
| Passed
| Failed (msg : string)
| TypeError.

Definition showNat (n : nat) : string := NilEmpty.string_of_uint (Nat.to_uint n).

Definition structureMessage : string :=
  "Invalid data structure: Missing students array".

Definition studentFieldsMessage (index : nat) : string :=
  "Student " ++ showNat (index + 1) ++ ": Missing required fields".

Definition studentTransactionsMessage (index : nat) : string :=
  "Student " ++ showNat (index + 1) ++ ": Missing or invalid transactions".

Definition transactionFieldsMessage (index tIndex : nat) : string :=
  "Student " ++ showNat (index + 1) ++ ", Transaction " ++ showNat (tIndex + 1)
    ++ ": Missing required fields".

(** The body of the inner [forEach] callback. *)
Definition checkTransaction (index tIndex : nat) (transaction : JsValue) : Outcome :=
  match getProp transaction "date", getProp transaction "category",
        getProp transaction "amount" with
  | Some d, Some c, Some a =>
      if (negb (toBoolean d) || negb (toBoolean c) || isUndefined a)%bool
      then Failed (transactionFieldsMessage index tIndex)
      else Passed
  | _, _, _ => TypeError
  end.

(** [arr.forEach((x, i) => body)], leaving at the first throw. *)
Fixpoint forEachFrom (body : nat -> JsValue -> Outcome) (i : nat)
         (arr : list JsValue) : Outcome :=
  match arr with
  | [] => Passed
  | x :: rest =>
      match body i x with
      | Passed => forEachFrom body (S i) rest
      | failure => failure
      end
  end.

(** The body of the outer [forEach] callback. *)
Definition checkStudent (index : nat) (student : JsValue) : Outcome :=
  match getProp student "studentId", getProp student "name",
        getProp student "monthlyBudget", getProp student "transactions" with
  | Some i, Some n, Some b, Some ts =>
      if (negb (toBoolean i) || negb (toBoolean n) || negb (toBoolean b))%bool
      then Failed (studentFieldsMessage index)
      else
        match ts with
        | JArray elems => forEachFrom (checkTransaction index) 0 elems
        | _ => Failed (studentTransactionsMessage index)
        end
  | _, _, _, _ => TypeError
  end.

(** [validateData()] with [this.data = d]. *)
Definition validateData (d : JsValue) : Outcome :=
  if toBoolean d then
    match getProp d "students" with
    | Some (JArray elems) => forEachFrom checkStudent 0 elems
    | _ => Failed structureMessage
    end
  else Failed structureMessage.

(** * Auxiliary definitions *)

(** ** The analysis on keys that are not inherited

    When no category and no date is a member of [Object.prototype] every
    slot of the accumulators is a number and no call throws: the analysis
    is then the one below, on objects that hold numbers
    ([analyzeCategoricalSpending_plain], [analyzeSpendingTimeline_plain]). *)

(** No key is a member of [Object.prototype]. *)
Definition plainKeys (ks : list string) : bool :=
  forallb (fun k => negb (JsObject.isPrototypeMethod k || JsObject.isProto k)) ks.

(** The transactions of the data model: amounts that are not negative,
    dates that [new Date] parses, and no category or date named like a
    member of [Object.prototype]. *)
Definition regular (dateValue : string -> num) (ts : list Transaction) : bool :=
  forallb (fun t => (0 <=? amount t)%float) ts
  && forallb (fun t => negb (is_nan (dateValue (date t)))) ts
  && plainKeys (map category ts)
  && plainKeys (map date ts).

(** The object of numbers as an accumulator. *)
Definition numbers (o : JsObject.t num) : JsObject.t Slot :=
  map (fun kv => (fst kv, Number (snd kv))) o.

Definition plainAccumulate (o : JsObject.t num) (k : string) (v : num) : JsObject.t num :=
  let old := match JsObject.get o k with
             | Some x => orZero x
             | None => 0%float
             end in
  JsObject.set o k (old + v)%float.

Definition plainCategoryTotals (ts : list Transaction) : JsObject.t num :=
  fold_left (fun o t => plainAccumulate o (category t) (amount t)) ts JsObject.empty.

Definition plainCategoryCounts (ts : list Transaction) : JsObject.t num :=
  fold_left (fun o t => plainAccumulate o (category t) 1%float) ts JsObject.empty.

Definition plainGrandTotal (totals : JsObject.t num) : num :=
  fold_left (fun sum a => (sum + a)%float) (JsObject.values totals) 0%float.

Definition plainCategoryEntry (counts : JsObject.t num) (totalSpent : num)
           (kv : string * num) : CategoryEntry :=
  let '(c, a) := kv in
  let n := match JsObject.get counts c with
           | Some n => n
           | None => nan
           end in
  mkCategoryEntry c (toFixedNum a 2)
    (if (0 <? totalSpent)%float then toFixedNum (a / totalSpent * 100)%float 1
     else 0%float)
    n (toFixedNum (a / n)%float 2).

Definition plainCategoryEntries (ts : list Transaction) : list CategoryEntry :=
  let totals := plainCategoryTotals ts in
  let counts := plainCategoryCounts ts in
  let totalSpent := plainGrandTotal totals in
  map (plainCategoryEntry counts totalSpent) (JsObject.entries totals).

Definition plainCategories (ts : list Transaction) : list CategoryEntry :=
  JsArray.sort byAmountDesc (plainCategoryEntries ts).

Section PlainTimeline.

Variable dateValue : string -> num.

Definition plainDailyTotals (ts : list Transaction) : JsObject.t num :=
  fold_left (fun o t => plainAccumulate o (date t) (amount t)) ts JsObject.empty.

Definition plainSortedDays (ts : list Transaction) : list DayEntry :=
  JsArray.sort (byDate dateValue)
    (map (fun kv => mkDayEntry (Some (fst kv)) (toFixedNum (snd kv) 2))
         (JsObject.entries (plainDailyTotals ts))).

Definition plainTimeline (ts : list Transaction) : Timeline :=
  let days := plainSortedDays ts in
  let init := hd sentinelDay days in
  mkTimeline days (fold_left pickHigher days init) (fold_left pickLower days init).

End PlainTimeline.

(** ** Shapes of numbers *)

(** [x] is a number, not [NaN]. *)
Definition notNaN (x : float) : Prop := Prim2SF x <> S754_nan.

Local Open Scope Z_scope.

(** The float made of the rounded mantissa [M] at exponent [E]. *)
Definition pack (s : bool) (M E : Z) : spec_float :=
  if M =? 0 then S754_zero s
  else if M =? 2 ^ 53 then
    if E + 1 <=? 971 then S754_finite s (Z.to_pos (2 ^ 52)) (E + 1)
    else S754_infinity s
  else if E <=? 971 then S754_finite s (Z.to_pos M) E
  else S754_infinity s.

Local Close Scope Z_scope.

(** What a running total can be: [+0], a positive number or [+Infinity]. *)
Definition totalSF (x : spec_float) : bool :=
  match x with
  | S754_zero false | S754_infinity false | S754_finite false _ _ => true
  | _ => false
  end.

(** What a non-negative amount can be: [0], [-0], a positive number or
    [+Infinity]. *)
Definition amountSF (x : spec_float) : bool :=
  match x with
  | S754_zero _ | S754_infinity false | S754_finite false _ _ => true
  | _ => false
  end.

(** The shapes above, on numbers. *)
Definition isTotal (x : num) : Prop := totalSF (Prim2SF x) = true.

Definition isAmount (x : num) : Prop := amountSF (Prim2SF x) = true.

(** A running total that has not overflowed. *)
Definition finiteTotalSF (x : spec_float) : bool :=
  match x with
  | S754_zero false | S754_finite false _ _ => true
  | _ => false
  end.

(** [+0] or a positive finite number. *)
Definition finiteTotal (x : num) : Prop := finiteTotalSF (Prim2SF x) = true.

(** ** Exact values *)

(** The rational number a finite binary64 value stands for ([0] for the
    zeros, the infinities and [NaN]). *)
Definition SF2Q (x : spec_float) : Q :=
  match x with
  | S754_finite s m e =>
      ((if s then inject_Z (Zneg m) else inject_Z (Zpos m)) * 2 ^ e)%Q
  | _ => 0%Q
  end.

(** The same, on numbers. *)
Definition exactValue (x : num) : Q := SF2Q (Prim2SF x).

Local Open Scope Q_scope.

(** The machine epsilon, [2^-52], and the smallest positive number,
    [2^-1074]. *)
Definition eps : Q := 1 # 4503599627370496.

Definition eta : Q := 2 ^ (-1074).

(** The sum of a list of rationals. *)
Definition sumQ (l : list Q) : Q := fold_right Qplus 0 l.

(** The factors a sum met by [n] rounded additions stays within. *)
Fixpoint growth (n : nat) : Q :=
  match n with
  | O => 1
  | S n' => growth n' * (1 + eps)
  end.

Fixpoint shrink (n : nat) : Q :=
  match n with
  | O => 1
  | S n' => shrink n' * (1 - eps)
  end.

Local Close Scope Q_scope.

(** ** The order of a sort *)

(** [x] is moved behind [y] by the insertion: the comparator's value on
    them is positive. *)
Definition goesAfter {A : Type} (cmp : A -> A -> num) (x y : A) : bool :=
  (0 <? cmp x y)%float.

(** ** Objects filled by accumulation *)

(** The distinct keys of a sequence, each at its first occurrence. *)
Definition firstSeen (ks : list string) : list string :=
  fold_left (fun acc k => if existsb (String.eqb k) acc then acc else acc ++ [k])
            ks [].

(** [l.reduce((s, a) => s + a, 0)] *)
Definition sumList (l : list num) : num :=
  fold_left (fun s a => (s + a)%float) l 0%float.

(** [k] is an array index, one of the keys [Object.entries] lists first. *)
Definition isIndexKey (k : string) : bool :=
  match JsObject.arrayIndex k with
  | Some _ => true
  | None => false
  end.

(** The number an array-index key stands for. *)
Definition indexOf (k : string) : Z :=
  match JsObject.arrayIndex k with
  | Some i => i
  | None => 0%Z
  end.

(** Filling an object from a list of keys and increments. *)
Definition accumulateAll (kvs : list (string * num)) (o : JsObject.t num) :
  JsObject.t num :=
  fold_left (fun o kv => plainAccumulate o (fst kv) (snd kv)) kvs o.

(** The increments a list of keys and increments holds for [k], in order. *)
Definition incrementsFor (k : string) (kvs : list (string * num)) : list num :=
  map snd (filter (fun kv => String.eqb (fst kv) k) kvs).

(** ** Totals and averages as the specification words them *)

(** The exact sum of the amounts. *)
Definition exactSum (ts : list Transaction) : Q :=
  fold_right (fun t s => (exactValue (amount t) + s)%Q) 0%Q ts.

(** Cents of a non-negative amount rounded half up. *)
Definition roundHalfUpCents (q : Q) : Z := Qfloor (q * 100 + (1 # 2))%Q.

(** Cents of a non-negative amount rounded half to even. *)
Definition roundHalfEvenCents (q : Q) : Z :=
  let f := Qfloor (q * 100)%Q in
  match ((q * 100 - inject_Z f) ?= (1 # 2))%Q with
  | Lt => f
  | Gt => (f + 1)%Z
  | Eq => if Z.even f then f else (f + 1)%Z
  end.

(** The total of the spec: the exact sum, rounded once. *)
Definition specTotal (round : Q -> Z) (ts : list Transaction) : num :=
  parseDecimal false (round (exactSum ts)) 2.

(** The average of the spec: the rounded total over the count, rounded. *)
Definition specAverage (ts : list Transaction) : num :=
  let m := calculateSpendingMetrics ts in
  toFixedNum (total m / ofNat (transactionCount m))%float 2.

(** ** Categories *)

(** The category's amount is [v]. *)
Definition amountTie (v : num) (c : CategoryEntry) : bool :=
  PrimFloat.Leibniz.eqb (cAmount c) v.

(** The amounts spent in the category [c], in order. *)
Definition amountsIn (c : string) (ts : list Transaction) : list num :=
  map amount (filter (fun t => String.eqb (category t) c) ts).

(** [parseFloat(((amount / totalSpent) * 100).toFixed(1))] *)
Definition percentOf (T a : num) : num := toFixedNum (a / T * 100)%float 1.

(** ** Days *)

(** The amounts spent on the day [d], in order. *)
Definition amountsOn (d : string) (ts : list Transaction) : list num :=
  map amount (filter (fun t => String.eqb (date t) d) ts).

(** [h] is the first entry of [days] with the largest amount. *)
Definition firstMax (days : list DayEntry) (h : DayEntry) : Prop :=
  exists l1 l2, days = l1 ++ h :: l2
    /\ Forall (fun d => (dAmount d <? dAmount h)%float = true) l1
    /\ Forall (fun d => (dAmount d <=? dAmount h)%float = true) l2.

(** [h] is the first entry of [days] with the smallest amount. *)
Definition firstMin (days : list DayEntry) (h : DayEntry) : Prop :=
  exists l1 l2, days = l1 ++ h :: l2
    /\ Forall (fun d => (dAmount h <? dAmount d)%float = true) l1
    /\ Forall (fun d => (dAmount h <=? dAmount d)%float = true) l2.

(** The day's amount is a number. *)
Definition amountOk (d : DayEntry) : Prop := notNaN (dAmount d).

(** The entry of the day array made of an entry of the object of daily
    totals. *)
Definition dayOfEntry (kv : string * num) : DayEntry :=
  mkDayEntry (Some (fst kv)) (toFixedNum (snd kv) 2).

(** The number an integer below [2^63] in magnitude stands for. *)
Definition numOfZ (z : Z) : num :=
  if (z <? 0)%Z then (- of_uint63 (Uint63.of_Z (- z)))%float
  else of_uint63 (Uint63.of_Z z).

(** Days from 1970-01-01 to the given day of the proleptic Gregorian
    calendar. *)
Definition daysFromCivil (y m d : Z) : Z :=
  let y' := if (m <=? 2)%Z then (y - 1)%Z else y in
  let era := (y' / 400)%Z in
  let yoe := (y' - era * 400)%Z in
  let mp := if (2 <? m)%Z then (m - 3)%Z else (m + 9)%Z in
  let doy := ((153 * mp + 2) / 5 + d - 1)%Z in
  let doe := (yoe * 365 + yoe / 4 - yoe / 100 + doy)%Z in
  (era * 146097 + doe - 719468)%Z.

(** [new Date(s).getTime()] on the date-only form [YYYY-MM-DD]: UTC
    midnight, in milliseconds.  The month is one of 01 to 12 and the day
    one of 01 to 31; a day past the end of its month runs on into the
    next one, as the engine has it (2024-02-30 is 2024-03-01).  A string
    of ten characters that is not of this form, and any string that is no
    date at all, has the value [NaN].  The other forms the engine reads
    (date and time, the formats of its fallback parser) are not part of
    this function: the properties of the timeline are stated for any
    function from strings to numbers, and this one is used at the
    examples only, all in the date-only form or no date at all. *)
Definition isoDateValue (s : string) : num :=
  match s with
  | String y1 (String y2 (String y3 (String y4 (String "-"
      (String m1 (String m2 (String "-" (String d1 (String d2 EmptyString))))))))) =>
      match JsObject.digitsValue (String y1 (String y2 (String y3 (String y4 EmptyString)))) 0,
            JsObject.digitsValue (String m1 (String m2 EmptyString)) 0,
            JsObject.digitsValue (String d1 (String d2 EmptyString)) 0 with
      | Some y, Some m, Some d =>
          if ((1 <=? m) && (m <=? 12) && (1 <=? d) && (d <=? 31))%Z%bool
          then numOfZ (daysFromCivil y m d * 86400000)
          else nan
      | _, _, _ => nan
      end
  | _ => nan
  end.

(** ** Accepted datasets *)

(** [v.k], [undefined] where the read would throw. *)
Definition field (v : JsValue) (k : string) : JsValue :=
  match getProp v k with
  | Some x => x
  | None => JUndefined
  end.

(** [undefined] or [null]: the values a property read throws on. *)
Definition isNullish (v : JsValue) : bool :=
  match v with
  | JUndefined | JNull => true
  | _ => false
  end.

(** A string other than the empty one. *)
Definition nonEmptyString (v : JsValue) : bool :=
  match v with
  | JString s => negb (String.eqb s "")
  | _ => false
  end.

(** The datasets the specification words as accepted: non-empty id and name, a
    defined budget, and transactions with a defined date, a non-empty
    category and a defined amount. *)
Definition specTransactionOk (t : JsValue) : bool :=
  negb (isNullish (field t "date")) && nonEmptyString (field t "category")
  && negb (isNullish (field t "amount")).

Definition specRecordOk (s : JsValue) : bool :=
  nonEmptyString (field s "studentId") && nonEmptyString (field s "name")
  && negb (isNullish (field s "monthlyBudget"))
  && match field s "transactions" with
     | JArray ts => forallb specTransactionOk ts
     | _ => false
     end.

Definition specAccepts (d : JsValue) : bool :=
  match field d "students" with
  | JArray ss => forallb specRecordOk ss
  | _ => false
  end.

(** The datasets the validator lets through. *)
Definition transactionOk (t : JsValue) : bool :=
  negb (isNullish t) && toBoolean (field t "date")
  && toBoolean (field t "category") && negb (isUndefined (field t "amount")).

Definition recordOk (s : JsValue) : bool :=
  negb (isNullish s) && toBoolean (field s "studentId")
  && toBoolean (field s "name") && toBoolean (field s "monthlyBudget")
  && match field s "transactions" with
     | JArray ts => forallb transactionOk ts
     | _ => false
     end.

Definition accepts (d : JsValue) : bool :=
  toBoolean d
  && match field d "students" with
     | JArray ss => forallb recordOk ss
     | _ => false
     end.

(** A typed dataset as the JSON value it is loaded from. *)
Definition jsonOfTransaction (t : Transaction) : JsValue :=
  JObject [("date", JString (date t)); ("category", JString (category t));
           ("amount", JNumber (amount t))].

Definition jsonOfStudent (s : Student) : JsValue :=
  JObject [("studentId", JString (studentId s)); ("name", JString (name s));
           ("semester", JString (semester s));
           ("monthlyBudget", JNumber (monthlyBudget s));
           ("transactions", JArray (map jsonOfTransaction (transactions s)))].

Definition jsonOfDataset (d : Dataset) : JsValue :=
  JObject [("students", JArray (map jsonOfStudent (students d)))].

(** The typed datasets the validator lets through. *)
Definition typedTransactionOk (t : Transaction) : bool :=
  negb (String.eqb (date t) "") && negb (String.eqb (category t) "").

Definition typedStudentOk (s : Student) : bool :=
  negb (String.eqb (studentId s) "") && negb (String.eqb (name s) "")
  && truthy (monthlyBudget s) && forallb typedTransactionOk (transactions s).

(** ** Example inputs *)

(** A transaction of the given amount. *)
Definition tx (a : num) : Transaction := mkTransaction "2024-01-01" "Food" a.

(** The transactions of the timeline example. *)
Definition exampleDays : list Transaction :=
  [mkTransaction "2024-01-02" "Food" 40; mkTransaction "2024-01-01" "Books" 10;
   mkTransaction "2024-01-02" "Food" 5]%float.

(** Two days, the first under the date [__proto__]. *)
Definition protoDays : list Transaction :=
  [mkTransaction "__proto__" "Food" 10%float;
   mkTransaction "2024-01-01" "Food" 5%float].

(** Three days, the second with a date that is none. *)
Definition unparseableDays : list Transaction :=
  [mkTransaction "2024-01-03" "Food" 30%float;
   mkTransaction "bad" "Food" 20%float;
   mkTransaction "2024-01-01" "Food" 10%float].

(** Two categories of equal amount, the second named by an array index. *)
Definition rankingExample : list Transaction :=
  [mkTransaction "2024-01-01" "Food" 10; mkTransaction "2024-01-02" "7" 10]%float.

(** A complete dataset whose only record has a budget of zero. *)
Definition zeroBudgetDataset : Dataset :=
  mkDataset [mkStudent "STU001" "Ada" "Fall 2024" 0%float
               [mkTransaction "2024-01-01" "Food" 0%float]].

(** A complete dataset whose only transaction has an amount of zero. *)
Definition zeroAmountDataset : Dataset :=
  mkDataset [mkStudent "STU001" "Ada" "Fall 2024" 500%float
               [mkTransaction "2024-01-01" "Food" 0%float]].

(** A dataset whose second record has a third transaction without an
    amount. *)
Definition missingAmountDataset : JsValue :=
  JObject [("students", JArray
    [jsonOfStudent (mkStudent "STU001" "Ada" "Fall 2024" 500%float []);
     JObject [("studentId", JString "STU002"); ("name", JString "Grace");
              ("monthlyBudget", JNumber 400%float);
              ("transactions", JArray
                 [jsonOfTransaction (mkTransaction "2024-01-01" "Food" 12%float);
                  jsonOfTransaction (mkTransaction "2024-01-02" "Books" 0%float);
                  JObject [("date", JString "2024-01-03");
                           ("category", JString "Food")]])]])].

(** One transaction of amount zero. *)
Definition zeroSpending : list Transaction := [tx 0%float].

(** The transactions of the end-to-end scenario. *)
Definition scenario : list Transaction :=
  [mkTransaction "2024-01-01" "Food" 120; mkTransaction "2024-01-02" "Food" 80;
   mkTransaction "2024-01-02" "Books" 60;
   mkTransaction "2024-01-03" "Entertainment" 40]%float.

(** * The consumers of an analysis *)

(** ** Budget alerts *)

Record Alert := mkAlert {
  alertType : string;
  alertMessage : string;
  alertAction : string
}.

Record Email := mkEmail {
  emailTo : string;
  emailSubject : string;
  emailBody : string
}.

(** [arr.join(sep)] on strings *)
Definition join (sep : string) (l : list string) : string :=
  match l with
  | [] => ""
  | x :: rest => fold_left (fun acc y => acc ++ sep ++ y) rest x
  end%string.

Section Alerts.

(** [ToString] of a number, as template literals apply it, and
    [String.prototype.toLowerCase]. *)
Variable numberToString : num -> string.
Variable toLowerCase : string -> string.

Definition budgetAlerts (budget : BudgetAnalysis) : list Alert :=
  if (100 <? utilization budget)%float then
    [mkAlert "CRITICAL"
             ("Over budget by " ++ numberToString (abs (remaining budget)))
             "Immediate spending reduction required"]
  else if (90 <? utilization budget)%float then
    [mkAlert "WARNING"
             ("Approaching budget limit (" ++ numberToString (utilization budget)
                ++ "% used)")
             "Monitor remaining spending carefully"]
  else if (75 <? utilization budget)%float then
    [mkAlert "CAUTION"
             ("Budget 75% utilized with " ++ numberToString (utilization budget)
                ++ "% spent")
             "Consider reducing discretionary spending"]
  else []%list.

Definition categoryAlerts (category : CategoryEntry) : list Alert :=
  if (50 <? percentage category)%float then
    [mkAlert "INFO"
             (cName category ++ " represents "
                ++ numberToString (percentage category) ++ "% of total spending")
             ("Consider diversifying expenses or reducing "
                ++ toLowerCase (cName category) ++ " costs")]
  else []%list.

Definition frequencyAlerts (spending : SpendingMetrics) : list Alert :=
  if (20 <? transactionCount spending)%nat then
    [mkAlert "INFO"
             ("High transaction frequency: " ++ showNat (transactionCount spending)
                ++ " transactions")
             "Consider consolidating purchases to reduce impulse spending"]
  else []%list.

Definition averageAlerts (spending : SpendingMetrics) (budget : BudgetAnalysis) :
  list Alert :=
  if (allocated budget * 0.1 <? average spending)%float then
    [mkAlert "CAUTION"
             ("Average transaction size is high: "
                ++ numberToString (average spending))
             "Review large purchases and consider if they align with priorities"]
  else []%list.

(** [BudgetAlerts.generateAlerts(analysis)]: the alerts in the order they
    are pushed. *)
Definition generateAlerts (analysis : Analysis) : list Alert :=
  (budgetAlerts (budget analysis)
   ++ flat_map categoryAlerts (categories analysis)
   ++ frequencyAlerts (spending analysis)
   ++ averageAlerts (spending analysis) (budget analysis))%list.

Definition isCritical (a : Alert) : bool := String.eqb (alertType a) "CRITICAL".

(** [BudgetAlerts.generateEmailAlert(analysis, alerts)]; [None] is
    [null]. *)
Definition generateEmailAlert (analysis : Analysis) (alerts : list Alert) :
  option Email :=
  match alerts with
  | [] => None
  | _ =>
      let criticalAlerts := filter isCritical alerts in
      match criticalAlerts with
      | [] => None
      | _ =>
          Some (mkEmail
            (infoId (studentInfo analysis) ++ "@university.edu")
            "Budget Alert: Immediate Action Required"
            ("
Dear " ++ infoName (studentInfo analysis) ++ ",

Your budget requires immediate attention:

Budget Status: " ++ status (budget analysis) ++ "
Amount Over Budget: " ++ numberToString (abs (remaining (budget analysis))) ++ "
Utilization: " ++ numberToString (utilization (budget analysis)) ++ "%

Critical Actions Needed:
" ++ join "
" (map (fun alert => "â€¢ " ++ alertAction alert) criticalAlerts) ++ "

Please review your spending and adjust your budget immediately.

Best regards,
Financial Wellness Team
      "))
      end
  end%string.

End Alerts.

(** ** CSV export *)

(** A cell of a CSV row before it is joined: a string, a number or a
    count. *)
Inductive Cell :=
| CText (s : string)
| CNumber (x : num)
| CCount (n : nat).

Definition csvHeaders : list string :=
  ["Student ID"; "Student Name"; "Budget"; "Total Spent";
   "Budget Utilization %"; "Status"; "Transactions Count";
   "Average Transaction"; "Top Category"; "Top Category Amount"].

(** [result.categories[0]?.name || 'None'] *)
Definition topCategoryName (cs : list CategoryEntry) : string :=
  match cs with
  | c :: _ => if String.eqb (cName c) "" then "None" else cName c
  | [] => "None"
  end.

(** [result.categories[0]?.amount || 0] *)
Definition topCategoryAmount (cs : list CategoryEntry) : num :=
  match cs with
  | c :: _ => orZero (cAmount c)
  | [] => 0%float
  end.

Definition csvRow (result : Analysis) : list Cell :=
  [CText (infoId (studentInfo result));
   CText (infoName (studentInfo result));
   CNumber (allocated (budget result));
   CNumber (spent (budget result));
   CNumber (utilization (budget result));
   CText (status (budget result));
   CCount (transactionCount (spending result));
   CNumber (average (spending result));
   CText (topCategoryName (categories result));
   CNumber (topCategoryAmount (categories result))].

(** The names added to [allCategories], a [Set], in insertion order. *)
Definition allCategories (analysisResults : list Analysis) : list string :=
  firstSeen (flat_map (fun result => map cName (categories result)) analysisResults).

Definition breakdownHeaders (analysisResults : list Analysis) : list string :=
  "Student ID" :: "Student Name" :: allCategories analysisResults.

(** [categoryData ? categoryData.amount : 0] with
    [categoryData = result.categories.find(c => c.name === category)] *)
Definition breakdownCell (result : Analysis) (category : string) : Cell :=
  match find (fun c => String.eqb (cName c) category) (categories result) with
  | Some categoryData => CNumber (cAmount categoryData)
  | None => CNumber 0%float
  end.

Definition breakdownRow (analysisResults : list Analysis) (result : Analysis) :
  list Cell :=
  CText (infoId (studentInfo result)) :: CText (infoName (studentInfo result))
    :: map (breakdownCell result) (allCategories analysisResults).

Section CsvExport.

Variable numberToString : num -> string.

(** [ToString] of a cell, as [join] applies it. *)
Definition cellToString (c : Cell) : string :=
  match c with
  | CText s => s
  | CNumber x => numberToString x
  | CCount n => showNat n
  end.

Definition csvLines (headers : list string) (rows : list (list Cell)) : string :=
  join "
" (join "," headers :: map (fun row => join "," (map cellToString row)) rows).

(** The content [exportToCSV] writes. *)
Definition exportToCSV (analysisResults : list Analysis) : string :=
  csvLines csvHeaders (map csvRow analysisResults).

(** The content [exportCategoriesBreakdown] writes. *)
Definition exportCategoriesBreakdown (analysisResults : list Analysis) : string :=
  csvLines (breakdownHeaders analysisResults)
           (map (breakdownRow analysisResults) analysisResults).

End CsvExport.

(** * Further auxiliary definitions *)

(** Two records that carry the same id. *)
Definition duplicateIdDataset : Dataset :=
  mkDataset [mkStudent "STU001" "Ada" "Fall 2024" 500%float
               [mkTransaction "2024-01-01" "Food" 10%float];
             mkStudent "STU001" "Grace" "Fall 2024" 300%float []].

(** The three required fields of a record are truthy. *)
Definition studentFieldsOk (s : JsValue) : bool :=
  toBoolean (field s "studentId") && toBoolean (field s "name")
  && toBoolean (field s "monthlyBudget").

(** A dataset whose second record lacks its name, and one whose second
    record has no transactions array. *)
Definition missingNameDataset : JsValue :=
  JObject [("students", JArray
    [jsonOfStudent (mkStudent "STU001" "Ada" "Fall 2024" 500%float []);
     JObject [("studentId", JString "STU002");
              ("monthlyBudget", JNumber 400%float)]])].

Definition noTransactionsDataset : JsValue :=
  JObject [("students", JArray
    [jsonOfStudent (mkStudent "STU001" "Ada" "Fall 2024" 500%float []);
     JObject [("studentId", JString "STU002"); ("name", JString "Grace");
              ("monthlyBudget", JNumber 400%float);
              ("transactions", JString "none")]])].

(** [0], [-0], a negative number or [-Infinity]. *)
Definition notPositiveSF (x : spec_float) : bool :=
  match x with
  | S754_zero _ | S754_infinity true | S754_finite true _ _ => true
  | _ => false
  end.

Local Open Scope Z_scope.

(** The canonical binary64 representation of a natural number below
    [2^53]. *)
Definition intSF (k : Z) : spec_float :=
  if k =? 0 then S754_zero false
  else S754_finite false (Z.to_pos (k * 2 ^ (53 - Zdigits2 k))) (Zdigits2 k - 53).

(** The location of [m + r / d] between [m] and [m + 1], for
    [0 <= r < d]. *)
Definition locOf (r d : Z) : location :=
  if r =? 0 then loc_Exact else loc_Inexact (2 * r ?= d).

Local Close Scope Z_scope.

(** The budget alert of a utilization: its type, none below 75. *)
Definition budgetLevel (u : num) : list string :=
  if (100 <? u)%float then ["CRITICAL"]
  else if (90 <? u)%float then ["WARNING"]
  else if (75 <? u)%float then ["CAUTION"]
  else [].

(** The own properties of an accumulator: none under [__proto__], a
    string exactly under the names of the methods. *)
Definition slotsOk (o : JsObject.t Slot) : Prop :=
  forall k s, In (k, s) o ->
              JsObject.isProto k = false
              /\ (s = Text <-> JsObject.isPrototypeMethod k = true).

(** 100.04 spent of 100. *)
Definition slightlyOver : BudgetAnalysis := analyzeBudget [tx 100.04%float] 100%float.


(** * Properties *)

(** ** Order on binary64 values, from the specification of the comparisons *)

Module FloatOrder.

Ltac cmp_cases :=
  repeat match goal with
  | |- context [Z.compare ?a ?b] => destruct (Z.compare_spec a b); subst
  | H : context [Z.compare ?a ?b] |- _ => destruct (Z.compare_spec a b); subst
  | |- context [Pos.compare_cont Eq ?a ?b] =>
      change (Pos.compare_cont Eq a b) with (Pos.compare a b);
      destruct (Pos.compare_spec a b); subst
  | H : context [Pos.compare_cont Eq ?a ?b] |- _ =>
      change (Pos.compare_cont Eq a b) with (Pos.compare a b) in H;
      destruct (Pos.compare_spec a b); subst
  end.

Ltac by_cases x y :=
  destruct x as [[]|[]| |[] ? ?], y as [[]|[]| |[] ? ?]; simpl;
  try discriminate.

Lemma SFcompare_antisym x y c :
  SFcompare x y = Some c -> SFcompare y x = Some (CompOpp c).
Proof.
  by_cases x y; intros [= <-]; try reflexivity;
    cmp_cases; simpl in *; try reflexivity; try lia.
Qed.

Lemma SFcompare_refl x : x <> S754_nan -> SFcompare x x = Some Eq.
Proof.
  destruct x as [[]|[]| |[] m e]; simpl; intros H; try congruence;
    rewrite Z.compare_refl;
    change (Pos.compare_cont Eq m m) with (Pos.compare m m);
    rewrite Pos.compare_refl; reflexivity.
Qed.

Lemma SFcompare_total x y :
  x <> S754_nan -> y <> S754_nan -> exists c, SFcompare x y = Some c.
Proof. destruct x, y; simpl; intros; try congruence; eauto. Qed.

Lemma SFcompare_trans_le_lt x y z c :
  SFcompare x y = Some c -> c <> Gt -> SFcompare y z = Some Lt ->
  SFcompare x z = Some Lt.
Proof.
  destruct z as [[]|[]| |[] ? ?]; by_cases x y;
    intros H1 Hc H2; try congruence;
    cmp_cases; simpl in *; try congruence; try lia.
Qed.

Lemma SFcompare_trans_lt_le x y z c :
  SFcompare x y = Some Lt -> SFcompare y z = Some c -> c <> Gt ->
  SFcompare x z = Some Lt.
Proof.
  destruct z as [[]|[]| |[] ? ?]; by_cases x y;
    intros H1 H2 Hc; try congruence;
    cmp_cases; simpl in *; try congruence; try lia.
Qed.

Lemma SFcompare_trans_eq x y z :
  SFcompare x y = Some Eq -> SFcompare y z = Some Eq ->
  SFcompare x z = Some Eq.
Proof.
  destruct z as [[]|[]| |[] ? ?]; by_cases x y;
    intros H1 H2; try congruence;
    cmp_cases; simpl in *; try congruence; try lia.
Qed.

Lemma is_nan_false x : is_nan x = false <-> notNaN x.
Proof.
  unfold is_nan, notNaN. rewrite FloatAxioms.eqb_spec. unfold SFeqb. split.
  - intros H E. rewrite E in H. discriminate.
  - intros H. rewrite (SFcompare_refl _ H). reflexivity.
Qed.

Lemma ltb_notNaN x y : (x <? y)%float = true -> notNaN x /\ notNaN y.
Proof.
  rewrite FloatAxioms.ltb_spec. unfold SFltb, notNaN.
  destruct (Prim2SF x), (Prim2SF y); simpl; try discriminate;
    intros _; split; discriminate.
Qed.

Lemma leb_notNaN x y : (x <=? y)%float = true -> notNaN x /\ notNaN y.
Proof.
  rewrite FloatAxioms.leb_spec. unfold SFleb, notNaN.
  destruct (Prim2SF x), (Prim2SF y); simpl; try discriminate;
    intros _; split; discriminate.
Qed.

Lemma ltb_leb_false x y : (x <? y)%float = true -> (y <=? x)%float = false.
Proof.
  rewrite FloatAxioms.ltb_spec, FloatAxioms.leb_spec. unfold SFltb, SFleb.
  destruct (SFcompare (Prim2SF x) (Prim2SF y)) as [c|] eqn:E; try discriminate.
  rewrite (SFcompare_antisym _ _ _ E). destruct c; simpl; congruence.
Qed.

Lemma leb_ltb_false x y : (x <=? y)%float = true -> (y <? x)%float = false.
Proof.
  rewrite FloatAxioms.ltb_spec, FloatAxioms.leb_spec. unfold SFltb, SFleb.
  destruct (SFcompare (Prim2SF x) (Prim2SF y)) as [c|] eqn:E; try discriminate.
  rewrite (SFcompare_antisym _ _ _ E). destruct c; simpl; congruence.
Qed.

Lemma ltb_false_leb x y :
  notNaN x -> notNaN y -> (x <? y)%float = false -> (y <=? x)%float = true.
Proof.
  unfold notNaN. rewrite FloatAxioms.ltb_spec, FloatAxioms.leb_spec. unfold SFltb, SFleb.
  intros Hx Hy. destruct (SFcompare_total _ _ Hx Hy) as [c E].
  rewrite E, (SFcompare_antisym _ _ _ E). destruct c; simpl; congruence.
Qed.

Lemma ltb_leb x y : (x <? y)%float = true -> (x <=? y)%float = true.
Proof.
  rewrite FloatAxioms.ltb_spec, FloatAxioms.leb_spec. unfold SFltb, SFleb.
  destruct (SFcompare (Prim2SF x) (Prim2SF y)) as [[]|]; congruence.
Qed.

Lemma leb_refl x : notNaN x -> (x <=? x)%float = true.
Proof.
  unfold notNaN. rewrite FloatAxioms.leb_spec. unfold SFleb. intros H.
  rewrite (SFcompare_refl _ H). reflexivity.
Qed.

Lemma leb_trans x y z :
  (x <=? y)%float = true -> (y <=? z)%float = true -> (x <=? z)%float = true.
Proof.
  rewrite !FloatAxioms.leb_spec. unfold SFleb.
  destruct (SFcompare (Prim2SF x) (Prim2SF y)) as [c1|] eqn:E1; try discriminate.
  destruct (SFcompare (Prim2SF y) (Prim2SF z)) as [c2|] eqn:E2; try discriminate.
  destruct c1, c2; try discriminate; intros _ _.
  - rewrite (SFcompare_trans_eq _ _ _ E1 E2). reflexivity.
  - rewrite (SFcompare_trans_le_lt _ _ _ _ E1 ltac:(discriminate) E2). reflexivity.
  - rewrite (SFcompare_trans_lt_le _ _ _ _ E1 E2 ltac:(discriminate)). reflexivity.
  - rewrite (SFcompare_trans_lt_le _ _ _ _ E1 E2 ltac:(discriminate)). reflexivity.
Qed.

Lemma leb_ltb_trans x y z :
  (x <=? y)%float = true -> (y <? z)%float = true -> (x <? z)%float = true.
Proof.
  rewrite FloatAxioms.leb_spec, !FloatAxioms.ltb_spec. unfold SFleb, SFltb.
  destruct (SFcompare (Prim2SF x) (Prim2SF y)) as [c1|] eqn:E1; try discriminate.
  destruct (SFcompare (Prim2SF y) (Prim2SF z)) as [c2|] eqn:E2; try discriminate.
  destruct c1, c2; try discriminate; intros _ _;
    rewrite (SFcompare_trans_le_lt _ _ _ _ E1 ltac:(discriminate) E2); reflexivity.
Qed.

Lemma ltb_leb_trans x y z :
  (x <? y)%float = true -> (y <=? z)%float = true -> (x <? z)%float = true.
Proof.
  rewrite FloatAxioms.leb_spec, !FloatAxioms.ltb_spec. unfold SFleb, SFltb.
  destruct (SFcompare (Prim2SF x) (Prim2SF y)) as [c1|] eqn:E1; try discriminate.
  destruct (SFcompare (Prim2SF y) (Prim2SF z)) as [c2|] eqn:E2; try discriminate.
  destruct c1, c2; try discriminate; intros _ _;
    rewrite (SFcompare_trans_lt_le _ _ _ _ E1 E2 ltac:(discriminate)); reflexivity.
Qed.

(** A number above zero is a positive finite number or [+Infinity]. *)
Lemma ltb_zero_cases x :
  (0 <? x)%float = true ->
  Prim2SF x = S754_infinity false \/ exists m e, Prim2SF x = S754_finite false m e.
Proof.
  rewrite FloatAxioms.ltb_spec. change (Prim2SF 0) with (S754_zero false). unfold SFltb.
  destruct (Prim2SF x) as [[]|[]| |[] m e]; simpl; try discriminate; eauto.
Qed.

Lemma zero_div x : (0 <? x)%float = true -> (0 / x)%float = 0%float.
Proof.
  intros H. apply Prim2SF_inj. rewrite FloatAxioms.div_spec.
  change (Prim2SF 0) with (S754_zero false).
  destruct (ltb_zero_cases x H) as [-> | (m & e & ->)]; reflexivity.
Qed.

End FloatOrder.

(** ** Rounding in the binary64 specification *)

Local Open Scope Z_scope.

Module FloatRound.

Lemma shr_1_m r : 0 <= shr_m r -> shr_m (shr_1 r) = shr_m r / 2.
Proof.
  destruct r as [m b1 b2]; simpl. intros H.
  rewrite <- Z.div2_div.
  destruct m as [|[p|p|]|p]; try reflexivity; lia.
Qed.

Lemma shr_m_iter p : forall r,
  0 <= shr_m r -> shr_m (SpecFloat.iter_pos shr_1 p r) = shr_m r / 2 ^ Zpos p.
Proof.
  induction p as [p IH|p IH|]; intros r Hr; simpl SpecFloat.iter_pos.
  - assert (0 <= shr_m (shr_1 r)) as H1
        by (rewrite shr_1_m by assumption; apply Z.div_pos; lia).
    assert (0 <= shr_m (SpecFloat.iter_pos shr_1 p (shr_1 r))) as H2
        by (rewrite IH by assumption; apply Z.div_pos; lia).
    rewrite IH, IH, shr_1_m by assumption.
    rewrite !Z.div_div by lia. f_equal.
    replace (Zpos p~1) with (1 + Zpos p + Zpos p) by lia.
    rewrite !Z.pow_add_r by lia. change (2 ^ 1) with 2. ring.
  - assert (0 <= shr_m (SpecFloat.iter_pos shr_1 p r)) as H2
        by (rewrite IH by assumption; apply Z.div_pos; lia).
    rewrite IH, IH by assumption.
    rewrite !Z.div_div by lia. f_equal.
    replace (Zpos p~0) with (Zpos p + Zpos p) by lia.
    rewrite !Z.pow_add_r by lia. reflexivity.
  - rewrite shr_1_m by assumption. reflexivity.
Qed.

Lemma shr_m_shr m l e n :
  0 <= m -> 0 <= n ->
  shr_m (fst (shr (shr_record_of_loc m l) e n)) = m / 2 ^ n
  /\ snd (shr (shr_record_of_loc m l) e n) = e + n.
Proof.
  intros Hm Hn.
  assert (shr_m (shr_record_of_loc m l) = m) as E by (destruct l as [|[]]; reflexivity).
  destruct n as [|p|p]; simpl; try lia.
  - rewrite E, Z.div_1_r. lia.
  - rewrite shr_m_iter by lia. rewrite E. split; reflexivity.
Qed.

Lemma digits2_pos_size p : digits2_pos p = Pos.size p.
Proof. induction p; simpl; congruence. Qed.

Lemma Zdigits2_bounds m :
  0 < m -> 2 ^ (Zdigits2 m - 1) <= m < 2 ^ Zdigits2 m.
Proof.
  destruct m as [|p|p]; try lia. intros _. simpl Zdigits2.
  rewrite digits2_pos_size.
  pose proof (Pos.size_gt p) as H1. pose proof (Pos.size_le p) as H2.
  apply Pos2Z.pos_lt_pos in H1. apply Pos2Z.pos_le_pos in H2.
  rewrite Pos2Z.inj_pow in H1, H2.
  split; [|exact H1].
  assert (2 ^ Zpos (Pos.size p) = 2 * 2 ^ (Zpos (Pos.size p) - 1)) as E.
  { rewrite <- Z.pow_succ_r by lia. f_equal. lia. }
  rewrite E in H2. change (Zpos p~0) with (2 * Zpos p) in H2. lia.
Qed.

Lemma Zdigits2_nonneg m : 0 <= Zdigits2 m.
Proof. destruct m; simpl; lia. Qed.

Lemma Zdigits2_pos m : 0 < m -> 0 < Zdigits2 m.
Proof. destruct m; simpl; lia. Qed.

Lemma Zdigits2_le m d : 0 <= d -> 0 <= m < 2 ^ d -> Zdigits2 m <= d.
Proof.
  intros Hd [H0 H]. destruct (Z.eq_dec m 0) as [->|N]; [simpl; lia|].
  pose proof (Zdigits2_bounds m ltac:(lia)) as [B _].
  destruct (Z_le_gt_dec (Zdigits2 m) d) as [L|G]; [exact L|].
  assert (2 ^ d <= 2 ^ (Zdigits2 m - 1)) by (apply Z.pow_le_mono_r; lia). lia.
Qed.

Lemma Zdigits2_ge m d : 0 <= d -> 2 ^ d <= m -> d < Zdigits2 m.
Proof.
  intros Hd H. assert (0 < m) as P by (pose proof (Z.pow_pos_nonneg 2 d); lia).
  pose proof (Zdigits2_bounds m P) as [_ B].
  destruct (Z_lt_le_dec d (Zdigits2 m)) as [L|G]; [exact L|].
  assert (2 ^ Zdigits2 m <= 2 ^ d)
    by (apply Z.pow_le_mono_r; [lia | exact G]). lia.
Qed.

Lemma fexp_eq x : fexp prec emax x = Z.max (x - 53) (-1074).
Proof. reflexivity. Qed.

Lemma loc_of_record_of_loc m l : loc_of_shr_record (shr_record_of_loc m l) = l.
Proof. destruct l as [|[]]; reflexivity. Qed.

Lemma round_nearest_even_cases m l :
  round_nearest_even m l = m \/ round_nearest_even m l = m + 1.
Proof.
  destruct l as [|[]]; simpl; auto. destruct (Z.even m); auto.
Qed.

Lemma quotient_bound m d k :
  0 <= k -> 0 <= d -> 0 <= m < 2 ^ (d + k) -> m / 2 ^ k < 2 ^ d.
Proof.
  intros Hk Hd [H0 H]. apply Z.div_lt_upper_bound; [apply Z.pow_pos_nonneg; lia|].
  rewrite <- Z.pow_add_r by lia. replace (k + d) with (d + k) by lia. exact H.
Qed.

Lemma quotient_lower m d k :
  0 <= k -> 0 <= d -> 2 ^ (d + k) <= m -> 2 ^ d <= m / 2 ^ k.
Proof.
  intros Hk Hd H. apply Z.div_le_lower_bound; [apply Z.pow_pos_nonneg; lia|].
  rewrite <- Z.pow_add_r by lia. replace (k + d) with (d + k) by lia. exact H.
Qed.

Lemma round_aux_spec s m e l :
  0 <= m -> e <= fexp prec emax (Zdigits2 m + e) ->
  let E := fexp prec emax (Zdigits2 m + e) in
  let m' := m / 2 ^ (E - e) in
  exists M,
    (M = m' \/ M = m' + 1)
    /\ (l = loc_Exact -> E = e -> M = m)
    /\ m' < 2 ^ 53
    /\ (-1074 < E -> 2 ^ 52 <= m')
    /\ binary_round_aux prec emax s m e l = pack s M E.
Proof.
  intros Hm Hk E m'.
  assert (-1074 <= E) as HE by (unfold E; rewrite fexp_eq; lia).
  assert (m' < 2 ^ 53) as Hup.
  { unfold m'. destruct (Z.eq_dec m 0) as [->|N].
    - rewrite Z.div_0_l by (apply Z.pow_nonzero; lia). reflexivity.
    - pose proof (Zdigits2_bounds m ltac:(lia)) as [_ B].
      pose proof (Zdigits2_pos m ltac:(lia)) as D.
      apply quotient_bound; try lia.
      split; [lia|]. eapply Z.lt_le_trans; [exact B|].
      apply Z.pow_le_mono_r; [lia|]. unfold E. rewrite fexp_eq. lia. }
  assert (-1074 < E -> 2 ^ 52 <= m') as Hlow.
  { intros HE'. unfold m'.
    assert (E = Zdigits2 m + e - 53) as EE by (unfold E in *; rewrite fexp_eq in *; lia).
    assert (0 < m) as P.
    { destruct (Z.eq_dec m 0) as [->|N]; [|lia]. simpl in EE. lia. }
    pose proof (Zdigits2_bounds m P) as [B _].
    apply quotient_lower; try lia.
    replace (52 + (E - e)) with (Zdigits2 m - 1) by lia. exact B. }
  unfold binary_round_aux.
  pose proof (shr_m_shr m l e (E - e) Hm ltac:(lia)) as [S1m S1e].
  fold (shr_fexp prec emax m e l) in S1m, S1e. fold E in S1m, S1e.
  unfold shr_fexp at 1. fold E.
  destruct (shr (shr_record_of_loc m l) e (E - e)) as [mrs1 e1] eqn:S1.
  simpl in S1m, S1e. fold m' in S1m. subst e1.
  replace (e + (E - e)) with E by lia.
  set (M := round_nearest_even (shr_m mrs1) (loc_of_shr_record mrs1)).
  assert (M = m' \/ M = m' + 1) as HM
      by (unfold M; rewrite <- S1m; apply round_nearest_even_cases).
  assert (0 <= m') as Hm0 by (unfold m'; apply Z.div_pos; [lia | apply Z.pow_pos_nonneg; lia]).
  exists M. split; [exact HM|]. split.
  { intros -> EE. unfold M. replace (E - e) with 0 in S1 by lia.
    simpl in S1. injection S1 as <-. reflexivity. }
  split; [exact Hup|]. split; [exact Hlow|].
  assert (0 <= M <= 2 ^ 53) as HMb by lia.
  unfold pack.
  destruct (Z.eqb_spec M 0) as [Z0|NZ].
  - (* zero mantissa *)
    rewrite Z0. unfold shr_fexp. simpl Zdigits2. rewrite fexp_eq.
    replace (Z.max (0 + E - 53) (-1074) - E) with (- (E - Z.max (E - 53) (-1074))) by lia.
    destruct (E - Z.max (E - 53) (-1074)) eqn:D; try lia; reflexivity.
  - destruct (Z.eqb_spec M (2 ^ 53)) as [Top|NTop].
    + rewrite Top. unfold shr_fexp. change (Zdigits2 (2 ^ 53)) with 54. rewrite fexp_eq.
      replace (Z.max (54 + E - 53) (-1074) - E) with 1 by lia.
      simpl. reflexivity.
    + assert (Zdigits2 M <= 53) as DM by (apply Zdigits2_le; lia).
      assert (M < 2 ^ 52 -> E = -1074) as Sub by lia.
      unfold shr_fexp. rewrite fexp_eq.
      assert (Z.max (Zdigits2 M + E - 53) (-1074) - E <= 0) as K2 by lia.
      destruct (Z.max (Zdigits2 M + E - 53) (-1074) - E) eqn:D; try lia;
        simpl; destruct M; try lia; reflexivity.
Qed.

Lemma pos_iter_xO m d : Zpos (Pos.iter xO m d) = Zpos m * 2 ^ Zpos d.
Proof.
  revert m. induction d as [|d IH] using Pos.peano_ind; intros m.
  - simpl. lia.
  - rewrite Pos.iter_succ, Pos2Z.inj_xO, IH, Pos2Z.inj_succ, Z.pow_succ_r by lia. ring.
Qed.

Lemma shl_align_spec mx ex ex' :
  let mz := fst (shl_align mx ex ex') in
  let ez := snd (shl_align mx ex ex') in
  ez = Z.min ex ex' /\ Zpos mz = Zpos mx * 2 ^ (ex - ez).
Proof.
  unfold shl_align. destruct (ex' - ex) as [|d|d] eqn:D; cbn [fst snd].
  - split; [lia|]. rewrite Z.sub_diag. change (2 ^ 0) with 1. lia.
  - split; [lia|]. rewrite Z.sub_diag. change (2 ^ 0) with 1. lia.
  - split; [lia|]. rewrite pos_iter_xO. f_equal. f_equal. lia.
Qed.

Lemma Zdigits2_shift m k :
  0 < m -> 0 <= k -> Zdigits2 (m * 2 ^ k) = Zdigits2 m + k.
Proof.
  intros Hm Hk. pose proof (Zdigits2_bounds m Hm) as [B1 B2].
  pose proof (Zdigits2_pos m Hm) as D.
  assert (0 < 2 ^ k) as Pk by (apply Z.pow_pos_nonneg; lia).
  assert (0 < m * 2 ^ k) as Pm by lia.
  pose proof (Zdigits2_bounds _ Pm) as [C1 C2].
  assert (2 ^ (Zdigits2 m - 1 + k) <= m * 2 ^ k) as L
      by (rewrite Z.pow_add_r by lia; nia).
  assert (m * 2 ^ k < 2 ^ (Zdigits2 m + k)) as U
      by (rewrite Z.pow_add_r by lia; nia).
  pose proof (Zdigits2_ge (m * 2 ^ k) (Zdigits2 m - 1 + k) ltac:(lia) L).
  pose proof (Zdigits2_le (m * 2 ^ k) (Zdigits2 m + k) ltac:(lia) ltac:(lia)).
  lia.
Qed.

(** [binary_round]: the mantissa is first aligned on the target exponent,
    so that the rounding of [round_aux_spec] applies. *)
Lemma binary_round_spec s mx ex :
  let E := fexp prec emax (Zdigits2 (Zpos mx) + ex) in
  exists M,
    binary_round prec emax s mx ex = pack s M E
    /\ ((E <= ex /\ M = Zpos mx * 2 ^ (ex - E))
        \/ (ex < E /\ (M = Zpos mx / 2 ^ (E - ex) \/ M = Zpos mx / 2 ^ (E - ex) + 1)
            /\ (-1074 < E -> 2 ^ 52 <= Zpos mx / 2 ^ (E - ex))))
    /\ 0 <= M <= 2 ^ 53
    /\ (-1074 < E -> 2 ^ 52 <= M)
    /\ (-1074 <= ex -> 1 <= M).
Proof.
  intros E. unfold binary_round.
  pose proof (shl_align_spec mx ex E) as [Hez Hmz].
  fold E. destruct (shl_align mx ex E) as [mz ez] eqn:SA. cbn [fst snd] in Hez, Hmz.
  assert (0 <= ex - ez) as Hs by lia.
  assert (Zdigits2 (Zpos mz) + ez = Zdigits2 (Zpos mx) + ex) as HD.
  { rewrite Hmz, Zdigits2_shift by lia. lia. }
  assert (fexp prec emax (Zdigits2 (Zpos mz) + ez) = E) as HE
      by (rewrite HD; reflexivity).
  destruct (round_aux_spec s (Zpos mz) ez loc_Exact ltac:(lia) ltac:(rewrite HE; lia))
    as (M & HM & Hex & Hup & Hlow & Heq).
  rewrite HE in *.
  assert (0 <= Zpos mz / 2 ^ (E - ez)) as Hq
      by (apply Z.div_pos; [lia | apply Z.pow_pos_nonneg; lia]).
  exists M. split; [change (Zpos (digits2_pos mx)) with (Zdigits2 (Zpos mx)); fold E; rewrite SA; exact Heq|].
  assert (-1074 < E -> 2 ^ 52 <= M) as HlowM by (intros H; specialize (Hlow H); lia).
  destruct (Z_le_gt_dec E ex) as [Le|Gt].
  - assert (ez = E) as -> by lia.
    specialize (Hex eq_refl eq_refl). subst M.
    rewrite Z.sub_diag, Z.div_1_r in Hup.
    split; [left; split; [lia | exact Hmz]|].
    split; [lia|]. split; [exact HlowM | lia].
  - assert (ez = ex) as -> by lia.
    rewrite Z.sub_diag, Z.mul_1_r in Hmz. injection Hmz as ->.
    split; [right; split; [lia | split; [exact HM | exact Hlow]]|].
    split; [lia|]. split; [exact HlowM|].
    intros Hex'. specialize (HlowM ltac:(lia)). lia.
Qed.

Lemma pack_valid s M E :
  0 <= M <= 2 ^ 53 -> -1074 <= E -> (-1074 < E -> 2 ^ 52 <= M) ->
  valid_binary (pack s M E) = true.
Proof.
  intros HM HE Hlow. unfold pack.
  destruct (Z.eqb_spec M 0); [reflexivity|].
  destruct (Z.eqb_spec M (2 ^ 53)).
  - destruct (Z.leb_spec (E + 1) 971); [|reflexivity].
    unfold SpecFloat.valid_binary, bounded, canonical_mantissa.
    change (Zpos (digits2_pos (Z.to_pos (2 ^ 52)))) with 53.
    rewrite fexp_eq. apply andb_true_intro. split; [apply Z.eqb_eq | apply Z.leb_le]; 
      change (emax - prec) with 971; lia.
  - destruct (Z.leb_spec E 971); [|reflexivity].
    unfold SpecFloat.valid_binary, bounded, canonical_mantissa.
    assert (0 < M) as P by lia.
    replace (Zpos (digits2_pos (Z.to_pos M))) with (Zdigits2 M)
      by (destruct M; try lia; reflexivity).
    assert (Zdigits2 M <= 53) as DM by (apply Zdigits2_le; lia).
    rewrite fexp_eq. apply andb_true_intro.
    split; [apply Z.eqb_eq | apply Z.leb_le; change (emax - prec) with 971; lia].
    destruct (Z.eq_dec E (-1074)) as [->|NE]; [lia|].
    pose proof (Zdigits2_ge M 52 ltac:(lia) ltac:(lia)). lia.
Qed.

Lemma pack_cases s M E :
  0 <= M ->
  (M = 0 /\ pack s M E = S754_zero s)
  \/ (0 < M /\ pack s M E = S754_infinity s)
  \/ (0 < M /\ exists m e, pack s M E = S754_finite s m e).
Proof.
  intros HM. unfold pack.
  destruct (Z.eqb_spec M 0); [left; auto|].
  right. destruct (M =? 2 ^ 53).
  - destruct (E + 1 <=? 971); [right|left]; split; eauto; lia.
  - destruct (E <=? 971); [right|left]; split; eauto; lia.
Qed.

Lemma new_location_exact nb k : new_location nb k = loc_Exact -> k = 0.
Proof.
  unfold new_location, new_location_even, new_location_odd.
  destruct (Z.even nb); destruct (Z.eqb_spec k 0); auto; discriminate.
Qed.

(** The quotient of [SFdiv_core_binary] is the floor of the true
    quotient at the exponent it returns, and has digits enough for
    [round_aux_spec]. *)
Lemma div_core_spec m1 e1 m2 e2 :
  0 < m1 -> 0 < m2 ->
  let q := fst (fst (SFdiv_core_binary prec emax m1 e1 m2 e2)) in
  let e' := snd (fst (SFdiv_core_binary prec emax m1 e1 m2 e2)) in
  let l := snd (SFdiv_core_binary prec emax m1 e1 m2 e2) in
  0 <= q
  /\ e' <= e1 - e2
  /\ q * m2 <= m1 * 2 ^ (e1 - e2 - e') < (q + 1) * m2
  /\ e' <= fexp prec emax (Zdigits2 q + e').
Proof.
  intros H1 H2. unfold SFdiv_core_binary.
  set (d1 := Zdigits2 m1). set (d2 := Zdigits2 m2).
  set (X := d1 + e1 - (d2 + e2)).
  set (e' := Z.min (fexp prec emax X) (e1 - e2)).
  remember (e1 - e2 - e') as sh eqn:Esh.
  assert (0 <= sh) as Hsh by (unfold e' in Esh; lia).
  set (m' := match sh with Zpos _ => Z.shiftl m1 sh | 0 => m1 | Zneg _ => 0 end).
  assert (m' = m1 * 2 ^ sh) as Hm'.
  { unfold m'. clear m' Esh. destruct sh as [|p|p]; try lia.
    rewrite Z.shiftl_mul_pow2 by lia. reflexivity. }
  pose proof (Z_div_mod m' m2 ltac:(lia)) as DM.
  destruct (Z.div_eucl m' m2) as [q r]. destruct DM as [DM1 DM2].
  cbn [fst snd].
  assert (0 < 2 ^ sh) as P2 by (apply Z.pow_pos_nonneg; lia).
  assert (0 <= q) as Hq by nia.
  split; [exact Hq|]. split; [unfold e'; lia|].
  split; [rewrite <- Esh, <- Hm'; nia|].
  pose proof (Zdigits2_bounds m1 H1) as [B1 B1'].
  pose proof (Zdigits2_bounds m2 H2) as [B2 B2'].
  pose proof (Zdigits2_pos m1 H1) as D1. pose proof (Zdigits2_pos m2 H2) as D2.
  fold d1 in B1, B1', D1. fold d2 in B2, B2', D2.
  assert (e' <= fexp prec emax X) as HeX by (unfold e'; lia).
  rewrite fexp_eq in *.
  assert (X = d1 + e1 - (d2 + e2)) as EX by reflexivity.
  clearbody m' e' X d1 d2.
  destruct (Z.eq_dec q 0) as [->|NQ].
  - (* the quotient vanishes only below the least exponent *)
    simpl Zdigits2. destruct (Z_le_gt_dec e' (-1074)) as [L|G]; [lia|].
    exfalso.
    assert (53 - d1 + d2 <= sh) as S1 by lia.
    assert (2 ^ (52 + d2) <= m1 * 2 ^ sh) as Big.
    { assert (2 ^ (52 + d2) <= 2 ^ (d1 - 1 + sh))
        by (apply Z.pow_le_mono_r; lia).
      assert (2 ^ (d1 - 1 + sh) <= m1 * 2 ^ sh)
        by (rewrite Z.pow_add_r by lia; nia).
      lia. }
    assert (2 ^ d2 <= 2 ^ (52 + d2)) by (apply Z.pow_le_mono_r; lia).
    nia.
  - assert (d1 + sh - d2 <= Zdigits2 q) as DQ.
    { destruct (Z_le_gt_dec (d1 + sh - d2) 1) as [L|G].
      - pose proof (Zdigits2_pos q ltac:(lia)). lia.
      - assert (2 ^ (d1 - 1 + sh - d2) <= q) as LQ.
        { assert (2 ^ (d1 - 1 + sh) <= m1 * 2 ^ sh)
            by (rewrite Z.pow_add_r by lia; nia).
          assert (2 ^ (d1 - 1 + sh) = 2 ^ (d1 - 1 + sh - d2) * 2 ^ d2) as EE
            by (rewrite <- Z.pow_add_r by lia; f_equal; lia).
          assert (0 < 2 ^ (d1 - 1 + sh - d2)) by (apply Z.pow_pos_nonneg; lia).
          nia. }
        pose proof (Zdigits2_ge q (d1 - 1 + sh - d2) ltac:(lia) LQ). lia. }
    lia.
Qed.

Lemma SFdiv_finite_spec sx mx ex sy my ey :
  let q := fst (fst (SFdiv_core_binary prec emax (Zpos mx) ex (Zpos my) ey)) in
  let e' := snd (fst (SFdiv_core_binary prec emax (Zpos mx) ex (Zpos my) ey)) in
  let E := fexp prec emax (Zdigits2 q + e') in
  exists M,
    SFdiv prec emax (S754_finite sx mx ex) (S754_finite sy my ey)
      = pack (xorb sx sy) M E
    /\ (M = q / 2 ^ (E - e') \/ M = q / 2 ^ (E - e') + 1)
    /\ 0 <= M <= 2 ^ 53
    /\ -1074 <= E
    /\ (-1074 < E -> 2 ^ 52 <= q / 2 ^ (E - e')).
Proof.
  intros q e' E.
  pose proof (div_core_spec (Zpos mx) ex (Zpos my) ey ltac:(lia) ltac:(lia))
    as (Hq & _ & _ & Hpre).
  fold q e' in Hq, Hpre. fold E in Hpre.
  unfold SFdiv.
  destruct (SFdiv_core_binary prec emax (Zpos mx) ex (Zpos my) ey) as [[q0 e0] l0].
  cbn [fst snd] in q, e'. subst q e'.
  destruct (round_aux_spec (xorb sx sy) q0 e0 l0 Hq Hpre)
    as (M & HM & _ & Hup & Hlow & Heq).
  fold E in HM, Hup, Hlow, Heq.
  assert (0 <= q0 / 2 ^ (E - e0))
    by (apply Z.div_pos; [lia | apply Z.pow_pos_nonneg; lia]).
  exists M. split; [exact Heq|]. split; [exact HM|].
  split; [lia|]. split; [unfold E; rewrite fexp_eq; lia | exact Hlow].
Qed.

Lemma valid_finite_bounds s m e :
  valid_binary (S754_finite s m e) = true ->
  Zpos m < 2 ^ 53 /\ -1074 <= e <= 971 /\ (-1074 < e -> 2 ^ 52 <= Zpos m).
Proof.
  unfold SpecFloat.valid_binary, bounded, canonical_mantissa.
  intros H. apply andb_prop in H as [H1 H2].
  apply Z.eqb_eq in H1. apply Z.leb_le in H2. change (emax - prec) with 971 in H2.
  rewrite fexp_eq in H1.
  change (Zpos (digits2_pos m)) with (Zdigits2 (Zpos m)) in H1.
  pose proof (Zdigits2_bounds (Zpos m) ltac:(lia)) as [B1 B2].
  pose proof (Zdigits2_pos (Zpos m) ltac:(lia)) as D.
  split.
  - eapply Z.lt_le_trans; [exact B2|]. apply Z.pow_le_mono_r; lia.
  - split; [lia|]. intros He.
    replace 52 with (Zdigits2 (Zpos m) - 1) by lia. exact B1.
Qed.

(** On canonical numbers the comparison of the specification is the
    comparison of the mantissas aligned on the smaller exponent. *)
Lemma compare_aligned sx mx ex sy my ey :
  valid_binary (S754_finite sx mx ex) = true ->
  valid_binary (S754_finite sy my ey) = true ->
  let ez := Z.min ex ey in
  SFcompare (S754_finite sx mx ex) (S754_finite sy my ey)
  = Some (cond_Zopp sx (Zpos mx * 2 ^ (ex - ez))
          ?= cond_Zopp sy (Zpos my * 2 ^ (ey - ez))).
Proof.
  intros Vx Vy ez.
  apply valid_finite_bounds in Vx as (Ux & Ex & Lx).
  apply valid_finite_bounds in Vy as (Uy & Ey & Ly).
  assert (0 < 2 ^ (ex - ez)) as Px by (apply Z.pow_pos_nonneg; lia).
  assert (0 < 2 ^ (ey - ez)) as Py by (apply Z.pow_pos_nonneg; lia).
  assert (ex < ey -> Zpos mx * 2 ^ (ex - ez) < Zpos my * 2 ^ (ey - ez)) as HLt.
  { intros L. replace (ex - ez) with 0 by lia. change (2 ^ 0) with 1.
    assert (2 ^ 1 <= 2 ^ (ey - ez)) by (apply Z.pow_le_mono_r; lia).
    change (2 ^ 1) with 2 in *. specialize (Ly ltac:(lia)). nia. }
  assert (ey < ex -> Zpos my * 2 ^ (ey - ez) < Zpos mx * 2 ^ (ex - ez)) as HGt.
  { intros L. replace (ey - ez) with 0 by lia. change (2 ^ 0) with 1.
    assert (2 ^ 1 <= 2 ^ (ex - ez)) by (apply Z.pow_le_mono_r; lia).
    change (2 ^ 1) with 2 in *. specialize (Lx ltac:(lia)). nia. }
  assert (ex = ey -> ex - ez = 0 /\ ey - ez = 0) as HEq by lia.
  simpl SFcompare. f_equal.
  change (Pos.compare_cont Eq mx my) with (Pos.compare mx my).
  destruct sx, sy; unfold cond_Zopp;
    destruct (Z.compare_spec ex ey) as [C|C|C];
    try (destruct (HEq C) as [-> ->]; change (2 ^ 0) with 1; rewrite !Z.mul_1_r);
    try specialize (HLt C); try specialize (HGt C); symmetry;
    try (apply Z.compare_lt_iff; lia); try (apply Z.compare_gt_iff; lia).
  - rewrite <- Z.compare_opp. rewrite Z.compare_antisym. reflexivity.
  - reflexivity.
Qed.

Lemma min_exponent_bound sx mx ex sy my ey :
  valid_binary (S754_finite sx mx ex) = true ->
  valid_binary (S754_finite sy my ey) = true ->
  -1074 <= Z.min ex ey.
Proof.
  intros Vx Vy.
  apply valid_finite_bounds in Vx as (_ & Ex & _).
  apply valid_finite_bounds in Vy as (_ & Ey & _). lia.
Qed.

Lemma binary_normalize_sign m e :
  -1074 <= e ->
  match m with
  | 0 => binary_normalize prec emax m e false = S754_zero false
  | Zpos _ =>
      binary_normalize prec emax m e false = S754_infinity false
      \/ exists m' e', binary_normalize prec emax m e false = S754_finite false m' e'
  | Zneg _ =>
      binary_normalize prec emax m e false = S754_infinity true
      \/ exists m' e', binary_normalize prec emax m e false = S754_finite true m' e'
  end.
Proof.
  intros He. destruct m as [|p|p]; simpl binary_normalize; [reflexivity| |].
  - destruct (binary_round_spec false p e) as (M & -> & _ & HM & _ & H1).
    specialize (H1 He).
    destruct (pack_cases false M (fexp prec emax (Zdigits2 (Zpos p) + e)) ltac:(lia))
      as [[? _]|[[_ ->]|[_ (m' & e' & ->)]]]; [lia | auto | eauto].
  - destruct (binary_round_spec true p e) as (M & -> & _ & HM & _ & H1).
    specialize (H1 He).
    destruct (pack_cases true M (fexp prec emax (Zdigits2 (Zpos p) + e)) ltac:(lia))
      as [[? _]|[[_ ->]|[_ (m' & e' & ->)]]]; [lia | auto | eauto].
Qed.

(** The sign of a difference is the comparison of its operands. *)
Lemma SFsub_sign x y :
  valid_binary x = true -> valid_binary y = true ->
  SFltb (S754_zero false) (SFsub prec emax x y) = SFltb y x.
Proof.
  destruct x as [[]|[]| |sx mx ex], y as [[]|[]| |sy my ey]; intros Vx Vy;
    try reflexivity;
    try (destruct sx; reflexivity); try (destruct sy; reflexivity).
  unfold SFltb at 2. rewrite (compare_aligned _ _ _ _ _ _ Vy Vx).
  pose proof (min_exponent_bound _ _ _ _ _ _ Vx Vy) as Hm.
  unfold SFsub. rewrite (Z.min_comm ey ex).
  pose proof (shl_align_spec mx ex (Z.min ex ey)) as [Ex1 Ex2].
  pose proof (shl_align_spec my ey (Z.min ex ey)) as [Ey1 Ey2].
  replace (snd (shl_align mx ex (Z.min ex ey))) with (Z.min ex ey) in Ex2 by lia.
  replace (snd (shl_align my ey (Z.min ex ey))) with (Z.min ex ey) in Ey2 by lia.
  rewrite Ex2, Ey2.
  set (X := cond_Zopp sx (Zpos mx * 2 ^ (ex - Z.min ex ey))).
  set (Y := cond_Zopp sy (Zpos my * 2 ^ (ey - Z.min ex ey))).
  pose proof (binary_normalize_sign (X - Y) (Z.min ex ey) Hm) as HN.
  destruct (Z.compare_spec Y X) as [C|C|C].
  - replace (X - Y) with 0 in * by lia. rewrite HN. reflexivity.
  - destruct (X - Y) eqn:D; try lia.
    destruct HN as [->|(m' & e' & ->)]; reflexivity.
  - destruct (X - Y) eqn:D; try lia.
    destruct HN as [->|(m' & e' & ->)]; reflexivity.
Qed.

Lemma SFadd_total x y :
  valid_binary x = true -> valid_binary y = true ->
  totalSF x = true -> amountSF y = true -> totalSF (SFadd prec emax x y) = true.
Proof.
  destruct x as [[]|[]| |[] mx ex], y as [[]|[]| |[] my ey]; intros Vx Vy;
    try discriminate; try reflexivity. intros _ _.
  pose proof (min_exponent_bound _ _ _ _ _ _ Vx Vy) as Hm.
  unfold SFadd, cond_Zopp.
  pose proof (binary_normalize_sign
    (Zpos (fst (shl_align mx ex (Z.min ex ey)))
     + Zpos (fst (shl_align my ey (Z.min ex ey)))) (Z.min ex ey) Hm) as HN.
  simpl Z.add in *. destruct HN as [->|(m' & e' & ->)]; reflexivity.
Qed.

End FloatRound.

Local Close Scope Z_scope.

(** ** Calls that throw *)

Lemma andThen_returned {A B : Type} (r : Result A) (k : A -> Result B) (b : B) :
  andThen r k = Returned b <-> exists a, r = Returned a /\ k a = Returned b.
Proof.
  destruct r as [a|msg|]; simpl.
  - split; [intros H; exists a; auto | intros (a' & E & H); congruence].
  - split; [discriminate | intros (a' & E & _); discriminate].
  - split; [discriminate | intros (a' & E & _); discriminate].
Qed.

Lemma andThen_not_thrown {A B : Type} (r : Result A) (k : A -> Result B) :
  (forall msg, r <> Thrown msg) -> (forall a msg, k a <> Thrown msg) ->
  forall msg, andThen r k <> Thrown msg.
Proof.
  intros Hr Hk msg. destruct r as [a|m|]; simpl.
  - apply Hk.
  - exfalso. exact (Hr m eq_refl).
  - discriminate.
Qed.

Lemma mapResult_not_thrown {A B : Type} (f : A -> Result B) (l : list A) :
  (forall x msg, f x <> Thrown msg) -> forall msg, mapResult f l <> Thrown msg.
Proof.
  intros Hf. induction l as [|x l IH]; simpl; [discriminate|].
  apply andThen_not_thrown; [apply Hf|].
  intros y. apply andThen_not_thrown; [exact IH | discriminate].
Qed.

(** The category breakdown and the timeline throw nothing but a
    [TypeError]. *)
Lemma analyzeCategoricalSpending_not_thrown ts msg :
  analyzeCategoricalSpending ts <> Thrown msg.
Proof.
  revert msg. apply andThen_not_thrown; [|discriminate].
  apply mapResult_not_thrown. intros [c [a|]]; simpl; discriminate.
Qed.

Lemma analyzeSpendingTimeline_not_thrown dateValue ts msg :
  analyzeSpendingTimeline dateValue ts <> Thrown msg.
Proof.
  revert msg. apply andThen_not_thrown; [|discriminate].
  apply andThen_not_thrown; [|discriminate].
  apply mapResult_not_thrown. intros [d [a|]]; simpl; discriminate.
Qed.

(** ** The student lookup *)

Section Lookup.

Variable dateValue : string -> num.

(** What [analyzeStudent] does with the record it has found. *)
Lemma analyzeStudent_found (d : Dataset) (this : Analyzer) (id : string) (s : Student) :
  find (fun s => String.eqb (studentId s) id) (students d) = Some s ->
  let r := analyzeStudent dateValue (loadData this d) id in
  (forall msg, r <> Thrown msg)
  /\ (r = TypeErrorThrown
      \/ exists cs tl,
           analyzeCategoricalSpending (transactions s) = Returned cs
           /\ analyzeSpendingTimeline dateValue (transactions s) = Returned tl
           /\ r = Returned
                   (mkAnalysis
                      (mkStudentInfo (studentId s) (name s) (semester s)
                                     (monthlyBudget s))
                      (calculateSpendingMetrics (transactions s))
                      (analyzeBudget (transactions s) (monthlyBudget s))
                      cs tl)).
Proof.
  intros F. unfold analyzeStudent; simpl. rewrite F.
  pose proof (analyzeCategoricalSpending_not_thrown (transactions s)) as Nc.
  pose proof (analyzeSpendingTimeline_not_thrown dateValue (transactions s)) as Nt.
  destruct (analyzeCategoricalSpending (transactions s)) as [cs|m|]; simpl.
  - destruct (analyzeSpendingTimeline dateValue (transactions s)) as [tl|m|]; simpl.
    + split; [discriminate|]. right. exists cs, tl. auto.
    + exfalso. exact (Nt m eq_refl).
    + split; [discriminate | left; reflexivity].
  - exfalso. exact (Nc m eq_refl).
  - split; [discriminate | left; reflexivity].
Qed.

Lemma find_student_none (ss : list Student) (id : string) :
  find (fun s => String.eqb (studentId s) id) ss = None <->
  ~ In id (map studentId ss).
Proof.
  induction ss as [|s ss IH]; simpl.
  - split; [intros _ []| reflexivity].
  - destruct (String.eqb_spec (studentId s) id) as [E|E].
    + split; [discriminate | intros H; exfalso; apply H; now left].
    + rewrite IH. split; [intros H [?|?]; [congruence | now apply H] | tauto].
Qed.

(** C10: with no dataset loaded the analysis throws the "No data loaded"
    error, for every student id; that error is not the not-found error
    and no result is returned. *)
Theorem analyzeStudent_without_data (id : string) :
  analyzeStudent dateValue newAnalyzer id
    = Thrown "No data loaded. Call loadData() first."
  /\ analyzeStudent dateValue newAnalyzer id <> Thrown (notFoundMessage id)
  /\ forall r, analyzeStudent dateValue newAnalyzer id <> Returned r.
Proof.
  split; [reflexivity|]. split; [simpl; discriminate | intros r; simpl; discriminate].
Qed.

(** C9: on a loaded dataset the lookup throws "Student <id> not found"
    exactly when no record carries that id; for an id that is present it
    throws no error of its own: it returns the analysis of a record with
    that id, unless the category breakdown or the timeline of that record
    throws a [TypeError]. *)
Theorem analyzeStudent_not_found (d : Dataset) (id : string) :
  let r := analyzeStudent dateValue (loadData newAnalyzer d) id in
  (r = Thrown ("Student " ++ id ++ " not found")
     <-> ~ In id (map studentId (students d)))
  /\ (In id (map studentId (students d))
      -> r = TypeErrorThrown
         \/ exists a, r = Returned a /\ infoId (studentInfo a) = id).
Proof.
  cbv zeta.
  destruct (find (fun s => String.eqb (studentId s) id) (students d)) as [s|] eqn:F.
  - pose proof (find_some _ _ F) as [Hm Hs].
    apply String.eqb_eq in Hs.
    assert (In id (map studentId (students d))) as Hin
        by (rewrite <- Hs; now apply in_map).
    destruct (analyzeStudent_found d newAnalyzer id s F) as [Nt Hr].
    cbv zeta in Nt, Hr. split.
    + split; [intros H; exfalso; exact (Nt _ H) | tauto].
    + intros _. destruct Hr as [E|(cs & tl & _ & _ & E)]; [left; exact E|].
      right. eexists. split; [exact E | exact Hs].
  - unfold analyzeStudent; simpl. rewrite F.
    apply find_student_none in F. split.
    + split; [intros _; exact F | reflexivity].
    + tauto.
Qed.

End Lookup.

(** ** The zero-default policy *)

Lemma utilizationPercentage_nil (b : num) : utilizationPercentage [] b = 0%float.
Proof.
  unfold utilizationPercentage, sumAmounts; simpl.
  destruct (0 <? b)%float eqn:E; [|reflexivity].
  rewrite (FloatOrder.zero_div _ E). reflexivity.
Qed.

(** C2: with no transactions the average, the daily average and the
    utilization are 0 and both spending days are the sentinel
    [{date: null, amount: 0}], whatever the budget; and with an allocated
    budget of 0 the utilization is 0, whatever the transactions. *)
Theorem zero_default_policy (dateValue : string -> num) (b : num)
        (ts : list Transaction) :
  let m := calculateSpendingMetrics [] in
  average m = 0%float /\ dailyAverage m = 0%float
  /\ utilization (analyzeBudget [] b) = 0%float
  /\ (exists tl, analyzeSpendingTimeline dateValue [] = Returned tl
                 /\ highestSpendingDay tl = mkDayEntry None 0%float
                 /\ lowestSpendingDay tl = mkDayEntry None 0%float)
  /\ utilization (analyzeBudget ts 0%float) = 0%float
  /\ utilization (analyzeBudget ts PrimFloat.neg_zero) = 0%float.
Proof.
  cbv zeta. split; [reflexivity|]. split; [reflexivity|]. split.
  { unfold analyzeBudget; simpl. rewrite utilizationPercentage_nil. reflexivity. }
  split; [eexists; split; [reflexivity|]; split; reflexivity|].
  split; reflexivity.
Qed.

(** ** Budget status *)

(** C3, as stated, fails: with 500.4 spent of 1000 the reported
    utilization is 50 (50.04 rounded to one decimal), whose band is
    "Conservative", and the reported status is "Moderate". *)
Lemma status_of_rounded_utilization_fails :
  let r := analyzeBudget [tx 500.4%float] 1000%float in
  utilization r = 50%float
  /\ getBudgetStatus (utilization r) = "Conservative"
  /\ status r = "Moderate".
Proof. vm_compute. repeat split; reflexivity. Qed.

Lemma getBudgetStatus_bands (u : num) :
  ((u <=? 50)%float = true -> getBudgetStatus u = "Conservative")
  /\ ((50 <? u)%float = true -> (u <=? 75)%float = true
      -> getBudgetStatus u = "Moderate")
  /\ ((75 <? u)%float = true -> (u <=? 90)%float = true
      -> getBudgetStatus u = "High")
  /\ ((90 <? u)%float = true -> (u <=? 100)%float = true
      -> getBudgetStatus u = "Near Limit")
  /\ ((100 <? u)%float = true -> getBudgetStatus u = "Over Budget").
Proof.
  assert (forall a b, (a <? b)%float = true -> (b <? u)%float = true
                      -> (u <=? a)%float = false) as below.
  { intros a b Hab Hbu. apply FloatOrder.ltb_leb_false.
    apply FloatOrder.ltb_leb in Hab.
    exact (FloatOrder.leb_ltb_trans _ _ _ Hab Hbu). }
  unfold getBudgetStatus. repeat split.
  - intros ->. reflexivity.
  - intros H1 ->. rewrite (FloatOrder.ltb_leb_false _ _ H1). reflexivity.
  - intros H1 ->. rewrite (FloatOrder.ltb_leb_false _ _ H1).
    rewrite (below 50 75)%float by (exact H1 || reflexivity). reflexivity.
  - intros H1 ->. rewrite (FloatOrder.ltb_leb_false _ _ H1).
    rewrite (below 50 90)%float by (exact H1 || reflexivity).
    rewrite (below 75 90)%float by (exact H1 || reflexivity). reflexivity.
  - intros H1. rewrite (FloatOrder.ltb_leb_false _ _ H1).
    rewrite (below 50 100)%float by (exact H1 || reflexivity).
    rewrite (below 75 100)%float by (exact H1 || reflexivity).
    rewrite (below 90 100)%float by (exact H1 || reflexivity). reflexivity.
Qed.

(** C3, amended: the status is the 5-band classification of the
    utilization percentage before it is rounded, and [isOverBudget] holds
    exactly when the unrounded sum of the amounts exceeds the allocated
    budget; with 100 allocated, 50, 75, 90, 100 and 101 spent give the
    five statuses in turn, the last one over budget. *)
Theorem status_of_unrounded_utilization (ts : list Transaction) (b : num) :
  let u := utilizationPercentage ts b in
  let r := analyzeBudget ts b in
  status r = getBudgetStatus u
  /\ ((u <=? 50)%float = true -> status r = "Conservative")
  /\ ((50 <? u)%float = true -> (u <=? 75)%float = true -> status r = "Moderate")
  /\ ((75 <? u)%float = true -> (u <=? 90)%float = true -> status r = "High")
  /\ ((90 <? u)%float = true -> (u <=? 100)%float = true
      -> status r = "Near Limit")
  /\ ((100 <? u)%float = true -> status r = "Over Budget")
  /\ isOverBudget r = (b <? sumAmounts ts)%float
  /\ map (fun s => status (analyzeBudget [tx s] 100%float))
         [50; 75; 90; 100; 101]%float
     = ["Conservative"; "Moderate"; "High"; "Near Limit"; "Over Budget"]
  /\ isOverBudget (analyzeBudget [tx 101%float] 100%float) = true
  /\ isOverBudget (analyzeBudget [tx 100%float] 100%float) = false.
Proof.
  cbv zeta. split; [reflexivity|].
  change (status (analyzeBudget ts b))
    with (getBudgetStatus (utilizationPercentage ts b)).
  pose proof (getBudgetStatus_bands (utilizationPercentage ts b))
    as (H1 & H2 & H3 & H4 & H5).
  repeat split; try assumption; vm_compute; reflexivity.
Qed.

(** ** Signs of sums, differences and rounded values *)

Lemma sub_pos_iff (x y : num) : (0 <? x - y)%float = (y <? x)%float.
Proof.
  rewrite !FloatAxioms.ltb_spec, sub_spec.
  change (Prim2SF 0) with (S754_zero false).
  apply FloatRound.SFsub_sign; apply Prim2SF_valid.
Qed.

Lemma isAmount_leb (x : num) : (0 <=? x)%float = true <-> isAmount x.
Proof.
  unfold isAmount. rewrite FloatAxioms.leb_spec.
  change (Prim2SF 0) with (S754_zero false).
  destruct (Prim2SF x) as [[]|[]| |[] m e]; cbv; split; congruence.
Qed.

Lemma isTotal_zero : isTotal 0%float.
Proof. reflexivity. Qed.

Lemma isTotal_isAmount x : isTotal x -> isAmount x.
Proof.
  unfold isTotal, isAmount. destruct (Prim2SF x) as [[]|[]| |[] m e]; simpl; congruence.
Qed.

Lemma isTotal_notNaN x : isTotal x -> notNaN x.
Proof.
  unfold isTotal, notNaN. destruct (Prim2SF x); simpl; congruence.
Qed.

Lemma add_total x y : isTotal x -> isAmount y -> isTotal (x + y)%float.
Proof.
  unfold isTotal, isAmount. rewrite add_spec.
  apply FloatRound.SFadd_total; apply Prim2SF_valid.
Qed.

Lemma orZero_total x : isTotal x -> orZero x = x.
Proof.
  unfold isTotal, orZero, truthy, is_zero, is_nan. intros H.
  rewrite !FloatAxioms.eqb_spec. change (Prim2SF 0) with (S754_zero false).
  destruct (Prim2SF x) as [[]|[]| |[] m e] eqn:E; try discriminate;
    unfold SFeqb; simpl; try reflexivity.
  - apply Prim2SF_inj. rewrite E. reflexivity.
  - rewrite Z.compare_refl. change (Pos.compare_cont Eq m m) with (Pos.compare m m).
    rewrite Pos.compare_refl. reflexivity.
Qed.

Lemma scaledRound_nonneg m e d : (0 <= d -> 0 <= scaledRound m e d)%Z.
Proof.
  intros Hd. unfold scaledRound.
  assert (0 < 10 ^ d)%Z by (apply Z.pow_pos_nonneg; lia).
  destruct (0 <=? e)%Z eqn:E.
  - apply Z.leb_le in E. assert (0 < 2 ^ e)%Z by (apply Z.pow_pos_nonneg; lia). nia.
  - apply Z.leb_gt in E. assert (0 < 2 ^ (- e))%Z by (apply Z.pow_pos_nonneg; lia).
    apply Z.div_pos; nia.
Qed.

Lemma parseDecimal_spec (s : bool) (n d : Z) :
  (0 <= n)%Z ->
  exists r, Prim2SF (parseDecimal s n d) = r /\
    (r = S754_zero s \/ r = S754_infinity s \/ exists m e, r = S754_finite s m e).
Proof.
  intros Hn. unfold parseDecimal. destruct n as [|p|p]; try lia.
  - eexists; split; [reflexivity|]. left. destruct s; reflexivity.
  - destruct (FloatRound.SFdiv_finite_spec s p 0 false (Z.to_pos (10 ^ d)) 0)
      as (M & -> & HM & HMb & HE & Hlow).
    rewrite xorb_false_r.
    set (q := fst (fst (SFdiv_core_binary prec emax (Zpos p) 0 (Zpos (Z.to_pos (10 ^ d))) 0))) in *.
    set (e' := snd (fst (SFdiv_core_binary prec emax (Zpos p) 0 (Zpos (Z.to_pos (10 ^ d))) 0))) in *.
    set (E := fexp prec emax (Zdigits2 q + e')) in *.
    assert (valid_binary (pack s M E) = true) as V.
    { apply FloatRound.pack_valid; lia. }
    rewrite (Prim2SF_SF2Prim _ V). eexists; split; [reflexivity|].
    destruct (FloatRound.pack_cases s M E ltac:(lia))
      as [[_ ->]|[[_ ->]|[_ (m' & e1 & ->)]]]; eauto.
Qed.

Lemma toFixedNum_total x d : (0 <= d)%Z -> isTotal x -> isTotal (toFixedNum x d).
Proof.
  intros Hd. unfold isTotal, toFixedNum.
  destruct (Prim2SF x) as [[]|[]| |[] m e] eqn:E; try discriminate; intros _;
    try (rewrite E; reflexivity); try reflexivity.
  destruct (atLeast1e21 m e); [rewrite E; reflexivity|].
  destruct (parseDecimal_spec false (scaledRound m e d) d (scaledRound_nonneg m e d Hd))
    as (r & -> & [->|[->|(m' & e' & ->)]]); reflexivity.
Qed.

(** ** The stable sort *)

Section SortFacts.

Context {A : Type}.
Variable cmp : A -> A -> num.

Lemma Forall_perm (P : A -> Prop) l l' :
  Permutation l l' -> Forall P l -> Forall P l'.
Proof.
  intros Hp. rewrite !Forall_forall. intros H x Hx.
  apply H. apply (Permutation_in _ (Permutation_sym Hp) Hx).
Qed.

Lemma insertBy_perm x l : Permutation (JsArray.insertBy cmp x l) (x :: l).
Proof.
  induction l as [|y l IH]; simpl; [reflexivity|].
  destruct (0 <? cmp x y)%float; [|reflexivity].
  rewrite IH. apply perm_swap.
Qed.

Lemma sort_perm l : Permutation (JsArray.sort cmp l) l.
Proof.
  induction l as [|x l IH]; simpl; [reflexivity|].
  rewrite insertBy_perm. now constructor.
Qed.

Section Sorted.

Variable P : A -> Prop.
Variable le : A -> A -> Prop.
Hypothesis after_le : forall x y, P x -> P y -> goesAfter cmp x y = true -> le y x.
Hypothesis not_after_le : forall x y, P x -> P y -> goesAfter cmp x y = false -> le x y.
Hypothesis le_trans : forall x y z, P x -> P y -> P z -> le x y -> le y z -> le x z.

Lemma insertBy_sorted x l :
  P x -> Forall P l -> StronglySorted le l ->
  StronglySorted le (JsArray.insertBy cmp x l).
Proof.
  intros Px Pl Sl. induction l as [|y l IH]; simpl.
  - constructor; constructor.
  - inversion Pl as [|? ? Py Pl']; subst. inversion Sl as [|? ? Sl' Hy]; subst.
    destruct (0 <? cmp x y)%float eqn:C.
    + constructor; [apply IH; assumption|].
      apply (Forall_perm _ (x :: l)).
      * symmetry. apply insertBy_perm.
      * constructor; [apply after_le; assumption | exact Hy].
    + constructor; [exact Sl|].
      assert (le x y) as Lxy by (apply not_after_le; assumption).
      constructor; [exact Lxy|].
      rewrite Forall_forall in *. intros z Hz.
      apply (le_trans x y z); auto.
Qed.

Lemma sort_sorted l : Forall P l -> StronglySorted le (JsArray.sort cmp l).
Proof.
  induction l as [|x l IH]; simpl; intros Pl; [constructor|].
  inversion Pl; subst. apply insertBy_sorted; auto.
  apply (Forall_perm _ l); [symmetry; apply sort_perm | assumption].
Qed.

End Sorted.

Section Stable.

Variable tie : A -> bool.
Hypothesis tie_not_after :
  forall x y, tie x = true -> tie y = true -> goesAfter cmp x y = false.

Lemma insertBy_filter x l :
  filter tie (JsArray.insertBy cmp x l) = filter tie (x :: l).
Proof.
  induction l as [|y l IH]; [reflexivity|].
  simpl JsArray.insertBy. destruct (0 <? cmp x y)%float eqn:C; [|reflexivity].
  simpl filter in *. rewrite IH.
  destruct (tie x) eqn:Tx, (tie y) eqn:Ty; try reflexivity.
  pose proof (tie_not_after x y Tx Ty) as N. unfold goesAfter in N. congruence.
Qed.

Lemma sort_filter l : filter tie (JsArray.sort cmp l) = filter tie l.
Proof.
  induction l as [|x l IH]; [reflexivity|].
  simpl JsArray.sort. rewrite insertBy_filter. simpl. rewrite IH. reflexivity.
Qed.

End Stable.

End SortFacts.

(** ** Objects filled by accumulation *)

Section ObjectFacts.

Context {V : Type}.

Lemma get_set (o : JsObject.t V) k v k' :
  JsObject.get (JsObject.set o k v) k'
  = if String.eqb k k' then Some v else JsObject.get o k'.
Proof.
  induction o as [|[k0 v0] o IH]; simpl.
  - reflexivity.
  - destruct (String.eqb_spec k0 k) as [->|N]; simpl.
    + destruct (String.eqb k k'); reflexivity.
    + rewrite IH. destruct (String.eqb_spec k0 k') as [->|N'].
      * destruct (String.eqb_spec k k'); [congruence | reflexivity].
      * reflexivity.
Qed.

Lemma keys_set (o : JsObject.t V) k v :
  map fst (JsObject.set o k v)
  = if existsb (String.eqb k) (map fst o) then map fst o else map fst o ++ [k].
Proof.
  induction o as [|[k0 v0] o IH]; simpl; [reflexivity|].
  rewrite (String.eqb_sym k k0).
  destruct (String.eqb k0 k); simpl; [reflexivity|].
  rewrite IH. destruct (existsb _ _); reflexivity.
Qed.

Lemma In_get (o : JsObject.t V) k v :
  NoDup (map fst o) -> In (k, v) o -> JsObject.get o k = Some v.
Proof.
  induction o as [|[k0 v0] o IH]; simpl; intros ND H; [contradiction|].
  inversion ND as [|? ? Hn ND']; subst.
  destruct H as [[= -> ->]|H].
  - rewrite String.eqb_refl. reflexivity.
  - destruct (String.eqb_spec k0 k) as [->|N]; [|auto].
    exfalso. apply Hn. apply (in_map fst) in H. exact H.
Qed.

Lemma insertIndex_perm i (kv : string * V) l :
  Permutation (JsObject.insertIndex i kv l) ((i, kv) :: l).
Proof.
  induction l as [|[j kv'] l IH]; simpl; [reflexivity|].
  destruct (i <? j)%Z; [reflexivity|]. rewrite IH. apply perm_swap.
Qed.

Lemma indexed_perm (o : JsObject.t V) :
  Permutation (map snd (JsObject.indexed o))
              (filter (fun kv => isIndexKey (fst kv)) o).
Proof.
  induction o as [|kv o IH]; simpl; [reflexivity|].
  unfold isIndexKey at 1. destruct (JsObject.arrayIndex (fst kv)); [|exact IH].
  rewrite insertIndex_perm. simpl. now constructor.
Qed.

Lemma named_filter (o : JsObject.t V) :
  JsObject.named o = filter (fun kv => negb (isIndexKey (fst kv))) o.
Proof.
  unfold JsObject.named. apply filter_ext. intros kv. unfold isIndexKey.
  destruct (JsObject.arrayIndex (fst kv)); reflexivity.
Qed.

Lemma filter_split_perm {B} (f : B -> bool) (l : list B) :
  Permutation (filter f l ++ filter (fun x => negb (f x)) l) l.
Proof.
  induction l as [|x l IH]; simpl; [reflexivity|].
  destruct (f x); simpl.
  - now constructor.
  - rewrite <- Permutation_middle. now constructor.
Qed.

Lemma entries_perm (o : JsObject.t V) : Permutation (JsObject.entries o) o.
Proof.
  unfold JsObject.entries. rewrite indexed_perm, named_filter.
  apply filter_split_perm.
Qed.

Lemma entries_no_index (o : JsObject.t V) :
  forallb (fun kv => negb (isIndexKey (fst kv))) o = true ->
  JsObject.entries o = o.
Proof.
  unfold JsObject.entries. rewrite named_filter. intros H.
  assert (JsObject.indexed o = []
          /\ filter (fun kv => negb (isIndexKey (fst kv))) o = o) as [-> ->];
    [|reflexivity].
  induction o as [|kv o IH]; simpl; [split; reflexivity|].
  simpl in H. apply andb_prop in H as [H1 H2].
  rewrite H1. unfold isIndexKey in H1.
  destruct (JsObject.arrayIndex (fst kv)); [discriminate|].
  destruct (IH H2) as [-> ->]. split; reflexivity.
Qed.

Lemma insertIndex_sorted i (kv : string * V) l :
  StronglySorted Z.le (map fst l) ->
  StronglySorted Z.le (map fst (JsObject.insertIndex i kv l)).
Proof.
  induction l as [|[j kv'] l IH]; simpl; intros S.
  - constructor; constructor.
  - inversion S as [|? ? S' Hj]; subst.
    destruct (Z.ltb_spec i j).
    + simpl. constructor; [exact S|]. constructor; [lia|].
      rewrite Forall_forall in *. intros z Hz. specialize (Hj z Hz). lia.
    + simpl. constructor; [apply IH; exact S'|].
      apply (Forall_perm _ (map fst ((i, kv) :: l))).
      * symmetry. apply Permutation_map. apply insertIndex_perm.
      * simpl. constructor; [lia | exact Hj].
Qed.

Lemma indexed_sorted (o : JsObject.t V) :
  StronglySorted Z.le (map fst (JsObject.indexed o)).
Proof.
  induction o as [|kv o IH]; simpl; [constructor|].
  destruct (JsObject.arrayIndex (fst kv)); [|exact IH].
  apply insertIndex_sorted. exact IH.
Qed.

Lemma indexed_index (o : JsObject.t V) :
  Forall (fun ikv => JsObject.arrayIndex (fst (snd ikv)) = Some (fst ikv))
         (JsObject.indexed o).
Proof.
  induction o as [|kv o IH]; simpl; [constructor|].
  destruct (JsObject.arrayIndex (fst kv)) eqn:E; [|exact IH].
  apply (Forall_perm _ ((z, kv) :: JsObject.indexed o)).
  - symmetry. apply insertIndex_perm.
  - constructor; [exact E | exact IH].
Qed.

End ObjectFacts.

Lemma firstSeen_step_nodup acc k :
  NoDup acc ->
  NoDup (if existsb (String.eqb k) acc then acc else acc ++ [k]).
Proof.
  intros ND. destruct (existsb (String.eqb k) acc) eqn:E; [exact ND|].
  apply NoDup_app; [exact ND | repeat constructor; intros [] |].
  intros x Hx [Ek|[]]. subst x.
  assert (existsb (String.eqb k) acc = true) as C
      by (apply existsb_exists; exists k; split; [exact Hx | apply String.eqb_refl]).
  congruence.
Qed.

Lemma firstSeen_nodup ks : NoDup (firstSeen ks).
Proof.
  unfold firstSeen.
  assert (forall acc, NoDup acc ->
            NoDup (fold_left (fun acc k => if existsb (String.eqb k) acc then acc
                                           else acc ++ [k]) ks acc)) as G.
  { induction ks as [|k ks IH]; simpl; intros acc ND; [exact ND|].
    apply IH. apply firstSeen_step_nodup. exact ND. }
  apply G. constructor.
Qed.

Lemma keys_accumulateAll kvs : forall o,
  map fst (accumulateAll kvs o)
  = fold_left (fun acc k => if existsb (String.eqb k) acc then acc else acc ++ [k])
              (map fst kvs) (map fst o).
Proof.
  induction kvs as [|kv kvs IH]; simpl; intros o; [reflexivity|].
  unfold accumulateAll in *. simpl. rewrite IH. unfold plainAccumulate.
  rewrite keys_set. reflexivity.
Qed.

Lemma keys_accumulateAll_empty kvs :
  map fst (accumulateAll kvs JsObject.empty) = firstSeen (map fst kvs).
Proof. apply keys_accumulateAll. Qed.

Lemma sumList_total l : Forall isAmount l -> isTotal (sumList l).
Proof.
  unfold sumList.
  assert (forall acc, isTotal acc -> Forall isAmount l ->
            isTotal (fold_left (fun s a => (s + a)%float) l acc)) as G.
  { induction l as [|a l IH]; simpl; intros acc Ha F; [exact Ha|].
    inversion F; subst. apply IH; [apply add_total; assumption | assumption]. }
  intros F. apply G; [apply isTotal_zero | exact F].
Qed.

Lemma incrementsFor_app k kvs kv :
  incrementsFor k (kvs ++ [kv])
  = incrementsFor k kvs ++ (if String.eqb (fst kv) k then [snd kv] else []).
Proof.
  unfold incrementsFor. rewrite filter_app, map_app. simpl.
  destruct (String.eqb (fst kv) k); reflexivity.
Qed.

Lemma incrementsFor_amount k kvs :
  Forall (fun kv => isAmount (snd kv)) kvs -> Forall isAmount (incrementsFor k kvs).
Proof.
  unfold incrementsFor. induction kvs as [|kv kvs IH]; simpl; intros F; [constructor|].
  inversion F; subst. destruct (String.eqb (fst kv) k); simpl; auto.
Qed.

(** The value stored under a key is the running sum of its increments,
    in the order of the sequence. *)
Lemma get_accumulateAll kvs :
  Forall (fun kv => isAmount (snd kv)) kvs ->
  forall k,
    JsObject.get (accumulateAll kvs JsObject.empty) k
    = if existsb (fun kv => String.eqb (fst kv) k) kvs
      then Some (sumList (incrementsFor k kvs)) else None.
Proof.
  induction kvs as [|kv kvs IH] using rev_ind; intros F k; [reflexivity|].
  apply Forall_app in F as [F1 F2]. inversion F2 as [|? ? Fkv _]; subst.
  specialize (IH F1).
  unfold accumulateAll in *. rewrite fold_left_app. simpl.
  unfold plainAccumulate at 1. rewrite get_set.
  rewrite existsb_app, incrementsFor_app. simpl. rewrite orb_false_r.
  destruct (String.eqb_spec (fst kv) k) as [->|N].
  - rewrite orb_true_r. f_equal.
    unfold sumList at 1. rewrite fold_left_app. simpl. f_equal.
    rewrite IH.
    destruct (existsb _ kvs) eqn:Ex.
    + apply orZero_total. apply sumList_total. apply incrementsFor_amount. exact F1.
    + assert (incrementsFor k kvs = []) as ->; [|reflexivity].
      unfold incrementsFor.
      assert (filter (fun kv0 => String.eqb (fst kv0) k) kvs = []) as ->; [|reflexivity].
      clear -Ex. induction kvs as [|x l IH]; simpl in *; [reflexivity|].
      apply orb_false_iff in Ex as [-> Ex]. auto.
  - rewrite orb_false_r, app_nil_r. apply IH.
Qed.

Lemma fold_accumulate {T} (f : T -> string) (g : T -> num) (ts : list T) : forall o,
  fold_left (fun o t => plainAccumulate o (f t) (g t)) ts o
  = accumulateAll (map (fun t => (f t, g t)) ts) o.
Proof.
  unfold accumulateAll. induction ts as [|t ts IH]; simpl; intros o; [reflexivity|].
  apply IH.
Qed.

(** ** Accumulators on keys that are not inherited *)

Lemma plainKeys_cons k ks :
  plainKeys (k :: ks) = true
  <-> (JsObject.isPrototypeMethod k = false /\ JsObject.isProto k = false)
      /\ plainKeys ks = true.
Proof.
  unfold plainKeys; simpl. rewrite Bool.andb_true_iff, Bool.negb_true_iff,
    Bool.orb_false_iff. reflexivity.
Qed.

Lemma get_numbers (o : JsObject.t num) k :
  JsObject.get (numbers o) k = option_map Number (JsObject.get o k).
Proof.
  induction o as [|[k' v] o IH]; simpl; [reflexivity|].
  destruct (String.eqb k' k); [reflexivity | exact IH].
Qed.

Lemma set_numbers (o : JsObject.t num) k x :
  JsObject.set (numbers o) k (Number x) = numbers (JsObject.set o k x).
Proof.
  induction o as [|[k' v] o IH]; simpl; [reflexivity|].
  destruct (String.eqb k' k); simpl; [reflexivity | rewrite IH; reflexivity].
Qed.

(** On a key that is not inherited the accumulator holds a number, the
    one [plainAccumulate] computes. *)
Lemma accumulate_numbers (o : JsObject.t num) k v :
  JsObject.isPrototypeMethod k = false -> JsObject.isProto k = false ->
  accumulate (numbers o) k v = numbers (plainAccumulate o k v).
Proof.
  intros Hm Hp. unfold accumulate, assign, readSlot, plainAccumulate.
  rewrite Hp, get_numbers, Hm. simpl.
  destruct (JsObject.get o k) as [x|]; simpl; apply set_numbers.
Qed.

Lemma fold_accumulate_numbers {T} (f : T -> string) (g : T -> num) (ts : list T) :
  forall o, plainKeys (map f ts) = true ->
  fold_left (fun o t => accumulate o (f t) (g t)) ts (numbers o)
  = numbers (fold_left (fun o t => plainAccumulate o (f t) (g t)) ts o).
Proof.
  induction ts as [|t ts IH]; intros o H; simpl; [reflexivity|].
  simpl in H. apply plainKeys_cons in H as [[Hm Hp] H].
  rewrite accumulate_numbers by assumption. apply IH. exact H.
Qed.

Lemma insertIndex_numbers i (kv : string * num) l :
  JsObject.insertIndex i (fst kv, Number (snd kv))
    (map (fun e => (fst e, (fst (snd e), Number (snd (snd e))))) l)
  = map (fun e => (fst e, (fst (snd e), Number (snd (snd e)))))
        (JsObject.insertIndex i kv l).
Proof.
  induction l as [|[j kv'] l IH]; simpl; [reflexivity|].
  destruct (i <? j)%Z; simpl; [reflexivity | rewrite IH; reflexivity].
Qed.

Lemma indexed_numbers (o : JsObject.t num) :
  JsObject.indexed (numbers o)
  = map (fun e => (fst e, (fst (snd e), Number (snd (snd e))))) (JsObject.indexed o).
Proof.
  induction o as [|kv o IH]; simpl; [reflexivity|].
  destruct (JsObject.arrayIndex (fst kv)); rewrite IH;
    [apply insertIndex_numbers | reflexivity].
Qed.

Lemma entries_numbers (o : JsObject.t num) :
  JsObject.entries (numbers o) = numbers (JsObject.entries o).
Proof.
  unfold JsObject.entries, numbers. rewrite map_app. f_equal.
  - rewrite indexed_numbers, !map_map. reflexivity.
  - unfold JsObject.named. induction o as [|kv o IH]; simpl; [reflexivity|].
    destruct (JsObject.arrayIndex (fst kv)); simpl; [exact IH | rewrite IH; reflexivity].
Qed.

Lemma grandTotal_numbers (o : JsObject.t num) :
  grandTotal (numbers o) = Number (plainGrandTotal o).
Proof.
  unfold grandTotal, plainGrandTotal, JsObject.values.
  rewrite entries_numbers. generalize (JsObject.entries o) as l.
  generalize 0%float as acc. intros acc l. revert acc.
  induction l as [|kv l IH]; intros acc; simpl; [reflexivity | apply IH].
Qed.

Lemma categoryTotals_plain ts :
  plainKeys (map category ts) = true ->
  categoryTotals ts = numbers (plainCategoryTotals ts).
Proof. intros H. exact (fold_accumulate_numbers category amount ts [] H). Qed.

Lemma categoryTransactionCounts_plain ts :
  plainKeys (map category ts) = true ->
  categoryTransactionCounts ts = numbers (plainCategoryCounts ts).
Proof.
  intros H. exact (fold_accumulate_numbers category (fun _ => 1%float) ts [] H).
Qed.

Lemma mapResult_returned {A B : Type} (f : A -> Result B) (g : A -> B) (l : list A) :
  (forall x, In x l -> f x = Returned (g x)) -> mapResult f l = Returned (map g l).
Proof.
  induction l as [|x l IH]; intros H; simpl; [reflexivity|].
  rewrite (H x (or_introl eq_refl)). simpl.
  rewrite IH by (intros y Hy; apply H; now right). reflexivity.
Qed.

(** Without inherited names the breakdown throws nothing and is the
    breakdown computed on numbers. *)
Lemma categoryEntries_plain ts :
  plainKeys (map category ts) = true ->
  categoryEntries ts = Returned (plainCategoryEntries ts).
Proof.
  intros H. unfold categoryEntries, plainCategoryEntries.
  rewrite (categoryTotals_plain ts H), (categoryTransactionCounts_plain ts H),
    grandTotal_numbers, entries_numbers.
  set (counts := plainCategoryCounts ts).
  set (T := plainGrandTotal (plainCategoryTotals ts)).
  generalize (JsObject.entries (plainCategoryTotals ts)) as es.
  induction es as [|[c a] es IH]; [reflexivity|].
  change (numbers ((c, a) :: es)) with ((c, Number a) :: numbers es).
  cbn [mapResult map]. rewrite IH.
  unfold categoryEntry, plainCategoryEntry, readSlot. rewrite get_numbers.
  destruct (JsObject.get counts c) as [n|] eqn:E; simpl; [reflexivity|].
  destruct (JsObject.isPrototypeMethod c || JsObject.isProto c)%bool; reflexivity.
Qed.

Lemma analyzeCategoricalSpending_plain ts :
  plainKeys (map category ts) = true ->
  analyzeCategoricalSpending ts = Returned (plainCategories ts).
Proof.
  intros H. unfold analyzeCategoricalSpending. rewrite (categoryEntries_plain ts H).
  reflexivity.
Qed.

Lemma sortedDays_plain dateValue ts :
  plainKeys (map date ts) = true ->
  sortedDays dateValue ts = Returned (plainSortedDays dateValue ts).
Proof.
  intros H. unfold sortedDays, plainSortedDays.
  assert (dailyTotals ts = numbers (plainDailyTotals ts)) as ->
      by exact (fold_accumulate_numbers date amount ts [] H).
  rewrite entries_numbers.
  set (es := JsObject.entries _).
  assert (mapResult dayEntry (numbers es)
          = Returned (map (fun kv => mkDayEntry (Some (fst kv)) (toFixedNum (snd kv) 2)) es))
    as ->.
  { clearbody es. induction es as [|[d a] es IH]; simpl; [reflexivity|].
    rewrite IH. reflexivity. }
  reflexivity.
Qed.

Lemma analyzeSpendingTimeline_plain dateValue ts :
  plainKeys (map date ts) = true ->
  analyzeSpendingTimeline dateValue ts = Returned (plainTimeline dateValue ts).
Proof.
  intros H. unfold analyzeSpendingTimeline. rewrite (sortedDays_plain dateValue ts H).
  reflexivity.
Qed.

(** ** The highest and the lowest day *)

Lemma ltb_irrefl x : (x <? x)%float = false.
Proof.
  destruct (x <? x)%float eqn:E; [|reflexivity].
  pose proof (FloatOrder.ltb_leb _ _ E) as H1.
  pose proof (FloatOrder.ltb_leb_false _ _ E) as H2. congruence.
Qed.

Lemma ltb_trans x y z :
  (x <? y)%float = true -> (y <? z)%float = true -> (x <? z)%float = true.
Proof.
  intros H1 H2. apply FloatOrder.ltb_leb in H1.
  exact (FloatOrder.leb_ltb_trans _ _ _ H1 H2).
Qed.

Lemma fold_pickHigher l : forall l1 acc l2,
  Forall amountOk (l1 ++ acc :: l2 ++ l) ->
  Forall (fun d => (dAmount d <? dAmount acc)%float = true) l1 ->
  Forall (fun d => (dAmount d <=? dAmount acc)%float = true) l2 ->
  firstMax (l1 ++ acc :: l2 ++ l) (fold_left pickHigher l acc).
Proof.
  induction l as [|x l IH]; intros l1 acc l2 Ok H1 H2.
  - simpl. rewrite app_nil_r. exists l1, l2. auto.
  - simpl fold_left. unfold pickHigher at 2.
    assert (amountOk acc /\ amountOk x) as [Oa Ox].
    { rewrite Forall_forall in Ok. split; apply Ok; rewrite in_app_iff; right.
      - left; reflexivity.
      - right. rewrite in_app_iff. right. left. reflexivity. }
    destruct (dAmount acc <? dAmount x)%float eqn:C.
    + replace (l1 ++ acc :: l2 ++ x :: l) with ((l1 ++ acc :: l2) ++ x :: [] ++ l)
        by (rewrite <- app_assoc; reflexivity).
      apply IH.
      * rewrite <- app_assoc. exact Ok.
      * apply Forall_app. split; [|constructor].
        -- eapply Forall_impl; [|exact H1]. intros d Hd. simpl in Hd.
           exact (ltb_trans _ _ _ Hd C).
        -- exact C.
        -- eapply Forall_impl; [|exact H2]. intros d Hd. simpl in Hd.
           exact (FloatOrder.leb_ltb_trans _ _ _ Hd C).
      * constructor.
    + replace (l1 ++ acc :: l2 ++ x :: l) with (l1 ++ acc :: (l2 ++ [x]) ++ l)
        by (rewrite <- app_assoc; reflexivity).
      apply IH.
      * rewrite <- app_assoc. exact Ok.
      * exact H1.
      * apply Forall_app. split; [exact H2|]. constructor; [|constructor].
        apply FloatOrder.ltb_false_leb; assumption.
Qed.

Lemma fold_pickLower l : forall l1 acc l2,
  Forall amountOk (l1 ++ acc :: l2 ++ l) ->
  Forall (fun d => (dAmount acc <? dAmount d)%float = true) l1 ->
  Forall (fun d => (dAmount acc <=? dAmount d)%float = true) l2 ->
  firstMin (l1 ++ acc :: l2 ++ l) (fold_left pickLower l acc).
Proof.
  induction l as [|x l IH]; intros l1 acc l2 Ok H1 H2.
  - simpl. rewrite app_nil_r. exists l1, l2. auto.
  - simpl fold_left. unfold pickLower at 2.
    assert (amountOk acc /\ amountOk x) as [Oa Ox].
    { rewrite Forall_forall in Ok. split; apply Ok; rewrite in_app_iff; right.
      - left; reflexivity.
      - right. rewrite in_app_iff. right. left. reflexivity. }
    destruct (dAmount x <? dAmount acc)%float eqn:C.
    + replace (l1 ++ acc :: l2 ++ x :: l) with ((l1 ++ acc :: l2) ++ x :: [] ++ l)
        by (rewrite <- app_assoc; reflexivity).
      apply IH.
      * rewrite <- app_assoc. exact Ok.
      * apply Forall_app. split; [|constructor].
        -- eapply Forall_impl; [|exact H1]. intros d Hd. simpl in Hd.
           exact (ltb_trans _ _ _ C Hd).
        -- exact C.
        -- eapply Forall_impl; [|exact H2]. intros d Hd. simpl in Hd.
           exact (FloatOrder.ltb_leb_trans _ _ _ C Hd).
      * constructor.
    + replace (l1 ++ acc :: l2 ++ x :: l) with (l1 ++ acc :: (l2 ++ [x]) ++ l)
        by (rewrite <- app_assoc; reflexivity).
      apply IH.
      * rewrite <- app_assoc. exact Ok.
      * exact H1.
      * apply Forall_app. split; [exact H2|]. constructor; [|constructor].
        apply FloatOrder.ltb_false_leb; assumption.
Qed.

Lemma highest_is_firstMax d days :
  Forall amountOk (d :: days) ->
  firstMax (d :: days) (fold_left pickHigher (d :: days) d).
Proof.
  intros Ok. simpl fold_left. unfold pickHigher at 2. rewrite ltb_irrefl.
  apply (fold_pickHigher days [] d []); [exact Ok | constructor | constructor].
Qed.

Lemma lowest_is_firstMin d days :
  Forall amountOk (d :: days) ->
  firstMin (d :: days) (fold_left pickLower (d :: days) d).
Proof.
  intros Ok. simpl fold_left. unfold pickLower at 2. rewrite ltb_irrefl.
  apply (fold_pickLower days [] d []); [exact Ok | constructor | constructor].
Qed.

(** ** Timeline reduction *)

Lemma amounts_isAmount (ts : list Transaction) (f : Transaction -> string) :
  forallb (fun t => (0 <=? amount t)%float) ts = true ->
  Forall (fun kv : string * num => isAmount (snd kv))
         (map (fun t => (f t, amount t)) ts).
Proof.
  rewrite forallb_forall, Forall_forall. intros H kv Hin.
  apply in_map_iff in Hin as (t & <- & Ht). simpl.
  apply isAmount_leb. apply H. exact Ht.
Qed.

Lemma incrementsFor_map (f : Transaction -> string) k ts :
  incrementsFor k (map (fun t => (f t, amount t)) ts)
  = map amount (filter (fun t => String.eqb (f t) k) ts).
Proof.
  unfold incrementsFor. induction ts as [|t ts IH]; simpl; [reflexivity|].
  destruct (String.eqb (f t) k); simpl; rewrite IH; reflexivity.
Qed.

(** What is known of an own property of an object filled from the
    transactions: its key occurs, and its value is the sum of the
    amounts under that key. *)
Lemma accumulated_property (f : Transaction -> string) ts k v :
  forallb (fun t => (0 <=? amount t)%float) ts = true ->
  In (k, v) (fold_left (fun o t => plainAccumulate o (f t) (amount t)) ts JsObject.empty) ->
  v = sumList (map amount (filter (fun t => String.eqb (f t) k) ts))
  /\ isTotal v
  /\ exists t, In t ts /\ f t = k.
Proof.
  intros Hpos Hin. rewrite fold_accumulate in Hin.
  pose proof (amounts_isAmount ts f Hpos) as F.
  assert (NoDup (map fst (accumulateAll (map (fun t => (f t, amount t)) ts)
                                        JsObject.empty))) as ND
      by (rewrite keys_accumulateAll_empty; apply firstSeen_nodup).
  pose proof (In_get _ _ _ ND Hin) as G.
  rewrite (get_accumulateAll _ F) in G.
  destruct (existsb _ _) eqn:Ex; [|discriminate].
  injection G as <-. rewrite incrementsFor_map. split; [reflexivity|]. split.
  - rewrite <- incrementsFor_map. apply sumList_total.
    apply incrementsFor_amount. exact F.
  - apply existsb_exists in Ex as (kv & Hkv & Ek).
    apply in_map_iff in Hkv as (t & <- & Ht). simpl in Ek.
    apply String.eqb_eq in Ek. eauto.
Qed.

Section TimelineFacts.

Variable dateValue : string -> num.

Lemma sortedDays_perm ts :
  Permutation (plainSortedDays dateValue ts) (map dayOfEntry (plainDailyTotals ts)).
Proof.
  unfold plainSortedDays. rewrite sort_perm. apply Permutation_map. apply entries_perm.
Qed.

Lemma byDate_after x y :
  goesAfter (byDate dateValue) x y
  = (dayValue dateValue y <? dayValue dateValue x)%float.
Proof. unfold goesAfter, byDate. apply sub_pos_iff. Qed.

(** C5, as stated, fails: a date that [new Date] cannot parse compares
    as equal to every other date, and the days 2024-01-03, bad, 2024-01-01
    are left in that order, the third of January before the first; and a
    date named like a method of [Object.prototype] leaves no timeline at
    all, the call throwing a [TypeError]. *)
Lemma timeline_of_unparseable_date :
  analyzeSpendingTimeline isoDateValue unparseableDays
  = Returned (mkTimeline [mkDayEntry (Some "2024-01-03") 30%float;
                          mkDayEntry (Some "bad") 20%float;
                          mkDayEntry (Some "2024-01-01") 10%float]
                         (mkDayEntry (Some "2024-01-03") 30%float)
                         (mkDayEntry (Some "2024-01-01") 10%float))
  /\ (isoDateValue "2024-01-01" <? isoDateValue "2024-01-03")%float = true
  /\ is_nan (isoDateValue "bad") = true
  /\ analyzeSpendingTimeline isoDateValue [mkTransaction "toString" "Food" 10%float]
     = TypeErrorThrown.
Proof. vm_compute. repeat split; reflexivity. Qed.

(** C5, amended: for non-negative amounts and dates that [new Date]
    parses, none of them the name of a member of [Object.prototype], the
    timeline holds one entry per distinct date, carrying the sum of that
    date's amounts (rounded to 2 decimals); the entries are in ascending
    order of date value; the highest (lowest) spending day is the first
    entry, in that order, of largest (smallest) amount; and the dates
    2024-01-02: 40, 2024-01-01: 10, 2024-01-02: 5 give the days
    2024-01-01: 10 and 2024-01-02: 45, the highest 2024-01-02 and the
    lowest 2024-01-01. *)
Theorem timeline_reduction (ts : list Transaction) :
  forallb (fun t => (0 <=? amount t)%float) ts = true ->
  forallb (fun t => negb (is_nan (dateValue (date t)))) ts = true ->
  plainKeys (map date ts) = true ->
  (exists tl,
     analyzeSpendingTimeline dateValue ts = Returned tl
     /\ let days := dailySpending tl in
        Permutation (map dDate days) (map Some (firstSeen (map date ts)))
        /\ Forall (fun d => exists s, dDate d = Some s
                      /\ dAmount d = toFixedNum (sumList (amountsOn s ts)) 2) days
        /\ StronglySorted
             (fun a b => (dayValue dateValue a <=? dayValue dateValue b)%float = true)
             days
        /\ match days with
           | [] => highestSpendingDay tl = sentinelDay
                   /\ lowestSpendingDay tl = sentinelDay
           | _ => firstMax days (highestSpendingDay tl)
                  /\ firstMin days (lowestSpendingDay tl)
           end)
  /\ analyzeSpendingTimeline isoDateValue exampleDays
     = Returned (mkTimeline [mkDayEntry (Some "2024-01-01") 10%float;
                             mkDayEntry (Some "2024-01-02") 45%float]
                            (mkDayEntry (Some "2024-01-02") 45%float)
                            (mkDayEntry (Some "2024-01-01") 10%float)).
Proof.
  intros Hpos Hdates Hplain. split; [|vm_compute; reflexivity].
  exists (plainTimeline dateValue ts).
  split; [apply analyzeSpendingTimeline_plain; exact Hplain|]. cbv zeta.
  change (dailySpending (plainTimeline dateValue ts))
    with (plainSortedDays dateValue ts).
  change (highestSpendingDay (plainTimeline dateValue ts))
    with (fold_left pickHigher (plainSortedDays dateValue ts)
                    (hd sentinelDay (plainSortedDays dateValue ts))).
  change (lowestSpendingDay (plainTimeline dateValue ts))
    with (fold_left pickLower (plainSortedDays dateValue ts)
                    (hd sentinelDay (plainSortedDays dateValue ts))).
  pose proof (sortedDays_perm ts) as Perm.
  set (days := plainSortedDays dateValue ts) in *.
  assert (Forall (fun d => exists k v, d = dayOfEntry (k, v)
                    /\ In (k, v) (plainDailyTotals ts)) days) as Hdays.
  { apply (Forall_perm _ (map dayOfEntry (plainDailyTotals ts)));
      [symmetry; exact Perm|].
    rewrite Forall_forall. intros d Hd.
    apply in_map_iff in Hd as ([k v] & <- & Hkv). eauto. }
  assert (Forall (fun d => exists s, dDate d = Some s
                /\ dAmount d = toFixedNum (sumList (amountsOn s ts)) 2
                /\ amountOk d
                /\ notNaN (dayValue dateValue d)) days) as Hall.
  { eapply Forall_impl; [|exact Hdays]. intros d (k & v & -> & Hkv).
    destruct (accumulated_property date ts k v Hpos Hkv) as (Ev & Tv & t & Ht & Ek).
    exists k. split; [reflexivity|]. split; [simpl; rewrite Ev; reflexivity|]. split.
    - unfold amountOk. simpl. apply isTotal_notNaN.
      apply toFixedNum_total; [lia | exact Tv].
    - unfold dayValue. simpl. rewrite forallb_forall in Hdates.
      specialize (Hdates t Ht). rewrite Ek in Hdates.
      apply FloatOrder.is_nan_false. apply negb_true_iff. exact Hdates. }
  split.
  { rewrite Perm. rewrite map_map. simpl.
    unfold plainDailyTotals. rewrite fold_accumulate.
    rewrite <- (map_map fst Some), keys_accumulateAll_empty, map_map. reflexivity. }
  split.
  { eapply Forall_impl; [|exact Hall]. intros d (s & E1 & E2 & _). eauto. }
  split.
  { unfold days, plainSortedDays.
    apply (sort_sorted (byDate dateValue)
             (fun d => notNaN (dayValue dateValue d))).
    - intros x y Px Py H. rewrite byDate_after in H. apply FloatOrder.ltb_leb. exact H.
    - intros x y Px Py H. rewrite byDate_after in H.
      apply FloatOrder.ltb_false_leb; assumption.
    - intros x y z _ _ _. apply FloatOrder.leb_trans.
    - apply (Forall_perm _ days).
      + unfold days, plainSortedDays. apply sort_perm.
      + eapply Forall_impl; [|exact Hall]. intros d (s & _ & _ & _ & N). exact N. }
  assert (Forall amountOk days) as Ok
      by (eapply Forall_impl; [|exact Hall]; intros d (s & _ & _ & N & _); exact N).
  clearbody days.
  destruct days as [|d rest]; [split; reflexivity|].
  split; [apply highest_is_firstMax | apply lowest_is_firstMin]; exact Ok.
Qed.

End TimelineFacts.

(** ** Category ranking *)

(** C4, as stated, fails: "Food" is seen before "7" and both sum to 10,
    yet "7", an array index, is ranked first; and a category named like a
    method of [Object.prototype] leaves no breakdown at all, the call
    throwing a [TypeError]. *)
Lemma ranking_by_first_seen_fails :
  analyzeCategoricalSpending rankingExample
  = Returned [mkCategoryEntry "7" 10 50 1 10; mkCategoryEntry "Food" 10 50 1 10]%float
  /\ firstSeen (map category rankingExample) = ["Food"; "7"]
  /\ analyzeCategoricalSpending [mkTransaction "2024-01-01" "toString" 10%float]
     = TypeErrorThrown.
Proof. vm_compute. repeat split; reflexivity. Qed.

Lemma categoryEntry_name counts totalSpent kv :
  cName (plainCategoryEntry counts totalSpent kv) = fst kv.
Proof. destruct kv; reflexivity. Qed.

Lemma categoryEntry_amount counts totalSpent kv :
  cAmount (plainCategoryEntry counts totalSpent kv) = toFixedNum (snd kv) 2.
Proof. destruct kv; reflexivity. Qed.

Lemma byAmountDesc_after x y :
  goesAfter byAmountDesc x y = (cAmount x <? cAmount y)%float.
Proof. unfold goesAfter, byAmountDesc. apply sub_pos_iff. Qed.

Lemma filter_map_fst {V} (f : string -> bool) (o : list (string * V)) :
  map fst (filter (fun kv => f (fst kv)) o) = filter f (map fst o).
Proof.
  induction o as [|kv o IH]; simpl; [reflexivity|].
  destruct (f (fst kv)); simpl; rewrite IH; reflexivity.
Qed.

Lemma indexed_names_sorted {V} (l : list (Z * (string * V))) :
  Forall (fun ikv => JsObject.arrayIndex (fst (snd ikv)) = Some (fst ikv)) l ->
  StronglySorted Z.le (map fst l) ->
  StronglySorted (fun a b => (indexOf a <= indexOf b)%Z) (map fst (map snd l)).
Proof.
  induction l as [|[i [k v]] l IH]; simpl; intros F S; [constructor|].
  inversion F as [|? ? Fi F']; subst. inversion S as [|? ? S' Hi]; subst.
  simpl in Fi. constructor; [apply IH; assumption|].
  rewrite Forall_forall in *. intros k' Hk'.
  apply in_map_iff in Hk' as ([k2 v2] & <- & H2).
  apply in_map_iff in H2 as ([j kv2] & E2 & H2). simpl in E2. subst kv2.
  specialize (F' _ H2). simpl in F'.
  unfold indexOf. simpl. rewrite Fi, F'.
  apply Hi. apply in_map_iff. exists (j, (k2, v2)). split; [reflexivity | exact H2].
Qed.

Lemma filter_all {B} (f : B -> bool) (l : list B) :
  forallb f l = true -> filter f l = l.
Proof.
  induction l as [|x l IH]; simpl; [reflexivity|].
  intros H. apply andb_prop in H as [-> H]. rewrite IH by exact H. reflexivity.
Qed.

Lemma filter_none {B} (f : B -> bool) (l : list B) :
  forallb (fun x => negb (f x)) l = true -> filter f l = [].
Proof.
  induction l as [|x l IH]; simpl; [reflexivity|].
  intros H. apply andb_prop in H as [H1 H]. apply negb_true_iff in H1.
  rewrite H1. apply IH. exact H.
Qed.

(** C4, amended: the breakdown is sorted by (rounded) summed amount,
    descending; categories of the same amount keep the order in which the
    totals object enumerates them: the categories that are array indices
    first, in ascending numeric order, then the other categories in
    first-seen order (all of them in first-seen order when none is an array
    index).  Amounts are non-negative and no category is the name of a
    member of [Object.prototype]; [e] is the array of the categories
    before it is sorted. *)
Theorem category_ranking (ts : list Transaction) :
  forallb (fun t => (0 <=? amount t)%float) ts = true ->
  plainKeys (map category ts) = true ->
  exists r e,
    analyzeCategoricalSpending ts = Returned r
    /\ categoryEntries ts = Returned e
    /\ let seen := firstSeen (map category ts) in
       StronglySorted (fun a b => (cAmount b <=? cAmount a)%float = true) r
       /\ Permutation r e
       /\ Forall (fun c => cAmount c
                           = toFixedNum (sumList (amountsIn (cName c) ts)) 2) r
       /\ (forall v, filter (amountTie v) r = filter (amountTie v) e)
       /\ (exists idx,
             map cName e = idx ++ filter (fun k => negb (isIndexKey k)) seen
             /\ Permutation idx (filter isIndexKey seen)
             /\ StronglySorted (fun a b => (indexOf a <= indexOf b)%Z) idx)
       /\ (forallb (fun k => negb (isIndexKey k)) seen = true
           -> map cName e = seen).
Proof.
  intros Hpos Hplain.
  exists (plainCategories ts), (plainCategoryEntries ts).
  split; [apply analyzeCategoricalSpending_plain; exact Hplain|].
  split; [apply categoryEntries_plain; exact Hplain|].
  set (r := plainCategories ts). set (e := plainCategoryEntries ts). intros seen.
  assert (Permutation r e) as Perm by apply sort_perm.
  set (totals := plainCategoryTotals ts).
  assert (map fst totals = seen) as Keys.
  { unfold totals, plainCategoryTotals. rewrite fold_accumulate, keys_accumulateAll_empty.
    rewrite map_map. reflexivity. }
  assert (Forall (fun c => cAmount c = toFixedNum (sumList (amountsIn (cName c) ts)) 2
                           /\ notNaN (cAmount c)) e) as He.
  { unfold e, plainCategoryEntries. fold totals.
    rewrite Forall_forall. intros c Hc.
    apply in_map_iff in Hc as ([k v] & <- & Hkv).
    apply (Permutation_in _ (entries_perm totals)) in Hkv.
    destruct (accumulated_property category ts k v Hpos Hkv) as (Ev & Tv & _).
    rewrite categoryEntry_name, categoryEntry_amount. simpl.
    split; [rewrite Ev; reflexivity|].
    apply isTotal_notNaN. apply toFixedNum_total; [lia | exact Tv]. }
  assert (map cName e = map fst (JsObject.entries totals)) as Names.
  { unfold e, plainCategoryEntries. fold totals. rewrite map_map.
    apply map_ext. intros kv. apply categoryEntry_name. }
  split.
  { apply (sort_sorted byAmountDesc (fun c => notNaN (cAmount c))).
    - intros x y _ _ H. rewrite byAmountDesc_after in H. apply FloatOrder.ltb_leb. exact H.
    - intros x y Px Py H. rewrite byAmountDesc_after in H.
      apply FloatOrder.ltb_false_leb; assumption.
    - intros x y z _ _ _ H1 H2. exact (FloatOrder.leb_trans _ _ _ H2 H1).
    - eapply Forall_impl; [|exact He]. intros c [_ N]. exact N. }
  split; [exact Perm|]. split.
  { apply (Forall_perm _ e); [symmetry; exact Perm|].
    eapply Forall_impl; [|exact He]. intros c [E _]. exact E. }
  split.
  { intros v. apply sort_filter. intros x y Tx Ty.
    apply FloatAxioms.Leibniz.eqb_spec in Tx, Ty.
    rewrite byAmountDesc_after, Tx, Ty. apply ltb_irrefl. }
  assert (map fst (JsObject.named totals)
          = filter (fun k => negb (isIndexKey k)) seen) as Named.
  { rewrite named_filter, <- Keys.
    apply (filter_map_fst (fun k => negb (isIndexKey k))). }
  split.
  - exists (map fst (map snd (JsObject.indexed totals))). split; [|split].
    + rewrite Names. unfold JsObject.entries. rewrite map_app, Named. reflexivity.
    + rewrite <- Keys, <- (filter_map_fst isIndexKey).
      apply Permutation_map. apply indexed_perm.
    + apply indexed_names_sorted; [apply indexed_index | apply indexed_sorted].
  - intros Hn. rewrite Names.
    rewrite entries_no_index; [exact Keys|].
    rewrite <- Keys in Hn. clear -Hn.
    induction totals as [|kv o IH]; simpl in *; [reflexivity|].
    apply andb_prop in Hn as [-> Hn]. simpl. apply IH. exact Hn.
Qed.

(** ** Exact values: powers of two *)

Ltac push_inject :=
  repeat (rewrite inject_Z_plus || rewrite inject_Z_mult || rewrite inject_Z_opp).

Lemma two_pow_pos (e : Z) : (0 < 2 ^ e)%Q.
Proof. apply Qpower_0_lt. reflexivity. Qed.

Lemma two_pow_Z (k : Z) : (0 <= k)%Z -> (2 ^ k == inject_Z (2 ^ k))%Q.
Proof. intros H. rewrite (Zpower_Qpower 2 k H). reflexivity. Qed.

Lemma two_pow_add (a b : Z) : (2 ^ (a + b) == 2 ^ a * 2 ^ b)%Q.
Proof. apply Qpower_plus. discriminate. Qed.

Lemma two_pow_neg (k : Z) : (0 <= k)%Z -> (2 ^ (- k) * inject_Z (2 ^ k) == 1)%Q.
Proof.
  intros H. rewrite Qpower_opp, <- two_pow_Z by exact H.
  rewrite Qmult_comm. apply Qmult_inv_r.
  pose proof (two_pow_pos k). lra.
Qed.

Lemma two_pow_le (a b : Z) : (a <= b)%Z -> (2 ^ a <= 2 ^ b)%Q.
Proof. intros H. apply Qpower_le_compat_l; [exact H | discriminate]. Qed.

(** ** The rounding of [toFixed] *)

(** The magnitude of a finite number. *)
Lemma magnitude_finite (s : bool) (m : positive) (e : Z) :
  (Qabs (SF2Q (S754_finite s m e)) == inject_Z (Zpos m) * 2 ^ e)%Q.
Proof.
  cbn [SF2Q]. rewrite Qabs_Qmult.
  rewrite (Qabs_pos (2 ^ e)) by (apply Qpower_pos; discriminate).
  destruct s; reflexivity.
Qed.

(** [toFixed(d)] prints the multiple of [10^-d] nearest to the value of
    the double, the larger one on a tie. *)
Lemma scaledRound_spec (m : positive) (e d : Z) :
  (0 <= d)%Z ->
  (inject_Z (scaledRound m e d) - (1 # 2)
     <= inject_Z (10 ^ d) * (inject_Z (Zpos m) * 2 ^ e)
     < inject_Z (scaledRound m e d) + (1 # 2))%Q.
Proof.
  intros Hd. unfold scaledRound.
  assert (0 < 10 ^ d)%Z as P10 by (apply Z.pow_pos_nonneg; lia).
  destruct (Z.leb_spec 0 e) as [He|He].
  - rewrite (two_pow_Z e He), <- !inject_Z_mult.
    replace (10 ^ d * (Zpos m * 2 ^ e))%Z with (Zpos m * 10 ^ d * 2 ^ e)%Z by ring.
    set (n := inject_Z _). split; lra.
  - set (K := (2 ^ (- e))%Z). set (p := (Zpos m * 10 ^ d)%Z).
    assert (0 < K)%Z as PK by (apply Z.pow_pos_nonneg; lia).
    pose proof (Z.mul_div_le (2 * p + K) (2 * K) ltac:(lia)) as L.
    pose proof (Z.mul_succ_div_gt (2 * p + K) (2 * K) ltac:(lia)) as U.
    set (n := ((2 * p + K) / (2 * K))%Z) in *.
    pose proof (two_pow_neg (- e) ltac:(lia)) as Inv.
    rewrite Z.opp_involutive in Inv. fold K in Inv.
    set (x := (2 ^ e)%Q) in *.
    assert (inject_Z (10 ^ d) * (inject_Z (Zpos m) * x) == inject_Z p * x)%Q as ->
        by (unfold p; rewrite inject_Z_mult; ring).
    assert (0 < inject_Z K)%Q as PK' by (change 0%Q with (inject_Z 0); rewrite <- Zlt_Qlt; exact PK).
    assert (inject_Z (2 * K * n) <= inject_Z (2 * p + K))%Q as L' by (rewrite <- Zle_Qle; exact L).
    assert (inject_Z (2 * p + K) < inject_Z (2 * K * Z.succ n))%Q as U' by (rewrite <- Zlt_Qlt; exact U).
    unfold Z.succ in U'.
    repeat (rewrite inject_Z_plus in L' || rewrite inject_Z_mult in L').
    repeat (rewrite inject_Z_plus in U' || rewrite inject_Z_mult in U').
    change (inject_Z 2) with 2%Q in *. change (inject_Z 1) with 1%Q in *.
    set (N := inject_Z n) in *. set (P := inject_Z p) in *. set (k := inject_Z K) in *.
    assert (0 < x)%Q as Px by apply two_pow_pos.
    assert (P * x * k == P)%Q as E1 by (rewrite <- Qmult_assoc, Inv; ring).
    split.
    + apply Qnot_lt_le. intros C.
      assert (P * x * k < (N - (1 # 2)) * k)%Q by (apply Qmult_lt_compat_r; assumption).
      lra.
    + apply Qnot_le_lt. intros C.
      assert ((N + (1 # 2)) * k <= P * x * k)%Q by (apply Qmult_le_compat_r; lra).
      lra.
Qed.

(** ** The total *)

(** C1, as stated, fails: 0.005 + 0.01 evaluates to the double below
    0.015, which [toFixed(2)] prints as 0.01, while the exact sum of the
    two amounts lies above 0.015 and rounds to 0.02, half up or half to
    even. *)
Lemma total_of_exact_sum_fails :
  let ts := [tx 0.005; tx 0.01]%float in
  total (calculateSpendingMetrics ts) = 0.01%float
  /\ specTotal roundHalfUpCents ts = 0.02%float
  /\ specTotal roundHalfEvenCents ts = 0.02%float
  /\ (total (calculateSpendingMetrics ts) =? specTotal roundHalfUpCents ts)%float = false.
Proof. vm_compute. repeat split; reflexivity. Qed.

(** C1, amended: the total is the sum of the amounts as accumulated left
    to right in binary64 arithmetic, rounded once at the end to 2
    decimals.  For a sum of either sign whose magnitude is below 10^21
    the rounding works on the magnitude and keeps the sign: the number of
    cents is the one nearest to the magnitude of that double, the larger
    on a tie, so that a negative tie goes away from zero and [-0.125]
    totals [-0.13].  A sum of magnitude 10^21 or more, an infinite one
    and NaN are reported as they are, a zero sum as 0.  It is not the sum
    of the rounded amounts: three amounts of 0.004 total 0.01. *)
Theorem total_rounds_running_sum (ts : list Transaction) :
  total (calculateSpendingMetrics ts) = toFixedNum (sumAmounts ts) 2
  /\ (forall s m e,
        Prim2SF (sumAmounts ts) = S754_finite s m e ->
        atLeast1e21 m e = false ->
        exists cents,
          total (calculateSpendingMetrics ts) = parseDecimal s cents 2
          /\ (inject_Z cents - (1 # 2)
                <= 100 * Qabs (exactValue (sumAmounts ts))
                < inject_Z cents + (1 # 2))%Q)
  /\ (forall s m e,
        Prim2SF (sumAmounts ts) = S754_finite s m e ->
        atLeast1e21 m e = true ->
        total (calculateSpendingMetrics ts) = sumAmounts ts)
  /\ (forall s,
        Prim2SF (sumAmounts ts) = S754_zero s ->
        total (calculateSpendingMetrics ts) = 0%float)
  /\ (Prim2SF (sumAmounts ts) = S754_nan
      \/ (exists s, Prim2SF (sumAmounts ts) = S754_infinity s) ->
      total (calculateSpendingMetrics ts) = sumAmounts ts)
  /\ total (calculateSpendingMetrics [tx (-0.125)]%float) = (-0.13)%float
  /\ total (calculateSpendingMetrics [tx 0.004; tx 0.004; tx 0.004]%float) = 0.01%float
  /\ map (fun t => toFixedNum (amount t) 2) [tx 0.004; tx 0.004; tx 0.004]%float
     = [0; 0; 0]%float.
Proof.
  assert (total (calculateSpendingMetrics ts) = toFixedNum (sumAmounts ts) 2) as E
      by (destruct ts; reflexivity).
  split; [exact E|].
  split; [|split; [|split; [|split; [|repeat split; vm_compute; reflexivity]]]].
  - intros s m e Hs Hlt. exists (scaledRound m e 2). split.
    + rewrite E. unfold toFixedNum. rewrite Hs, Hlt. reflexivity.
    + unfold exactValue. rewrite Hs, magnitude_finite.
      exact (scaledRound_spec m e 2 ltac:(lia)).
  - intros s m e Hs Hge. rewrite E. unfold toFixedNum. rewrite Hs, Hge. reflexivity.
  - intros s Hs. rewrite E. unfold toFixedNum. rewrite Hs. reflexivity.
  - intros [Hs|[s Hs]]; rewrite E; unfold toFixedNum; rewrite Hs; reflexivity.
Qed.

(** ** The validator *)

Lemma getProp_field v k : isNullish v = false -> getProp v k = Some (field v k).
Proof. unfold field. destruct v; simpl; intros H; try discriminate; reflexivity. Qed.

Lemma toBoolean_not_nullish v : toBoolean v = true -> isNullish v = false.
Proof. destruct v; simpl; congruence. Qed.

Lemma checkTransaction_cases index tIndex t :
  (transactionOk t = true /\ checkTransaction index tIndex t = Passed)
  \/ (transactionOk t = false /\ isNullish t = true
      /\ checkTransaction index tIndex t = TypeError)
  \/ (transactionOk t = false /\ isNullish t = false
      /\ checkTransaction index tIndex t
         = Failed (transactionFieldsMessage index tIndex)).
Proof.
  unfold transactionOk, checkTransaction.
  destruct (isNullish t) eqn:N.
  - right; left. destruct t; try discriminate; auto.
  - rewrite !(getProp_field t _ N). simpl negb at 1. rewrite andb_true_l.
    destruct (toBoolean (field t "date")), (toBoolean (field t "category")),
      (isUndefined (field t "amount")); simpl; auto.
Qed.

Lemma checkTransaction_passed index tIndex t :
  checkTransaction index tIndex t = Passed <-> transactionOk t = true.
Proof.
  destruct (checkTransaction_cases index tIndex t)
    as [[-> ->]|[(-> & _ & ->)|(-> & _ & ->)]]; split; congruence.
Qed.

Section ForEach.

Variable body : nat -> JsValue -> Outcome.
Variable ok : JsValue -> bool.
Hypothesis body_passed : forall i x, body i x = Passed <-> ok x = true.

Lemma forEachFrom_passed l : forall k,
  forEachFrom body k l = Passed <-> forallb ok l = true.
Proof.
  induction l as [|x l IH]; simpl; intros k; [tauto|].
  destruct (ok x) eqn:O.
  - pose proof (proj2 (body_passed k x) O) as B. rewrite B. apply IH.
  - destruct (body k x) eqn:B.
    + apply body_passed in B. congruence.
    + split; discriminate.
    + split; discriminate.
Qed.

Lemma forEachFrom_first pre x post : forall k,
  forallb ok pre = true -> ok x = false ->
  forEachFrom body k (pre ++ x :: post) = body (k + List.length pre) x.
Proof.
  induction pre as [|y pre IH]; simpl; intros k Hpre Hx.
  - rewrite Nat.add_0_r. destruct (body k x) eqn:B; try reflexivity.
    apply body_passed in B. congruence.
  - apply andb_prop in Hpre as [Hy Hpre].
    rewrite (proj2 (body_passed k y) Hy).
    rewrite IH by assumption. f_equal. lia.
Qed.

End ForEach.

Lemma checkStudent_passed index s :
  checkStudent index s = Passed <-> recordOk s = true.
Proof.
  unfold checkStudent, recordOk. destruct (isNullish s) eqn:N.
  - destruct s; simpl in N; try discriminate N; simpl; split; intros H; discriminate H.
  - rewrite !(getProp_field s _ N). simpl negb at 1. rewrite andb_true_l.
    destruct (toBoolean (field s "studentId")), (toBoolean (field s "name")),
      (toBoolean (field s "monthlyBudget")); simpl; try (split; discriminate).
    destruct (field s "transactions"); try (split; discriminate).
    apply forEachFrom_passed. intros i x. apply checkTransaction_passed.
Qed.

Lemma validateData_passed d : validateData d = Passed <-> accepts d = true.
Proof.
  unfold validateData, accepts. destruct (toBoolean d) eqn:T; simpl.
  - rewrite (getProp_field d _ (toBoolean_not_nullish d T)).
    destruct (field d "students"); try (split; discriminate).
    apply forEachFrom_passed. intros i x. apply checkStudent_passed.
  - split; discriminate.
Qed.

Lemma forallb_map_ext {A B} (f : B -> bool) (g : A -> B) (h : A -> bool) l :
  (forall x, f (g x) = h x) -> forallb f (map g l) = forallb h l.
Proof.
  intros H. induction l as [|x l IH]; simpl; [reflexivity|].
  rewrite H, IH. reflexivity.
Qed.

Lemma transactionOk_typed t :
  transactionOk (jsonOfTransaction t) = typedTransactionOk t.
Proof. unfold transactionOk, typedTransactionOk. simpl. rewrite andb_true_r. reflexivity. Qed.

Lemma recordOk_typed s : recordOk (jsonOfStudent s) = typedStudentOk s.
Proof.
  unfold recordOk, typedStudentOk. simpl. f_equal.
  apply forallb_map_ext. intros t. apply transactionOk_typed.
Qed.

Lemma accepts_typed d :
  accepts (jsonOfDataset d) = forallb typedStudentOk (students d).
Proof.
  unfold accepts. simpl. apply forallb_map_ext.
  intros s. apply recordOk_typed.
Qed.

(** On a typed dataset no property is read off [undefined] or [null]. *)
Lemma forEachFrom_no_type_error (body : nat -> JsValue -> Outcome) (xs : list JsValue) :
  (forall i x, In x xs -> body i x <> TypeError) ->
  forall i, forEachFrom body i xs <> TypeError.
Proof.
  induction xs as [|x xs IH]; intros H i; simpl; [discriminate|].
  destruct (body i x) eqn:B.
  - apply IH. intros j y Hy. apply H. right. exact Hy.
  - discriminate.
  - exfalso. exact (H i x (or_introl eq_refl) B).
Qed.

Lemma checkTransaction_typed (i j : nat) (t : Transaction) :
  checkTransaction i j (jsonOfTransaction t) <> TypeError.
Proof.
  unfold checkTransaction, jsonOfTransaction. simpl.
  destruct (negb _ || negb _ || _)%bool; discriminate.
Qed.

Lemma checkStudent_typed (i : nat) (s : Student) :
  checkStudent i (jsonOfStudent s) <> TypeError.
Proof.
  unfold checkStudent, jsonOfStudent. simpl.
  destruct (negb _ || negb _ || negb _)%bool; [discriminate|].
  apply forEachFrom_no_type_error. intros j x Hx.
  apply in_map_iff in Hx as (t & <- & _). apply checkTransaction_typed.
Qed.

Lemma validateData_typed (d : Dataset) : validateData (jsonOfDataset d) <> TypeError.
Proof.
  unfold validateData, jsonOfDataset. simpl.
  apply forEachFrom_no_type_error. intros j x Hx.
  apply in_map_iff in Hx as (s & <- & _). apply checkStudent_typed.
Qed.

(** C6: a record with a budget of 0, everything else in place, is
    rejected as missing required fields, and so is every dataset with
    such a record.  The budget is tested with [!student.monthlyBudget],
    which 0 fails; the amount next to it is tested with
    [amount === undefined], which 0 passes: the same dataset with a
    budget of 500 and an amount of 0 is accepted. *)
Theorem zero_budget_rejected :
  specAccepts (jsonOfDataset zeroBudgetDataset) = true
  /\ validateData (jsonOfDataset zeroBudgetDataset)
     = Failed "Student 1: Missing required fields"
  /\ (forall (d : Dataset) (s : Student),
        In s (students d) -> monthlyBudget s = 0%float ->
        exists msg, validateData (jsonOfDataset d) = Failed msg)
  /\ specAccepts (jsonOfDataset zeroAmountDataset) = true
  /\ validateData (jsonOfDataset zeroAmountDataset) = Passed.
Proof.
  split; [vm_compute; reflexivity|]. split; [vm_compute; reflexivity|].
  split; [|split; vm_compute; reflexivity].
  intros d s Hs Hb.
  pose proof (validateData_typed d) as Nt.
  destruct (validateData (jsonOfDataset d)) as [|msg|] eqn:V;
    [|exists msg; reflexivity|exfalso; exact (Nt eq_refl)].
  exfalso. apply validateData_passed in V. rewrite accepts_typed in V.
  rewrite forallb_forall in V. specialize (V s Hs). unfold typedStudentOk in V.
  rewrite Hb in V. change (truthy 0%float) with false in V.
  rewrite andb_false_r in V. discriminate.
Qed.

(** X20: the validator accepts exactly the datasets in which each
    record has a non-empty id, a non-empty name, a budget that is a
    non-zero number and an array of transactions each with a non-empty
    date, a non-empty category and an amount that is not undefined (0 is
    accepted); a dataset with a transaction without amount is rejected,
    and when that transaction is the first defect met the error reads
    "Student i, Transaction j: Missing required fields", with i and j the
    positions, from 1, of the record and of the transaction. *)
Theorem validateData_accepts :
  (forall d, validateData d = Passed <-> accepts d = true)
  /\ (forall d : Dataset,
        validateData (jsonOfDataset d) = Passed
        <-> forallb typedStudentOk (students d) = true)
  /\ (forall d ss s ts t,
        field d "students" = JArray ss -> In s ss ->
        field s "transactions" = JArray ts -> In t ts ->
        field t "amount" = JUndefined ->
        validateData d <> Passed)
  /\ (forall d pre s post preT t postT,
        toBoolean d = true ->
        field d "students" = JArray (pre ++ s :: post) ->
        forallb recordOk pre = true ->
        isNullish s = false ->
        toBoolean (field s "studentId") = true ->
        toBoolean (field s "name") = true ->
        toBoolean (field s "monthlyBudget") = true ->
        field s "transactions" = JArray (preT ++ t :: postT) ->
        forallb transactionOk preT = true ->
        isNullish t = false ->
        field t "amount" = JUndefined ->
        validateData d
        = Failed ("Student " ++ showNat (List.length pre + 1) ++ ", Transaction "
                    ++ showNat (List.length preT + 1) ++ ": Missing required fields"))
  /\ validateData missingAmountDataset
     = Failed "Student 2, Transaction 3: Missing required fields".
Proof.
  split; [exact validateData_passed|]. split.
  { intros d. rewrite validateData_passed, accepts_typed. reflexivity. }
  split.
  { intros d ss s ts t Hss Hs Hts Ht Ha V.
    apply validateData_passed in V. unfold accepts in V.
    apply andb_prop in V as [_ V]. rewrite Hss in V.
    rewrite forallb_forall in V. specialize (V s Hs). unfold recordOk in V.
    rewrite Hts in V. apply andb_prop in V as [_ V].
    rewrite forallb_forall in V. specialize (V t Ht). unfold transactionOk in V.
    rewrite Ha in V. simpl in V. rewrite andb_false_r in V. discriminate. }
  split; [|vm_compute; reflexivity].
  intros d pre s post preT t postT Td Hss Hpre Ns Hi Hn Hb Hts HpreT Nt Ha.
  assert (transactionOk t = false) as Bt
      by (unfold transactionOk; rewrite Ha; simpl; apply andb_false_r).
  assert (recordOk s = false) as Bs.
  { unfold recordOk. rewrite Hts, forallb_app. simpl. rewrite Bt.
    rewrite andb_false_r. apply andb_false_r. }
  unfold validateData. rewrite Td.
  rewrite (getProp_field d _ (toBoolean_not_nullish d Td)), Hss.
  rewrite (forEachFrom_first checkStudent recordOk
             (fun i x => checkStudent_passed i x) pre s post 0 Hpre Bs).
  simpl Nat.add. unfold checkStudent.
  rewrite !(getProp_field s _ Ns), Hi, Hn, Hb, Hts. simpl.
  rewrite (forEachFrom_first (checkTransaction (List.length pre)) transactionOk
             (fun i x => checkTransaction_passed (List.length pre) i x)
             preT t postT 0 HpreT Bt).
  simpl Nat.add.
  destruct (checkTransaction_cases (List.length pre) (List.length preT) t)
    as [[C _]|[(_ & C & _)|(_ & _ & ->)]]; try congruence.
  reflexivity.
Qed.

(** ** Exact values of rounded results *)

Module FloatValue.

Import FloatRound.

Local Open Scope Q_scope.

Lemma inject_Z_pos_le (a b : Z) : (a <= b)%Z -> inject_Z a <= inject_Z b.
Proof. intros H. rewrite <- Zle_Qle. exact H. Qed.

Lemma inject_Z_pos_lt (a b : Z) : (a < b)%Z -> inject_Z a < inject_Z b.
Proof. intros H. rewrite <- Zlt_Qlt. exact H. Qed.

(** The value of the float made of a mantissa and an exponent. *)
Lemma pack_value (M E : Z) :
  (0 <= M <= 2 ^ 53)%Z ->
  pack false M E = S754_infinity false
  \/ ((pack false M E = S754_zero false
       \/ exists m e, pack false M E = S754_finite false m e)
      /\ SF2Q (pack false M E) == inject_Z M * 2 ^ E).
Proof.
  intros HM. unfold pack.
  destruct (Z.eqb_spec M 0) as [->|NZ].
  - right. split; [left; reflexivity|]. cbn [SF2Q]. change (inject_Z 0) with 0. ring.
  - destruct (Z.eqb_spec M (2 ^ 53)) as [->|NT].
    + destruct (Z.leb_spec (E + 1) 971); [right|left; reflexivity].
      split; [right; eauto|]. cbn [SF2Q].
      rewrite two_pow_add. change (2 ^ 1) with 2.
      change (inject_Z (Z.pos (Z.to_pos (2 ^ 52)))) with (inject_Z (2 ^ 52)).
      change (inject_Z (2 ^ 53)) with (inject_Z (2 ^ 52) * 2). ring.
    + destruct (Z.leb_spec E 971); [right|left; reflexivity].
      split; [right; eauto|]. cbn [SF2Q].
      rewrite Z2Pos.id by lia. reflexivity.
Qed.

Lemma pack_no_overflow (M E : Z) :
  (E <= 970)%Z -> pack false M E <> S754_infinity false.
Proof.
  intros HE. unfold pack. destruct (M =? 0)%Z; [discriminate|].
  destruct (M =? 2 ^ 53)%Z.
  - destruct (Z.leb_spec (E + 1) 971); [discriminate | lia].
  - destruct (Z.leb_spec E 971); [discriminate | lia].
Qed.

(** One rounding: the result is within one unit of its last place of the
    rounded number. *)
Lemma round_aux_value s m e l (x : Q) :
  (0 <= m)%Z -> (e <= fexp prec emax (Zdigits2 m + e))%Z ->
  inject_Z m * 2 ^ e <= x < inject_Z (m + 1) * 2 ^ e ->
  let E := fexp prec emax (Zdigits2 m + e) in
  exists M,
    binary_round_aux prec emax s m e l = pack s M E
    /\ (0 <= M <= 2 ^ 53)%Z
    /\ (-1074 <= E)%Z
    /\ inject_Z M * 2 ^ E - 2 ^ E <= x <= inject_Z M * 2 ^ E + 2 ^ E
    /\ ((-1074 < E)%Z -> inject_Z (2 ^ 52) * 2 ^ E <= x)
    /\ ((-1074 < E)%Z -> (2 ^ 52 <= M)%Z).
Proof.
  intros Hm Hpre Hx E.
  destruct (round_aux_spec s m e l Hm Hpre) as (M & HM & _ & Hup & Hlow & Heq).
  fold E in HM, Hup, Hlow, Heq.
  set (k := (E - e)%Z) in *. assert (0 <= k)%Z as Hk by (unfold k, E; lia).
  set (m' := (m / 2 ^ k)%Z) in *.
  assert (0 < 2 ^ k)%Z as Pk by (apply Z.pow_pos_nonneg; lia).
  assert (m' * 2 ^ k <= m)%Z as L1
      by (unfold m'; rewrite Z.mul_comm; apply Z.mul_div_le; lia).
  assert (m + 1 <= (m' + 1) * 2 ^ k)%Z as L2.
  { pose proof (Z.mul_succ_div_gt m (2 ^ k) Pk) as G. fold m' in G. lia. }
  assert (0 <= m')%Z as Hm' by (unfold m'; apply Z.div_pos; lia).
  assert (2 ^ E == inject_Z (2 ^ k) * 2 ^ e) as EE.
  { replace E with (k + e)%Z by (unfold k; lia).
    rewrite two_pow_add, (two_pow_Z k Hk). reflexivity. }
  pose proof (two_pow_pos e) as Pe.
  assert (inject_Z m' * 2 ^ E <= x) as B1.
  { rewrite EE, Qmult_assoc, <- inject_Z_mult.
    apply Qle_trans with (inject_Z m * 2 ^ e); [|apply Hx].
    apply Qmult_le_compat_r; [apply inject_Z_pos_le; exact L1 | lra]. }
  assert (x <= inject_Z (m' + 1) * 2 ^ E) as B2.
  { rewrite EE, Qmult_assoc, <- inject_Z_mult.
    apply Qle_trans with (inject_Z (m + 1) * 2 ^ e); [apply Qlt_le_weak, Hx|].
    apply Qmult_le_compat_r; [apply inject_Z_pos_le; exact L2 | lra]. }
  rewrite inject_Z_plus in B2. change (inject_Z 1) with 1 in B2.
  pose proof (two_pow_pos E) as PE.
  exists M. split; [exact Heq|]. split; [lia|].
  split; [unfold E; rewrite fexp_eq; lia|]. split; [|split].
  - destruct HM as [->| ->].
    + split; lra.
    + rewrite inject_Z_plus. change (inject_Z 1) with 1. split; lra.
  - intros HE. specialize (Hlow HE).
    apply Qle_trans with (inject_Z m' * 2 ^ E); [|exact B1].
    apply Qmult_le_compat_r; [apply inject_Z_pos_le; exact Hlow | lra].
  - intros HE. specialize (Hlow HE). lia.
Qed.

(** A bound on the value bounds the exponent of the result. *)
Lemma exponent_bound (E b : Z) (x : Q) :
  inject_Z (2 ^ 52) * 2 ^ E <= x -> x <= 2 ^ b -> (E <= b - 52)%Z.
Proof.
  intros H1 H2. change (inject_Z (2 ^ 52)) with (2 ^ 52) in H1.
  rewrite <- two_pow_add in H1.
  assert (2 ^ (52 + E) <= 2 ^ b) as H by (eapply Qle_trans; eassumption).
  apply Qpower_le_compat_l_inv in H; [lia | reflexivity].
Qed.

Lemma SFdiv_value mx ex my ey :
  let rho := (inject_Z (Zpos mx) * 2 ^ ex) / (inject_Z (Zpos my) * 2 ^ ey) in
  exists M E,
    SFdiv prec emax (S754_finite false mx ex) (S754_finite false my ey)
      = pack false M E
    /\ (0 <= M <= 2 ^ 53)%Z
    /\ (-1074 <= E)%Z
    /\ inject_Z M * 2 ^ E - 2 ^ E <= rho <= inject_Z M * 2 ^ E + 2 ^ E
    /\ ((-1074 < E)%Z -> inject_Z (2 ^ 52) * 2 ^ E <= rho)
    /\ ((-1074 < E)%Z -> (2 ^ 52 <= M)%Z).
Proof.
  intros rho.
  pose proof (div_core_spec (Zpos mx) ex (Zpos my) ey ltac:(lia) ltac:(lia))
    as (Hq & Hsh & Hdiv & Hpre).
  unfold SFdiv.
  destruct (SFdiv_core_binary prec emax (Zpos mx) ex (Zpos my) ey) as [[q e'] l].
  cbn [fst snd] in *.
  set (sh := (ex - ey - e')%Z) in *.
  assert (0 <= sh)%Z as Hs by (unfold sh; lia).
  pose proof (two_pow_pos e') as Pe. pose proof (two_pow_pos ey) as Py.
  assert (0 < inject_Z (Zpos my)) as PY by (apply (inject_Z_pos_lt 0); lia).
  assert (2 ^ ex == inject_Z (2 ^ sh) * 2 ^ e' * 2 ^ ey) as EX.
  { replace ex with (sh + e' + ey)%Z at 1 by (unfold sh; lia).
    rewrite !two_pow_add, (two_pow_Z sh Hs). reflexivity. }
  assert (rho == inject_Z (Zpos mx * 2 ^ sh) * 2 ^ e' / inject_Z (Zpos my)) as ER.
  { unfold rho. rewrite EX, inject_Z_mult. field. split; lra. }
  destruct Hdiv as [D1 D2].
  apply inject_Z_pos_le in D1. apply inject_Z_pos_lt in D2.
  rewrite inject_Z_mult in D1, D2.
  assert (inject_Z q * 2 ^ e' <= rho < inject_Z (q + 1) * 2 ^ e') as Hx.
  { rewrite ER. split.
    - apply Qle_shift_div_l; [exact PY|].
      setoid_replace (inject_Z q * 2 ^ e' * inject_Z (Zpos my))
        with (inject_Z q * inject_Z (Zpos my) * 2 ^ e') by ring.
      apply Qmult_le_compat_r; [exact D1 | lra].
    - apply Qlt_shift_div_r; [exact PY|].
      setoid_replace (inject_Z (q + 1) * 2 ^ e' * inject_Z (Zpos my))
        with (inject_Z (q + 1) * inject_Z (Zpos my) * 2 ^ e') by ring.
      apply Qmult_lt_compat_r; [exact Pe | exact D2]. }
  destruct (round_aux_value false q e' l rho Hq Hpre Hx)
    as (M & Heq & HM & HE & Hb & Hl & Hn).
  exists M, (fexp prec emax (Zdigits2 q + e')). auto 7.
Qed.

Lemma SFmul_value mx ex my ey :
  Zdigits2 (Zpos my) = 53%Z ->
  let rho := (inject_Z (Zpos mx) * 2 ^ ex) * (inject_Z (Zpos my) * 2 ^ ey) in
  exists M E,
    SFmul prec emax (S754_finite false mx ex) (S754_finite false my ey)
      = pack false M E
    /\ (0 <= M <= 2 ^ 53)%Z
    /\ (-1074 <= E)%Z
    /\ inject_Z M * 2 ^ E - 2 ^ E <= rho <= inject_Z M * 2 ^ E + 2 ^ E
    /\ ((-1074 < E)%Z -> inject_Z (2 ^ 52) * 2 ^ E <= rho)
    /\ ((-1074 < E)%Z -> (2 ^ 52 <= M)%Z).
Proof.
  intros Dy rho. unfold SFmul. cbn [xorb].
  set (m := Zpos (mx * my)). set (e := (ex + ey)%Z).
  assert (m = Zpos mx * Zpos my)%Z as Em by reflexivity.
  assert (e <= fexp prec emax (Zdigits2 m + e))%Z as Hpre.
  { pose proof (Zdigits2_bounds (Zpos mx) ltac:(lia)) as [Bx _].
    pose proof (Zdigits2_bounds (Zpos my) ltac:(lia)) as [By _].
    pose proof (Zdigits2_pos (Zpos mx) ltac:(lia)) as Dx.
    rewrite Dy in By. change (2 ^ (53 - 1))%Z with (2 ^ 52)%Z in By.
    assert (2 ^ (Zdigits2 (Zpos mx) - 1 + 52) <= m)%Z as L.
    { rewrite Z.pow_add_r by lia. rewrite Em.
      assert (0 < 2 ^ (Zdigits2 (Zpos mx) - 1))%Z by (apply Z.pow_pos_nonneg; lia).
      nia. }
    pose proof (Zdigits2_ge m (Zdigits2 (Zpos mx) - 1 + 52) ltac:(lia) L).
    rewrite fexp_eq. lia. }
  assert (rho == inject_Z m * 2 ^ e) as ER.
  { unfold rho, e. rewrite Em, inject_Z_mult, two_pow_add. ring. }
  pose proof (two_pow_pos e) as Pe.
  assert (inject_Z m * 2 ^ e <= rho < inject_Z (m + 1) * 2 ^ e) as Hx.
  { rewrite ER, inject_Z_plus. change (inject_Z 1) with 1. split; lra. }
  destruct (round_aux_value false m e loc_Exact rho ltac:(lia) Hpre Hx)
    as (M & Heq & HM & HE & Hb & Hl & Hn).
  exists M, (fexp prec emax (Zdigits2 m + e)). auto 7.
Qed.

Lemma aligned_value mx ex ez :
  (ez <= ex)%Z ->
  inject_Z (Zpos mx * 2 ^ (ex - ez)) * 2 ^ ez == inject_Z (Zpos mx) * 2 ^ ex.
Proof.
  intros H. replace ex with ((ex - ez) + ez)%Z at 2 by lia.
  rewrite two_pow_add, (two_pow_Z (ex - ez)) by lia.
  rewrite inject_Z_mult. ring.
Qed.

(** An addition of positive numbers has a relative error of at most
    [2^-52] (it is exact where the result is subnormal). *)
Lemma SFadd_value mx ex my ey :
  valid_binary (S754_finite false mx ex) = true ->
  valid_binary (S754_finite false my ey) = true ->
  let v := inject_Z (Zpos mx) * 2 ^ ex + inject_Z (Zpos my) * 2 ^ ey in
  exists M E,
    SFadd prec emax (S754_finite false mx ex) (S754_finite false my ey)
      = pack false M E
    /\ (0 <= M <= 2 ^ 53)%Z
    /\ v * (1 - (1 # 2 ^ 52)) <= inject_Z M * 2 ^ E <= v * (1 + (1 # 2 ^ 52)).
Proof.
  intros Vx Vy v.
  pose proof (min_exponent_bound _ _ _ _ _ _ Vx Vy) as Hm.
  unfold SFadd, cond_Zopp.
  set (ez := Z.min ex ey) in *.
  pose proof (shl_align_spec mx ex ez) as [Ex1 Ex2].
  pose proof (shl_align_spec my ey ez) as [Ey1 Ey2].
  replace (snd (shl_align mx ex ez)) with ez in Ex2 by (unfold ez in *; lia).
  replace (snd (shl_align my ey ez)) with ez in Ey2 by (unfold ez in *; lia).
  rewrite Ex2, Ey2.
  set (X := (Zpos mx * 2 ^ (ex - ez))%Z). set (Y := (Zpos my * 2 ^ (ey - ez))%Z).
  assert (0 < X)%Z as PX
      by (unfold X; apply Z.mul_pos_pos; [lia | apply Z.pow_pos_nonneg; unfold ez; lia]).
  assert (0 < Y)%Z as PY
      by (unfold Y; apply Z.mul_pos_pos; [lia | apply Z.pow_pos_nonneg; unfold ez; lia]).
  assert (v == inject_Z (X + Y) * 2 ^ ez) as EV.
  { unfold v. rewrite inject_Z_plus, Qmult_plus_distr_l.
    unfold X, Y. rewrite !aligned_value by (unfold ez; lia). reflexivity. }
  destruct (X + Y)%Z as [|S|S] eqn:ES; try lia.
  simpl binary_normalize.
  destruct (binary_round_spec false S ez) as (M & Heq & Hcase & HM & _ & _).
  set (E := fexp prec emax (Zdigits2 (Zpos S) + ez)) in *.
  exists M, E. split; [exact Heq|]. split; [exact HM|].
  pose proof (two_pow_pos ez) as Pz. pose proof (two_pow_pos E) as PE.
  assert (0 < v) as Pv.
  { rewrite EV. apply Qmult_lt_0_compat; [apply (inject_Z_pos_lt 0); lia | exact Pz]. }
  change (1 # 2 ^ 52) with (1 # 4503599627370496).
  destruct Hcase as [[Le ->]|(Gt & HMc & Hlow)].
  - rewrite aligned_value by exact Le. rewrite <- EV.
    split; nra.
  - specialize (Hlow ltac:(lia)).
    set (k := (E - ez)%Z) in *. set (m' := (Zpos S / 2 ^ k)%Z) in *.
    assert (0 < 2 ^ k)%Z as Pk by (apply Z.pow_pos_nonneg; unfold k; lia).
    assert (m' * 2 ^ k <= Zpos S)%Z as L1
        by (unfold m'; rewrite Z.mul_comm; apply Z.mul_div_le; lia).
    assert (Zpos S + 1 <= (m' + 1) * 2 ^ k)%Z as L2.
    { pose proof (Z.mul_succ_div_gt (Zpos S) (2 ^ k) Pk) as G. fold m' in G. lia. }
    assert (2 ^ E == inject_Z (2 ^ k) * 2 ^ ez) as EE.
    { replace E with (k + ez)%Z by (unfold k; lia).
      rewrite two_pow_add, (two_pow_Z k) by (unfold k; lia). reflexivity. }
    assert (inject_Z m' * 2 ^ E <= v) as B1.
    { rewrite EV, EE, Qmult_assoc, <- inject_Z_mult.
      apply Qmult_le_compat_r; [apply inject_Z_pos_le; exact L1 | lra]. }
    assert (v <= inject_Z (m' + 1) * 2 ^ E) as B2.
    { rewrite EV, EE, Qmult_assoc, <- inject_Z_mult.
      apply Qmult_le_compat_r; [apply inject_Z_pos_le; lia | lra]. }
    rewrite inject_Z_plus in B2. change (inject_Z 1) with 1 in B2.
    assert (inject_Z (2 ^ 52) * 2 ^ E <= v) as B3.
    { apply Qle_trans with (inject_Z m' * 2 ^ E); [|exact B1].
      apply Qmult_le_compat_r; [apply inject_Z_pos_le; exact Hlow | lra]. }
    change (inject_Z (2 ^ 52)) with (4503599627370496 # 1) in B3.
    destruct HMc as [->| ->].
    + split; nra.
    + rewrite inject_Z_plus. change (inject_Z 1) with 1. split; nra.
Qed.

Lemma eta_pos : 0 < eta.
Proof. apply two_pow_pos. Qed.

Lemma eta_small : eta <= eps.
Proof.
  unfold eta. apply Qle_trans with (2 ^ (-52)).
  - apply two_pow_le. lia.
  - unfold eps. vm_compute. discriminate.
Qed.

(** From the two bounds of one rounding to an absolute error. *)
Lemma rounding_error (M E : Z) (rho : Q) :
  (-1074 <= E)%Z -> 0 <= rho ->
  inject_Z M * 2 ^ E - 2 ^ E <= rho <= inject_Z M * 2 ^ E + 2 ^ E ->
  ((-1074 < E)%Z -> inject_Z (2 ^ 52) * 2 ^ E <= rho) ->
  rho - (eps * rho + eta) <= inject_Z M * 2 ^ E <= rho + (eps * rho + eta).
Proof.
  intros HE P0 Hb Hl. pose proof (two_pow_pos E) as PE. pose proof eta_pos as Pt.
  unfold eps. destruct (Z.eq_dec E (-1074)) as [->|NE].
  - fold eta in *. split; lra.
  - specialize (Hl ltac:(lia)).
    change (inject_Z (2 ^ 52)) with (4503599627370496 # 1) in Hl.
    split; lra.
Qed.

End FloatValue.

(** ** Exact values of the engine's arithmetic *)

Import FloatRound FloatValue.

Local Open Scope Q_scope.

Lemma finiteTotal_isTotal x : finiteTotal x -> isTotal x.
Proof.
  unfold finiteTotal, isTotal.
  destruct (Prim2SF x) as [[]|[]| |[] m e]; simpl; congruence.
Qed.

Lemma SF2Q_nonneg x : finiteTotalSF x = true -> 0 <= SF2Q x.
Proof.
  destruct x as [[]|[]| |[] m e]; simpl; try discriminate; intros _; try lra.
  pose proof (two_pow_pos e).
  assert (0 < inject_Z (Zpos m)) by (apply (inject_Z_pos_lt 0); lia). nra.
Qed.

Lemma exactValue_nonneg x : finiteTotal x -> 0 <= exactValue x.
Proof. apply SF2Q_nonneg. Qed.

Lemma packed_value M E :
  (0 <= M <= 2 ^ 53)%Z -> finiteTotalSF (pack false M E) = true ->
  SF2Q (pack false M E) == inject_Z M * 2 ^ E.
Proof.
  intros HM HF. destruct (pack_value M E HM) as [I|[_ V]]; [|exact V].
  rewrite I in HF. discriminate.
Qed.

Lemma packed_small M E :
  (0 <= M <= 2 ^ 53)%Z -> (E <= 970)%Z ->
  finiteTotalSF (pack false M E) = true
  /\ SF2Q (pack false M E) == inject_Z M * 2 ^ E.
Proof.
  intros HM HE. destruct (pack_value M E HM) as [I|[S V]].
  - exfalso. exact (pack_no_overflow M E HE I).
  - split; [|exact V]. destruct S as [->|(m & e & ->)]; reflexivity.
Qed.

Lemma add_value x y :
  isTotal x -> isTotal y -> finiteTotal (x + y)%float ->
  finiteTotal x /\ finiteTotal y
  /\ (exactValue x + exactValue y) * (1 - eps) <= exactValue (x + y)%float
     <= (exactValue x + exactValue y) * (1 + eps).
Proof.
  unfold isTotal, finiteTotal, exactValue. rewrite add_spec.
  pose proof (Prim2SF_valid x) as Vx. pose proof (Prim2SF_valid y) as Vy.
  destruct (Prim2SF x) as [[]|[]| |[] mx ex], (Prim2SF y) as [[]|[]| |[] my ey];
    try discriminate; intros _ _ HF; try discriminate HF;
    (split; [reflexivity|]); (split; [reflexivity|]).
  - unfold SF64add. cbn [SFadd SF2Q]. unfold eps. split; lra.
  - pose proof (SF2Q_nonneg (S754_finite false my ey) eq_refl) as P.
    unfold SF64add. cbn [SFadd]. change (SF2Q (S754_zero false)) with 0.
    unfold eps. split; nra.
  - pose proof (SF2Q_nonneg (S754_finite false mx ex) eq_refl) as P.
    unfold SF64add. cbn [SFadd]. change (SF2Q (S754_zero false)) with 0.
    unfold eps. split; nra.
  - destruct (SFadd_value mx ex my ey Vx Vy) as (M & E & Heq & HM & Hb).
    unfold SF64add in *. rewrite Heq in *. rewrite (packed_value M E HM HF).
    cbn [SF2Q]. unfold eps. exact Hb.
Qed.

Lemma div_value a T :
  finiteTotal a ->
  (exists m e, Prim2SF T = S754_finite false m e) ->
  exactValue a <= 4 * exactValue T ->
  let rho := exactValue a / exactValue T in
  finiteTotal (a / T)%float
  /\ rho - (eps * rho + eta) <= exactValue (a / T)%float <= rho + (eps * rho + eta).
Proof.
  unfold finiteTotal, exactValue. rewrite div_spec. unfold SF64div.
  intros Fa (my & ey & ET) Hle. rewrite ET in *.
  assert (0 < SF2Q (S754_finite false my ey)) as PT.
  { cbn [SF2Q]. pose proof (two_pow_pos ey).
    assert (0 < inject_Z (Zpos my)) by (apply (inject_Z_pos_lt 0); lia). nra. }
  pose proof eta_pos as Pt.
  destruct (Prim2SF a) as [[]|[]| |[] mx ex]; try discriminate Fa.
  - cbn [SFdiv xorb SF2Q finiteTotalSF]. split; [reflexivity|].
    assert (0 / (inject_Z (Zpos my) * 2 ^ ey) == 0) as -> by (unfold Qdiv; ring).
    unfold eps. split; lra.
  - destruct (SFdiv_value mx ex my ey) as (M & E & Heq & HM & HE & Hb & Hl & _).
    rewrite Heq. cbn [SF2Q] in *.
    set (rho := inject_Z (Zpos mx) * 2 ^ ex / (inject_Z (Zpos my) * 2 ^ ey)) in *.
    assert (0 <= rho) as P0.
    { unfold rho. apply Qle_shift_div_l; [exact PT|].
      pose proof (two_pow_pos ex).
      assert (0 < inject_Z (Zpos mx)) by (apply (inject_Z_pos_lt 0); lia). nra. }
    assert (rho <= 4) as Hr by (unfold rho; apply Qle_shift_div_r; [exact PT | exact Hle]).
    assert (E <= 970)%Z as HE'.
    { destruct (Z_le_gt_dec E (-1074)) as [L|G]; [lia|].
      pose proof (exponent_bound E 2 rho (Hl ltac:(lia)) Hr). lia. }
    destruct (packed_small M E HM HE') as [F V]. split; [exact F|].
    rewrite V. apply rounding_error; assumption.
Qed.

(** An array length is a number: [ofNat] is exact below [2^53]. *)
Lemma ofNat_value (n : nat) :
  (1 <= Z.of_nat n < 2 ^ 53)%Z ->
  exists m e, Prim2SF (ofNat n) = S754_finite false m e
              /\ inject_Z (Zpos m) * 2 ^ e == inject_Z (Z.of_nat n).
Proof.
  intros Hn. unfold ofNat. rewrite of_uint63_spec, Uint63.of_Z_spec.
  rewrite Z.mod_small by (change Uint63Axioms.wB with (2 ^ 63)%Z; lia).
  destruct (Z.of_nat n) as [|p|p] eqn:Ep; try lia.
  cbn [binary_normalize].
  destruct (binary_round_spec false p 0) as (M & Heq & Hcase & HM & Hlow & _).
  cbv zeta in *. rewrite fexp_eq in *.
  pose proof (Zdigits2_bounds (Zpos p) ltac:(lia)) as [Bl Bu].
  pose proof (Zdigits2_pos (Zpos p) ltac:(lia)) as Dp.
  assert (Zdigits2 (Zpos p) <= 53)%Z as D53.
  { destruct (Z_le_gt_dec (Zdigits2 (Zpos p)) 53) as [L|G]; [exact L|].
    assert (2 ^ 53 <= 2 ^ (Zdigits2 (Zpos p) - 1))%Z
      by (apply Z.pow_le_mono_r; lia). lia. }
  set (d := Zdigits2 (Zpos p)) in *.
  replace (Z.max (d + 0 - 53) (-1074)) with (d - 53)%Z in * by lia.
  destruct Hcase as [[_ EM]|[Hlt _]]; [|lia].
  replace (0 - (d - 53))%Z with (53 - d)%Z in EM by lia.
  assert (Zpos p * 2 ^ (53 - d) < 2 ^ 53)%Z as Mu.
  { replace (2 ^ 53)%Z with (2 ^ d * 2 ^ (53 - d))%Z
      by (rewrite <- Z.pow_add_r by lia; f_equal; lia).
    apply Z.mul_lt_mono_pos_r; [apply Z.pow_pos_nonneg; lia | lia]. }
  assert (0 < M)%Z as Mp
      by (rewrite EM; apply Z.mul_pos_pos; [lia | apply Z.pow_pos_nonneg; lia]).
  exists (Z.to_pos M), (d - 53)%Z. split.
  - rewrite Heq. unfold pack.
    destruct (Z.eqb_spec M 0) as [?|_]; [lia|].
    destruct (Z.eqb_spec M (2 ^ 53)) as [?|_]; [lia|].
    destruct (Z.leb_spec (d - 53) 971) as [_|?]; [reflexivity | lia].
  - rewrite Z2Pos.id by lia. rewrite EM, inject_Z_mult.
    rewrite <- (two_pow_Z (53 - d)) by lia.
    rewrite <- Qmult_assoc, <- two_pow_add.
    replace (53 - d + (d - 53))%Z with 0%Z by lia.
    change (2 ^ 0) with 1. ring.
Qed.

(** The quotient of a finite non-negative number by a positive one, when
    it has not overflowed. *)
Lemma quot_value a T :
  finiteTotal a ->
  (exists m e, Prim2SF T = S754_finite false m e) ->
  finiteTotal (a / T)%float ->
  let rho := exactValue a / exactValue T in
  rho - (eps * rho + eta) <= exactValue (a / T)%float <= rho + (eps * rho + eta).
Proof.
  unfold finiteTotal, exactValue. rewrite div_spec. unfold SF64div.
  intros Fa (my & ey & ET) HF. rewrite ET in *.
  assert (0 < SF2Q (S754_finite false my ey)) as PT.
  { cbn [SF2Q]. pose proof (two_pow_pos ey).
    assert (0 < inject_Z (Zpos my)) by (apply (inject_Z_pos_lt 0); lia). nra. }
  pose proof eta_pos as Pt.
  destruct (Prim2SF a) as [[]|[]| |[] mx ex]; try discriminate Fa.
  - cbn [SFdiv xorb SF2Q finiteTotalSF].
    assert (0 / (inject_Z (Zpos my) * 2 ^ ey) == 0) as -> by (unfold Qdiv; ring).
    unfold eps. split; lra.
  - destruct (SFdiv_value mx ex my ey) as (M & E & Heq & HM & HE & Hb & Hl & _).
    rewrite Heq in *. cbn [SF2Q] in *.
    set (rho := inject_Z (Zpos mx) * 2 ^ ex / (inject_Z (Zpos my) * 2 ^ ey)) in *.
    assert (0 <= rho) as P0.
    { unfold rho. apply Qle_shift_div_l; [exact PT|].
      pose proof (two_pow_pos ex).
      assert (0 < inject_Z (Zpos mx)) by (apply (inject_Z_pos_lt 0); lia). nra. }
    rewrite (packed_value M E HM HF). apply rounding_error; assumption.
Qed.

(** A quotient of a running total by a positive number that is below
    [Infinity] is finite, and so is the total. *)
Lemma quot_finite a T :
  isTotal a ->
  (exists m e, Prim2SF T = S754_finite false m e) ->
  (a / T <? infinity)%float = true ->
  finiteTotal a /\ finiteTotal (a / T)%float.
Proof.
  unfold isTotal, finiteTotal. rewrite FloatAxioms.ltb_spec, div_spec.
  unfold SF64div. change (Prim2SF infinity) with (S754_infinity false).
  intros Ta (my & ey & ET). rewrite ET.
  destruct (Prim2SF a) as [[]|[]| |[] mx ex]; try discriminate Ta.
  - intros _. split; reflexivity.
  - cbv. discriminate.
  - destruct (SFdiv_value mx ex my ey) as (M & E & Heq & HM & _).
    rewrite Heq. intros Hlt. split; [reflexivity|].
    destruct (pack_value M E HM) as [Hinf|[[Hz|(m & e & Hf)] _]].
    + rewrite Hinf in Hlt. cbv in Hlt. discriminate.
    + rewrite Hz. reflexivity.
    + rewrite Hf. reflexivity.
Qed.

Lemma hundred_value : inject_Z 7036874417766400 * 2 ^ (-46) == 100.
Proof. reflexivity. Qed.

Lemma mul100_value q :
  finiteTotal q -> exactValue q <= 8 ->
  let rho := exactValue q * 100 in
  finiteTotal (q * 100)%float
  /\ rho - (eps * rho + eta) <= exactValue (q * 100)%float <= rho + (eps * rho + eta).
Proof.
  unfold finiteTotal, exactValue. rewrite mul_spec. unfold SF64mul.
  change (Prim2SF 100) with (S754_finite false 7036874417766400 (-46)).
  intros Fq Hle. pose proof eta_pos as Pt.
  destruct (Prim2SF q) as [[]|[]| |[] mx ex]; try discriminate Fq.
  - cbn [SFmul xorb SF2Q finiteTotalSF]. split; [reflexivity|].
    unfold eps. split; lra.
  - destruct (SFmul_value mx ex 7036874417766400 (-46) eq_refl)
      as (M & E & Heq & HM & HE & Hb & Hl & _).
    rewrite Heq. cbn [SF2Q] in *.
    rewrite hundred_value in Hb, Hl.
    set (v := inject_Z (Zpos mx) * 2 ^ ex) in *.
    assert (0 <= v) as P0.
    { unfold v. pose proof (two_pow_pos ex).
      assert (0 < inject_Z (Zpos mx)) by (apply (inject_Z_pos_lt 0); lia). nra. }
    assert (E <= 970)%Z as HE'.
    { destruct (Z_le_gt_dec E (-1074)) as [L|G]; [lia|].
      assert (v * 100 <= 2 ^ 10) as Hr by (change (2 ^ 10) with 1024; lra).
      pose proof (exponent_bound E 10 (v * 100) (Hl ltac:(lia)) Hr). lia. }
    destruct (packed_small M E HM HE') as [F V]. split; [exact F|].
    rewrite V. apply rounding_error; try assumption. lra.
Qed.

Lemma atLeast1e21_value m e :
  atLeast1e21 m e = true -> inject_Z (10 ^ 21) <= inject_Z (Zpos m) * 2 ^ e.
Proof.
  unfold atLeast1e21. destruct (Z.leb_spec 0 e) as [He|He]; intros H.
  - apply Z.leb_le in H. rewrite (two_pow_Z e He), <- inject_Z_mult.
    apply inject_Z_pos_le. exact H.
  - apply Z.leb_le in H. apply inject_Z_pos_le in H. rewrite inject_Z_mult in H.
    pose proof (two_pow_neg (- e) ltac:(lia)) as Inv.
    rewrite Z.opp_involutive in Inv.
    pose proof (two_pow_pos e) as Pe.
    set (K := inject_Z (2 ^ (- e))) in *. set (x := 2 ^ e) in *.
    set (A := inject_Z (10 ^ 21)) in *. set (B := inject_Z (Zpos m)) in *.
    assert (A * K * x <= B * x) by (apply Qmult_le_compat_r; lra).
    assert (A * K * x == A) as EA by (rewrite <- Qmult_assoc, (Qmult_comm K x), Inv; ring).
    lra.
Qed.

Lemma toFixed1_value p :
  finiteTotal p -> exactValue p <= 1000 ->
  let err := (1 # 20) + eps * (exactValue p + (1 # 20)) + eta in
  finiteTotal (toFixedNum p 1)
  /\ exactValue p - err <= exactValue (toFixedNum p 1) <= exactValue p + err.
Proof.
  unfold finiteTotal, exactValue, toFixedNum. intros Fp Hle. cbv zeta.
  pose proof eta_pos as Pt.
  destruct (Prim2SF p) as [[]|[]| |[] m e] eqn:EP; try discriminate Fp.
  - split; [reflexivity|].
    change (SF2Q (Prim2SF PrimFloat.zero)) with 0. cbn [SF2Q]. unfold eps. split; lra.
  - cbn [SF2Q] in *. set (v := inject_Z (Zpos m) * 2 ^ e) in *.
    assert (0 <= v) as P0.
    { unfold v. pose proof (two_pow_pos e).
      assert (0 < inject_Z (Zpos m)) by (apply (inject_Z_pos_lt 0); lia). nra. }
    destruct (atLeast1e21 m e) eqn:A.
    { exfalso. apply atLeast1e21_value in A. fold v in A.
      change (inject_Z (10 ^ 21)) with (1000000000000000000000 # 1) in A. lra. }
    pose proof (scaledRound_spec m e 1 ltac:(lia)) as Hn. fold v in Hn.
    change (inject_Z (10 ^ 1)) with 10 in Hn.
    pose proof (scaledRound_nonneg m e 1 ltac:(lia)) as Nn.
    unfold parseDecimal. destruct (scaledRound m e 1) as [|n|n]; try lia.
    + change (inject_Z 0) with 0 in Hn. split; [reflexivity|].
      change (SF2Q (Prim2SF PrimFloat.zero)) with 0. unfold eps. split; lra.
    + change (Z.to_pos (10 ^ 1)) with 10%positive.
      destruct (SFdiv_value n 0 10 0) as (M & E & Heq & HM & HE & Hb & Hl & Hn2).
      rewrite Heq.
      set (rho := inject_Z (Zpos n) * 2 ^ 0 / (inject_Z (Zpos 10) * 2 ^ 0)) in *.
      assert (rho == inject_Z (Zpos n) / 10) as ER
          by (unfold rho; change (2 ^ 0) with 1; change (inject_Z (Zpos 10)) with 10; field).
      assert (rho * 10 == inject_Z (Zpos n)) as ER' by (rewrite ER; field).
      assert (E <= 970)%Z as HE'.
      { destruct (Z_le_gt_dec E (-1074)) as [L|G]; [lia|].
        assert (rho <= 2 ^ 10) as Hr by (change (2 ^ 10) with 1024; lra).
        pose proof (exponent_bound E 10 rho (Hl ltac:(lia)) Hr). lia. }
      destruct (packed_small M E HM HE') as [F V].
      assert (valid_binary (pack false M E) = true) as Vb
          by (apply pack_valid; [exact HM | exact HE | exact Hn2]).
      rewrite (Prim2SF_SF2Prim _ Vb). split; [exact F|]. rewrite V.
      assert (0 < inject_Z (Zpos n)) as Pn by (apply (inject_Z_pos_lt 0); lia).
      assert (0 <= rho) as Pr by lra.
      pose proof (rounding_error M E rho HE Pr Hb Hl) as R.
      unfold eps in *. split; lra.
Qed.

(** One percentage: [toFixed(1)] of [(a / T) * 100], against the exact
    ratio. *)
Lemma percentage_value a T :
  finiteTotal a ->
  (exists m e, Prim2SF T = S754_finite false m e) ->
  exactValue a <= 2 * exactValue T ->
  let rho := exactValue a / exactValue T in
  let P := toFixedNum (a / T * 100)%float 1 in
  finiteTotal P
  /\ 100 * rho - ((1 # 20) + 1000 * eps) <= exactValue P
     <= 100 * rho + ((1 # 20) + 1000 * eps).
Proof.
  intros Fa HT Hle rho P.
  assert (0 < exactValue T) as PT.
  { destruct HT as (m & e & ET). unfold exactValue. rewrite ET. cbn [SF2Q].
    pose proof (two_pow_pos e).
    assert (0 < inject_Z (Zpos m)) by (apply (inject_Z_pos_lt 0); lia). nra. }
  pose proof (exactValue_nonneg a Fa) as Pa.
  assert (0 <= rho) as P0 by (unfold rho; apply Qle_shift_div_l; [exact PT | lra]).
  assert (rho <= 2) as Hr by (unfold rho; apply Qle_shift_div_r; [exact PT | exact Hle]).
  pose proof eta_pos as Pt. pose proof eta_small as Ps.
  destruct (div_value a T Fa HT ltac:(lra)) as [Fq Bq]. fold rho in Bq.
  set (q := (a / T)%float) in *.
  assert (exactValue q <= 8) as Hq by (unfold eps in *; lra).
  destruct (mul100_value q Fq Hq) as [Fp Bp].
  set (p := (q * 100)%float) in *.
  assert (exactValue p <= 1000) as Hp by (unfold eps in *; lra).
  destruct (toFixed1_value p Fp Hp) as [FP BP]. fold P in FP, BP.
  split; [exact FP|]. unfold eps in *. split; lra.
Qed.

(** ** Sums of exact values *)

Lemma inject_nat_succ n :
  inject_Z (Z.of_nat (S n)) == inject_Z (Z.of_nat n) + 1.
Proof. rewrite Nat2Z.inj_succ. unfold Z.succ. rewrite inject_Z_plus. reflexivity. Qed.

Lemma inject_nat_nonneg n : 0 <= inject_Z (Z.of_nat n).
Proof. apply (inject_Z_pos_le 0). lia. Qed.

Lemma growth_bound n :
  (Z.of_nat n <= 4294967296)%Z ->
  1 <= growth n <= 1 + 2 * inject_Z (Z.of_nat n) * eps.
Proof.
  induction n as [|n IH]; intros Hn.
  - cbn [growth]. change (inject_Z (Z.of_nat 0)) with 0. unfold eps. split; lra.
  - specialize (IH ltac:(lia)). simpl growth. rewrite inject_nat_succ.
    assert (inject_Z (Z.of_nat n) <= 4294967296) as B
        by (apply (inject_Z_pos_le _ 4294967296); lia).
    pose proof (inject_nat_nonneg n) as P.
    set (N := inject_Z (Z.of_nat n)) in *. set (g := growth n) in *.
    unfold eps in *. split; nra.
Qed.

Lemma shrink_bound n :
  (Z.of_nat n <= 4294967296)%Z ->
  1 - inject_Z (Z.of_nat n) * eps <= shrink n <= 1.
Proof.
  induction n as [|n IH]; intros Hn.
  - cbn [shrink]. change (inject_Z (Z.of_nat 0)) with 0. unfold eps. split; lra.
  - specialize (IH ltac:(lia)). simpl shrink. rewrite inject_nat_succ.
    assert (inject_Z (Z.of_nat n) <= 4294967296) as B
        by (apply (inject_Z_pos_le _ 4294967296); lia).
    pose proof (inject_nat_nonneg n) as P.
    set (N := inject_Z (Z.of_nat n)) in *. set (g := shrink n) in *.
    unfold eps in *. split; nra.
Qed.

Lemma shrink_nonneg n : (Z.of_nat n <= 4294967296)%Z -> 0 <= shrink n.
Proof.
  intros Hn. pose proof (shrink_bound n Hn) as [B _].
  assert (inject_Z (Z.of_nat n) <= 4294967296)
    by (apply (inject_Z_pos_le _ 4294967296); lia).
  unfold eps in *. lra.
Qed.

Lemma sumQ_nonneg l : Forall (fun x => 0 <= x) l -> 0 <= sumQ l.
Proof.
  induction 1 as [|x l Hx _ IH]; simpl; lra.
Qed.

Lemma sumQ_member l x : Forall (fun x => 0 <= x) l -> In x l -> x <= sumQ l.
Proof.
  induction 1 as [|y l Hy F IH]; simpl; intros Hin; [contradiction|].
  pose proof (sumQ_nonneg l F).
  destruct Hin as [->|Hin]; [lra | specialize (IH Hin); lra].
Qed.

Lemma sumQ_perm l l' : Permutation l l' -> sumQ l == sumQ l'.
Proof.
  induction 1; simpl; try lra.
Qed.

(** A fold of additions that ends finite went through finite values. *)
Lemma fold_add_finite l : forall acc,
  Forall isTotal l -> isTotal acc ->
  finiteTotal (fold_left (fun s a => (s + a)%float) l acc) ->
  finiteTotal acc /\ Forall finiteTotal l.
Proof.
  induction l as [|a l IH]; simpl; intros acc Fl Fa HF; [auto|].
  inversion Fl as [|? ? Ta Fl']; subst.
  assert (isTotal (acc + a)%float) as Tn
      by (apply add_total; [exact Fa | apply isTotal_isAmount; exact Ta]).
  destruct (IH _ Fl' Tn HF) as [Fn Fl2].
  destruct (add_value acc a Fa Ta Fn) as (F1 & F2 & _). auto.
Qed.

Lemma fold_add_value l : forall acc n A,
  Forall isTotal l -> isTotal acc ->
  finiteTotal (fold_left (fun s a => (s + a)%float) l acc) ->
  (Z.of_nat (n + List.length l) <= 4294967296)%Z ->
  0 <= A ->
  shrink n * A <= exactValue acc <= growth n * A ->
  let S := A + sumQ (map exactValue l) in
  shrink (n + List.length l) * S
    <= exactValue (fold_left (fun s a => (s + a)%float) l acc)
    <= growth (n + List.length l) * S.
Proof.
  induction l as [|a l IH]; intros acc n A Fl Fa HF Hn PA HA.
  - simpl. rewrite Nat.add_0_r.
    assert (A + 0 == A) as EQ by ring. cbv zeta. rewrite EQ. exact HA.
  - inversion Fl as [|? ? Ta Fl']; subst. simpl fold_left in *.
    assert (isTotal (acc + a)%float) as Tn
        by (apply add_total; [exact Fa | apply isTotal_isAmount; exact Ta]).
    destruct (fold_add_finite l _ Fl' Tn HF) as [Fn _].
    destruct (add_value acc a Fa Ta Fn) as (F1 & F2 & Bv).
    pose proof (exactValue_nonneg a F2) as Pa.
    simpl List.length in *.
    pose proof (growth_bound n ltac:(lia)) as [G1 _].
    pose proof (shrink_bound n ltac:(lia)) as [_ S1].
    pose proof (shrink_nonneg n ltac:(lia)) as S0.
    assert (shrink (S n) * (A + exactValue a) <= exactValue (acc + a)%float
            <= growth (S n) * (A + exactValue a)) as HA'.
    { simpl growth. simpl shrink.
      set (g := growth n) in *. set (s := shrink n) in *.
      set (va := exactValue a) in *. set (vc := exactValue acc) in *.
      set (vn := exactValue (acc + a)%float) in *.
      unfold eps in *. split; nra. }
    specialize (IH (acc + a)%float (S n) (A + exactValue a) Fl' Tn HF
                   ltac:(lia) ltac:(lra) HA').
    replace (n + S (List.length l))%nat with (S n + List.length l)%nat by lia.
    cbv zeta in IH. cbv zeta.
    change (sumQ (map exactValue (a :: l)))
      with (exactValue a + sumQ (map exactValue l)).
    assert (A + (exactValue a + sumQ (map exactValue l))
            == A + exactValue a + sumQ (map exactValue l)) as EQ by ring.
    rewrite EQ. exact IH.
Qed.

(** ** The average *)

(** C7, as stated, fails: 0.01 + 0.06 evaluates to 0.06999999999999999,
    whose half rounds to 0.03, while the total is 0.07, whose half rounds
    to 0.04. *)
Lemma average_of_rounded_total_fails :
  let ts := [tx 0.01; tx 0.06]%float in
  total (calculateSpendingMetrics ts) = 0.07%float
  /\ average (calculateSpendingMetrics ts) = 0.03%float
  /\ specAverage ts = 0.04%float.
Proof. vm_compute. repeat split; reflexivity. Qed.

Lemma sumAmounts_total (ts : list Transaction) :
  forallb (fun t => (0 <=? amount t)%float) ts = true -> isTotal (sumAmounts ts).
Proof.
  assert (forall acc, fold_left (fun sum t => (sum + amount t)%float) ts acc
                      = fold_left (fun s a => (s + a)%float) (map amount ts) acc) as G
      by (induction ts as [|t ts IH]; simpl; intros acc; [reflexivity | apply IH]).
  intros Hpos. unfold sumAmounts. rewrite G. apply sumList_total. rewrite Forall_forall. intros a Ha.
  apply in_map_iff in Ha as (t & <- & Ht). apply isAmount_leb.
  rewrite forallb_forall in Hpos. exact (Hpos t Ht).
Qed.

(** C7, amended: for a non-empty collection the average is the
    unrounded running sum of the amounts divided by the number of
    transactions, rounded to 2 decimals (the total is the same sum,
    rounded): below 10^21 it is the number of cents nearest to the value
    of that quotient, the larger on a tie, and the quotient is the sum
    over the count within a relative error of 2^-52 (and 2^-1074).  It is
    0 when there are no transactions. *)
Theorem average_of_running_sum (t : Transaction) (ts : list Transaction) :
  let all := t :: ts in
  let m := calculateSpendingMetrics all in
  let s := sumAmounts all in
  let n := List.length all in
  let q := (s / ofNat n)%float in
  average m = toFixedNum q 2
  /\ total m = toFixedNum s 2
  /\ transactionCount m = n
  /\ average (calculateSpendingMetrics []) = 0%float
  /\ (forall mq eq,
        Prim2SF q = S754_finite false mq eq ->
        atLeast1e21 mq eq = false ->
        exists cents,
          average m = parseDecimal false cents 2
          /\ inject_Z cents - (1 # 2) <= 100 * exactValue q
               < inject_Z cents + (1 # 2))
  /\ (forallb (fun t => (0 <=? amount t)%float) all = true ->
      (Z.of_nat n <=? 4294967295)%Z = true ->
      (q <? infinity)%float = true ->
      let rho := exactValue s / inject_Z (Z.of_nat n) in
      rho - (eps * rho + eta) <= exactValue q <= rho + (eps * rho + eta)).
Proof.
  intros all m s n q.
  assert (average m = toFixedNum q 2) as E by reflexivity.
  split; [exact E|]. do 3 (split; [reflexivity|]). split.
  - intros mq eq Hq Hlt. exists (scaledRound mq eq 2). split.
    + rewrite E. unfold toFixedNum. rewrite Hq, Hlt. reflexivity.
    + unfold exactValue. rewrite Hq. cbn [SF2Q].
      exact (scaledRound_spec mq eq 2 ltac:(lia)).
  - intros Hpos Hn Hq. apply Z.leb_le in Hn.
    assert (1 <= Z.of_nat n < 2 ^ 53)%Z as Bn.
    { change (2 ^ 53)%Z with 9007199254740992%Z. clearbody q s m.
      unfold n, all in *. simpl List.length in *. lia. }
    destruct (ofNat_value n Bn) as (my & ey & ET & EV).
    pose proof (sumAmounts_total all Hpos) as Ts. fold s in Ts.
    destruct (quot_finite s (ofNat n) Ts (ex_intro _ my (ex_intro _ ey ET)) Hq)
      as [Fs Fq].
    pose proof (quot_value s (ofNat n) Fs (ex_intro _ my (ex_intro _ ey ET)) Fq) as B.
    cbv zeta in B |- *.
    assert (exactValue (ofNat n) == inject_Z (Z.of_nat n)) as EN
        by (unfold exactValue; rewrite ET; exact EV).
    rewrite EN in B. exact B.
Qed.

(** ** Category percentages *)

Lemma positive_finite T :
  (0 <? T)%float = true -> (T <? infinity)%float = true ->
  exists m e, Prim2SF T = S754_finite false m e.
Proof.
  rewrite !FloatAxioms.ltb_spec.
  change (Prim2SF 0) with (S754_zero false).
  change (Prim2SF infinity) with (S754_infinity false).
  destruct (Prim2SF T) as [[]|[]| |[] m e]; cbv; try discriminate; eauto.
Qed.

Lemma sum_percentages T l :
  (exists m e, Prim2SF T = S754_finite false m e) ->
  Forall finiteTotal l ->
  Forall (fun a => exactValue a <= 2 * exactValue T) l ->
  let c := inject_Z (Z.of_nat (List.length l)) * ((1 # 20) + 1000 * eps) in
  let exact := 100 * (sumQ (map exactValue l) / exactValue T) in
  exact - c <= sumQ (map exactValue (map (percentOf T) l)) <= exact + c.
Proof.
  intros HT. induction 1 as [|a l Fa Fl IH]; intros Hb; cbv zeta.
  - change (sumQ (map exactValue [])) with 0. unfold Qdiv.
    change (inject_Z (Z.of_nat (List.length (@nil num)))) with 0.
    cbn [map sumQ fold_right]. split; ring_simplify; lra.
  - inversion Hb as [|? ? Ha Hb']; subst. specialize (IH Hb'). cbv zeta in IH.
    destruct (percentage_value a T Fa HT Ha) as [_ Bp].
    assert (0 < exactValue T) as PT.
    { destruct HT as (m & e & ET). unfold exactValue. rewrite ET. cbn [SF2Q].
      pose proof (two_pow_pos e).
      assert (0 < inject_Z (Zpos m)) by (apply (inject_Z_pos_lt 0); lia). nra. }
    change (sumQ (map exactValue (map (percentOf T) (a :: l))))
      with (exactValue (percentOf T a) + sumQ (map exactValue (map (percentOf T) l))).
    change (sumQ (map exactValue (a :: l)))
      with (exactValue a + sumQ (map exactValue l)).
    change (List.length (a :: l)) with (S (List.length l)).
    rewrite inject_nat_succ.
    assert ((exactValue a + sumQ (map exactValue l)) / exactValue T
            == exactValue a / exactValue T + sumQ (map exactValue l) / exactValue T) as EQ
        by (field; lra).
    rewrite EQ. fold (percentOf T a) in Bp.
    set (x := exactValue a / exactValue T) in *.
    set (y := sumQ (map exactValue l) / exactValue T) in *.
    set (K := inject_Z (Z.of_nat (List.length l))) in *.
    unfold eps in *. split; lra.
Qed.

Lemma firstSeen_length ks : (List.length (firstSeen ks) <= List.length ks)%nat.
Proof.
  unfold firstSeen.
  assert (forall acc,
            (List.length (fold_left (fun acc k => if existsb (String.eqb k) acc
                                                  then acc else acc ++ [k]) ks acc)
             <= List.length acc + List.length ks)%nat) as G.
  { induction ks as [|k ks IH]; simpl; intros acc; [lia|].
    specialize (IH (if existsb (String.eqb k) acc then acc else acc ++ [k])).
    destruct (existsb (String.eqb k) acc); [lia|].
    rewrite length_app in IH. simpl in IH. lia. }
  apply (G []).
Qed.

(** C8, as stated, fails: one transaction of amount 0 is a non-empty
    collection whose only percentage is 0; and a transaction in a category
    named [__proto__] is a non-empty collection without any percentage. *)
Lemma percentages_of_zero_total :
  let r := [mkCategoryEntry "Food" 0 0 1 0]%float in
  analyzeCategoricalSpending zeroSpending = Returned r
  /\ (1 # 10) * inject_Z (Z.of_nat (List.length r))
     < Qabs (sumQ (map (fun c => exactValue (percentage c)) r) - 100)
  /\ analyzeCategoricalSpending [mkTransaction "2024-01-01" "__proto__" 10%float]
     = Returned [].
Proof. vm_compute. repeat split; reflexivity. Qed.

Lemma categoryEntry_percentage counts T kv :
  percentage (plainCategoryEntry counts T kv)
  = if (0 <? T)%float then percentOf T (snd kv) else 0%float.
Proof. destruct kv; reflexivity. Qed.

(** The exact sum is within a relative [2 * k * 2^-52] of its floating
    point evaluation. *)
Lemma ratio_bound (S vT kappa : Q) :
  0 <= kappa -> kappa <= (1 # 1048576) -> 0 <= S -> 0 < vT ->
  (1 - kappa) * S <= vT -> vT <= (1 + 2 * kappa) * S ->
  S <= 2 * vT /\ 1 - 2 * kappa <= S / vT <= 1 + 2 * kappa.
Proof.
  intros K0 K1 S0 T0 L U.
  assert (kappa * S <= (1 # 1048576) * S) as KS
      by (apply Qmult_le_compat_r; assumption).
  assert (0 <= kappa * S) as KS0 by (apply Qmult_le_0_compat; assumption).
  assert (0 <= kappa * vT) as KT0 by (apply Qmult_le_0_compat; lra).
  assert (kappa * (kappa * S) <= (1 # 1048576) * (kappa * S)) as KKS
      by (apply Qmult_le_compat_r; assumption).
  split; [lra|]. split.
  - apply Qle_shift_div_l; [exact T0|].
    assert (vT * (1 - 2 * kappa) <= (1 + 2 * kappa) * S * (1 - 2 * kappa)) as H
        by (apply Qmult_le_compat_r; lra).
    assert ((1 + 2 * kappa) * S * (1 - 2 * kappa) == S - 4 * (kappa * (kappa * S))) as E
        by ring.
    assert (0 <= kappa * (kappa * S)) by (apply Qmult_le_0_compat; assumption).
    lra.
  - apply Qle_shift_div_r; [exact T0|].
    assert (S * kappa <= 2 * vT * kappa) as H
        by (apply Qmult_le_compat_r; lra).
    lra.
Qed.

(** C8, amended: when the grand total of the categories is positive (and
    finite), the percentages sum to 100 within 0.1 per category; when it
    is not positive every percentage is 0.  Amounts are non-negative, no
    category is the name of a member of [Object.prototype] and the
    collection is an array (fewer than 2^32 transactions); [T] is the
    grand total, a number under these conditions. *)
Theorem percentages_sum (ts : list Transaction) :
  forallb (fun t => (0 <=? amount t)%float) ts = true ->
  (Z.of_nat (List.length ts) <=? 4294967295)%Z = true ->
  plainKeys (map category ts) = true ->
  exists T r,
    grandTotal (categoryTotals ts) = Number T
    /\ analyzeCategoricalSpending ts = Returned r
    /\ ((0 <? T)%float = false -> Forall (fun c => percentage c = 0%float) r)
    /\ ((0 <? T)%float = true -> (T <? infinity)%float = true ->
        Qabs (sumQ (map (fun c => exactValue (percentage c)) r) - 100)
        <= (1 # 10) * inject_Z (Z.of_nat (List.length r))).
Proof.
  intros Hpos Hlen Hplain.
  exists (plainGrandTotal (plainCategoryTotals ts)), (plainCategories ts).
  split; [rewrite (categoryTotals_plain ts Hplain); apply grandTotal_numbers|].
  split; [apply analyzeCategoricalSpending_plain; exact Hplain|].
  set (T := plainGrandTotal (plainCategoryTotals ts)).
  set (r := plainCategories ts).
  apply Z.leb_le in Hlen.
  set (totals := plainCategoryTotals ts) in *.
  set (es := JsObject.entries totals).
  set (counts := plainCategoryCounts ts).
  assert (Permutation r (map (plainCategoryEntry counts T) es)) as Perm
      by (unfold r, plainCategories; apply sort_perm).
  split.
  { intros H0. apply (Forall_perm _ (map (plainCategoryEntry counts T) es));
      [symmetry; exact Perm|].
    rewrite Forall_forall. intros c Hc. apply in_map_iff in Hc as (kv & <- & _).
    rewrite categoryEntry_percentage, H0. reflexivity. }
  intros H1 H2.
  set (l := map snd es).
  assert (T = fold_left (fun s a => (s + a)%float) l 0%float) as ET by reflexivity.
  pose proof (positive_finite T H1 H2) as HT.
  assert (Forall isTotal l) as Tl.
  { unfold l. rewrite Forall_forall. intros a Ha.
    apply in_map_iff in Ha as ([k v] & <- & Hkv).
    apply (Permutation_in _ (entries_perm totals)) in Hkv.
    destruct (accumulated_property category ts k v Hpos Hkv) as (_ & Tv & _).
    exact Tv. }
  assert (finiteTotal T) as FT
      by (destruct HT as (m & e & E); unfold finiteTotal; rewrite E; reflexivity).
  assert (List.length l <= List.length ts)%nat as Hk.
  { unfold l, es. rewrite length_map, (Permutation_length (entries_perm totals)).
    rewrite <- (length_map fst totals).
    unfold totals, plainCategoryTotals. rewrite fold_accumulate, keys_accumulateAll_empty.
    rewrite map_map. eapply Nat.le_trans; [apply firstSeen_length|].
    rewrite length_map. lia. }
  rewrite ET in FT.
  destruct (fold_add_finite l 0%float Tl isTotal_zero FT) as [_ Fl].
  assert (shrink 0 * 0 <= exactValue 0%float <= growth 0 * 0) as H00
      by (change (exactValue 0%float) with 0; simpl; split; lra).
  pose proof (fold_add_value l 0%float 0%nat 0 Tl isTotal_zero FT
                ltac:(simpl; lia) ltac:(lra) H00) as Bsum.
  cbv zeta in Bsum. simpl Nat.add in Bsum. rewrite <- ET in Bsum.
  set (k := List.length l) in *.
  set (S := sumQ (map exactValue l)) in *.
  assert (0 + S == S) as E0 by ring. rewrite E0 in Bsum. clear E0.
  pose proof (growth_bound k ltac:(lia)) as [_ G].
  pose proof (shrink_bound k ltac:(lia)) as [Sh _].
  set (K := inject_Z (Z.of_nat k)) in *.
  assert (0 <= K) as K0 by apply inject_nat_nonneg.
  assert (K <= 4294967296) as K1
      by (unfold K; apply (inject_Z_pos_le _ 4294967296); lia).
  assert (0 <= S) as S0.
  { unfold S. apply sumQ_nonneg. rewrite Forall_forall. intros x Hx.
    apply in_map_iff in Hx as (a & <- & Ha). apply exactValue_nonneg.
    rewrite Forall_forall in Fl. exact (Fl a Ha). }
  assert (0 < exactValue T) as PT.
  { destruct HT as (m & e & E). unfold exactValue. rewrite E. cbn [SF2Q].
    pose proof (two_pow_pos e).
    assert (0 < inject_Z (Zpos m)) by (apply (inject_Z_pos_lt 0); lia). nra. }
  assert ((1 - K * eps) * S <= shrink k * S) as L1
      by (apply Qmult_le_compat_r; assumption).
  assert (growth k * S <= (1 + 2 * K * eps) * S) as L2
      by (apply Qmult_le_compat_r; assumption).
  assert (0 <= K * eps) as Kp0 by (unfold eps; nra).
  assert (K * eps <= 1 # 1048576) as Kp1 by (unfold eps; lra).
  assert ((1 - K * eps) * S <= exactValue T) as L3 by lra.
  assert (exactValue T <= (1 + 2 * (K * eps)) * S) as L4.
  { assert ((1 + 2 * (K * eps)) * S == (1 + 2 * K * eps) * S) as EQ by ring.
    rewrite EQ. lra. }
  destruct (ratio_bound S (exactValue T) (K * eps) Kp0 Kp1 S0 PT L3 L4) as [R1 R2].
  assert (Forall (fun a => exactValue a <= 2 * exactValue T) l) as Hb.
  { rewrite Forall_forall. intros a Ha.
    assert (exactValue a <= S); [|lra].
    unfold S. apply sumQ_member.
    - rewrite Forall_forall. intros x Hx.
      apply in_map_iff in Hx as (b & <- & Hb). apply exactValue_nonneg.
      rewrite Forall_forall in Fl. exact (Fl b Hb).
    - apply in_map. exact Ha. }
  pose proof (sum_percentages T l HT Fl Hb) as Bp. cbv zeta in Bp.
  fold k K S in Bp.
  assert (sumQ (map (fun c => exactValue (percentage c)) r)
          == sumQ (map exactValue (map (percentOf T) l))) as EX.
  { rewrite (sumQ_perm _ _ (Permutation_map _ Perm)).
    unfold l. rewrite !map_map.
    assert (map (fun x => exactValue (percentage (plainCategoryEntry counts T x))) es
            = map (fun x => exactValue (percentOf T (snd x))) es) as ->; [|reflexivity].
    apply map_ext. intros kv. rewrite categoryEntry_percentage, H1. reflexivity. }
  assert (List.length r = k) as Er.
  { rewrite (Permutation_length Perm). unfold k, l. rewrite !length_map. reflexivity. }
  rewrite EX, Er. fold K.
  apply Qabs_Qle_condition.
  set (X := sumQ (map exactValue (map (percentOf T) l))) in *.
  set (rho := S / exactValue T) in *.
  unfold eps in *. split; lra.
Qed.

Local Close Scope Q_scope.

(** * Further properties *)

(** ** The lookup and the list of ids *)

Section LookupOrder.

Variable dateValue : string -> num.

Lemma find_first (ss pre post : list Student) (s : Student) (id : string) :
  ss = pre ++ s :: post ->
  studentId s = id ->
  ~ In id (map studentId pre) ->
  find (fun s => String.eqb (studentId s) id) ss = Some s.
Proof.
  intros -> Hs. induction pre as [|p pre IH]; simpl; intros Hn.
  - rewrite Hs, String.eqb_refl. reflexivity.
  - destruct (String.eqb_spec (studentId p) id) as [E|_]; [tauto|].
    apply IH. tauto.
Qed.

(** The transactions of a regular record have what makes the sorts
    consistent and the accumulators hold numbers. *)
Lemma regular_parts (ts : list Transaction) :
  regular dateValue ts = true ->
  forallb (fun t => (0 <=? amount t)%float) ts = true
  /\ forallb (fun t => negb (is_nan (dateValue (date t)))) ts = true
  /\ plainKeys (map category ts) = true
  /\ plainKeys (map date ts) = true.
Proof.
  unfold regular. rewrite !Bool.andb_true_iff. tauto.
Qed.

(** X1: the analysis of an id is computed from the first record that
    carries it: its identity fields, its budget and the metrics, the
    breakdown and the timeline of its transactions; a later record with
    the same id is never analysed.  The record is regular: non-negative
    amounts, dates that parse, no category or date named like a member of
    [Object.prototype]. *)
Theorem analyzeStudent_first_record (d : Dataset) (pre post : list Student)
        (s : Student) (this : Analyzer) :
  students d = pre ++ s :: post ->
  ~ In (studentId s) (map studentId pre) ->
  regular dateValue (transactions s) = true ->
  exists cs tl,
    analyzeCategoricalSpending (transactions s) = Returned cs
    /\ analyzeSpendingTimeline dateValue (transactions s) = Returned tl
    /\ analyzeStudent dateValue (loadData this d) (studentId s)
       = Returned
           (mkAnalysis
              (mkStudentInfo (studentId s) (name s) (semester s) (monthlyBudget s))
              (calculateSpendingMetrics (transactions s))
              (analyzeBudget (transactions s) (monthlyBudget s))
              cs tl).
Proof.
  intros Hd Hn Hreg. apply regular_parts in Hreg as (_ & _ & Hc & Hdt).
  pose proof (find_first (students d) pre post s (studentId s) Hd eq_refl Hn) as F.
  destruct (analyzeStudent_found dateValue d this (studentId s) s F) as [_ Hr].
  cbv zeta in Hr. destruct Hr as [E|Hr]; [|exact Hr].
  exfalso. unfold analyzeStudent, loadData in E. cbn [data] in E. rewrite F in E.
  rewrite (analyzeCategoricalSpending_plain _ Hc),
    (analyzeSpendingTimeline_plain dateValue _ Hdt) in E.
  discriminate E.
Qed.

(** X2: without data [getStudentIds] is empty; on a loaded dataset it
    lists one id per record, in order; [analyzeStudent] throws an error
    of its own exactly for the ids that are not listed; and when every
    record is regular it returns exactly for the ids listed, with an
    analysis that carries the id asked for. *)
Theorem getStudentIds_analyzed (d : Dataset) (this : Analyzer) :
  let a := loadData this d in
  getStudentIds newAnalyzer = []
  /\ getStudentIds a = map studentId (students d)
  /\ (forall id,
        In id (getStudentIds a)
        <-> forall msg, analyzeStudent dateValue a id <> Thrown msg)
  /\ (forallb (fun s => regular dateValue (transactions s)) (students d) = true ->
      forall id,
        In id (getStudentIds a)
        <-> exists r, analyzeStudent dateValue a id = Returned r
                      /\ infoId (studentInfo r) = id).
Proof.
  intros a. split; [reflexivity|]. split; [reflexivity|].
  change (getStudentIds a) with (map studentId (students d)).
  assert (forall id, ~ In id (map studentId (students d)) ->
            analyzeStudent dateValue a id = Thrown (notFoundMessage id)) as Hout.
  { intros id Hi.
    pose proof (proj2 (find_student_none dateValue (students d) id) Hi) as F.
    unfold a, analyzeStudent, loadData. cbn [data]. rewrite F. reflexivity. }
  assert (forall id, In id (map studentId (students d)) ->
            exists s, find (fun s => String.eqb (studentId s) id) (students d) = Some s
                      /\ studentId s = id /\ In s (students d)) as Hfind.
  { intros id Hi.
    destruct (find (fun s => String.eqb (studentId s) id) (students d)) as [s|] eqn:F.
    - exists s. apply find_some in F as [Hs E]. apply String.eqb_eq in E. auto.
    - exfalso.
      exact (proj1 (find_student_none dateValue (students d) id) F Hi). }
  split.
  - intros id. split.
    + intros Hi. destruct (Hfind id Hi) as (s & F & _).
      exact (proj1 (analyzeStudent_found dateValue d this id s F)).
    + intros Hno. destruct (in_dec string_dec id (map studentId (students d)))
        as [Hi|Hi]; [exact Hi|].
      exfalso. exact (Hno _ (Hout id Hi)).
  - intros Hreg id. split.
    + intros Hi. destruct (Hfind id Hi) as (s & F & Es & Hs).
      rewrite forallb_forall in Hreg. specialize (Hreg s Hs).
      apply regular_parts in Hreg as (_ & _ & Hc & Hdt).
      destruct (analyzeStudent_found dateValue d this id s F) as [_ Hr].
      cbv zeta in Hr. destruct Hr as [E|(cs & tl & _ & _ & E)].
      * exfalso. unfold analyzeStudent, loadData in E. cbn [data] in E.
        rewrite F in E.
        rewrite (analyzeCategoricalSpending_plain _ Hc),
          (analyzeSpendingTimeline_plain dateValue _ Hdt) in E.
        discriminate E.
      * eexists. split; [exact E | exact Es].
    + intros (r & E & _).
      destruct (in_dec string_dec id (map studentId (students d))) as [Hi|Hi];
        [exact Hi|].
      exfalso. unfold a in E. fold a in E. rewrite (Hout id Hi) in E. discriminate E.
Qed.

End LookupOrder.

(** ** The validator's errors *)

Lemma forEachFrom_failed body l : forall k m,
  forEachFrom body k l = Failed m -> exists i x, In x l /\ body i x = Failed m.
Proof.
  induction l as [|x l IH]; simpl; intros k m H; [discriminate|].
  destruct (body k x) eqn:B.
  - destruct (IH _ _ H) as (i & y & Hy & E). eauto.
  - injection H as <-. eauto.
  - discriminate.
Qed.

Lemma forEachFrom_typeError body l : forall k,
  forEachFrom body k l = TypeError -> exists i x, In x l /\ body i x = TypeError.
Proof.
  induction l as [|x l IH]; simpl; intros k H; [discriminate|].
  destruct (body k x) eqn:B.
  - destruct (IH _ H) as (i & y & Hy & E). eauto.
  - discriminate.
  - eauto.
Qed.

Lemma checkStudent_cases index s :
  isNullish s = false ->
  checkStudent index s
  = if studentFieldsOk s
    then match field s "transactions" with
         | JArray elems => forEachFrom (checkTransaction index) 0 elems
         | _ => Failed (studentTransactionsMessage index)
         end
    else Failed (studentFieldsMessage index).
Proof.
  intros N. unfold checkStudent, studentFieldsOk.
  rewrite !(getProp_field s _ N).
  destruct (toBoolean (field s "studentId")), (toBoolean (field s "name")),
    (toBoolean (field s "monthlyBudget")); reflexivity.
Qed.

Lemma checkStudent_nullish index s :
  isNullish s = true -> checkStudent index s = TypeError.
Proof. destruct s; simpl; intros H; try discriminate H; reflexivity. Qed.

Lemma checkStudent_failed index s m :
  checkStudent index s = Failed m ->
  exists rest, m = ("Student " ++ rest)%string.
Proof.
  destruct (isNullish s) eqn:N.
  - rewrite (checkStudent_nullish index s N). discriminate.
  - rewrite (checkStudent_cases index s N).
    destruct (studentFieldsOk s).
    + destruct (field s "transactions");
        try (intros [= <-]; eexists; reflexivity).
      intros H. apply forEachFrom_failed in H as (i & x & _ & H).
      destruct (checkTransaction_cases index i x)
        as [[_ E]|[(_ & _ & E)|(_ & _ & E)]]; rewrite E in H; try discriminate H.
      injection H as <-. eexists. reflexivity.
    + intros [= <-]. eexists. reflexivity.
Qed.

(** X3: the validator throws "Invalid data structure: Missing students
    array" exactly when the data is falsy or its [students] is not an
    array; no later check produces that message. *)
Theorem validateData_structure_error (d : JsValue) :
  validateData d = Failed "Invalid data structure: Missing students array"
  <-> toBoolean d = false \/ isArray (field d "students") = false.
Proof.
  unfold validateData. destruct (toBoolean d) eqn:T.
  - rewrite (getProp_field d _ (toBoolean_not_nullish d T)).
    destruct (field d "students") as [| | | | |elems|]; simpl isArray;
      try (split; [intros _; right; reflexivity | reflexivity]).
    split.
    + intros H. apply forEachFrom_failed in H as (i & x & _ & H).
      apply checkStudent_failed in H as (rest & H). discriminate H.
    + intros [H|H]; discriminate H.
  - split; [intros _; left; reflexivity | reflexivity].
Qed.

(** X4: the first record that is not accepted decides the error.  When
    one of its id, name and budget is missing or falsy the error is
    "Student i: Missing required fields", whatever its transactions are;
    when these are in place and its [transactions] is not an array the
    error is "Student i: Missing or invalid transactions"; [i] counts the
    records from 1. *)
Theorem validateData_record_error (d : JsValue) (pre post : list JsValue)
        (s : JsValue) :
  toBoolean d = true ->
  field d "students" = JArray (pre ++ s :: post) ->
  forallb recordOk pre = true ->
  isNullish s = false ->
  (studentFieldsOk s = false ->
   validateData d
   = Failed ("Student " ++ showNat (List.length pre + 1)
               ++ ": Missing required fields")%string)
  /\ (studentFieldsOk s = true ->
      isArray (field s "transactions") = false ->
      validateData d
      = Failed ("Student " ++ showNat (List.length pre + 1)
                  ++ ": Missing or invalid transactions")%string).
Proof.
  intros T Hs Hpre N. unfold validateData. rewrite T.
  rewrite (getProp_field d _ (toBoolean_not_nullish d T)), Hs.
  assert (recordOk s = false -> forEachFrom checkStudent 0 (pre ++ s :: post)
                                = checkStudent (List.length pre) s) as First.
  { intros B.
    apply (forEachFrom_first checkStudent recordOk checkStudent_passed pre s post 0
             Hpre B). }
  split.
  - intros F. rewrite First.
    + rewrite (checkStudent_cases _ s N), F. reflexivity.
    + unfold recordOk. unfold studentFieldsOk in F.
      destruct (negb (isNullish s)); [|reflexivity]. rewrite andb_true_l.
      rewrite F. reflexivity.
  - intros F A. rewrite First.
    + rewrite (checkStudent_cases _ s N), F.
      destruct (field s "transactions"); try reflexivity. discriminate A.
    + unfold recordOk.
      destruct (field s "transactions"); try discriminate A;
        apply andb_false_r.
Qed.

(** X5: a [null] or [undefined] entry is not reported by the validator's
    own errors: reading its fields raises a [TypeError], for a record that
    is the first defect of the dataset and for a transaction that is the
    first defect of its record; and a [TypeError] has no other cause. *)
Theorem validateData_type_error (d : JsValue) :
  (forall pre s post,
      toBoolean d = true ->
      field d "students" = JArray (pre ++ s :: post) ->
      forallb recordOk pre = true ->
      isNullish s = true ->
      validateData d = TypeError)
  /\ (forall pre s post preT t postT,
        toBoolean d = true ->
        field d "students" = JArray (pre ++ s :: post) ->
        forallb recordOk pre = true ->
        isNullish s = false ->
        studentFieldsOk s = true ->
        field s "transactions" = JArray (preT ++ t :: postT) ->
        forallb transactionOk preT = true ->
        isNullish t = true ->
        validateData d = TypeError)
  /\ (validateData d = TypeError ->
      exists ss s,
        field d "students" = JArray ss /\ In s ss
        /\ (isNullish s = true
            \/ exists ts t, field s "transactions" = JArray ts /\ In t ts
                            /\ isNullish t = true)).
Proof.
  split; [|split].
  - intros pre s post T Hs Hpre N. unfold validateData. rewrite T.
    rewrite (getProp_field d _ (toBoolean_not_nullish d T)), Hs.
    rewrite (forEachFrom_first checkStudent recordOk checkStudent_passed pre s post 0
               Hpre).
    + apply checkStudent_nullish. exact N.
    + unfold recordOk. rewrite N. reflexivity.
  - intros pre s post preT t postT T Hs Hpre N F Ht HpreT Nt.
    unfold validateData. rewrite T.
    rewrite (getProp_field d _ (toBoolean_not_nullish d T)), Hs.
    assert (transactionOk t = false) as Bt by (unfold transactionOk; rewrite Nt; reflexivity).
    rewrite (forEachFrom_first checkStudent recordOk checkStudent_passed pre s post 0
               Hpre).
    + rewrite (checkStudent_cases _ s N), F, Ht.
      rewrite (forEachFrom_first (checkTransaction (0 + List.length pre)) transactionOk
                 (fun i x => checkTransaction_passed (0 + List.length pre) i x)
                 preT t postT 0 HpreT Bt).
      destruct (checkTransaction_cases (0 + List.length pre) (0 + List.length preT) t)
        as [[C _]|[(_ & _ & E)|(_ & C & _)]]; try congruence.
    + unfold recordOk. rewrite Ht.
      rewrite forallb_app. simpl forallb. rewrite Bt.
      rewrite andb_false_r. apply andb_false_r.
  - unfold validateData. destruct (toBoolean d) eqn:T; [|discriminate].
    rewrite (getProp_field d _ (toBoolean_not_nullish d T)).
    destruct (field d "students") as [| | | | |ss|]; try discriminate.
    intros H. apply forEachFrom_typeError in H as (i & s & Hs & H).
    exists ss, s. split; [reflexivity|]. split; [exact Hs|].
    destruct (isNullish s) eqn:N; [left; reflexivity|right].
    rewrite (checkStudent_cases i s N) in H.
    destruct (studentFieldsOk s); [|discriminate].
    destruct (field s "transactions") as [| | | | |ts|]; try discriminate.
    apply forEachFrom_typeError in H as (j & t & Ht & H).
    exists ts, t. split; [reflexivity|]. split; [exact Ht|].
    destruct (checkTransaction_cases i j t)
      as [[_ E]|[(_ & Nt & _)|(_ & _ & E)]]; try congruence.
Qed.

(** ** Budget status and a budget that is not positive *)

Lemma leb_false_cases (u c : num) :
  notNaN c ->
  (u <=? c)%float = false <-> (c <? u)%float = true \/ is_nan u = true.
Proof.
  intros Nc. destruct (is_nan u) eqn:N.
  - split; [intros _; right; reflexivity|]. intros _.
    destruct (u <=? c)%float eqn:L; [|reflexivity].
    apply FloatOrder.leb_notNaN in L as [L _].
    apply FloatOrder.is_nan_false in L. congruence.
  - apply FloatOrder.is_nan_false in N. split.
    + intros L. left. destruct (c <? u)%float eqn:G; [reflexivity|].
      rewrite (FloatOrder.ltb_false_leb c u Nc N G) in L. discriminate.
    + intros [G|G]; [|discriminate]. apply FloatOrder.ltb_leb_false. exact G.
Qed.

Lemma notNaN_literal (c : num) : is_nan c = false -> notNaN c.
Proof. apply FloatOrder.is_nan_false. Qed.

(** X6: [getBudgetStatus] is decided by the band alone, each status
    standing for exactly one band; a percentage that is not a number
    ([NaN], as from an infinite sum over an infinite budget) compares
    false with every boundary and is reported "Over Budget". *)
Theorem getBudgetStatus_exact (u : num) :
  (getBudgetStatus u = "Conservative" <-> (u <=? 50)%float = true)
  /\ (getBudgetStatus u = "Moderate"
      <-> (50 <? u)%float = true /\ (u <=? 75)%float = true)
  /\ (getBudgetStatus u = "High"
      <-> (75 <? u)%float = true /\ (u <=? 90)%float = true)
  /\ (getBudgetStatus u = "Near Limit"
      <-> (90 <? u)%float = true /\ (u <=? 100)%float = true)
  /\ (getBudgetStatus u = "Over Budget"
      <-> (100 <? u)%float = true \/ is_nan u = true).
Proof.
  pose proof (getBudgetStatus_bands u) as (B1 & B2 & B3 & B4 & B5).
  assert (forall c, is_nan c = false -> (u <=? c)%float = false ->
            is_nan u = false -> (c <? u)%float = true) as above.
  { intros c Nc L N. apply (leb_false_cases u c (notNaN_literal c Nc)) in L
      as [G|G]; congruence. }
  assert (forall c, (u <=? c)%float = true -> is_nan u = false) as num.
  { intros c L. apply FloatOrder.leb_notNaN in L as [L _].
    apply FloatOrder.is_nan_false. exact L. }
  unfold getBudgetStatus in *.
  destruct (u <=? 50)%float eqn:L50.
  { repeat split; try discriminate; try reflexivity.
    - intros [G _]. rewrite (FloatOrder.ltb_leb_false _ _ G) in L50. discriminate.
    - intros [G _].
      assert ((50 <? u)%float = true) as G' by
          (apply (FloatOrder.leb_ltb_trans _ 75); [reflexivity | exact G]).
      rewrite (FloatOrder.ltb_leb_false _ _ G') in L50. discriminate.
    - intros [G _].
      assert ((50 <? u)%float = true) as G' by
          (apply (FloatOrder.leb_ltb_trans _ 90); [reflexivity | exact G]).
      rewrite (FloatOrder.ltb_leb_false _ _ G') in L50. discriminate.
    - intros [G|G].
      + assert ((50 <? u)%float = true) as G' by
            (apply (FloatOrder.leb_ltb_trans _ 100); [reflexivity | exact G]).
        rewrite (FloatOrder.ltb_leb_false _ _ G') in L50. discriminate.
      + rewrite (num _ L50) in G. discriminate. }
  destruct (u <=? 75)%float eqn:L75.
  { repeat split; try discriminate; try reflexivity.
    - apply (above 50%float); [reflexivity | exact L50 | exact (num _ L75)].
    - intros [G _].
      rewrite (FloatOrder.ltb_leb_false _ _ G) in L75. discriminate.
    - intros [G _].
      assert ((75 <? u)%float = true) as G' by
          (apply (FloatOrder.leb_ltb_trans _ 90); [reflexivity | exact G]).
      rewrite (FloatOrder.ltb_leb_false _ _ G') in L75. discriminate.
    - intros [G|G].
      + assert ((75 <? u)%float = true) as G' by
            (apply (FloatOrder.leb_ltb_trans _ 100); [reflexivity | exact G]).
        rewrite (FloatOrder.ltb_leb_false _ _ G') in L75. discriminate.
      + rewrite (num _ L75) in G. discriminate. }
  destruct (u <=? 90)%float eqn:L90.
  { repeat split; try discriminate; try reflexivity.
    - intros [_ G]. discriminate G.
    - apply (above 75%float); [reflexivity | exact L75 | exact (num _ L90)].
    - intros [G _].
      rewrite (FloatOrder.ltb_leb_false _ _ G) in L90. discriminate.
    - intros [G|G].
      + assert ((90 <? u)%float = true) as G' by
            (apply (FloatOrder.leb_ltb_trans _ 100); [reflexivity | exact G]).
        rewrite (FloatOrder.ltb_leb_false _ _ G') in L90. discriminate.
      + rewrite (num _ L90) in G. discriminate. }
  destruct (u <=? 100)%float eqn:L100.
  { repeat split; try discriminate; try reflexivity.
    - intros [_ G]. discriminate G.
    - intros [_ G]. discriminate G.
    - apply (above 90%float); [reflexivity | exact L90 | exact (num _ L100)].
    - intros [G|G].
      + rewrite (FloatOrder.ltb_leb_false _ _ G) in L100. discriminate.
      + rewrite (num _ L100) in G. discriminate. }
  repeat split; try discriminate; try reflexivity;
    try (intros [_ G]; discriminate G).
  intros _. apply (leb_false_cases u 100%float); [|exact L100].
  apply notNaN_literal. reflexivity.
Qed.

(** X7: a budget that is not positive (zero, negative or [NaN]) is never
    divided by: the utilization is 0 and the status "Conservative",
    whatever was spent; for a negative budget and non-negative amounts, and
    for a zero budget and a positive sum, [isOverBudget] is true all the
    same. *)
Theorem budget_not_positive (ts : list Transaction) (b : num) :
  (0 <? b)%float = false ->
  let r := analyzeBudget ts b in
  utilization r = 0%float
  /\ status r = "Conservative"
  /\ ((b <? 0)%float = true ->
      forallb (fun t => (0 <=? amount t)%float) ts = true ->
      isOverBudget r = true)
  /\ ((b <=? 0)%float = true -> (0 <? sumAmounts ts)%float = true ->
      isOverBudget r = true).
Proof.
  intros Hb r. unfold r, analyzeBudget, utilizationPercentage.
  rewrite Hb. cbn [utilization status isOverBudget].
  split; [reflexivity|]. split; [reflexivity|]. split.
  - intros Hneg Hpos. apply (FloatOrder.ltb_leb_trans _ 0%float); [exact Hneg|].
    apply isAmount_leb. apply isTotal_isAmount. apply sumAmounts_total. exact Hpos.
  - intros Hle Hs. exact (FloatOrder.leb_ltb_trans _ _ _ Hle Hs).
Qed.

(** ** Days *)

Lemma firstSeen_step_In acc k x :
  In x (if existsb (String.eqb k) acc then acc else acc ++ [k])
  <-> In x acc \/ x = k.
Proof.
  destruct (existsb (String.eqb k) acc) eqn:E.
  - split; [auto|]. intros [H | ->]; [exact H|].
    apply existsb_exists in E as (y & Hy & Ey). apply String.eqb_eq in Ey.
    subst y. exact Hy.
  - rewrite in_app_iff. simpl. intuition congruence.
Qed.

Lemma firstSeen_In ks x : In x (firstSeen ks) <-> In x ks.
Proof.
  unfold firstSeen.
  assert (forall acc, In x (fold_left (fun acc k =>
              if existsb (String.eqb k) acc then acc else acc ++ [k]) ks acc)
            <-> In x acc \/ In x ks) as G.
  { induction ks as [|k ks IH]; simpl; intros acc; [tauto|].
    rewrite IH, firstSeen_step_In. intuition congruence. }
  rewrite G. simpl. tauto.
Qed.

Lemma firstSeen_count ks :
  List.length (firstSeen ks) = List.length (nodup string_dec ks).
Proof.
  apply Permutation_length. apply NoDup_Permutation.
  - apply firstSeen_nodup.
  - apply NoDup_nodup.
  - intros x. rewrite firstSeen_In, nodup_In. tauto.
Qed.

Lemma uniqueDays_count (ts : list Transaction) :
  getUniqueDays ts = List.length (firstSeen (map date ts)).
Proof. unfold getUniqueDays. symmetry. apply firstSeen_count. Qed.

Lemma uniqueDays_bounds (ts : list Transaction) :
  (getUniqueDays ts <= List.length ts)%nat
  /\ (ts <> [] -> 1 <= getUniqueDays ts)%nat.
Proof.
  rewrite uniqueDays_count. split.
  - eapply Nat.le_trans; [apply firstSeen_length|].
    rewrite length_map. apply Nat.le_refl.
  - intros Hne. destruct ts as [|t ts]; [congruence|].
    assert (In (date t) (firstSeen (map date (t :: ts)))) as Hin
        by (apply firstSeen_In; left; reflexivity).
    destruct (firstSeen (map date (t :: ts))); [destruct Hin | simpl; lia].
Qed.

Section DayCount.

Variable dateValue : string -> num.

(** X8: when no date is the name of a member of [Object.prototype] the
    timeline lists as many days as [getUniqueDays] counts, the divisor of
    the daily average; a non-empty collection has at least one day and at
    most one per transaction.  A date [__proto__] is counted by
    [getUniqueDays] and has no entry in the timeline. *)
Theorem timeline_day_count (ts : list Transaction) :
  plainKeys (map date ts) = true ->
  (exists tl,
     analyzeSpendingTimeline dateValue ts = Returned tl
     /\ List.length (dailySpending tl) = getUniqueDays ts)
  /\ (getUniqueDays ts <= List.length ts)%nat
  /\ (ts <> [] -> 1 <= getUniqueDays ts)%nat
  /\ (exists tl,
        analyzeSpendingTimeline dateValue protoDays = Returned tl
        /\ List.length (dailySpending tl) = 1%nat
        /\ getUniqueDays protoDays = 2%nat).
Proof.
  intros Hplain.
  split; [|split; [apply uniqueDays_bounds|split; [apply uniqueDays_bounds|]]].
  2: { eexists. split; [reflexivity|]. split; reflexivity. }
  exists (plainTimeline dateValue ts).
  split; [apply analyzeSpendingTimeline_plain; exact Hplain|].
  change (dailySpending (plainTimeline dateValue ts))
    with (plainSortedDays dateValue ts).
  rewrite (Permutation_length (sortedDays_perm dateValue ts)), length_map.
  rewrite uniqueDays_count, <- (length_map fst (plainDailyTotals ts)).
  unfold plainDailyTotals. rewrite fold_accumulate, keys_accumulateAll_empty, map_map.
  reflexivity.
Qed.

End DayCount.

(** ** The daily average *)

Lemma ofNat_positive (n : nat) :
  (1 <= Z.of_nat n < 2 ^ 53)%Z -> (0 <? ofNat n)%float = true.
Proof.
  intros Hn. destruct (ofNat_value n Hn) as (m & e & E & _).
  rewrite FloatAxioms.ltb_spec, E. reflexivity.
Qed.

(** X9: for a non-empty collection the daily average is the unrounded
    running sum divided by the number of distinct dates, rounded to 2
    decimals; the fallback to 0 is never taken, the number of days being
    at least 1.  For a quotient of either sign whose magnitude is below
    10^21 the rounding works on the magnitude and keeps the sign: the
    number of cents is the one nearest to the magnitude of the quotient,
    the larger on a tie, so that [-0.125] on one day averages [-0.13].
    For amounts that are not negative the quotient is the sum over the
    number of days within a relative error of 2^-52 (and 2^-1074). *)
Theorem dailyAverage_of_running_sum (t : Transaction) (ts : list Transaction) :
  (Z.of_nat (List.length (t :: ts)) <=? 4294967295)%Z = true ->
  let all := t :: ts in
  let m := calculateSpendingMetrics all in
  let s := sumAmounts all in
  let n := getUniqueDays all in
  let q := (s / ofNat n)%float in
  dailyAverage m = toFixedNum q 2
  /\ (forall sq mq eq,
        Prim2SF q = S754_finite sq mq eq ->
        atLeast1e21 mq eq = false ->
        exists cents,
          dailyAverage m = parseDecimal sq cents 2
          /\ (inject_Z cents - (1 # 2) <= 100 * Qabs (exactValue q)
               < inject_Z cents + (1 # 2))%Q)
  /\ (forallb (fun t => (0 <=? amount t)%float) all = true ->
      (q <? infinity)%float = true ->
      let rho := (exactValue s / inject_Z (Z.of_nat n))%Q in
      (rho - (eps * rho + eta) <= exactValue q <= rho + (eps * rho + eta))%Q)
  /\ dailyAverage (calculateSpendingMetrics [tx (-0.125)]%float) = (-0.13)%float.
Proof.
  intros Hlen all m s n q. apply Z.leb_le in Hlen.
  assert (1 <= Z.of_nat n < 2 ^ 53)%Z as Bn.
  { change (2 ^ 53)%Z with 9007199254740992%Z.
    pose proof (uniqueDays_bounds all) as (Hle & Hge).
    specialize (Hge ltac:(discriminate)).
    clearbody q s m. unfold n, all in *. cbn [List.length] in *. lia. }
  assert (dailyAverage m = toFixedNum q 2) as E.
  { unfold m, all, calculateSpendingMetrics. cbn [dailyAverage].
    fold all. fold n. rewrite (ofNat_positive n Bn). reflexivity. }
  split; [exact E|]. split; [|split; [|vm_compute; reflexivity]].
  - intros sq mq eq Hq Hlt. exists (scaledRound mq eq 2). split.
    + rewrite E. unfold toFixedNum. rewrite Hq, Hlt. reflexivity.
    + unfold exactValue. rewrite Hq, magnitude_finite.
      exact (scaledRound_spec mq eq 2 ltac:(lia)).
  - intros Hpos Hq.
    destruct (ofNat_value n Bn) as (my & ey & ET & EV).
    pose proof (sumAmounts_total all Hpos) as Ts. fold s in Ts.
    destruct (quot_finite s (ofNat n) Ts (ex_intro _ my (ex_intro _ ey ET)) Hq)
      as [Fs Fq].
    pose proof (quot_value s (ofNat n) Fs (ex_intro _ my (ex_intro _ ey ET)) Fq) as B.
    cbv zeta in B |- *.
    assert (exactValue (ofNat n) == inject_Z (Z.of_nat n))%Q as EN
        by (unfold exactValue; rewrite ET; exact EV).
    rewrite EN in B. exact B.
Qed.

(** ** The sign of the remaining budget *)

Local Open Scope Z_scope.

(** The difference of a finite non-negative number and a running total:
    negative when the total is the larger, non-negative otherwise. *)
Lemma SFsub_amount_total x y :
  valid_binary x = true -> valid_binary y = true ->
  amountSF x = true -> SFltb x (S754_infinity false) = true ->
  totalSF y = true ->
  if SFltb x y
  then (exists m e, SFsub prec emax x y = S754_finite true m e)
       \/ SFsub prec emax x y = S754_infinity true
  else amountSF (SFsub prec emax x y) = true.
Proof.
  destruct x as [[]|[]| |[] mx ex], y as [[]|[]| |[] my ey]; intros Vx Vy;
    try discriminate; try (intros _ _ _; reflexivity);
    try (intros _ _ _; right; reflexivity);
    try (intros _ _ _; left; eexists; eexists; reflexivity).
  intros _ _ _.
  unfold SFltb. rewrite (compare_aligned _ _ _ _ _ _ Vx Vy).
  pose proof (min_exponent_bound _ _ _ _ _ _ Vx Vy) as Hm.
  unfold SFsub.
  pose proof (shl_align_spec mx ex (Z.min ex ey)) as [Ex1 Ex2].
  pose proof (shl_align_spec my ey (Z.min ex ey)) as [Ey1 Ey2].
  replace (snd (shl_align mx ex (Z.min ex ey))) with (Z.min ex ey) in Ex2 by lia.
  replace (snd (shl_align my ey (Z.min ex ey))) with (Z.min ex ey) in Ey2 by lia.
  rewrite Ex2, Ey2. unfold cond_Zopp.
  set (X := Zpos mx * 2 ^ (ex - Z.min ex ey)).
  set (Y := Zpos my * 2 ^ (ey - Z.min ex ey)).
  pose proof (binary_normalize_sign (X - Y) (Z.min ex ey) Hm) as HN.
  destruct (Z.compare_spec X Y) as [C|C|C].
  - replace (X - Y) with 0 in * by lia. rewrite HN. reflexivity.
  - destruct (X - Y) eqn:D; try lia.
    destruct HN as [->|(m' & e' & ->)]; eauto.
  - destruct (X - Y) eqn:D; try lia.
    destruct HN as [->|(m' & e' & ->)]; reflexivity.
Qed.

Local Close Scope Z_scope.

Lemma toFixedNum_amount x d : (0 <= d)%Z -> isAmount x -> isTotal (toFixedNum x d).
Proof.
  intros Hd. unfold isAmount, isTotal, toFixedNum.
  destruct (Prim2SF x) as [[]|[]| |[] m e] eqn:E; try discriminate; intros _;
    try (rewrite E; reflexivity); try reflexivity.
  destruct (atLeast1e21 m e); [rewrite E; reflexivity|].
  destruct (parseDecimal_spec false (scaledRound m e d) d (scaledRound_nonneg m e d Hd))
    as (r & -> & [->|[->|(m' & e' & ->)]]); reflexivity.
Qed.

Lemma toFixedNum_negative x d :
  (0 <= d)%Z ->
  (exists m e, Prim2SF x = S754_finite true m e) \/ Prim2SF x = S754_infinity true ->
  notPositiveSF (Prim2SF (toFixedNum x d)) = true.
Proof.
  intros Hd [(m & e & E)|E]; unfold toFixedNum; rewrite E.
  - destruct (atLeast1e21 m e); [rewrite E; reflexivity|].
    destruct (parseDecimal_spec true (scaledRound m e d) d (scaledRound_nonneg m e d Hd))
      as (r & -> & [->|[->|(m' & e' & ->)]]); reflexivity.
  - rewrite E. reflexivity.
Qed.

Lemma notPositive_leb x : notPositiveSF (Prim2SF x) = true -> (x <=? 0)%float = true.
Proof.
  rewrite FloatAxioms.leb_spec. change (Prim2SF 0) with (S754_zero false).
  destruct (Prim2SF x) as [[]|[]| |[] m e]; cbv; congruence.
Qed.

(** X10: for non-negative amounts and a finite non-negative budget, the
    reported [remaining] never contradicts [isOverBudget]: it is zero or
    negative when the sum exceeds the budget and zero or positive
    otherwise, so a negative [remaining] is always over budget and a
    positive one never is. *)
Theorem remaining_sign (ts : list Transaction) (b : num) :
  forallb (fun t => (0 <=? amount t)%float) ts = true ->
  (0 <=? b)%float = true ->
  (b <? infinity)%float = true ->
  let r := analyzeBudget ts b in
  (isOverBudget r = true -> (remaining r <=? 0)%float = true)
  /\ (isOverBudget r = false -> (0 <=? remaining r)%float = true)
  /\ ((remaining r <? 0)%float = true -> isOverBudget r = true)
  /\ ((0 <? remaining r)%float = true -> isOverBudget r = false).
Proof.
  intros Hpos Hb Hfin r.
  pose proof (sumAmounts_total ts Hpos) as Ts.
  apply isAmount_leb in Hb.
  assert (isOverBudget r = (b <? sumAmounts ts)%float) as EO by reflexivity.
  assert (remaining r = toFixedNum (b - sumAmounts ts)%float 2) as ER by reflexivity.
  pose proof (SFsub_amount_total (Prim2SF b) (Prim2SF (sumAmounts ts))
                (Prim2SF_valid _) (Prim2SF_valid _) Hb) as S.
  rewrite FloatAxioms.ltb_spec in Hfin.
  change (Prim2SF infinity) with (S754_infinity false) in Hfin.
  specialize (S Hfin Ts). rewrite <- sub_spec, <- FloatAxioms.ltb_spec in S.
  assert (isOverBudget r = true -> (remaining r <=? 0)%float = true) as H1.
  { rewrite EO, ER. intros O. rewrite O in S.
    apply notPositive_leb. apply toFixedNum_negative; [lia | exact S]. }
  assert (isOverBudget r = false -> (0 <=? remaining r)%float = true) as H2.
  { rewrite EO, ER. intros O. rewrite O in S.
    apply isAmount_leb. apply isTotal_isAmount. apply toFixedNum_amount; [lia | exact S]. }
  split; [exact H1|]. split; [exact H2|]. split.
  - intros L. destruct (isOverBudget r); [reflexivity|].
    rewrite (FloatOrder.leb_ltb_false _ _ (H2 eq_refl)) in L. discriminate.
  - intros L. destruct (isOverBudget r); [|reflexivity].
    rewrite (FloatOrder.leb_ltb_false _ _ (H1 eq_refl)) in L. discriminate.
Qed.

(** ** Exact sums of natural numbers *)

Local Open Scope Z_scope.

Module FloatExact.

Lemma shr_1_exact m :
  0 <= m -> m mod 2 = 0 ->
  shr_1 {| shr_m := m; shr_r := false; shr_s := false |}
  = {| shr_m := m / 2; shr_r := false; shr_s := false |}.
Proof.
  intros Hm He. rewrite <- Z.div2_div.
  destruct m as [|[p|p|]|p]; try reflexivity; try lia.
  - rewrite Pos2Z.inj_xI in He. rewrite Z.add_comm, Z.mul_comm, Z.mod_add in He by lia.
    discriminate He.
  - discriminate He.
Qed.

Lemma divides_half m k :
  0 <= k -> m mod 2 ^ (1 + k) = 0 -> m mod 2 = 0 /\ (m / 2) mod 2 ^ k = 0.
Proof.
  intros Hk H. apply Z.mod_divide in H; [|apply Z.pow_nonzero; lia].
  destruct H as [c ->]. rewrite Z.pow_add_r by lia. change (2 ^ 1) with 2.
  replace (c * (2 * 2 ^ k)) with (c * 2 ^ k * 2) by ring.
  rewrite Z.mod_mul, Z.div_mul by lia. split; [reflexivity|].
  apply Z.mod_mul. apply Z.pow_nonzero; lia.
Qed.

Lemma divides_split m a b :
  0 <= a -> 0 <= b -> m mod 2 ^ (a + b) = 0 ->
  m mod 2 ^ a = 0 /\ (m / 2 ^ a) mod 2 ^ b = 0.
Proof.
  intros Ha Hb H. apply Z.mod_divide in H; [|apply Z.pow_nonzero; lia].
  destruct H as [c ->]. rewrite Z.pow_add_r by lia.
  replace (c * (2 ^ a * 2 ^ b)) with (c * 2 ^ b * 2 ^ a) by ring.
  rewrite Z.mod_mul, Z.div_mul by (apply Z.pow_nonzero; lia). split; [reflexivity|].
  apply Z.mod_mul. apply Z.pow_nonzero; lia.
Qed.

Lemma shr_iter_exact p : forall m,
  0 <= m -> m mod 2 ^ Zpos p = 0 ->
  SpecFloat.iter_pos shr_1 p {| shr_m := m; shr_r := false; shr_s := false |}
  = {| shr_m := m / 2 ^ Zpos p; shr_r := false; shr_s := false |}.
Proof.
  induction p as [p IH|p IH|]; intros m Hm Hd; cbn [SpecFloat.iter_pos].
  - replace (Zpos p~1) with (1 + (Zpos p + Zpos p)) in * by lia.
    destruct (divides_half m (Zpos p + Zpos p) ltac:(lia) Hd) as [H1 H2].
    destruct (divides_split (m / 2) (Zpos p) (Zpos p) ltac:(lia) ltac:(lia) H2)
      as [H3 H4].
    rewrite (shr_1_exact m Hm H1).
    rewrite IH by (try apply Z.div_pos; lia || assumption).
    rewrite IH; [| apply Z.div_pos; [apply Z.div_pos; lia | apply Z.pow_pos_nonneg; lia]
                 | assumption].
    f_equal. rewrite !Z.div_div by (try apply Z.pow_pos_nonneg; lia).
    f_equal. rewrite !Z.pow_add_r by lia. change (2 ^ 1) with 2. ring.
  - replace (Zpos p~0) with (Zpos p + Zpos p) in * by lia.
    destruct (divides_split m (Zpos p) (Zpos p) ltac:(lia) ltac:(lia) Hd) as [H3 H4].
    rewrite IH by assumption.
    rewrite IH; [| apply Z.div_pos; [lia | apply Z.pow_pos_nonneg; lia] | assumption].
    f_equal. rewrite !Z.div_div by (try apply Z.pow_pos_nonneg; lia).
    f_equal. rewrite !Z.pow_add_r by lia. ring.
  - change (2 ^ 1) with 2 in *. apply shr_1_exact; assumption.
Qed.

Lemma shr_exact m e n :
  0 <= m -> 0 <= n -> m mod 2 ^ n = 0 ->
  shr (shr_record_of_loc m loc_Exact) e n
  = (shr_record_of_loc (m / 2 ^ n) loc_Exact, e + n).
Proof.
  intros Hm Hn Hd. unfold shr, shr_record_of_loc. destruct n as [|p|p]; try lia.
  - change (2 ^ 0) with 1. rewrite Z.div_1_r, Z.add_0_r. reflexivity.
  - rewrite (shr_iter_exact p m Hm Hd). reflexivity.
Qed.

(** The second shift of [binary_round_aux] only renormalises a mantissa
    that the rounding carried to [2^53]. *)
Lemma renormalise s M E :
  0 <= M <= 2 ^ 53 -> -1074 <= E -> (-1074 < E -> 2 ^ 52 <= M) ->
  (let '(mrs, e) := shr_fexp prec emax M E loc_Exact in
   match shr_m mrs with
   | 0 => S754_zero s
   | Zpos m => if e <=? emax - prec then S754_finite s m e else S754_infinity s
   | Zneg _ => S754_nan
   end) = pack s M E.
Proof.
  intros HMb HE Hlow. unfold pack.
  destruct (Z.eqb_spec M 0) as [Z0|NZ].
  - rewrite Z0. unfold shr_fexp. simpl Zdigits2. rewrite fexp_eq.
    replace (Z.max (0 + E - 53) (-1074) - E) with (- (E - Z.max (E - 53) (-1074))) by lia.
    destruct (E - Z.max (E - 53) (-1074)) eqn:D; try lia; reflexivity.
  - destruct (Z.eqb_spec M (2 ^ 53)) as [Top|NTop].
    + rewrite Top. unfold shr_fexp. change (Zdigits2 (2 ^ 53)) with 54. rewrite fexp_eq.
      replace (Z.max (54 + E - 53) (-1074) - E) with 1 by lia.
      simpl. reflexivity.
    + assert (Zdigits2 M <= 53) as DM by (apply Zdigits2_le; lia).
      assert (M < 2 ^ 52 -> E = -1074) as Sub by lia.
      unfold shr_fexp. rewrite fexp_eq.
      assert (Z.max (Zdigits2 M + E - 53) (-1074) - E <= 0) as K2 by lia.
      destruct (Z.max (Zdigits2 M + E - 53) (-1074) - E) eqn:D; try lia;
        simpl; destruct M; try lia; reflexivity.
Qed.

(** Rounding a number whose dropped bits are all zero is exact. *)
Lemma round_aux_exact s m e :
  0 <= m -> e <= fexp prec emax (Zdigits2 m + e) ->
  let E := fexp prec emax (Zdigits2 m + e) in
  m mod 2 ^ (E - e) = 0 ->
  binary_round_aux prec emax s m e loc_Exact = pack s (m / 2 ^ (E - e)) E.
Proof.
  intros Hm Hk E Hd.
  destruct (round_aux_spec s m e loc_Exact Hm Hk) as (M & _ & _ & Hup & Hlow & _).
  fold E in Hup, Hlow.
  assert (-1074 <= E) as HE by (unfold E; rewrite fexp_eq; lia).
  assert (0 <= m / 2 ^ (E - e)) as H0
      by (apply Z.div_pos; [lia | apply Z.pow_pos_nonneg; lia]).
  unfold binary_round_aux, shr_fexp at 1. fold E.
  rewrite (shr_exact m e (E - e) Hm ltac:(lia) Hd).
  rewrite loc_of_record_of_loc. cbn [shr_record_of_loc shr_m round_nearest_even].
  replace (e + (E - e)) with E by lia.
  apply renormalise; [lia | exact HE | exact Hlow].
Qed.

(** [binary_normalize] of an integer mantissa whose value fits 53 bits. *)
Lemma binary_round_exact s p e :
  let E := fexp prec emax (Zdigits2 (Zpos p) + e) in
  e <= E -> Zpos p mod 2 ^ (E - e) = 0 ->
  binary_round prec emax s p e = pack s (Zpos p / 2 ^ (E - e)) E.
Proof.
  intros E HE Hd. unfold binary_round.
  change (Zpos (digits2_pos p)) with (Zdigits2 (Zpos p)). fold E.
  unfold shl_align. destruct (E - e) as [|d|d] eqn:D; try lia.
  - assert (E = e) as EE by lia.
    rewrite (round_aux_exact s (Zpos p) e ltac:(lia) ltac:(fold E; lia)).
    + fold E. rewrite D. reflexivity.
    + fold E. rewrite D. apply Z.mod_1_r.
  - rewrite (round_aux_exact s (Zpos p) e ltac:(lia) ltac:(fold E; lia)).
    + fold E. rewrite D. reflexivity.
    + fold E. rewrite D. exact Hd.
Qed.

Lemma intSF_finite k :
  0 < k < 2 ^ 53 ->
  let d := Zdigits2 k in
  intSF k = S754_finite false (Z.to_pos (k * 2 ^ (53 - d))) (d - 53)
  /\ 1 <= d <= 53
  /\ 2 ^ 52 <= k * 2 ^ (53 - d) < 2 ^ 53.
Proof.
  intros Hk d. unfold intSF. destruct (Z.eqb_spec k 0) as [?|_]; [lia|].
  split; [reflexivity|].
  pose proof (Zdigits2_bounds k ltac:(lia)) as [Bl Bu]. fold d in Bl, Bu.
  pose proof (Zdigits2_pos k ltac:(lia)) as Dp. fold d in Dp.
  assert (d <= 53) as D53 by (apply Zdigits2_le; lia).
  split; [lia|].
  assert (0 < 2 ^ (53 - d)) as P by (apply Z.pow_pos_nonneg; lia).
  split.
  - replace (2 ^ 52) with (2 ^ (d - 1) * 2 ^ (53 - d))
      by (rewrite <- Z.pow_add_r by lia; f_equal; lia).
    apply Z.mul_le_mono_nonneg_r; lia.
  - replace (2 ^ 53) with (2 ^ d * 2 ^ (53 - d))
      by (rewrite <- Z.pow_add_r by lia; f_equal; lia).
    apply Z.mul_lt_mono_pos_r; lia.
Qed.

(** The sum of two naturals is exact as long as it stays below [2^53]. *)
Lemma SFadd_intSF a b :
  0 <= a -> 0 <= b -> a + b < 2 ^ 53 ->
  SFadd prec emax (intSF a) (intSF b) = intSF (a + b).
Proof.
  intros Ha Hb Hs.
  destruct (Z.eq_dec a 0) as [->|Na].
  { simpl Z.add. unfold intSF at 1. simpl Z.eqb. cbn iota.
    destruct (Z.eq_dec b 0) as [->|Nb]; [reflexivity|].
    destruct (intSF_finite b ltac:(lia)) as (-> & _). reflexivity. }
  destruct (Z.eq_dec b 0) as [->|Nb].
  { rewrite Z.add_0_r. unfold intSF at 2. simpl Z.eqb. cbn iota.
    destruct (intSF_finite a ltac:(lia)) as (-> & _). reflexivity. }
  destruct (intSF_finite a ltac:(lia)) as (Ea & Da & Ma).
  destruct (intSF_finite b ltac:(lia)) as (Eb & Db & Mb).
  destruct (intSF_finite (a + b) ltac:(lia)) as (Es & Ds & Ms).
  rewrite Ea, Eb, Es. cbv zeta in *.
  set (da := Zdigits2 a) in *. set (db := Zdigits2 b) in *.
  set (ds := Zdigits2 (a + b)) in *.
  assert (da <= ds) as Las.
  { unfold da, ds. apply Zdigits2_le; [lia|]. split; [lia|].
    pose proof (Zdigits2_bounds (a + b) ltac:(lia)) as [_ B]. lia. }
  assert (db <= ds) as Lbs.
  { unfold db, ds. apply Zdigits2_le; [lia|]. split; [lia|].
    pose proof (Zdigits2_bounds (a + b) ltac:(lia)) as [_ B]. lia. }
  unfold SFadd. set (ez := Z.min (da - 53) (db - 53)).
  pose proof (shl_align_spec (Z.to_pos (a * 2 ^ (53 - da))) (da - 53) ez) as [_ Xa].
  pose proof (shl_align_spec (Z.to_pos (b * 2 ^ (53 - db))) (db - 53) ez) as [_ Xb].
  cbv zeta in Xa, Xb.
  replace (snd (shl_align (Z.to_pos (a * 2 ^ (53 - da))) (da - 53) ez)) with ez in Xa
    by (pose proof (shl_align_spec (Z.to_pos (a * 2 ^ (53 - da))) (da - 53) ez) as [H _];
        cbv zeta in H; unfold ez in *; lia).
  replace (snd (shl_align (Z.to_pos (b * 2 ^ (53 - db))) (db - 53) ez)) with ez in Xb
    by (pose proof (shl_align_spec (Z.to_pos (b * 2 ^ (53 - db))) (db - 53) ez) as [H _];
        cbv zeta in H; unfold ez in *; lia).
  unfold cond_Zopp. rewrite Xa, Xb, !Z2Pos.id by lia.
  set (dm := Z.min da db).
  assert (ez = dm - 53) as Eez by (unfold ez, dm; lia).
  assert (a * 2 ^ (53 - da) * 2 ^ (da - 53 - ez) = a * 2 ^ (53 - dm)) as Va.
  { rewrite <- Z.mul_assoc, <- Z.pow_add_r by lia. f_equal. f_equal. lia. }
  assert (b * 2 ^ (53 - db) * 2 ^ (db - 53 - ez) = b * 2 ^ (53 - dm)) as Vb.
  { rewrite <- Z.mul_assoc, <- Z.pow_add_r by lia. f_equal. f_equal. lia. }
  rewrite Va, Vb, <- Z.mul_add_distr_r.
  assert (0 < 2 ^ (53 - dm)) as P by (apply Z.pow_pos_nonneg; lia).
  assert (0 < (a + b) * 2 ^ (53 - dm)) as Pm by (apply Z.mul_pos_pos; lia).
  destruct ((a + b) * 2 ^ (53 - dm)) as [|p|p] eqn:Em; try lia.
  cbn [binary_normalize].
  assert (Zdigits2 (Zpos p) = ds + (53 - dm)) as Dg
      by (rewrite <- Em; apply Zdigits2_shift; lia).
  assert (fexp prec emax (Zdigits2 (Zpos p) + ez) = ds - 53) as EE
      by (rewrite fexp_eq, Dg; lia).
  pose proof (binary_round_exact false p ez) as R. cbv zeta in R.
  rewrite EE in R.
  assert (ds - 53 - ez = ds - dm) as Sh by lia. rewrite Sh in R.
  assert (Zpos p = (a + b) * 2 ^ (53 - ds) * 2 ^ (ds - dm)) as Fp.
  { rewrite <- Em, <- Z.mul_assoc, <- Z.pow_add_r by lia. f_equal. f_equal. lia. }
  rewrite R; [| lia | rewrite Fp; apply Z.mod_mul; apply Z.pow_nonzero; lia].
  rewrite Fp, Z.div_mul by (apply Z.pow_nonzero; lia).
  unfold pack.
  destruct (Z.eqb_spec ((a + b) * 2 ^ (53 - ds)) 0) as [?|_]; [lia|].
  destruct (Z.eqb_spec ((a + b) * 2 ^ (53 - ds)) (2 ^ 53)) as [?|_]; [lia|].
  destruct (Z.leb_spec (ds - 53) 971) as [_|?]; [reflexivity | lia].
Qed.

End FloatExact.

Local Close Scope Z_scope.

Import FloatExact.

Lemma ofNat_intSF (n : nat) :
  (Z.of_nat n < 2 ^ 53)%Z -> Prim2SF (ofNat n) = intSF (Z.of_nat n).
Proof.
  intros Hn. unfold ofNat. rewrite of_uint63_spec, Uint63.of_Z_spec.
  rewrite Z.mod_small by (change Uint63Axioms.wB with (2 ^ 63)%Z; lia).
  destruct (Z.of_nat n) as [|p|p] eqn:Ep; try lia; [reflexivity|].
  cbn [binary_normalize].
  destruct (intSF_finite (Zpos p) ltac:(lia)) as (-> & Dd & Mb). cbv zeta in *.
  destruct (binary_round_spec false p 0) as (M & Heq & Hcase & _).
  cbv zeta in *. rewrite fexp_eq in *.
  set (d := Zdigits2 (Zpos p)) in *.
  replace (Z.max (d + 0 - 53) (-1074)) with (d - 53)%Z in * by lia.
  destruct Hcase as [[_ EM]|[Hlt _]]; [|lia].
  replace (0 - (d - 53))%Z with (53 - d)%Z in EM by lia.
  rewrite Heq, EM. unfold pack.
  destruct (Z.eqb_spec (Zpos p * 2 ^ (53 - d)) 0) as [?|_]; [lia|].
  destruct (Z.eqb_spec (Zpos p * 2 ^ (53 - d)) (2 ^ 53)) as [?|_]; [lia|].
  destruct (Z.leb_spec (d - 53) 971) as [_|?]; [reflexivity | lia].
Qed.

Lemma ofNat_succ (n : nat) :
  (Z.of_nat n + 1 < 2 ^ 53)%Z -> (ofNat n + 1)%float = ofNat (S n).
Proof.
  intros Hn. apply Prim2SF_inj. rewrite add_spec.
  rewrite (ofNat_intSF n) by lia. rewrite (ofNat_intSF (S n)) by lia.
  change (Prim2SF 1) with (intSF 1). unfold SF64add.
  rewrite SFadd_intSF by lia. f_equal. lia.
Qed.

Lemma sum_of_ones (c : nat) : forall a : nat,
  (Z.of_nat (a + c) < 2 ^ 53)%Z ->
  fold_left (fun s x => (s + x)%float) (repeat 1%float c) (ofNat a) = ofNat (a + c).
Proof.
  induction c as [|c IH]; intros a Hb; simpl.
  - rewrite Nat.add_0_r. reflexivity.
  - rewrite ofNat_succ by lia. rewrite IH by lia. f_equal. lia.
Qed.

Lemma incrementsFor_ones k (ts : list Transaction) :
  incrementsFor k (map (fun t => (category t, 1%float)) ts)
  = repeat 1%float (List.length (amountsIn k ts)).
Proof.
  unfold incrementsFor, amountsIn.
  induction ts as [|t ts IH]; simpl; [reflexivity|].
  destruct (String.eqb (category t) k); simpl; rewrite IH; reflexivity.
Qed.

Lemma amountsIn_length k ts : (List.length (amountsIn k ts) <= List.length ts)%nat.
Proof.
  unfold amountsIn. rewrite length_map. apply filter_length_le.
Qed.

(** The counter of a category that occurs. *)
Lemma count_of_category (ts : list Transaction) (k : string) :
  (Z.of_nat (List.length ts) < 2 ^ 53)%Z ->
  In k (map category ts) ->
  JsObject.get (plainCategoryCounts ts) k
  = Some (ofNat (List.length (amountsIn k ts))).
Proof.
  intros Hlen Hk. unfold plainCategoryCounts.
  rewrite (fold_accumulate category (fun _ => 1%float)). cbv beta.
  rewrite get_accumulateAll.
  - match goal with
    | |- context [existsb ?f ?l] => assert (existsb f l = true) as ->
    end.
    { apply existsb_exists. apply in_map_iff in Hk as (t & E & Ht).
      exists (category t, 1%float).
      split; [exact (in_map (fun t => (category t, 1%float)) ts t Ht)|].
      simpl. rewrite E. apply String.eqb_refl. }
    rewrite incrementsFor_ones. unfold sumList. f_equal.
    change 0%float with (ofNat 0).
    apply (sum_of_ones _ 0%nat). pose proof (amountsIn_length k ts). simpl. lia.
  - rewrite Forall_forall. intros kv Hkv. apply in_map_iff in Hkv as (t & <- & _).
    apply isAmount_leb. reflexivity.
Qed.

Lemma count_none (ks : list string) (x : string) :
  ~ In x ks ->
  list_sum (map (fun k => if String.eqb x k then 1 else 0)%nat ks) = 0%nat.
Proof.
  induction ks as [|j ks IH]; intros Hk; [reflexivity|]. simpl.
  destruct (String.eqb_spec x j) as [->|_]; [exfalso; apply Hk; left; reflexivity|].
  apply IH. intros H. apply Hk. right. exact H.
Qed.

Lemma count_once (ks : list string) (x : string) :
  NoDup ks -> In x ks ->
  list_sum (map (fun k => if String.eqb x k then 1 else 0)%nat ks) = 1%nat.
Proof.
  induction ks as [|k ks IH]; intros Hn Hin; [destruct Hin|].
  inversion Hn as [|? ? Hk Hn']; subst. simpl.
  destruct (String.eqb_spec x k) as [->|Ne].
  - rewrite (count_none ks k Hk). reflexivity.
  - destruct Hin as [->|Hin]; [congruence|]. simpl. apply IH; assumption.
Qed.

Lemma counts_partition (ts : list Transaction) (ks : list string) :
  NoDup ks -> (forall t, In t ts -> In (category t) ks) ->
  list_sum (map (fun k => List.length (amountsIn k ts)) ks) = List.length ts.
Proof.
  intros Hn. induction ts as [|t ts IH]; intros Hc.
  - clear Hn Hc. induction ks as [|k ks IHk]; [reflexivity | exact IHk].
  - specialize (IH (fun u Hu => Hc u (or_intror Hu))).
    assert (forall k, List.length (amountsIn k (t :: ts))
              = ((if String.eqb (category t) k then 1 else 0)
                 + List.length (amountsIn k ts))%nat) as Step.
    { intros k. unfold amountsIn. simpl.
      destruct (String.eqb (category t) k); reflexivity. }
    rewrite (map_ext _ _ Step).
    assert (forall (f g : string -> nat) l,
              list_sum (map (fun k => (f k + g k)%nat) l)
              = (list_sum (map f l) + list_sum (map g l))%nat) as Split.
    { intros f g l. induction l as [|a l IHl]; simpl; [reflexivity|].
      rewrite IHl. lia. }
    rewrite Split, IH, (count_once ks (category t) Hn (Hc t (or_introl eq_refl))).
    reflexivity.
Qed.

Lemma categoryEntries_names ts :
  map cName (plainCategoryEntries ts) = map fst (JsObject.entries (plainCategoryTotals ts)).
Proof.
  unfold plainCategoryEntries. rewrite map_map. apply map_ext.
  intros [k v]. reflexivity.
Qed.

Lemma category_names_perm ts :
  Permutation (map cName (plainCategories ts))
              (firstSeen (map category ts)).
Proof.
  unfold plainCategories.
  rewrite (Permutation_map cName (sort_perm byAmountDesc (plainCategoryEntries ts))).
  rewrite categoryEntries_names.
  rewrite (Permutation_map fst (entries_perm (plainCategoryTotals ts))).
  unfold plainCategoryTotals. rewrite fold_accumulate, keys_accumulateAll_empty, map_map.
  reflexivity.
Qed.

Lemma entry_counts (ts : list Transaction) :
  (Z.of_nat (List.length ts) <= 4294967295)%Z ->
  Forall (fun c => cTransactionCount c = ofNat (List.length (amountsIn (cName c) ts))
                   /\ (1 <= List.length (amountsIn (cName c) ts))%nat)
         (plainCategories ts).
Proof.
  intros Hlen. pose proof (category_names_perm ts) as Pn.
  rewrite Forall_forall. intros c Hc.
  assert (In (cName c) (map category ts)) as Hk.
  { apply firstSeen_In. apply (Permutation_in _ Pn). apply in_map. exact Hc. }
  split.
  - apply (Permutation_in _ (sort_perm byAmountDesc (plainCategoryEntries ts))) in Hc.
    unfold plainCategoryEntries in Hc. apply in_map_iff in Hc as ([k v] & <- & _).
    cbn [plainCategoryEntry cTransactionCount cName] in *.
    rewrite (count_of_category ts k); [reflexivity | | exact Hk].
    change (2 ^ 53)%Z with 9007199254740992%Z. lia.
  - apply in_map_iff in Hk as (t & E & Ht).
    unfold amountsIn. rewrite length_map.
    assert (In t (filter (fun t0 => String.eqb (category t0) (cName c)) ts)) as Hf
        by (apply filter_In; split; [exact Ht | rewrite E; apply String.eqb_refl]).
    destruct (filter _ ts); [destruct Hf | simpl; lia].
Qed.

(** X11: when no category is the name of a member of [Object.prototype]
    the breakdown has exactly one entry per distinct category; the
    [transactionCount] of an entry is the number of transactions of its
    category, exactly (the counter's floating-point increments are exact),
    never zero; and the counts of the entries add up to the number of
    transactions. *)
Theorem category_transaction_counts (ts : list Transaction) :
  (Z.of_nat (List.length ts) <=? 4294967295)%Z = true ->
  plainKeys (map category ts) = true ->
  exists r,
    analyzeCategoricalSpending ts = Returned r
    /\ let count := fun c => List.length (amountsIn (cName c) ts) in
       NoDup (map cName r)
       /\ Permutation (map cName r) (firstSeen (map category ts))
       /\ Forall (fun c => cTransactionCount c = ofNat (count c)
                           /\ (1 <= count c)%nat) r
       /\ list_sum (map count r) = List.length ts.
Proof.
  intros Hlen Hplain. exists (plainCategories ts).
  split; [apply analyzeCategoricalSpending_plain; exact Hplain|].
  set (r := plainCategories ts). intros count. apply Z.leb_le in Hlen.
  pose proof (category_names_perm ts) as Pn. fold r in Pn.
  assert (NoDup (map cName r)) as Nd.
  { apply (Permutation_NoDup (Permutation_sym Pn)). apply firstSeen_nodup. }
  split; [exact Nd|]. split; [exact Pn|]. split.
  - apply entry_counts. exact Hlen.
  - unfold count. rewrite <- (map_map cName (fun k => List.length (amountsIn k ts))).
    apply counts_partition; [exact Nd|].
    intros t Ht. apply (Permutation_in _ (Permutation_sym Pn)).
    apply firstSeen_In. apply in_map. exact Ht.
Qed.

(** X12: for non-negative amounts and categories that are not names of
    members of [Object.prototype], the [averagePerTransaction] of an entry
    is the unrounded sum of its category's amounts divided by the number
    of its transactions, rounded to 2 decimals; the divisor is at least 1,
    and the entry's amount is the same sum, rounded. *)
Theorem category_average (ts : list Transaction) :
  forallb (fun t => (0 <=? amount t)%float) ts = true ->
  (Z.of_nat (List.length ts) <=? 4294967295)%Z = true ->
  plainKeys (map category ts) = true ->
  exists r,
    analyzeCategoricalSpending ts = Returned r
    /\ Forall (fun c =>
                 let amounts := amountsIn (cName c) ts in
                 averagePerTransaction c
                 = toFixedNum (sumList amounts / ofNat (List.length amounts))%float 2
                 /\ cAmount c = toFixedNum (sumList amounts) 2
                 /\ (0 <? ofNat (List.length amounts))%float = true) r.
Proof.
  intros Hpos Hlen Hplain. exists (plainCategories ts).
  split; [apply analyzeCategoricalSpending_plain; exact Hplain|].
  apply Z.leb_le in Hlen. pose proof (entry_counts ts Hlen) as Hc.
  rewrite Forall_forall in *. intros c Hin. destruct (Hc c Hin) as [Ec Pc].
  cbv zeta.
  apply (Permutation_in _ (sort_perm byAmountDesc (plainCategoryEntries ts))) in Hin.
  unfold plainCategoryEntries in Hin. apply in_map_iff in Hin as ([k v] & <- & Hkv).
  apply (Permutation_in _ (entries_perm (plainCategoryTotals ts))) in Hkv.
  destruct (accumulated_property category ts k v Hpos Hkv) as (Ev & _ & _).
  cbn [plainCategoryEntry cTransactionCount cName averagePerTransaction cAmount] in *.
  fold (amountsIn k ts) in Ev.
  destruct (JsObject.get (plainCategoryCounts ts) k) as [n|] eqn:G.
  - subst n v. split; [reflexivity|]. split; [reflexivity|].
    apply ofNat_positive. pose proof (amountsIn_length k ts).
    change (2 ^ 53)%Z with 9007199254740992%Z. lia.
  - subst v. split; [|split; [reflexivity|]].
    + rewrite <- Ec. reflexivity.
    + apply ofNat_positive. pose proof (amountsIn_length k ts).
      change (2 ^ 53)%Z with 9007199254740992%Z. lia.
Qed.

(** ** Thresholds of the rounded utilization *)

(** The order of two positive finite numbers is the order of their
    values. *)
Lemma leb_value (x y : num) mx ex my ey :
  Prim2SF x = S754_finite false mx ex ->
  Prim2SF y = S754_finite false my ey ->
  (x <=? y)%float = true ->
  (inject_Z (Zpos mx) * 2 ^ ex <= inject_Z (Zpos my) * 2 ^ ey)%Q.
Proof.
  intros Ex Ey. rewrite FloatAxioms.leb_spec. unfold SFleb.
  pose proof (Prim2SF_valid x) as Vx. pose proof (Prim2SF_valid y) as Vy.
  rewrite Ex in *. rewrite Ey in *.
  rewrite (compare_aligned _ _ _ _ _ _ Vx Vy). cbv zeta. unfold cond_Zopp.
  set (ez := Z.min ex ey).
  rewrite <- (aligned_value mx ex ez) by (unfold ez; lia).
  rewrite <- (aligned_value my ey ez) by (unfold ez; lia).
  pose proof (two_pow_pos ez) as Pz.
  intros H.
  assert (Zpos mx * 2 ^ (ex - ez) <= Zpos my * 2 ^ (ey - ez))%Z as L.
  { destruct (Z.compare_spec (Zpos mx * 2 ^ (ex - ez)) (Zpos my * 2 ^ (ey - ez)));
      try lia; try discriminate H. }
  apply Qmult_le_compat_r; [|apply Qlt_le_weak; exact Pz].
  rewrite <- Zle_Qle. exact L.
Qed.

(** The roundings to one decimal of the numbers up to a threshold [c]
    that is a whole number: none exceeds [c]. *)
Lemma toFixed1_below (c : num) (N : Z) mc ec :
  Prim2SF c = S754_finite false mc ec ->
  (inject_Z (Zpos mc) * 2 ^ ec == inject_Z N)%Q ->
  forallb (fun n => (parseDecimal false (Z.of_nat n) 1 <=? c)%float)
          (seq 0 (Z.to_nat (10 * N) + 1)) = true ->
  forall u, (u <=? c)%float = true -> (toFixedNum u 1 <=? c)%float = true.
Proof.
  intros Ec Vc Hall u Hu.
  assert ((0 <=? c)%float = true) as Pc
      by (rewrite FloatAxioms.leb_spec, Ec; reflexivity).
  unfold toFixedNum. destruct (Prim2SF u) as [s|s| |s m e] eqn:Eu.
  - exact Pc.
  - exact Hu.
  - exact Hu.
  - destruct (atLeast1e21 m e) eqn:Big; [exact Hu|].
    destruct s.
    + apply (FloatOrder.leb_trans _ 0%float); [|exact Pc].
      apply notPositive_leb.
      pose proof (toFixedNum_negative u 1 ltac:(lia)
                    (or_introl (ex_intro _ m (ex_intro _ e Eu)))) as H.
      unfold toFixedNum in H. rewrite Eu, Big in H. exact H.
    + pose proof (leb_value u c m e mc ec Eu Ec Hu) as Lv. rewrite Vc in Lv.
      pose proof (scaledRound_spec m e 1 ltac:(lia)) as [Lo _].
      pose proof (scaledRound_nonneg m e 1 ltac:(lia)) as P0.
      change (inject_Z (10 ^ 1)) with (inject_Z 10) in Lo.
      set (cents := scaledRound m e 1) in *.
      assert (cents <= 10 * N)%Z as Lc.
      { assert (inject_Z cents - (1 # 2) <= inject_Z 10 * inject_Z N)%Q as L2.
        { eapply Qle_trans; [exact Lo|].
          apply Qmult_le_l; [reflexivity | exact Lv]. }
        rewrite <- inject_Z_mult in L2.
        destruct (Z_le_gt_dec cents (10 * N)) as [L|G]; [exact L|exfalso].
        assert (inject_Z (10 * N + 1) <= inject_Z cents)%Q as L3
            by (rewrite <- Zle_Qle; lia).
        rewrite inject_Z_plus in L3. change (inject_Z 1) with 1%Q in L3. lra. }
      rewrite forallb_forall in Hall.
      specialize (Hall (Z.to_nat cents)). rewrite Z2Nat.id in Hall by lia.
      apply Hall. apply in_seq. lia.
Qed.

Lemma toFixed1_above (c : num) :
  is_nan c = false ->
  (forall u, (u <=? c)%float = true -> (toFixedNum u 1 <=? c)%float = true) ->
  forall u, (c <? toFixedNum u 1)%float = true -> (c <? u)%float = true.
Proof.
  intros Nc Below u H.
  destruct (is_nan u) eqn:Nu.
  - assert (toFixedNum u 1 = u) as E.
    { unfold toFixedNum. unfold is_nan in Nu.
      rewrite FloatAxioms.eqb_spec in Nu.
      destruct (Prim2SF u) as [s|s| |s m e]; try reflexivity.
      - destruct s; discriminate Nu.
      - unfold SFeqb in Nu. simpl in Nu.
        destruct s; rewrite Z.compare_refl in Nu;
          change (Pos.compare_cont Eq m m) with (Pos.compare m m) in Nu;
          rewrite Pos.compare_refl in Nu; discriminate Nu. }
    rewrite E in H. exact H.
  - destruct (c <? u)%float eqn:G; [reflexivity|].
    apply FloatOrder.is_nan_false in Nc, Nu.
    pose proof (FloatOrder.ltb_false_leb c u Nc Nu G) as L.
    rewrite (FloatOrder.leb_ltb_false _ _ (Below u L)) in H. discriminate H.
Qed.

Lemma threshold_100 u :
  (100 <? toFixedNum u 1)%float = true -> (100 <? u)%float = true.
Proof.
  apply toFixed1_above; [reflexivity|].
  apply (toFixed1_below 100%float 100 7036874417766400 (-46));
    [reflexivity | reflexivity | vm_compute; reflexivity].
Qed.

Lemma threshold_90 u :
  (90 <? toFixedNum u 1)%float = true -> (90 <? u)%float = true.
Proof.
  apply toFixed1_above; [reflexivity|].
  apply (toFixed1_below 90%float 90 6333186975989760 (-46));
    [reflexivity | reflexivity | vm_compute; reflexivity].
Qed.

Lemma threshold_75 u :
  (75 <? toFixedNum u 1)%float = true -> (75 <? u)%float = true.
Proof.
  apply toFixed1_above; [reflexivity|].
  apply (toFixed1_below 75%float 75 5277655813324800 (-46));
    [reflexivity | reflexivity | vm_compute; reflexivity].
Qed.

Section AlertFacts.

Variable numberToString : num -> string.
Variable toLowerCase : string -> string.

Lemma budgetAlerts_types b :
  map alertType (budgetAlerts numberToString b) = budgetLevel (utilization b).
Proof.
  unfold budgetAlerts, budgetLevel.
  destruct (100 <? utilization b)%float; [reflexivity|].
  destruct (90 <? utilization b)%float; [reflexivity|].
  destruct (75 <? utilization b)%float; reflexivity.
Qed.

Lemma categoryAlerts_types cs :
  map alertType (flat_map (categoryAlerts numberToString toLowerCase) cs)
  = repeat "INFO" (List.length (filter (fun c => (50 <? percentage c)%float) cs)).
Proof.
  induction cs as [|c cs IH]; [reflexivity|]. simpl.
  rewrite map_app, IH. unfold categoryAlerts.
  destruct (50 <? percentage c)%float; reflexivity.
Qed.

(** The category alerts, one per category above 50 percent, in the order
    of the categories. *)
Lemma categoryAlerts_map cs :
  flat_map (categoryAlerts numberToString toLowerCase) cs
  = map (fun c =>
           mkAlert "INFO"
             (cName c ++ " represents " ++ numberToString (percentage c)
                ++ "% of total spending")%string
             ("Consider diversifying expenses or reducing "
                ++ toLowerCase (cName c) ++ " costs")%string)
        (filter (fun c => (50 <? percentage c)%float) cs).
Proof.
  induction cs as [|c cs IH]; [reflexivity|]. simpl. rewrite IH.
  unfold categoryAlerts. destruct (50 <? percentage c)%float; reflexivity.
Qed.

Lemma In_repeat_info n : ~ In "CRITICAL" (repeat "INFO" n).
Proof. intros H. apply repeat_spec in H. discriminate H. Qed.

Lemma budgetLevel_nil u : budgetLevel u = [] <-> (75 <? u)%float = false.
Proof.
  unfold budgetLevel.
  destruct (100 <? u)%float eqn:H100.
  - split; [discriminate|]. intros H.
    rewrite (ltb_trans 75 100 u) in H by (reflexivity || exact H100).
    discriminate H.
  - destruct (90 <? u)%float eqn:H90.
    + split; [discriminate|]. intros H.
      rewrite (ltb_trans 75 90 u) in H by (reflexivity || exact H90).
      discriminate H.
    + destruct (75 <? u)%float; split; congruence.
Qed.

Lemma generateAlerts_types (a : Analysis) :
  map alertType (generateAlerts numberToString toLowerCase a)
  = budgetLevel (utilization (budget a))
    ++ repeat "INFO"
         (List.length (filter (fun c => (50 <? percentage c)%float) (categories a)))
    ++ (if (20 <? transactionCount (spending a))%nat then ["INFO"] else [])
    ++ (if (allocated (budget a) * 0.1 <? average (spending a))%float
        then ["CAUTION"] else []).
Proof.
  unfold generateAlerts.
  rewrite !map_app, budgetAlerts_types, categoryAlerts_types.
  unfold frequencyAlerts, averageAlerts.
  destruct (20 <? transactionCount (spending a))%nat;
    destruct (allocated (budget a) * 0.1 <? average (spending a))%float;
    reflexivity.
Qed.

Lemma generateAlerts_critical (a : Analysis) :
  existsb isCritical (generateAlerts numberToString toLowerCase a) = true
  <-> (100 <? utilization (budget a))%float = true.
Proof.
  set (alerts := generateAlerts numberToString toLowerCase a).
  assert (existsb isCritical alerts = existsb (fun t => String.eqb t "CRITICAL")
                                              (map alertType alerts)) as ->.
  { induction alerts as [|x l IH]; [reflexivity|].
    simpl. rewrite IH. reflexivity. }
  unfold alerts. rewrite generateAlerts_types, !existsb_app.
  assert (forall n, existsb (fun t => String.eqb t "CRITICAL") (repeat "INFO" n) = false)
    as NoInfo by (induction n as [|n IHn]; [reflexivity | exact IHn]).
  rewrite NoInfo.
  assert (forall l, l = ["INFO"] \/ l = ["CAUTION"] \/ l = [] ->
            existsb (fun t => String.eqb t "CRITICAL") l = false) as No
      by (intros l [->|[->| ->]]; reflexivity).
  rewrite (No (if (20 <? _)%nat then _ else _))
    by (destruct (20 <? _)%nat; auto).
  rewrite (No (if (_ <? _)%float then _ else _))
    by (destruct (_ <? _)%float; auto).
  rewrite !orb_false_r. unfold budgetLevel.
  destruct (100 <? utilization (budget a))%float; [split; reflexivity|].
  destruct (90 <? utilization (budget a))%float; [split; discriminate|].
  destruct (75 <? utilization (budget a))%float; split; discriminate.
Qed.

(** X13: the alerts come in a fixed order: at most one budget alert
    (CRITICAL above 100, else WARNING above 90, else CAUTION above 75, of
    the reported utilization), then one INFO alert per category above 50
    percent, in the order of the categories of the analysis (the ranking),
    each naming its category and percentage, then the INFO alert of more
    than 20 transactions, then the CAUTION alert of an average above a
    tenth of the budget.  A CRITICAL alert is raised exactly when the
    reported utilization exceeds 100, and no alert at all exactly when
    none of the four conditions holds. *)
Theorem generateAlerts_order (a : Analysis) :
  let u := utilization (budget a) in
  let alerts := generateAlerts numberToString toLowerCase a in
  let concentrated := filter (fun c => (50 <? percentage c)%float) (categories a) in
  let last := (if (20 <? transactionCount (spending a))%nat then ["INFO"] else [])
              ++ (if (allocated (budget a) * 0.1 <? average (spending a))%float
                  then ["CAUTION"] else []) in
  map alertType alerts = budgetLevel u ++ repeat "INFO" (List.length concentrated) ++ last
  /\ (exists budgetAlert others,
        alerts
        = budgetAlert
          ++ map (fun c =>
                    mkAlert "INFO"
                      (cName c ++ " represents " ++ numberToString (percentage c)
                         ++ "% of total spending")%string
                      ("Consider diversifying expenses or reducing "
                         ++ toLowerCase (cName c) ++ " costs")%string) concentrated
          ++ others
        /\ map alertType budgetAlert = budgetLevel u
        /\ map alertType others = last)
  /\ (existsb isCritical alerts = true <-> (100 <? u)%float = true)
  /\ (alerts = []
      <-> (75 <? u)%float = false /\ concentrated = []
          /\ (transactionCount (spending a) <= 20)%nat
          /\ (allocated (budget a) * 0.1 <? average (spending a))%float = false).
Proof.
  intros u alerts concentrated last.
  pose proof (generateAlerts_types a) as Types. fold alerts u concentrated in Types.
  split; [exact Types|]. split.
  { exists (budgetAlerts numberToString (budget a)),
      (frequencyAlerts (spending a)
       ++ averageAlerts numberToString (spending a) (budget a)).
    split; [|split].
    - unfold alerts, generateAlerts, concentrated.
      rewrite categoryAlerts_map. reflexivity.
    - apply budgetAlerts_types.
    - rewrite map_app. unfold last, frequencyAlerts, averageAlerts.
      destruct (20 <? transactionCount (spending a))%nat;
        destruct (allocated (budget a) * 0.1 <? average (spending a))%float;
        reflexivity. }
  split; [apply generateAlerts_critical|].
  split.
  - intros E. rewrite E in Types. simpl in Types. symmetry in Types.
    apply app_eq_nil in Types as [B Types]. apply app_eq_nil in Types as [C Types].
    apply app_eq_nil in Types as [F A].
    split; [apply budgetLevel_nil; exact B|]. split.
    + destruct concentrated; [reflexivity | discriminate C].
    + split.
      * destruct (20 <? transactionCount (spending a))%nat eqn:L;
          [discriminate F|]. apply Nat.ltb_ge in L. exact L.
      * destruct (allocated (budget a) * 0.1 <? average (spending a))%float;
          [discriminate A | reflexivity].
  - intros (B & C & F & A). apply budgetLevel_nil in B.
    apply map_eq_nil with (f := alertType). rewrite Types, B, C, A.
    apply Nat.ltb_ge in F. rewrite F. reflexivity.
Qed.

(** X14: a budget alert never overstates the status: behind a CRITICAL
    alert the status is "Over Budget", behind a WARNING it is "Near Limit"
    or "Over Budget", and behind any budget alert it is neither
    "Conservative" nor "Moderate".  The converse fails, the alert being
    decided by the rounded utilization and the status by the unrounded
    one: 100.04 spent of 100 is "Over Budget" and raises a WARNING. *)
Theorem alert_within_status (ts : list Transaction) (b : num) :
  let r := analyzeBudget ts b in
  let types := map alertType (budgetAlerts numberToString r) in
  (In "CRITICAL" types -> status r = "Over Budget")
  /\ (In "WARNING" types -> status r = "Near Limit" \/ status r = "Over Budget")
  /\ (types <> [] -> status r <> "Conservative" /\ status r <> "Moderate")
  /\ status slightlyOver = "Over Budget"
  /\ map alertType (budgetAlerts numberToString slightlyOver) = ["WARNING"].
Proof.
  intros r types. unfold types. rewrite budgetAlerts_types.
  set (u := utilizationPercentage ts b).
  assert (utilization r = toFixedNum u 1) as EU by reflexivity.
  assert (status r = getBudgetStatus u) as ES by reflexivity.
  rewrite EU, ES. unfold budgetLevel.
  pose proof (getBudgetStatus_bands u) as (_ & _ & _ & B4 & B5).
  assert ((75 <? u)%float = true ->
          getBudgetStatus u <> "Conservative" /\ getBudgetStatus u <> "Moderate") as Low.
  { intros G. unfold getBudgetStatus.
    rewrite (FloatOrder.ltb_leb_false _ _ G).
    assert ((50 <? u)%float = true) as G50
        by (apply (ltb_trans 50 75 u); [reflexivity | exact G]).
    rewrite (FloatOrder.ltb_leb_false _ _ G50).
    destruct (u <=? 90)%float; [split; discriminate|].
    destruct (u <=? 100)%float; split; discriminate. }
  split; [|split; [|split; [|split]]].
  - destruct (100 <? toFixedNum u 1)%float eqn:H100.
    + intros _. apply B5. apply threshold_100. exact H100.
    + destruct (90 <? toFixedNum u 1)%float; [intros [H|[]]; discriminate H|].
      destruct (75 <? toFixedNum u 1)%float; [intros [H|[]]; discriminate H|].
      intros [].
  - destruct (100 <? toFixedNum u 1)%float eqn:H100;
      [intros [H|[]]; discriminate H|].
    destruct (90 <? toFixedNum u 1)%float eqn:H90.
    + intros _. apply threshold_90 in H90.
      destruct (u <=? 100)%float eqn:L; [left; apply B4; [exact H90 | reflexivity]|].
      right. unfold getBudgetStatus.
      rewrite (FloatOrder.ltb_leb_false _ _ H90), L.
      assert ((50 <? u)%float = true) as G50
          by (apply (ltb_trans 50 90 u); [reflexivity | exact H90]).
      assert ((75 <? u)%float = true) as G75
          by (apply (ltb_trans 75 90 u); [reflexivity | exact H90]).
      rewrite (FloatOrder.ltb_leb_false _ _ G50), (FloatOrder.ltb_leb_false _ _ G75).
      reflexivity.
    + destruct (75 <? toFixedNum u 1)%float; [intros [H|[]]; discriminate H|].
      intros [].
  - destruct (100 <? toFixedNum u 1)%float eqn:H100.
    + intros _. apply Low. apply threshold_100 in H100.
      apply (ltb_trans 75 100 u); [reflexivity | exact H100].
    + destruct (90 <? toFixedNum u 1)%float eqn:H90.
      * intros _. apply Low. apply threshold_90 in H90.
        apply (ltb_trans 75 90 u); [reflexivity | exact H90].
      * destruct (75 <? toFixedNum u 1)%float eqn:H75; [|congruence].
        intros _. apply Low. apply threshold_75. exact H75.
  - reflexivity.
  - rewrite budgetAlerts_types. reflexivity.
Qed.

(** X15: an email is produced exactly when the alerts passed hold a
    CRITICAL one; it is addressed to the student's id at university.edu;
    and for the alerts of [generateAlerts] this is exactly when the
    reported utilization exceeds 100. *)
Theorem generateEmailAlert_critical (a : Analysis) (alerts : list Alert) :
  (generateEmailAlert numberToString a alerts = None <-> existsb isCritical alerts = false)
  /\ (forall e, generateEmailAlert numberToString a alerts = Some e ->
        emailTo e = (infoId (studentInfo a) ++ "@university.edu")%string
        /\ emailSubject e = "Budget Alert: Immediate Action Required")
  /\ ((exists e, generateEmailAlert numberToString a (generateAlerts numberToString toLowerCase a) = Some e)
      <-> (100 <? utilization (budget a))%float = true).
Proof.
  assert (forall l, filter isCritical l = [] <-> existsb isCritical l = false) as FE.
  { induction l as [|x l IH]; simpl; [tauto|].
    destruct (isCritical x); simpl; [split; discriminate | exact IH]. }
  assert (forall l, generateEmailAlert numberToString a l = None <-> existsb isCritical l = false) as N.
  { intros l. unfold generateEmailAlert.
    destruct l as [|x l]; [simpl; tauto|].
    rewrite <- FE. destruct (filter isCritical (x :: l)); split; congruence. }
  split; [apply N|]. split.
  - intros e. unfold generateEmailAlert.
    destruct alerts as [|x l]; [discriminate|].
    destruct (filter isCritical (x :: l)); [discriminate|].
    intros [= <-]. split; reflexivity.
  - rewrite <- generateAlerts_critical. split.
    + intros (e & E). destruct (existsb isCritical (generateAlerts numberToString toLowerCase a)) eqn:X;
        [reflexivity|]. apply N in X. congruence.
    + intros X. destruct (generateEmailAlert numberToString a (generateAlerts numberToString toLowerCase a)) as [e|] eqn:E;
        [eauto|]. apply N in E. congruence.
Qed.

End AlertFacts.

(** ** The CSV export *)








(** ** Correct rounding *)

Local Open Scope Z_scope.

Module FloatNearest.

Lemma locOf_cases r d :
  0 <= r < d ->
  (r = 0 /\ locOf r d = loc_Exact)
  \/ (0 < r /\ 2 * r < d /\ locOf r d = loc_Inexact Lt)
  \/ (2 * r = d /\ locOf r d = loc_Inexact Eq)
  \/ (d < 2 * r /\ locOf r d = loc_Inexact Gt).
Proof.
  intros H. unfold locOf. destruct (Z.eqb_spec r 0) as [->|N]; [left; auto|].
  right. destruct (Z.compare_spec (2 * r) d); [right; left | left | right; right];
    repeat split; auto; lia.
Qed.

Lemma record_bits mrs r d :
  0 <= r < d ->
  loc_of_shr_record mrs = locOf r d ->
  (shr_r mrs = false /\ shr_s mrs = false /\ r = 0)
  \/ (shr_r mrs = false /\ shr_s mrs = true /\ 0 < r /\ 2 * r < d)
  \/ (shr_r mrs = true /\ shr_s mrs = false /\ 2 * r = d)
  \/ (shr_r mrs = true /\ shr_s mrs = true /\ d < 2 * r).
Proof.
  intros H E. destruct mrs as [m [] []]; simpl in *;
    destruct (locOf_cases r d H) as [[? L]|[(? & ? & L)|[[? L]|[? L]]]];
    rewrite L in E; try discriminate E; auto 10.
Qed.

(** One shift to the right keeps the location of the number shifted. *)
Lemma shr_1_loc mrs r d :
  0 <= shr_m mrs -> 0 <= r < d ->
  loc_of_shr_record mrs = locOf r d ->
  loc_of_shr_record (shr_1 mrs) = locOf (shr_m mrs mod 2 * d + r) (2 * d)
  /\ 0 <= shr_m mrs mod 2 * d + r < 2 * d.
Proof.
  intros Hm Hr E.
  pose proof (Z.mod_pos_bound (shr_m mrs) 2 ltac:(lia)) as Hb.
  split; [|nia].
  remember (2 * d) as dd eqn:Edd.
  destruct (record_bits mrs r d Hr E) as [(R & S & Er)|[(R & S & Er)|[(R & S & Er)|(R & S & Er)]]];
    destruct mrs as [m rb sb]; simpl in R, S, Hm, Hb |- *; subst rb sb;
    destruct m as [|[p|p|]|p]; try lia; rewrite Zmod_odd;
    cbn [loc_of_shr_record shr_r shr_s shr_1 shr_m orb Z.odd];
    unfold locOf;
    match goal with
    | |- _ = (if ?c =? 0 then _ else _) =>
        destruct (Z.eqb_spec c 0); try lia
    end;
    try reflexivity;
    match goal with
    | |- _ = loc_Inexact (?a ?= ?b) =>
        destruct (Z.compare_spec a b); try lia; reflexivity
    end.
Qed.

Lemma shr_iter_loc p : forall mrs r d,
  0 <= shr_m mrs -> 0 <= r < d ->
  loc_of_shr_record mrs = locOf r d ->
  let mrs' := SpecFloat.iter_pos shr_1 p mrs in
  let r' := shr_m mrs mod 2 ^ Zpos p * d + r in
  loc_of_shr_record mrs' = locOf r' (2 ^ Zpos p * d)
  /\ 0 <= r' < 2 ^ Zpos p * d
  /\ shr_m mrs' = shr_m mrs / 2 ^ Zpos p.
Proof.
  assert (forall a n d r, 0 <= a -> 0 <= n -> 0 < d -> 0 <= r < d ->
            (a / 2 ^ n) mod 2 ^ n * (2 ^ n * d) + (a mod 2 ^ n * d + r)
            = a mod 2 ^ (n + n) * d + r) as Two.
  { intros a n d r Ha Hn Hd Hr.
    assert (0 < 2 ^ n) as P by (apply Z.pow_pos_nonneg; lia).
    rewrite Z.pow_add_r by lia.
    rewrite (Z.rem_mul_r a (2 ^ n) (2 ^ n)) by lia. ring. }
  induction p as [p IH|p IH|]; intros mrs r d Hm Hr E; cbv zeta;
    cbn [SpecFloat.iter_pos].
  - destruct (shr_1_loc mrs r d Hm Hr E) as [E1 R1].
    assert (shr_m (shr_1 mrs) = shr_m mrs / 2) as M1 by (apply shr_1_m; exact Hm).
    assert (0 <= shr_m (shr_1 mrs)) as H1 by (rewrite M1; apply Z.div_pos; lia).
    destruct (IH _ _ _ H1 R1 E1) as (E2 & R2 & M2). cbv zeta in *.
    assert (0 <= shr_m (SpecFloat.iter_pos shr_1 p (shr_1 mrs))) as H2
        by (rewrite M2; apply Z.div_pos; [lia | apply Z.pow_pos_nonneg; lia]).
    destruct (IH _ _ _ H2 R2 E2) as (E3 & R3 & M3). cbv zeta in *.
    set (a := shr_m mrs) in *. set (n := Zpos p) in *.
    assert (0 < 2 ^ n) as P by (apply Z.pow_pos_nonneg; lia).
    assert (Zpos p~1 = 1 + (n + n)) as Ep by lia. rewrite Ep.
    rewrite M2, M1 in *.
    assert (2 ^ (1 + (n + n)) = 2 * (2 ^ n * 2 ^ n)) as Ew
        by (rewrite !Z.pow_add_r by lia; reflexivity).
    assert (a / 2 / 2 ^ n mod 2 ^ n * (2 ^ n * (2 * d))
            + (a / 2 mod 2 ^ n * (2 * d) + (a mod 2 * d + r))
            = a mod 2 ^ (1 + (n + n)) * d + r) as Er.
    { rewrite Ew. rewrite (Z.rem_mul_r a 2 (2 ^ n * 2 ^ n)) by lia.
      rewrite (Z.rem_mul_r (a / 2) (2 ^ n) (2 ^ n)) by lia. ring. }
    assert (2 ^ n * (2 ^ n * (2 * d)) = 2 ^ (1 + (n + n)) * d) as Ed
        by (rewrite Ew; ring).
    rewrite Er, Ed in E3. rewrite Er, Ed in R3.
    split; [exact E3|]. split; [exact R3|].
    rewrite M3, !Z.div_div by lia. f_equal. rewrite Ew. ring.
  - destruct (IH _ _ _ Hm Hr E) as (E2 & R2 & M2). cbv zeta in *.
    assert (0 <= shr_m (SpecFloat.iter_pos shr_1 p mrs)) as H2
        by (rewrite M2; apply Z.div_pos; [lia | apply Z.pow_pos_nonneg; lia]).
    destruct (IH _ _ _ H2 R2 E2) as (E3 & R3 & M3). cbv zeta in *.
    set (a := shr_m mrs) in *. set (n := Zpos p) in *.
    assert (0 < 2 ^ n) as P by (apply Z.pow_pos_nonneg; lia).
    assert (Zpos p~0 = n + n) as Ep by lia. rewrite Ep.
    rewrite M2 in *.
    assert (2 ^ n * (2 ^ n * d) = 2 ^ (n + n) * d) as Ed
        by (rewrite Z.pow_add_r by lia; ring).
    pose proof (Two a n d r Hm ltac:(lia) ltac:(lia) Hr) as Er.
    rewrite Er, Ed in E3. rewrite Er, Ed in R3.
    split; [exact E3|]. split; [exact R3|].
    rewrite M3, Z.div_div by lia. f_equal. rewrite Z.pow_add_r by lia. ring.
  - change (2 ^ 1) with 2. destruct (shr_1_loc mrs r d Hm Hr E) as [E1 R1].
    split; [exact E1|]. split; [exact R1|]. apply shr_1_m. exact Hm.
Qed.

(** The mantissa and location after the shift of [n] bits. *)
Lemma shr_loc m r d e n :
  0 <= m -> 0 <= r < d -> 0 <= n ->
  let mrs' := fst (shr (shr_record_of_loc m (locOf r d)) e n) in
  let r' := m mod 2 ^ n * d + r in
  loc_of_shr_record mrs' = locOf r' (2 ^ n * d)
  /\ 0 <= r' < 2 ^ n * d
  /\ shr_m mrs' = m / 2 ^ n.
Proof.
  intros Hm Hr Hn. cbv zeta.
  assert (shr_m (shr_record_of_loc m (locOf r d)) = m) as Em
      by (destruct (locOf r d) as [|[]]; reflexivity).
  destruct n as [|p|p]; try lia.
  - cbn [shr fst]. change (2 ^ 0) with 1.
    rewrite Z.mod_1_r, Z.div_1_r, loc_of_record_of_loc, Em.
    replace (0 * d + r) with r by ring. replace (1 * d) with d by ring.
    split; [reflexivity|]. split; [exact Hr | reflexivity].
  - cbn [shr fst].
    pose proof (shr_iter_loc p (shr_record_of_loc m (locOf r d)) r d
                  ltac:(rewrite Em; exact Hm) Hr (loc_of_record_of_loc _ _)) as H.
    cbv zeta in H. rewrite Em in H. exact H.
Qed.

(** Rounding to nearest: the distance to the number rounded is at most a
    half. *)
Lemma round_nearest m r d :
  0 <= r < d ->
  let M := round_nearest_even m (locOf r d) in
  (M = m \/ M = m + 1) /\ 2 * Z.abs (M * d - (m * d + r)) <= d.
Proof.
  intros Hr. cbv zeta.
  destruct (locOf_cases r d Hr) as [[? L]|[(? & ? & L)|[[? L]|[? L]]]];
    rewrite L; cbn [round_nearest_even].
  - split; [left; reflexivity | lia].
  - split; [left; reflexivity | lia].
  - destruct (Z.even m); split; auto; lia.
  - split; [right; reflexivity | lia].
Qed.

(** [binary_round_aux] rounds the number [(m + r / d) * 2^e] to nearest:
    the mantissa [M] it returns, at the exponent [E], is within a half of
    the number's mantissa at that exponent. *)
Lemma round_aux_nearest s m e r d :
  0 <= m -> 0 <= r < d -> e <= fexp prec emax (Zdigits2 m + e) ->
  let E := fexp prec emax (Zdigits2 m + e) in
  let D := 2 ^ (E - e) * d in
  exists M,
    binary_round_aux prec emax s m e (locOf r d) = pack s M E
    /\ 0 <= M <= 2 ^ 53
    /\ -1074 <= E
    /\ 2 * Z.abs (M * D - (m * d + r)) <= D
    /\ m / 2 ^ (E - e) < 2 ^ 53
    /\ (-1074 < E -> 2 ^ 52 <= m / 2 ^ (E - e))
    /\ (-1074 < E -> 2 ^ 52 <= M).
Proof.
  intros Hm Hr Hk E D.
  destruct (round_aux_spec s m e (locOf r d) Hm Hk) as (M0 & _ & _ & Hup & Hlow & _).
  fold E in Hup, Hlow.
  assert (-1074 <= E) as HE by (unfold E; rewrite fexp_eq; lia).
  set (n := E - e) in *. assert (0 <= n) as Hn by (unfold n, E; lia).
  assert (0 < 2 ^ n) as Pn by (apply Z.pow_pos_nonneg; lia).
  assert (0 <= m / 2 ^ n) as H0 by (apply Z.div_pos; lia).
  destruct (shr_loc m r d e n Hm Hr Hn) as (L1 & R1 & M1). cbv zeta in L1, R1, M1.
  unfold binary_round_aux, shr_fexp at 1. fold E. fold n.
  destruct (shr (shr_record_of_loc m (locOf r d)) e n) as [mrs1 e1] eqn:S1.
  assert (e1 = E) as Ee.
  { unfold shr in S1. destruct n as [|p|p] eqn:Np; try lia;
      injection S1 as _ <-; unfold n in Np; lia. }
  cbn [fst] in L1, M1. rewrite L1, M1, Ee.
  set (r' := m mod 2 ^ n * d + r) in *.
  destruct (round_nearest (m / 2 ^ n) r' (2 ^ n * d) R1) as [HM Hd].
  cbv zeta in HM, Hd.
  set (M := round_nearest_even (m / 2 ^ n) (locOf r' (2 ^ n * d))) in *.
  exists M.
  assert (0 <= M <= 2 ^ 53) as HMb by lia.
  assert (-1074 < E -> 2 ^ 52 <= M) as HMl by (intros H; specialize (Hlow H); lia).
  split; [apply FloatExact.renormalise; assumption|].
  split; [exact HMb|]. split; [exact HE|]. split.
  - unfold D.
    assert (m / 2 ^ n * (2 ^ n * d) + r' = m * d + r) as Ev.
    { unfold r'. pose proof (Z.div_mod m (2 ^ n) ltac:(lia)) as DM. nia. }
    rewrite <- Ev. exact Hd.
  - split; [exact Hup|]. split; [exact Hlow | exact HMl].
Qed.

Lemma new_location_locOf nb k :
  0 <= k < nb -> new_location nb k = locOf k nb.
Proof.
  intros H. unfold new_location, new_location_even, new_location_odd, locOf.
  destruct (Z.even nb) eqn:Ev; destruct (Z.eqb_spec k 0); try reflexivity.
  f_equal. apply Bool.negb_true_iff in Ev. rewrite Z.negb_even in Ev.
  apply Z.odd_spec in Ev. destruct Ev as [c Ec].
  destruct (Z.compare_spec (2 * k + 1) nb); destruct (Z.compare_spec (2 * k) nb);
    try reflexivity; lia.
Qed.

(** The remainder of the division of [SFdiv_core_binary] gives the
    location it returns. *)
Lemma div_core_loc m1 e1 m2 e2 :
  0 < m1 -> 0 < m2 ->
  let q := fst (fst (SFdiv_core_binary prec emax m1 e1 m2 e2)) in
  let e' := snd (fst (SFdiv_core_binary prec emax m1 e1 m2 e2)) in
  let l := snd (SFdiv_core_binary prec emax m1 e1 m2 e2) in
  exists r, 0 <= r < m2 /\ l = locOf r m2
            /\ q * m2 + r = m1 * 2 ^ (e1 - e2 - e').
Proof.
  intros H1 H2. unfold SFdiv_core_binary.
  set (d1 := Zdigits2 m1). set (d2 := Zdigits2 m2).
  set (X := d1 + e1 - (d2 + e2)).
  set (e' := Z.min (fexp prec emax X) (e1 - e2)).
  remember (e1 - e2 - e') as sh eqn:Esh.
  assert (0 <= sh) as Hsh by (unfold e' in Esh; lia).
  set (m' := match sh with Zpos _ => Z.shiftl m1 sh | 0 => m1 | Zneg _ => 0 end).
  assert (m' = m1 * 2 ^ sh) as Hm'.
  { unfold m'. clear m' Esh. destruct sh as [|p|p]; try lia.
    rewrite Z.shiftl_mul_pow2 by lia. reflexivity. }
  pose proof (Z_div_mod m' m2 ltac:(lia)) as DM.
  destruct (Z.div_eucl m' m2) as [q r]. destruct DM as [DM1 DM2].
  cbn [fst snd]. exists r. split; [lia|].
  split; [apply new_location_locOf; lia|].
  rewrite <- Esh, <- Hm'. lia.
Qed.

Local Open Scope Q_scope.

(** One rounding, in values: the result is within half a unit of its last
    place of the number rounded. *)
Lemma round_aux_nearest_value s m e r d (x : Q) :
  (0 <= m)%Z -> (0 <= r < d)%Z -> (e <= fexp prec emax (Zdigits2 m + e))%Z ->
  x == inject_Z (m * d + r) / inject_Z d * 2 ^ e ->
  let E := fexp prec emax (Zdigits2 m + e) in
  exists M,
    binary_round_aux prec emax s m e (locOf r d) = pack s M E
    /\ (0 <= M <= 2 ^ 53)%Z
    /\ (-1074 <= E)%Z
    /\ inject_Z M * 2 ^ E - (1 # 2) * 2 ^ E <= x <= inject_Z M * 2 ^ E + (1 # 2) * 2 ^ E
    /\ x < inject_Z (2 ^ 53) * 2 ^ E
    /\ ((-1074 < E)%Z -> inject_Z (2 ^ 52) * 2 ^ E <= x)
    /\ ((-1074 < E)%Z -> (2 ^ 52 <= M)%Z).
Proof.
  intros Hm Hr Hpre Hx E.
  destruct (round_aux_nearest s m e r d Hm Hr Hpre)
    as (M & Heq & HM & HE & Hd & Hup & Hlow & HMl).
  fold E in Heq, HE, Hd, Hup, Hlow, HMl.
  set (n := (E - e)%Z) in *. assert (0 <= n)%Z as Hn by (unfold n, E; lia).
  assert (0 < 2 ^ n)%Z as Pn by (apply Z.pow_pos_nonneg; lia).
  set (D := (2 ^ n * d)%Z) in *. set (X := (m * d + r)%Z) in *.
  pose proof (two_pow_pos e) as Pe. pose proof (two_pow_pos E) as PE.
  assert (0 < inject_Z d) as Pd by (apply (inject_Z_pos_lt 0); lia).
  set (w := 2 ^ e / inject_Z d).
  assert (0 < w) as Pw by (unfold w; apply Qlt_shift_div_l; lra).
  assert (x == inject_Z X * w) as Ex
      by (rewrite Hx; unfold w; field; lra).
  assert (2 ^ E == inject_Z D * w) as EE.
  { replace E with (n + e)%Z by (unfold n; lia).
    rewrite two_pow_add, (two_pow_Z n Hn). unfold D, w.
    rewrite inject_Z_mult. field. lra. }
  assert (-D <= 2 * (M * D + - X) <= D)%Z as [A1 A2] by lia.
  apply inject_Z_pos_le in A1, A2.
  rewrite inject_Z_opp in A1.
  rewrite inject_Z_mult, inject_Z_plus, inject_Z_opp, inject_Z_mult in A1, A2.
  change (inject_Z 2) with 2 in A1, A2.
  set (m' := (m / 2 ^ n)%Z) in *.
  assert (X < (m' + 1) * D)%Z as XU.
  { pose proof (Z.mul_succ_div_gt m (2 ^ n) Pn) as G. fold m' in G.
    unfold X, D. nia. }
  assert (m' * D <= X)%Z as XL.
  { pose proof (Z.mul_div_le m (2 ^ n) Pn) as G. fold m' in G.
    unfold X, D. nia. }
  exists M. split; [exact Heq|]. split; [exact HM|]. split; [exact HE|].
  clearbody w.
  split; [|split; [|split]].
  - rewrite Ex, EE.
    apply (Qmult_le_compat_r _ _ w) in A1; [|lra].
    apply (Qmult_le_compat_r _ _ w) in A2; [|lra].
    split; lra.
  - rewrite Ex, EE.
    assert (X < 2 ^ 53 * D)%Z as XU' by nia.
    apply inject_Z_pos_lt in XU'. rewrite inject_Z_mult in XU'.
    apply (Qmult_lt_compat_r _ _ w) in XU'; [|exact Pw].
    rewrite <- Qmult_assoc in XU'. exact XU'.
  - intros G. specialize (Hlow G).
    assert (2 ^ 52 * D <= X)%Z as XL' by nia.
    apply inject_Z_pos_le in XL'. rewrite inject_Z_mult in XL'.
    rewrite Ex, EE.
    apply (Qmult_le_compat_r _ _ w) in XL'; [|lra].
    rewrite <- Qmult_assoc in XL'. exact XL'.
  - exact HMl.
Qed.

(** The quotient of two positive finite numbers, correctly rounded. *)
Lemma SFdiv_nearest mx ex my ey :
  let rho := (inject_Z (Zpos mx) * 2 ^ ex) / (inject_Z (Zpos my) * 2 ^ ey) in
  exists M E,
    SFdiv prec emax (S754_finite false mx ex) (S754_finite false my ey)
      = pack false M E
    /\ (0 <= M <= 2 ^ 53)%Z
    /\ (-1074 <= E)%Z
    /\ inject_Z M * 2 ^ E - (1 # 2) * 2 ^ E <= rho <= inject_Z M * 2 ^ E + (1 # 2) * 2 ^ E
    /\ rho < inject_Z (2 ^ 53) * 2 ^ E
    /\ ((-1074 < E)%Z -> inject_Z (2 ^ 52) * 2 ^ E <= rho)
    /\ ((-1074 < E)%Z -> (2 ^ 52 <= M)%Z).
Proof.
  intros rho.
  pose proof (div_core_spec (Zpos mx) ex (Zpos my) ey ltac:(lia) ltac:(lia))
    as (Hq & Hsh & _ & Hpre).
  pose proof (div_core_loc (Zpos mx) ex (Zpos my) ey ltac:(lia) ltac:(lia))
    as (r & Hr & Hl & Hdiv).
  unfold SFdiv.
  destruct (SFdiv_core_binary prec emax (Zpos mx) ex (Zpos my) ey) as [[q e'] l].
  cbn [fst snd] in *. subst l.
  set (sh := (ex - ey - e')%Z) in *.
  assert (0 <= sh)%Z as Hs by (unfold sh; lia).
  pose proof (two_pow_pos e') as Pe. pose proof (two_pow_pos ey) as Py.
  assert (0 < inject_Z (Zpos my)) as PY by (apply (inject_Z_pos_lt 0); lia).
  assert (2 ^ ex == inject_Z (2 ^ sh) * 2 ^ e' * 2 ^ ey) as EX.
  { replace ex with (sh + e' + ey)%Z at 1 by (unfold sh; lia).
    rewrite !two_pow_add, (two_pow_Z sh Hs). reflexivity. }
  assert (rho == inject_Z (q * Zpos my + r) / inject_Z (Zpos my) * 2 ^ e') as ER.
  { unfold rho. rewrite Hdiv, EX, inject_Z_mult. field. split; lra. }
  destruct (round_aux_nearest_value false q e' r (Zpos my) rho Hq Hr Hpre ER)
    as (M & Heq & HM & HE & Hb & Hu & Hl & Hn).
  exists M, (fexp prec emax (Zdigits2 q + e')). cbn [xorb]. auto 8.
Qed.

(** The product of two positive finite numbers, correctly rounded. *)
Lemma SFmul_nearest mx ex my ey :
  Zdigits2 (Zpos my) = 53%Z ->
  let rho := (inject_Z (Zpos mx) * 2 ^ ex) * (inject_Z (Zpos my) * 2 ^ ey) in
  exists M E,
    SFmul prec emax (S754_finite false mx ex) (S754_finite false my ey)
      = pack false M E
    /\ (0 <= M <= 2 ^ 53)%Z
    /\ (-1074 <= E)%Z
    /\ inject_Z M * 2 ^ E - (1 # 2) * 2 ^ E <= rho <= inject_Z M * 2 ^ E + (1 # 2) * 2 ^ E
    /\ rho < inject_Z (2 ^ 53) * 2 ^ E
    /\ ((-1074 < E)%Z -> inject_Z (2 ^ 52) * 2 ^ E <= rho)
    /\ ((-1074 < E)%Z -> (2 ^ 52 <= M)%Z).
Proof.
  intros Dy rho. unfold SFmul. cbn [xorb].
  set (m := Zpos (mx * my)). set (e := (ex + ey)%Z).
  assert (m = Zpos mx * Zpos my)%Z as Em by reflexivity.
  assert (e <= fexp prec emax (Zdigits2 m + e))%Z as Hpre.
  { pose proof (Zdigits2_bounds (Zpos mx) ltac:(lia)) as [Bx _].
    pose proof (Zdigits2_bounds (Zpos my) ltac:(lia)) as [By _].
    pose proof (Zdigits2_pos (Zpos mx) ltac:(lia)) as Dx.
    rewrite Dy in By. change (2 ^ (53 - 1))%Z with (2 ^ 52)%Z in By.
    assert (2 ^ (Zdigits2 (Zpos mx) - 1 + 52) <= m)%Z as L.
    { rewrite Z.pow_add_r by lia. rewrite Em.
      assert (0 < 2 ^ (Zdigits2 (Zpos mx) - 1))%Z by (apply Z.pow_pos_nonneg; lia).
      nia. }
    pose proof (Zdigits2_ge m (Zdigits2 (Zpos mx) - 1 + 52) ltac:(lia) L).
    rewrite fexp_eq. lia. }
  assert (rho == inject_Z (m * 1 + 0) / inject_Z 1 * 2 ^ e) as ER.
  { unfold rho, e. replace (m * 1 + 0)%Z with m by ring.
    rewrite Em, inject_Z_mult, two_pow_add. change (inject_Z 1) with 1. field. }
  destruct (round_aux_nearest_value false m e 0 1 rho ltac:(lia) ltac:(lia) Hpre ER)
    as (M & Heq & HM & HE & Hb & Hu & Hl & Hn).
  change (locOf 0 1) with loc_Exact in Heq.
  exists M, (fexp prec emax (Zdigits2 m + e)). auto 8.
Qed.

End FloatNearest.

Local Close Scope Z_scope.

Import FloatNearest.

Local Open Scope Q_scope.

(** ** The over-budget flag and the status *)

(** The strict order of two positive finite numbers is the order of their
    values. *)
Lemma ltb_value_iff (x y : num) mx ex my ey :
  Prim2SF x = S754_finite false mx ex ->
  Prim2SF y = S754_finite false my ey ->
  (x <? y)%float = true
  <-> inject_Z (Zpos mx) * 2 ^ ex < inject_Z (Zpos my) * 2 ^ ey.
Proof.
  intros Ex Ey. rewrite FloatAxioms.ltb_spec. unfold SFltb.
  pose proof (Prim2SF_valid x) as Vx. pose proof (Prim2SF_valid y) as Vy.
  rewrite Ex in *. rewrite Ey in *.
  rewrite (compare_aligned _ _ _ _ _ _ Vx Vy). cbv zeta. unfold cond_Zopp.
  set (ez := Z.min ex ey).
  rewrite <- (aligned_value mx ex ez) by (unfold ez; lia).
  rewrite <- (aligned_value my ey ez) by (unfold ez; lia).
  pose proof (two_pow_pos ez) as Pz.
  set (X := (Zpos mx * 2 ^ (ex - ez))%Z). set (Y := (Zpos my * 2 ^ (ey - ez))%Z).
  split.
  - intros H. assert (X < Y)%Z as L
        by (destruct (Z.compare_spec X Y); try lia; discriminate H).
    apply Qmult_lt_compat_r; [exact Pz|]. rewrite <- Zlt_Qlt. exact L.
  - intros H. destruct (Z.compare_spec X Y) as [E|L|G]; [exfalso|reflexivity|exfalso].
    + rewrite E in H. lra.
    + assert (inject_Z Y < inject_Z X) as G' by (rewrite <- Zlt_Qlt; exact G).
      apply (Qmult_lt_compat_r _ _ (2 ^ ez)) in G'; [lra | exact Pz].
Qed.

(** Between two positive finite numbers there is a gap: the larger one
    exceeds the smaller one by more than its [2^-53]th part. *)
Lemma float_gap (x y : num) mx ex my ey :
  Prim2SF x = S754_finite false mx ex ->
  Prim2SF y = S754_finite false my ey ->
  (x <? y)%float = true ->
  inject_Z (Zpos mx) * 2 ^ ex
  < inject_Z (2 ^ 53) * (inject_Z (Zpos my) * 2 ^ ey - inject_Z (Zpos mx) * 2 ^ ex).
Proof.
  intros Ex Ey. rewrite FloatAxioms.ltb_spec. unfold SFltb.
  pose proof (Prim2SF_valid x) as Vx. pose proof (Prim2SF_valid y) as Vy.
  rewrite Ex in *. rewrite Ey in *.
  rewrite (compare_aligned _ _ _ _ _ _ Vx Vy). cbv zeta. unfold cond_Zopp.
  apply valid_finite_bounds in Vx as (Ux & _ & _).
  apply valid_finite_bounds in Vy as (Uy & _ & _).
  set (ez := Z.min ex ey).
  rewrite <- (aligned_value mx ex ez) by (unfold ez; lia).
  rewrite <- (aligned_value my ey ez) by (unfold ez; lia).
  pose proof (two_pow_pos ez) as Pz.
  set (X := (Zpos mx * 2 ^ (ex - ez))%Z). set (Y := (Zpos my * 2 ^ (ey - ez))%Z).
  intros H. assert (X < Y)%Z as L
      by (destruct (Z.compare_spec X Y); try lia; discriminate H).
  assert (X < 2 ^ 53)%Z as UX.
  { destruct (Z_le_gt_dec ex ey) as [Le|Gt].
    - unfold X. replace (ex - ez)%Z with 0%Z by (unfold ez; lia).
      change (2 ^ 0)%Z with 1%Z. lia.
    - assert (Y = Zpos my) as EY.
      { unfold Y. replace (ey - ez)%Z with 0%Z by (unfold ez; lia).
        change (2 ^ 0)%Z with 1%Z. lia. }
      lia. }
  assert (X < 2 ^ 53 * (Y + - X))%Z as G by nia.
  apply inject_Z_pos_lt in G.
  rewrite inject_Z_mult, inject_Z_plus, inject_Z_opp in G.
  apply (Qmult_lt_compat_r _ _ (2 ^ ez)) in G; [|exact Pz].
  set (c := inject_Z (2 ^ 53)) in *. clearbody c.
  set (a := inject_Z X) in *. set (b := inject_Z Y) in *. clearbody a b.
  assert (c * (b + - a) * 2 ^ ez == c * (b * 2 ^ ez - a * 2 ^ ez)) as R by ring.
  rewrite R in G. exact G.
Qed.

(** A correctly rounded number does not pass a whole number below
    [2^53] that bounds the number rounded. *)
Lemma nearest_below (M E N : Z) (rho : Q) :
  (-1074 <= E)%Z -> (0 < N < 2 ^ 53)%Z ->
  inject_Z M * 2 ^ E - (1 # 2) * 2 ^ E <= rho ->
  ((-1074 < E)%Z -> inject_Z (2 ^ 52) * 2 ^ E <= rho) ->
  rho <= inject_Z N ->
  inject_Z M * 2 ^ E <= inject_Z N /\ (E <= 0)%Z.
Proof.
  intros HE HN Hb Hl Hr.
  pose proof (two_pow_pos E) as PE.
  assert (E <= 0)%Z as E0.
  { destruct (Z_le_gt_dec E 0) as [L|G]; [exact L|exfalso].
    specialize (Hl ltac:(lia)).
    assert (2 ^ 1 <= 2 ^ E) as P1 by (apply Qpower_le_compat_l; [lia | lra]).
    change (2 ^ 1) with 2 in P1.
    assert (inject_Z N < inject_Z (2 ^ 53)) as UN by (rewrite <- Zlt_Qlt; lia).
    change (inject_Z (2 ^ 53)) with (inject_Z (2 ^ 52) * 2) in UN.
    assert (0 < inject_Z (2 ^ 52)) by reflexivity.
    set (c := inject_Z (2 ^ 52)) in *. clearbody c. nra. }
  split; [|exact E0].
  set (k := (- E)%Z). assert (0 <= k)%Z as Hk by (unfold k; lia).
  pose proof (two_pow_neg k Hk) as T. unfold k in T at 1.
  rewrite Z.opp_involutive in T.
  assert (0 < 2 ^ k)%Z as Pk by (apply Z.pow_pos_nonneg; lia).
  assert (0 < inject_Z (2 ^ k)) as Pk' by (apply (inject_Z_pos_lt 0); exact Pk).
  set (t := 2 ^ E) in *. set (P := inject_Z (2 ^ k)) in *.
  assert (inject_Z M - (1 # 2) <= inject_Z (N * 2 ^ k)) as B.
  { rewrite inject_Z_mult. fold P.
    assert ((inject_Z M * t - (1 # 2) * t) * P <= inject_Z N * P) as B0
        by (apply Qmult_le_compat_r; lra).
    assert ((inject_Z M * t - (1 # 2) * t) * P
            == (inject_Z M - (1 # 2)) * (t * P)) as R by ring.
    rewrite R, T in B0. lra. }
  assert (M <= N * 2 ^ k)%Z as LM.
  { destruct (Z_le_gt_dec M (N * 2 ^ k)) as [L|G]; [exact L|exfalso].
    assert (inject_Z (N * 2 ^ k + 1) <= inject_Z M) as L3
        by (rewrite <- Zle_Qle; lia).
    rewrite inject_Z_plus in L3. change (inject_Z 1) with 1 in L3. lra. }
  apply inject_Z_pos_le in LM. rewrite inject_Z_mult in LM. fold P in LM.
  apply (Qmult_le_compat_r _ _ t) in LM; [|lra].
  assert (inject_Z N * P * t == inject_Z N * (t * P)) as R by ring.
  rewrite R, T in LM. lra.
Qed.

(** The exponent of a rounded number that exceeds [2^b]. *)
Lemma exponent_above (E b : Z) (rho : Q) :
  rho < inject_Z (2 ^ 53) * 2 ^ E -> 2 ^ b <= rho -> (b - 53 < E)%Z.
Proof.
  intros H1 H2. change (inject_Z (2 ^ 53)) with (2 ^ 53) in H1.
  rewrite <- two_pow_add in H1.
  destruct (Z_lt_le_dec (b - 53) E) as [L|G]; [exact L|exfalso].
  assert (2 ^ (53 + E) <= 2 ^ b) as H by (apply Qpower_le_compat_l; [lia | lra]).
  lra.
Qed.

Lemma finite_value_pos m e : 0 < inject_Z (Zpos m) * 2 ^ e.
Proof.
  pose proof (two_pow_pos e).
  assert (0 < inject_Z (Zpos m)) by (apply (inject_Z_pos_lt 0); lia). nra.
Qed.

(** The quotient of a positive number by one that is not smaller is at
    most 1. *)
Lemma quotient_at_most_one (s b : num) ms es mb eb :
  Prim2SF s = S754_finite false ms es ->
  Prim2SF b = S754_finite false mb eb ->
  (b <? s)%float = false ->
  finiteTotal (s / b)%float /\ exactValue (s / b)%float <= 1.
Proof.
  intros Es Eb Hlt.
  assert (inject_Z (Zpos ms) * 2 ^ es <= inject_Z (Zpos mb) * 2 ^ eb) as Lv.
  { apply Qnot_lt_le. intros C.
    apply (ltb_value_iff b s mb eb ms es Eb Es) in C. congruence. }
  unfold finiteTotal, exactValue. rewrite div_spec. unfold SF64div.
  rewrite Es, Eb.
  destruct (SFdiv_nearest ms es mb eb) as (M & E & Heq & HM & HE & Hb & _ & Hl & _).
  cbv zeta in Hb, Hl. rewrite Heq.
  pose proof (finite_value_pos mb eb) as Pb.
  set (rho := inject_Z (Zpos ms) * 2 ^ es / (inject_Z (Zpos mb) * 2 ^ eb)) in *.
  assert (rho <= inject_Z 1) as R1.
  { change (inject_Z 1) with 1. unfold rho. apply Qle_shift_div_r; [exact Pb | lra]. }
  destruct (nearest_below M E 1 rho HE ltac:(lia) (proj1 Hb) Hl R1) as [V E0].
  change (inject_Z 1) with 1 in V.
  destruct (pack_value M E HM) as [I|[[Z|(m & e & F)] Ev]].
  - exfalso. exact (pack_no_overflow M E ltac:(lia) I).
  - rewrite Z. split; [reflexivity|]. cbn [SF2Q]. lra.
  - rewrite Ev. rewrite F. split; [reflexivity | exact V].
Qed.

(** The quotient of a positive number by a smaller one is at least the
    number next to 1. *)
Lemma quotient_above_one (s b : num) ms es mb eb :
  Prim2SF s = S754_finite false ms es ->
  Prim2SF b = S754_finite false mb eb ->
  (b <? s)%float = true ->
  Prim2SF (s / b)%float = S754_infinity false
  \/ exists m e, Prim2SF (s / b)%float = S754_finite false m e
                 /\ 1 + 2 ^ (-52) <= inject_Z (Zpos m) * 2 ^ e.
Proof.
  intros Es Eb Hlt.
  pose proof (float_gap b s mb eb ms es Eb Es Hlt) as G.
  rewrite div_spec. unfold SF64div. rewrite Es, Eb.
  destruct (SFdiv_nearest ms es mb eb) as (M & E & Heq & HM & HE & Hb & Hu & _ & Hn).
  cbv zeta in Hb, Hu. rewrite Heq.
  pose proof (finite_value_pos mb eb) as Pb.
  set (vs := inject_Z (Zpos ms) * 2 ^ es) in *.
  set (vb := inject_Z (Zpos mb) * 2 ^ eb) in *.
  set (rho := vs / vb) in *.
  assert (1 + 2 ^ (-53) < rho) as R1.
  { unfold rho. apply Qlt_shift_div_l; [exact Pb|].
    change (inject_Z (2 ^ 53)) with (2 ^ 53) in G.
    assert (2 ^ (-53) * vb < 2 ^ (-53) * (2 ^ 53 * (vs - vb))) as G'
        by (apply Qmult_lt_l; [reflexivity | exact G]).
    assert (2 ^ (-53) * (2 ^ 53 * (vs - vb)) == vs - vb) as R
        by (change (2 ^ (-53)) with (/ 2 ^ 53); field; discriminate).
    rewrite R in G'. lra. }
  assert (-53 < E)%Z as LE.
  { pose proof (exponent_above E 0 rho Hu) as X. change (2 ^ 0) with 1 in X.
    assert (0 < 2 ^ (-53)) by reflexivity.
    specialize (X ltac:(lra)). lia. }
  pose proof (two_pow_pos E) as PE.
  assert (1 + 2 ^ (-52) <= inject_Z M * 2 ^ E) as V.
  { destruct (Z.eq_dec E (-52)) as [->|NE].
    - assert (inject_Z (2 ^ 52) < inject_Z M) as LM.
      { destruct Hb as [_ Hb].
        change (inject_Z (2 ^ 52)) with (2 ^ 52).
        set (iM := inject_Z M) in *. clearbody iM. clear - Hb R1.
        assert (2 ^ 52 * (1 + 2 ^ (-53)) < 2 ^ 52 * rho) as A
            by (apply Qmult_lt_l; [reflexivity | exact R1]).
        assert (2 ^ 52 * rho <= 2 ^ 52 * (iM * 2 ^ (-52) + (1 # 2) * 2 ^ (-52))) as B
            by (apply Qmult_le_l; [reflexivity | exact Hb]).
        assert (2 ^ 52 * (iM * 2 ^ (-52) + (1 # 2) * 2 ^ (-52)) == iM + (1 # 2)) as R
            by (change (2 ^ (-52)) with (/ 2 ^ 52); field; discriminate).
        assert (2 ^ 52 * (1 + 2 ^ (-53)) == 2 ^ 52 + (1 # 2)) as R' by reflexivity.
        rewrite R in B. rewrite R' in A. lra. }
      rewrite <- Zlt_Qlt in LM.
      assert (inject_Z (2 ^ 52 + 1) <= inject_Z M) as LM'
          by (rewrite <- Zle_Qle; lia).
      apply (Qmult_le_compat_r _ _ (2 ^ (-52))) in LM'; [|discriminate].
      eapply Qle_trans; [|exact LM']. discriminate.
    - specialize (Hn ltac:(lia)).
      assert (2 ^ (-51) <= 2 ^ E) as P1 by (apply Qpower_le_compat_l; [lia | lra]).
      assert (inject_Z (2 ^ 52) <= inject_Z M) as LM
          by (rewrite <- Zle_Qle; exact Hn).
      apply Qle_trans with (inject_Z (2 ^ 52) * 2 ^ (-51)); [discriminate|].
      apply Qle_trans with (inject_Z (2 ^ 52) * 2 ^ E).
      + apply Qmult_le_l; [reflexivity | exact P1].
      + apply Qmult_le_compat_r; [exact LM | lra]. }
  destruct (pack_value M E HM) as [I|[[Z|(m & e & F)] Ev]].
  - left. exact I.
  - exfalso. rewrite Z in Ev. cbn [SF2Q] in Ev. rewrite <- Ev in V.
    revert V. apply Qlt_not_le. reflexivity.
  - right. exists m, e. split; [exact F|]. rewrite F in Ev. cbn [SF2Q] in Ev.
    rewrite Ev. exact V.
Qed.

Lemma hundred_float : Prim2SF 100 = S754_finite false 7036874417766400 (-46).
Proof. reflexivity. Qed.

(** A hundred times a number that is at most 1 is at most 100. *)
Lemma times100_at_most (q : num) :
  finiteTotal q -> exactValue q <= 1 -> (q * 100 <=? 100)%float = true.
Proof.
  unfold finiteTotal, exactValue. intros Fq Vq.
  destruct (Prim2SF q) as [[]|[]| |[] m e] eqn:Eq; try discriminate Fq.
  - rewrite FloatAxioms.leb_spec, mul_spec, Eq. reflexivity.
  - cbn [SF2Q] in Vq.
    destruct (SFmul_nearest m e 7036874417766400 (-46) eq_refl)
      as (M & E & Heq & HM & HE & Hb & _ & Hl & _).
    cbv zeta in Hb, Hl. rewrite hundred_value in Hb, Hl.
    pose proof (finite_value_pos m e) as Pq.
    set (v := inject_Z (Zpos m) * 2 ^ e) in *.
    assert (v * 100 <= inject_Z 100) as R1 by (change (inject_Z 100) with 100; lra).
    destruct (nearest_below M E 100 (v * 100) HE ltac:(lia) (proj1 Hb) Hl R1) as [V E0].
    assert (Prim2SF (q * 100)%float = pack false M E) as EP
        by (rewrite mul_spec, Eq; exact Heq).
    destruct (pack_value M E HM) as [I|[[Z|(m' & e' & F)] Ev]].
    + exfalso. exact (pack_no_overflow M E ltac:(lia) I).
    + rewrite FloatAxioms.leb_spec, EP, Z. reflexivity.
    + rewrite F in Ev. cbn [SF2Q] in Ev. rewrite <- EP in F.
      destruct (100 <? q * 100)%float eqn:C.
      * apply (ltb_value_iff _ _ _ _ _ _ hundred_float F) in C.
        rewrite hundred_value, Ev in C. change (inject_Z 100) with 100 in V. lra.
      * apply FloatOrder.ltb_false_leb; [| |exact C].
        -- unfold notNaN. rewrite hundred_float. discriminate.
        -- unfold notNaN. rewrite F. discriminate.
Qed.

(** A hundred times a number that is at least the one next to 1 exceeds
    100. *)
Lemma times100_above (q : num) :
  (Prim2SF q = S754_infinity false
   \/ exists m e, Prim2SF q = S754_finite false m e
                  /\ 1 + 2 ^ (-52) <= inject_Z (Zpos m) * 2 ^ e) ->
  (100 <? q * 100)%float = true.
Proof.
  intros [I|(m & e & Eq & Vq)].
  - rewrite FloatAxioms.ltb_spec, mul_spec, I. reflexivity.
  - destruct (SFmul_nearest m e 7036874417766400 (-46) eq_refl)
      as (M & E & Heq & HM & HE & Hb & Hu & _ & Hn).
    cbv zeta in Hb, Hu. rewrite hundred_value in Hb, Hu.
    set (v := inject_Z (Zpos m) * 2 ^ e) in *.
    assert (Prim2SF (q * 100)%float = pack false M E) as EP
        by (rewrite mul_spec, Eq; exact Heq).
    assert (100 + 100 * 2 ^ (-52) <= v * 100) as R1 by lra.
    assert (0 < 2 ^ (-52)) as P52 by reflexivity.
    assert (-47 < E)%Z as LE.
    { pose proof (exponent_above E 6 (v * 100) Hu) as X.
      change (2 ^ 6) with 64 in X. specialize (X ltac:(lra)). lia. }
    pose proof (two_pow_pos E) as PE.
    assert (100 < inject_Z M * 2 ^ E) as V.
    { destruct (Z.eq_dec E (-46)) as [->|NE].
      - destruct Hb as [_ Hb].
        assert ((1 # 2) * 2 ^ (-46) < 100 * 2 ^ (-52)) by reflexivity. lra.
      - specialize (Hn ltac:(lia)).
        assert (2 ^ (-45) <= 2 ^ E) as P1 by (apply Qpower_le_compat_l; [lia | lra]).
        assert (inject_Z (2 ^ 52) <= inject_Z M) as LM
            by (rewrite <- Zle_Qle; exact Hn).
        apply Qlt_le_trans with (inject_Z (2 ^ 52) * 2 ^ (-45)); [reflexivity|].
        apply Qle_trans with (inject_Z (2 ^ 52) * 2 ^ E).
        + apply Qmult_le_l; [reflexivity | exact P1].
        + apply Qmult_le_compat_r; [exact LM | lra]. }
    destruct (pack_value M E HM) as [I|[[Z|(m' & e' & F)] Ev]].
    + rewrite FloatAxioms.ltb_spec, EP, I. reflexivity.
    + exfalso. rewrite Z in Ev. cbn [SF2Q] in Ev. lra.
    + rewrite F in Ev. cbn [SF2Q] in Ev. rewrite <- EP in F.
      apply (ltb_value_iff _ _ _ _ _ _ hundred_float F).
      rewrite hundred_value, Ev. exact V.
Qed.

(** The percentage of a positive finite budget exceeds 100 when the sum
    exceeds the budget and is at most 100 otherwise: neither the division
    nor the multiplication by 100 rounds across the boundary. *)
Lemma percentage_boundary (s b : num) :
  isTotal s -> (0 <? b)%float = true -> (b <? infinity)%float = true ->
  if (b <? s)%float then (100 <? s / b * 100)%float = true
  else (s / b * 100 <=? 100)%float = true.
Proof.
  unfold isTotal. intros Ts Pb Fb.
  assert (exists mb eb, Prim2SF b = S754_finite false mb eb) as (mb & eb & Eb).
  { rewrite FloatAxioms.ltb_spec in Pb, Fb.
    change (Prim2SF 0) with (S754_zero false) in Pb.
    change (Prim2SF infinity) with (S754_infinity false) in Fb.
    destruct (Prim2SF b) as [[]|[]| |[] m e]; try discriminate Pb; try discriminate Fb.
    eauto. }
  destruct (Prim2SF s) as [[]|[]| |[] ms es] eqn:Es; try discriminate Ts.
  - rewrite !FloatAxioms.ltb_spec, FloatAxioms.leb_spec, mul_spec, div_spec, Es, Eb.
    reflexivity.
  - rewrite !FloatAxioms.ltb_spec, FloatAxioms.leb_spec, mul_spec, div_spec, Es, Eb.
    reflexivity.
  - destruct (b <? s)%float eqn:C.
    + apply times100_above. exact (quotient_above_one s b ms es mb eb Es Eb C).
    + destruct (quotient_at_most_one s b ms es mb eb Es Eb C) as [F V].
      apply times100_at_most; assumption.
Qed.

Local Close Scope Q_scope.

(** X18: for non-negative amounts and a positive finite budget the two
    over-budget indicators of [analyzeBudget] agree: [isOverBudget] is true
    exactly when the status is "Over Budget", that is exactly when the
    unrounded percentage exceeds 100 (the floating-point division and
    multiplication never carry a sum at or below the budget above 100, nor
    a sum above the budget down to 100); and a reported utilization above
    100 implies [isOverBudget]. *)
Theorem over_budget_agrees (ts : list Transaction) (b : num) :
  forallb (fun t => (0 <=? amount t)%float) ts = true ->
  (0 <? b)%float = true ->
  (b <? infinity)%float = true ->
  let r := analyzeBudget ts b in
  (isOverBudget r = true <-> status r = "Over Budget")
  /\ isOverBudget r = (100 <? utilizationPercentage ts b)%float
  /\ ((100 <? utilization r)%float = true -> isOverBudget r = true).
Proof.
  intros Hpos Hb Hfin r.
  pose proof (sumAmounts_total ts Hpos) as Ts.
  pose proof (percentage_boundary (sumAmounts ts) b Ts Hb Hfin) as B.
  assert (isOverBudget r = (b <? sumAmounts ts)%float) as EO by reflexivity.
  assert (utilizationPercentage ts b = (sumAmounts ts / b * 100)%float) as EU
      by (unfold utilizationPercentage; rewrite Hb; reflexivity).
  assert (status r = getBudgetStatus (sumAmounts ts / b * 100)%float) as ES
      by (rewrite <- EU; reflexivity).
  assert (utilization r = toFixedNum (sumAmounts ts / b * 100)%float 1) as ER
      by (rewrite <- EU; reflexivity).
  rewrite EO, ES, ER, EU. clear EO ES ER EU.
  set (u := (sumAmounts ts / b * 100)%float) in *.
  destruct (b <? sumAmounts ts)%float.
  - split; [|split].
    + split; [intros _|reflexivity].
      exact (proj2 (proj2 (proj2 (proj2 (getBudgetStatus_bands u)))) B).
    + symmetry. exact B.
    + reflexivity.
  - pose proof (FloatOrder.leb_ltb_false _ _ B) as L.
    split; [|split].
    + split; [discriminate|]. unfold getBudgetStatus. rewrite B.
      destruct (u <=? 50)%float; [discriminate|].
      destruct (u <=? 75)%float; [discriminate|].
      destruct (u <=? 90)%float; discriminate.
    + symmetry. exact L.
    + intros H. apply threshold_100 in H. rewrite L in H. discriminate H.
Qed.

Local Open Scope Q_scope.

(** ** Percentages within 0 and 100 *)

(** The sum of two positive finite numbers is not below either of them:
    the rounding of an addition never passes a representable number. *)
Lemma SFadd_ge mx ex my ey :
  valid_binary (S754_finite false mx ex) = true ->
  valid_binary (S754_finite false my ey) = true ->
  let r := SFadd prec emax (S754_finite false mx ex) (S754_finite false my ey) in
  r = S754_infinity false
  \/ exists m e, r = S754_finite false m e
                 /\ inject_Z (Zpos mx) * 2 ^ ex <= inject_Z (Zpos m) * 2 ^ e
                 /\ inject_Z (Zpos my) * 2 ^ ey <= inject_Z (Zpos m) * 2 ^ e.
Proof.
  intros Vx Vy.
  pose proof (min_exponent_bound _ _ _ _ _ _ Vx Vy) as Hm.
  apply valid_finite_bounds in Vx as (Ux & Bx & _).
  apply valid_finite_bounds in Vy as (Uy & By & _).
  cbv zeta. unfold SFadd, cond_Zopp.
  set (ez := Z.min ex ey) in *.
  pose proof (shl_align_spec mx ex ez) as [Ex1 Ex2].
  pose proof (shl_align_spec my ey ez) as [Ey1 Ey2].
  replace (snd (shl_align mx ex ez)) with ez in Ex2 by (unfold ez in *; lia).
  replace (snd (shl_align my ey ez)) with ez in Ey2 by (unfold ez in *; lia).
  rewrite Ex2, Ey2.
  assert (0 <= ex - ez)%Z as Dx by (unfold ez; lia).
  assert (0 <= ey - ez)%Z as Dy by (unfold ez; lia).
  set (X := (Zpos mx * 2 ^ (ex - ez))%Z). set (Y := (Zpos my * 2 ^ (ey - ez))%Z).
  assert (0 < X)%Z as PX
      by (unfold X; apply Z.mul_pos_pos; [lia | apply Z.pow_pos_nonneg; lia]).
  assert (0 < Y)%Z as PY
      by (unfold Y; apply Z.mul_pos_pos; [lia | apply Z.pow_pos_nonneg; lia]).
  destruct (X + Y)%Z as [|S|S] eqn:ES; try lia.
  simpl binary_normalize.
  destruct (binary_round_spec false S ez) as (M & Heq & Hcase & HM & _ & _).
  set (E := fexp prec emax (Zdigits2 (Zpos S) + ez)) in *.
  pose proof (two_pow_pos ez) as Pz. pose proof (two_pow_pos E) as PE.
  (* no representable number between the operand and the sum is passed *)
  assert (forall m e, (0 < m < 2 ^ 53)%Z -> (ez <= e)%Z ->
            (m * 2 ^ (e - ez) <= Zpos S)%Z ->
            inject_Z (m * 2 ^ (e - ez)) * 2 ^ ez <= inject_Z M * 2 ^ E) as Key.
  { intros m e Um He Le.
    destruct Hcase as [[LE ->]|(Gt & HMc & Hlow)].
    - rewrite aligned_value by exact LE.
      apply Qmult_le_compat_r; [apply inject_Z_pos_le; exact Le | lra].
    - specialize (Hlow ltac:(lia)).
      set (k := (E - ez)%Z) in *. set (m' := (Zpos S / 2 ^ k)%Z) in *.
      assert (0 < 2 ^ k)%Z as Pk by (apply Z.pow_pos_nonneg; unfold k; lia).
      assert (2 ^ E == inject_Z (2 ^ k) * 2 ^ ez) as EE.
      { replace E with (k + ez)%Z by (unfold k; lia).
        rewrite two_pow_add, (two_pow_Z k) by (unfold k; lia). reflexivity. }
      assert (m * 2 ^ (e - ez) <= m' * 2 ^ k)%Z as L.
      { destruct (Z_le_gt_dec k (e - ez)) as [A|B].
        - assert (2 ^ (e - ez) = 2 ^ (e - ez - k) * 2 ^ k)%Z as EP
              by (rewrite <- Z.pow_add_r by lia; f_equal; lia).
          rewrite EP, Z.mul_assoc.
          apply Z.mul_le_mono_nonneg_r; [lia|].
          unfold m'. apply Z.div_le_lower_bound; [exact Pk|].
          rewrite EP, Z.mul_assoc in Le. lia.
        - assert (2 ^ (e - ez) <= 2 ^ (k - 1))%Z as EP
              by (apply Z.pow_le_mono_r; lia).
          assert (2 ^ k = 2 * 2 ^ (k - 1))%Z as EK
              by (rewrite <- Z.pow_succ_r by lia; f_equal; lia).
          assert (0 < 2 ^ (k - 1))%Z by (apply Z.pow_pos_nonneg; lia).
          change (2 ^ 53)%Z with (2 * 2 ^ 52)%Z in Um. nia. }
      assert (m' <= M)%Z as LM by lia.
      rewrite EE, Qmult_assoc, <- inject_Z_mult.
      apply Qmult_le_compat_r; [|lra].
      apply inject_Z_pos_le. nia. }
  pose proof (Key (Zpos mx) ex ltac:(lia) ltac:(unfold ez; lia) ltac:(fold X; lia)) as KX.
  pose proof (Key (Zpos my) ey ltac:(lia) ltac:(unfold ez; lia) ltac:(fold Y; lia)) as KY.
  fold X in KX. fold Y in KY.
  assert (0 < inject_Z X * 2 ^ ez) as PV
      by (apply Qmult_lt_0_compat; [apply (inject_Z_pos_lt 0); exact PX | exact Pz]).
  rewrite Heq.
  destruct (pack_value M E HM) as [I|[[Z|(m & e & F)] Ev]].
  - left. exact I.
  - exfalso. rewrite Z in Ev. cbn [SF2Q] in Ev. lra.
  - right. exists m, e. split; [exact F|]. rewrite F in Ev. cbn [SF2Q] in Ev.
    rewrite Ev. split.
    + rewrite <- (aligned_value mx ex ez) by lia. exact KX.
    + rewrite <- (aligned_value my ey ez) by lia. exact KY.
Qed.

(** The order of two positive finite numbers, from their values. *)
Lemma value_leb (x y : num) mx ex my ey :
  Prim2SF x = S754_finite false mx ex ->
  Prim2SF y = S754_finite false my ey ->
  inject_Z (Zpos mx) * 2 ^ ex <= inject_Z (Zpos my) * 2 ^ ey ->
  (x <=? y)%float = true.
Proof.
  intros Ex Ey. rewrite FloatAxioms.leb_spec. unfold SFleb.
  pose proof (Prim2SF_valid x) as Vx. pose proof (Prim2SF_valid y) as Vy.
  rewrite Ex in *. rewrite Ey in *.
  rewrite (compare_aligned _ _ _ _ _ _ Vx Vy). cbv zeta. unfold cond_Zopp.
  set (ez := Z.min ex ey).
  rewrite <- (aligned_value mx ex ez) by (unfold ez; lia).
  rewrite <- (aligned_value my ey ez) by (unfold ez; lia).
  pose proof (two_pow_pos ez) as Pz.
  set (X := (Zpos mx * 2 ^ (ex - ez))%Z). set (Y := (Zpos my * 2 ^ (ey - ez))%Z).
  intros H. destruct (Z.compare_spec X Y) as [E|L|G]; [reflexivity|reflexivity|exfalso].
  assert (inject_Z Y < inject_Z X) as G' by (rewrite <- Zlt_Qlt; exact G).
  apply (Qmult_lt_compat_r _ _ (2 ^ ez)) in G'; [lra | exact Pz].
Qed.

(** A running total is not below what was added to it. *)
Lemma add_ge (x y : num) :
  isTotal x -> isTotal y ->
  (x <=? x + y)%float = true /\ (y <=? x + y)%float = true.
Proof.
  unfold isTotal. intros Tx Ty.
  pose proof (Prim2SF_valid x) as Vx. pose proof (Prim2SF_valid y) as Vy.
  rewrite !FloatAxioms.leb_spec, add_spec. unfold SF64add.
  destruct (Prim2SF x) as [[]|[]| |[] mx ex] eqn:Ex; try discriminate Tx;
    destruct (Prim2SF y) as [[]|[]| |[] my ey] eqn:Ey; try discriminate Ty;
    try (split; reflexivity).
  - (* 0 + y *)
    cbn [SFadd]. split; [reflexivity|].
    rewrite <- Ey, <- FloatAxioms.leb_spec. apply FloatOrder.leb_refl.
    unfold notNaN. rewrite Ey. discriminate.
  - (* x + 0 *)
    cbn [SFadd]. split; [|reflexivity].
    rewrite <- Ex, <- FloatAxioms.leb_spec. apply FloatOrder.leb_refl.
    unfold notNaN. rewrite Ex. discriminate.
  - destruct (SFadd_ge mx ex my ey Vx Vy) as [I|(m & e & F & Lx & Ly)];
      cbv zeta in *.
    + rewrite I. split; reflexivity.
    + rewrite F.
      assert (Prim2SF (x + y)%float = S754_finite false m e) as Er
          by (rewrite add_spec, Ex, Ey; exact F).
      rewrite <- Er, <- Ex, <- Ey, <- !FloatAxioms.leb_spec.
      split; [exact (value_leb x _ mx ex m e Ex Er Lx)
             |exact (value_leb y _ my ey m e Ey Er Ly)].
Qed.

(** A sum of non-negative numbers is not below any of them. *)
Lemma fold_add_ge l : forall acc,
  Forall isTotal l -> isTotal acc ->
  let T := fold_left (fun s a => (s + a)%float) l acc in
  (acc <=? T)%float = true /\ Forall (fun a => (a <=? T)%float = true) l.
Proof.
  induction l as [|a l IH]; cbn [fold_left]; intros acc Fl Ta.
  - split; [apply FloatOrder.leb_refl, isTotal_notNaN; exact Ta | constructor].
  - inversion Fl as [|? ? Tx Fl']; subst.
    assert (isTotal (acc + a)%float) as Tn
        by (apply add_total; [exact Ta | apply isTotal_isAmount; exact Tx]).
    destruct (IH _ Fl' Tn) as [L1 L2]. cbv zeta in L1, L2.
    destruct (add_ge acc a Ta Tx) as [G1 G2].
    split; [exact (FloatOrder.leb_trans _ _ _ G1 L1)|].
    constructor; [exact (FloatOrder.leb_trans _ _ _ G2 L1) | exact L2].
Qed.

Local Close Scope Q_scope.

Local Open Scope Q_scope.

(** The rounding to one decimal of a percentage that is at most 100 is at
    most 100. *)
Lemma rounded_within_100 u :
  (u <=? 100)%float = true -> (toFixedNum u 1 <=? 100)%float = true.
Proof.
  apply (toFixed1_below 100%float 100 7036874417766400 (-46));
    [reflexivity | reflexivity | vm_compute; reflexivity].
Qed.

(** The percentage of a part of a positive finite total. *)
Lemma percentOf_range (T a : num) :
  isTotal a -> (0 <? T)%float = true -> (T <? infinity)%float = true ->
  (a <=? T)%float = true ->
  (0 <=? percentOf T a)%float = true /\ (percentOf T a <=? 100)%float = true.
Proof.
  intros Ta PT FT La.
  destruct (positive_finite T PT FT) as (mT & eT & ET).
  assert (finiteTotal (a / T)%float /\ exactValue (a / T)%float <= 1) as [Fq Vq].
  { unfold isTotal in Ta.
    destruct (Prim2SF a) as [[]|[]| |[] ma ea] eqn:Ea; try discriminate Ta.
    - unfold finiteTotal, exactValue. rewrite div_spec, Ea, ET. cbn. split; [reflexivity | lra].
    - exfalso. rewrite FloatAxioms.leb_spec, Ea, ET in La. discriminate La.
    - apply (quotient_at_most_one a T ma ea mT eT Ea ET).
      apply FloatOrder.leb_ltb_false. exact La. }
  destruct (mul100_value (a / T)%float Fq ltac:(lra)) as [Fu _].
  pose proof (times100_at_most (a / T)%float Fq Vq) as Lu.
  unfold percentOf. split.
  - apply isAmount_leb, isTotal_isAmount, toFixedNum_amount; [lia|].
    unfold finiteTotal in Fu. unfold isAmount.
    destruct (Prim2SF (a / T * 100)%float) as [[]|[]| |[] m e]; try discriminate Fu;
      reflexivity.
  - apply rounded_within_100. exact Lu.
Qed.

Local Close Scope Q_scope.

(** X19: for non-negative amounts in categories that are not names of
    members of [Object.prototype], when the grand total [T] has not
    overflowed every percentage of the category breakdown lies between 0
    and 100: a category's sum never exceeds the sum of the categories'
    sums, the quotient of the two is at most 1 and neither the
    multiplication by 100 nor the rounding to one decimal carries it
    above 100. *)
Theorem percentage_range (ts : list Transaction) :
  forallb (fun t => (0 <=? amount t)%float) ts = true ->
  plainKeys (map category ts) = true ->
  exists T r,
    grandTotal (categoryTotals ts) = Number T
    /\ analyzeCategoricalSpending ts = Returned r
    /\ ((T <? infinity)%float = true ->
        Forall (fun c => (0 <=? percentage c)%float = true
                         /\ (percentage c <=? 100)%float = true) r).
Proof.
  intros Hpos Hplain.
  exists (plainGrandTotal (plainCategoryTotals ts)), (plainCategories ts).
  split; [rewrite (categoryTotals_plain ts Hplain); apply grandTotal_numbers|].
  split; [apply analyzeCategoricalSpending_plain; exact Hplain|].
  intros HT.
  set (T := plainGrandTotal (plainCategoryTotals ts)) in *.
  set (totals := plainCategoryTotals ts) in *.
  set (es := JsObject.entries totals).
  set (counts := plainCategoryCounts ts).
  assert (Permutation (plainCategories ts)
                      (map (plainCategoryEntry counts T) es)) as Perm
      by (unfold plainCategories; apply sort_perm).
  apply (Forall_perm _ (map (plainCategoryEntry counts T) es)); [symmetry; exact Perm|].
  set (l := map snd es).
  assert (T = fold_left (fun s a => (s + a)%float) l 0%float) as ET by reflexivity.
  assert (Forall isTotal l) as Tl.
  { unfold l. rewrite Forall_forall. intros a Ha.
    apply in_map_iff in Ha as ([k v] & <- & Hkv).
    apply (Permutation_in _ (entries_perm totals)) in Hkv.
    destruct (accumulated_property category ts k v Hpos Hkv) as (_ & Tv & _).
    exact Tv. }
  destruct (fold_add_ge l 0%float Tl isTotal_zero) as [_ Ge]. cbv zeta in Ge.
  rewrite <- ET in Ge.
  rewrite Forall_forall in Tl, Ge |- *.
  intros c Hc. apply in_map_iff in Hc as (kv & <- & Hkv).
  rewrite categoryEntry_percentage.
  destruct (0 <? T)%float eqn:PT; [|split; reflexivity].
  assert (In (snd kv) l) as Hin by (unfold l; apply in_map; exact Hkv).
  apply percentOf_range; [apply Tl; exact Hin | exact PT | exact HT | apply Ge; exact Hin].
Qed.

(** ** Keys that are names of members of [Object.prototype] *)

(** A transaction under the key [__proto__] leaves an accumulator as it
    is. *)
Lemma accumulate_proto (o : JsObject.t Slot) k v :
  JsObject.isProto k = true -> accumulate o k v = o.
Proof. intros H. unfold accumulate, assign. rewrite H. reflexivity. Qed.

Lemma fold_accumulate_proto {T} (f : T -> string) (g : T -> num) (ts : list T) :
  forall o,
    fold_left (fun o t => accumulate o (f t) (g t)) ts o
    = fold_left (fun o t => accumulate o (f t) (g t))
                (filter (fun t => negb (JsObject.isProto (f t))) ts) o.
Proof.
  induction ts as [|t ts IH]; intros o; simpl; [reflexivity|].
  destruct (JsObject.isProto (f t)) eqn:P; simpl.
  - rewrite (accumulate_proto o _ _ P). apply IH.
  - apply IH.
Qed.

(** An own property is what is read under its key. *)
Lemma get_In {V} (o : JsObject.t V) k v : JsObject.get o k = Some v -> In (k, v) o.
Proof.
  induction o as [|[k0 v0] o IH]; simpl; [discriminate|].
  destruct (String.eqb_spec k0 k) as [->|N].
  - intros [= ->]. left. reflexivity.
  - intros H. right. apply IH. exact H.
Qed.

Lemma In_set {V} (o : JsObject.t V) k v k' v' :
  In (k', v') (JsObject.set o k v) -> (k' = k /\ v' = v) \/ In (k', v') o.
Proof.
  induction o as [|[k0 v0] o IH]; simpl.
  - intros [[= <- <-]|[]]. left. split; reflexivity.
  - destruct (String.eqb_spec k0 k) as [->|N]; simpl.
    + intros [[= <- <-]|H]; [left; split; reflexivity | right; right; exact H].
    + intros [E|H]; [right; left; exact E|].
      destruct (IH H) as [E|H']; [left; exact E | right; right; exact H'].
Qed.

Lemma method_not_proto k :
  JsObject.isPrototypeMethod k = true -> JsObject.isProto k = false.
Proof.
  unfold JsObject.isProto. destruct (String.eqb_spec k "__proto__") as [->|N];
    [vm_compute; discriminate | reflexivity].
Qed.

(** The shape of the own properties is kept by every step. *)
Lemma accumulate_slotsOk o k v : slotsOk o -> slotsOk (accumulate o k v).
Proof.
  intros H k' s Hin. unfold accumulate, assign in Hin.
  destruct (JsObject.isProto k) eqn:P; [exact (H k' s Hin)|].
  apply In_set in Hin as [[-> ->]|Hin]; [|exact (H k' s Hin)].
  split; [exact P|].
  unfold readSlot.
  destruct (JsObject.get o k) as [[n|]|] eqn:G; simpl.
  - apply get_In in G. destruct (H _ _ G) as [_ Hs].
    split; [discriminate|]. intros M. apply Hs in M. discriminate.
  - apply get_In in G. destruct (H _ _ G) as [_ Hs].
    split; [intros _; apply Hs; reflexivity | reflexivity].
  - rewrite P, orb_false_r.
    destruct (JsObject.isPrototypeMethod k); simpl;
      split; try reflexivity; discriminate.
Qed.

Lemma fold_accumulate_slotsOk {T} (f : T -> string) (g : T -> num) (ts : list T) :
  forall o, slotsOk o ->
            slotsOk (fold_left (fun o t => accumulate o (f t) (g t)) ts o).
Proof.
  induction ts as [|t ts IH]; intros o H; simpl; [exact H|].
  apply IH. apply accumulate_slotsOk. exact H.
Qed.

(** The keys of an accumulator: those met, [__proto__] apart. *)
Lemma accumulate_key o k v k' :
  In k' (map fst (accumulate o k v))
  <-> In k' (map fst o) \/ (k = k' /\ JsObject.isProto k = false).
Proof.
  unfold accumulate, assign. destruct (JsObject.isProto k) eqn:P.
  - split; [auto | intros [H|[_ H]]; [exact H | discriminate]].
  - rewrite keys_set. destruct (existsb (String.eqb k) (map fst o)) eqn:E.
    + split; [auto|]. intros [H|[<- _]]; [exact H|].
      apply existsb_exists in E as (x & Hx & Ex). apply String.eqb_eq in Ex.
      subst x. exact Hx.
    + rewrite in_app_iff. simpl. split.
      * intros [H|[H|[]]]; auto.
      * intros [H|[H _]]; auto.
Qed.

Lemma fold_accumulate_key {T} (f : T -> string) (g : T -> num) (ts : list T) k :
  forall o,
    In k (map fst (fold_left (fun o t => accumulate o (f t) (g t)) ts o))
    <-> In k (map fst o) \/ (In k (map f ts) /\ JsObject.isProto k = false).
Proof.
  induction ts as [|t ts IH]; intros o; simpl.
  - split; [auto | intros [H|[[] _]]; exact H].
  - rewrite IH, accumulate_key. split.
    + intros [[H|[E P]]|[H P]]; auto.
      right. split; [left; exact E | rewrite <- E; exact P].
    + intros [H|[[E|H] P]]; auto.
      left. right. split; [exact E | rewrite E; exact P].
Qed.

(** An array callback that throws a [TypeError] on the strings. *)
Lemma mapResult_type_error {B : Type} (f : string * Slot -> Result B)
      (l : list (string * Slot)) :
  (forall k a, exists b, f (k, Number a) = Returned b) ->
  (forall k, f (k, Text) = TypeErrorThrown) ->
  mapResult f l = TypeErrorThrown <-> exists k, In (k, Text) l.
Proof.
  intros Hn Ht. induction l as [|[k [a|]] l IH]; simpl.
  - split; [discriminate | intros (k & [])].
  - destruct (Hn k a) as (b & ->). simpl.
    destruct (mapResult f l) as [ys|msg|] eqn:E; simpl.
    + split; [discriminate|].
      intros (k' & [[=]|H]).
      pose proof (proj2 IH (ex_intro _ k' H)) as X. discriminate X.
    + split; [discriminate|].
      intros (k' & [[=]|H]).
      pose proof (proj2 IH (ex_intro _ k' H)) as X. discriminate X.
    + split; [|reflexivity].
      intros _. destruct (proj1 IH eq_refl) as (k' & H). exists k'. right. exact H.
  - rewrite Ht. simpl. split; [|reflexivity].
    intros _. exists k. left. reflexivity.
Qed.

(** The accumulator of a collection holds a string exactly when a key is
    the name of a method. *)
Lemma accumulated_text {T} (f : T -> string) (g : T -> num) (ts : list T) :
  let o := fold_left (fun o t => accumulate o (f t) (g t)) ts JsObject.empty in
  (exists k, In (k, Text) (JsObject.entries o))
  <-> existsb JsObject.isPrototypeMethod (map f ts) = true.
Proof.
  intros o.
  assert (slotsOk o) as Ok
      by (apply fold_accumulate_slotsOk; intros k s []).
  split.
  - intros (k & Hk).
    apply (Permutation_in _ (entries_perm o)) in Hk.
    destruct (Ok _ _ Hk) as [P M].
    apply existsb_exists. exists k. split; [|apply M; reflexivity].
    apply (in_map fst) in Hk. simpl in Hk.
    apply (fold_accumulate_key f g ts k JsObject.empty) in Hk as [[]|[Hk _]].
    exact Hk.
  - intros H. apply existsb_exists in H as (k & Hk & M).
    assert (In k (map fst o)) as Hin.
    { apply (fold_accumulate_key f g ts k JsObject.empty). right.
      split; [exact Hk | apply method_not_proto; exact M]. }
    apply in_map_iff in Hin as ([k' s] & E & Hin). simpl in E. subst k'.
    destruct (Ok _ _ Hin) as [_ Hs]. apply Hs in M. subst s.
    exists k. apply (Permutation_in _ (Permutation_sym (entries_perm o))). exact Hin.
Qed.

Lemma keys_get {V} (o : JsObject.t V) k :
  In k (map fst o) -> exists v, JsObject.get o k = Some v.
Proof.
  induction o as [|[k0 v0] o IH]; simpl; [intros []|].
  destruct (String.eqb_spec k0 k) as [->|N]; [intros _; exists v0; reflexivity|].
  intros [E|H]; [contradiction | exact (IH H)].
Qed.

(** Both accumulators of the category breakdown hold a number under the
    same keys. *)
Lemma counts_of_totals (ts : list Transaction) c a :
  In (c, Number a) (JsObject.entries (categoryTotals ts)) ->
  exists n, readSlot (categoryTransactionCounts ts) c = Own (Number n).
Proof.
  intros H. apply (Permutation_in _ (entries_perm _)) in H.
  assert (slotsOk (categoryTotals ts)) as Ok
      by (apply fold_accumulate_slotsOk; intros k s []).
  destruct (Ok _ _ H) as [P M].
  apply (in_map fst) in H. simpl in H.
  apply (fold_accumulate_key category amount ts c JsObject.empty) in H as [[]|[H _]].
  assert (In c (map fst (categoryTransactionCounts ts))) as Hc.
  { apply (fold_accumulate_key category (fun _ => 1%float) ts c JsObject.empty).
    right. split; [exact H | exact P]. }
  apply keys_get in Hc as (s & G).
  assert (slotsOk (categoryTransactionCounts ts)) as Ok'
      by (apply fold_accumulate_slotsOk; intros k s' []).
  destruct (Ok' _ _ (get_In _ _ _ G)) as [_ Hs].
  unfold readSlot. rewrite G.
  destruct s as [n|]; [exists n; reflexivity|].
  destruct M as [_ M]. specialize (M (proj1 Hs eq_refl)). discriminate.
Qed.

Lemma andThen_type_error {A B : Type} (r : Result A) (k : A -> Result B) :
  (forall a, k a <> TypeErrorThrown) ->
  (andThen r k = TypeErrorThrown <-> r = TypeErrorThrown).
Proof.
  intros Hk. destruct r as [a|msg|]; simpl.
  - split; [intros H; exfalso; exact (Hk a H) | discriminate].
  - split; discriminate.
  - split; reflexivity.
Qed.

(** X21: the category breakdown throws a [TypeError] exactly when a
    category is the name of a method of [Object.prototype] (constructor,
    toString, valueOf, hasOwnProperty and the like): the inherited
    function is read as the running total, and the string made of it has
    no [toFixed].  It throws nothing else, so that it returns exactly
    when no category is such a name.  The transactions of a category
    [__proto__] are left out of the breakdown, as if they were not in the
    collection.  Where the total of a category is a number its count of
    transactions is one too. *)
Theorem breakdown_of_inherited_names (ts : list Transaction) :
  let named := existsb JsObject.isPrototypeMethod (map category ts) in
  (analyzeCategoricalSpending ts = TypeErrorThrown <-> named = true)
  /\ ((exists r, analyzeCategoricalSpending ts = Returned r) <-> named = false)
  /\ analyzeCategoricalSpending ts
     = analyzeCategoricalSpending
         (filter (fun t => negb (JsObject.isProto (category t))) ts)
  /\ (forall c a,
        In (c, Number a) (JsObject.entries (categoryTotals ts)) ->
        exists n, readSlot (categoryTransactionCounts ts) c = Own (Number n))
  /\ analyzeCategoricalSpending
       [mkTransaction "2024-01-01" "Food" 10%float;
        mkTransaction "2024-01-02" "constructor" 5%float] = TypeErrorThrown
  /\ analyzeCategoricalSpending
       [mkTransaction "2024-01-01" "Food" 10%float;
        mkTransaction "2024-01-02" "__proto__" 5%float]
     = Returned [mkCategoryEntry "Food" 10 100 1 10]%float.
Proof.
  intros named.
  assert (analyzeCategoricalSpending ts = TypeErrorThrown <-> named = true) as Hiff.
  { unfold analyzeCategoricalSpending.
    rewrite andThen_type_error by discriminate.
    unfold categoryEntries. cbv zeta.
    rewrite mapResult_type_error.
    - exact (accumulated_text category amount ts).
    - intros k a. eexists. reflexivity.
    - intros k. reflexivity. }
  split; [exact Hiff|]. split.
  { destruct (analyzeCategoricalSpending ts) as [r|msg|] eqn:E.
    - split; [|intros _; exists r; reflexivity].
      intros _. destruct named; [|reflexivity].
      pose proof (proj2 Hiff eq_refl) as X. discriminate X.
    - exfalso. exact (analyzeCategoricalSpending_not_thrown ts msg E).
    - split; [intros (r & X); discriminate X|].
      intros N. rewrite (proj1 Hiff eq_refl) in N. discriminate N. }
  split.
  { unfold analyzeCategoricalSpending, categoryEntries, categoryTotals,
      categoryTransactionCounts.
    rewrite <- (fold_accumulate_proto category amount ts),
      <- (fold_accumulate_proto category (fun _ => 1%float) ts).
    reflexivity. }
  split; [exact (counts_of_totals ts)|].
  split; vm_compute; reflexivity.
Qed.

Section TimelineNames.

Variable dateValue : string -> num.

(** X22: the timeline throws a [TypeError] exactly when a date is the
    name of a method of [Object.prototype]; it throws nothing else, so
    that it returns exactly when no date is such a name.  The
    transactions of a date [__proto__] are left out of the timeline, as
    if they were not in the collection. *)
Theorem timeline_of_inherited_names (ts : list Transaction) :
  let named := existsb JsObject.isPrototypeMethod (map date ts) in
  (analyzeSpendingTimeline dateValue ts = TypeErrorThrown <-> named = true)
  /\ ((exists tl, analyzeSpendingTimeline dateValue ts = Returned tl)
      <-> named = false)
  /\ analyzeSpendingTimeline dateValue ts
     = analyzeSpendingTimeline dateValue
         (filter (fun t => negb (JsObject.isProto (date t))) ts)
  /\ analyzeSpendingTimeline dateValue protoDays
     = Returned (mkTimeline [mkDayEntry (Some "2024-01-01") 5%float]
                            (mkDayEntry (Some "2024-01-01") 5%float)
                            (mkDayEntry (Some "2024-01-01") 5%float)).
Proof.
  intros named.
  assert (analyzeSpendingTimeline dateValue ts = TypeErrorThrown <-> named = true)
    as Hiff.
  { unfold analyzeSpendingTimeline, sortedDays.
    rewrite !andThen_type_error by discriminate.
    rewrite mapResult_type_error.
    - exact (accumulated_text date amount ts).
    - intros k a. eexists. reflexivity.
    - intros k. reflexivity. }
  split; [exact Hiff|]. split.
  { destruct (analyzeSpendingTimeline dateValue ts) as [r|msg|] eqn:E.
    - split; [|intros _; exists r; reflexivity].
      intros _. destruct named; [|reflexivity].
      pose proof (proj2 Hiff eq_refl) as X. discriminate X.
    - exfalso. exact (analyzeSpendingTimeline_not_thrown dateValue ts msg E).
    - split; [intros (r & X); discriminate X|].
      intros N. rewrite (proj1 Hiff eq_refl) in N. discriminate N. }
  split; [|reflexivity].
  unfold analyzeSpendingTimeline, sortedDays, dailyTotals.
  rewrite <- (fold_accumulate_proto date amount ts). reflexivity.
Qed.

End TimelineNames.

(** ** The theorems at concrete inputs *)

Lemma timeline_reduction_witness :
  forallb (fun t => (0 <=? amount t)%float) exampleDays = true
  /\ forallb (fun t => negb (is_nan (isoDateValue (date t)))) exampleDays = true
  /\ plainKeys (map date exampleDays) = true
  /\ exists tl,
      analyzeSpendingTimeline isoDateValue exampleDays = Returned tl
      /\ StronglySorted
           (fun a b => (dayValue isoDateValue a <=? dayValue isoDateValue b)%float
                       = true)
           (dailySpending tl).
Proof.
  split; [reflexivity|]. split; [reflexivity|]. split; [reflexivity|].
  pose proof (timeline_reduction isoDateValue exampleDays eq_refl eq_refl eq_refl)
    as H.
  cbv zeta in H. destruct H as [(tl & E & _ & _ & S & _) _].
  exists tl. split; [exact E | exact S].
Defined.

Lemma category_ranking_witness :
  forallb (fun t => (0 <=? amount t)%float) rankingExample = true
  /\ plainKeys (map category rankingExample) = true
  /\ exists r,
      analyzeCategoricalSpending rankingExample = Returned r
      /\ StronglySorted (fun a b => (cAmount b <=? cAmount a)%float = true) r.
Proof.
  split; [reflexivity|]. split; [reflexivity|].
  pose proof (category_ranking rankingExample eq_refl eq_refl) as H.
  cbv zeta in H. destruct H as (r & e & E & _ & S & _).
  exists r. split; [exact E | exact S].
Defined.

Lemma percentages_sum_witness :
  forallb (fun t => (0 <=? amount t)%float) scenario = true
  /\ (Z.of_nat (List.length scenario) <=? 4294967295)%Z = true
  /\ plainKeys (map category scenario) = true
  /\ grandTotal (categoryTotals scenario) = Number 300%float
  /\ (0 <? 300)%float = true
  /\ (300 <? infinity)%float = true
  /\ exists r,
      analyzeCategoricalSpending scenario = Returned r
      /\ (Qabs (sumQ (map (fun c => exactValue (percentage c)) r) - 100)
          <= (1 # 10) * inject_Z (Z.of_nat (List.length r)))%Q.
Proof.
  split; [reflexivity|]. split; [reflexivity|]. split; [reflexivity|].
  split; [reflexivity|]. split; [reflexivity|]. split; [reflexivity|].
  pose proof (percentages_sum scenario eq_refl eq_refl eq_refl) as H.
  destruct H as (T & r & ET & Er & _ & H).
  assert (300%float = T) as E300.
  { assert (grandTotal (categoryTotals scenario) = Number 300%float) as E
        by reflexivity.
    rewrite E in ET. injection ET as ET. exact ET. }
  destruct E300.
  exists r. split; [exact Er | exact (H eq_refl eq_refl)].
Defined.

Lemma analyzeStudent_first_record_witness :
  students duplicateIdDataset
  = [] ++ mkStudent "STU001" "Ada" "Fall 2024" 500%float
            [mkTransaction "2024-01-01" "Food" 10%float]
       :: [mkStudent "STU001" "Grace" "Fall 2024" 300%float []]
  /\ regular isoDateValue [mkTransaction "2024-01-01" "Food" 10%float] = true
  /\ exists a,
      analyzeStudent isoDateValue (loadData newAnalyzer duplicateIdDataset) "STU001"
      = Returned a
      /\ infoName (studentInfo a) = "Ada".
Proof.
  split; [reflexivity|]. split; [reflexivity|].
  destruct (analyzeStudent_first_record isoDateValue duplicateIdDataset []
              [mkStudent "STU001" "Grace" "Fall 2024" 300%float []]
              (mkStudent "STU001" "Ada" "Fall 2024" 500%float
                 [mkTransaction "2024-01-01" "Food" 10%float])
              newAnalyzer eq_refl (fun H => H) eq_refl) as (cs & tl & _ & _ & E).
  eexists. split; [exact E | reflexivity].
Defined.

Lemma timeline_day_count_witness :
  plainKeys (map date scenario) = true
  /\ exists tl,
      analyzeSpendingTimeline isoDateValue scenario = Returned tl
      /\ List.length (dailySpending tl) = getUniqueDays scenario.
Proof.
  split; [reflexivity|].
  exact (proj1 (timeline_day_count isoDateValue scenario eq_refl)).
Defined.

Lemma validateData_record_error_witness :
  validateData missingNameDataset = Failed "Student 2: Missing required fields"
  /\ validateData noTransactionsDataset
     = Failed "Student 2: Missing or invalid transactions".
Proof.
  split.
  - exact (proj1 (validateData_record_error missingNameDataset
             [jsonOfStudent (mkStudent "STU001" "Ada" "Fall 2024" 500%float [])] []
             (JObject [("studentId", JString "STU002");
                       ("monthlyBudget", JNumber 400%float)])
             eq_refl eq_refl eq_refl eq_refl) eq_refl).
  - exact (proj2 (validateData_record_error noTransactionsDataset
             [jsonOfStudent (mkStudent "STU001" "Ada" "Fall 2024" 500%float [])] []
             (JObject [("studentId", JString "STU002"); ("name", JString "Grace");
                       ("monthlyBudget", JNumber 400%float);
                       ("transactions", JString "none")])
             eq_refl eq_refl eq_refl eq_refl) eq_refl eq_refl).
Defined.

Lemma budget_not_positive_witness :
  (0 <? -50)%float = false
  /\ status (analyzeBudget [tx 10%float] (-50)%float) = "Conservative"
  /\ isOverBudget (analyzeBudget [tx 10%float] (-50)%float) = true.
Proof.
  split; [reflexivity|].
  pose proof (budget_not_positive [tx 10%float] (-50)%float eq_refl) as H.
  cbv zeta in H. destruct H as (_ & S & O & _).
  split; [exact S | exact (O eq_refl eq_refl)].
Defined.

Lemma dailyAverage_of_running_sum_witness :
  (Z.of_nat (List.length scenario) <=? 4294967295)%Z = true
  /\ dailyAverage (calculateSpendingMetrics scenario)
     = toFixedNum (sumAmounts scenario / ofNat (getUniqueDays scenario))%float 2.
Proof.
  split; [reflexivity|].
  exact (proj1 (dailyAverage_of_running_sum
                  (mkTransaction "2024-01-01" "Food" 120%float)
                  [mkTransaction "2024-01-02" "Food" 80%float;
                   mkTransaction "2024-01-02" "Books" 60%float;
                   mkTransaction "2024-01-03" "Entertainment" 40%float] eq_refl)).
Defined.

Lemma remaining_sign_witness :
  forallb (fun t => (0 <=? amount t)%float) scenario = true
  /\ (0 <=? 400)%float = true
  /\ (400 <? infinity)%float = true
  /\ (isOverBudget (analyzeBudget scenario 400%float) = false ->
      (0 <=? remaining (analyzeBudget scenario 400%float))%float = true).
Proof.
  split; [reflexivity|]. split; [reflexivity|]. split; [reflexivity|].
  exact (proj1 (proj2 (remaining_sign scenario 400%float eq_refl eq_refl eq_refl))).
Defined.

Lemma category_transaction_counts_witness :
  (Z.of_nat (List.length scenario) <=? 4294967295)%Z = true
  /\ plainKeys (map category scenario) = true
  /\ exists r,
      analyzeCategoricalSpending scenario = Returned r
      /\ list_sum (map (fun c => List.length (amountsIn (cName c) scenario)) r)
         = List.length scenario.
Proof.
  split; [reflexivity|]. split; [reflexivity|].
  pose proof (category_transaction_counts scenario eq_refl eq_refl) as H.
  cbv zeta in H. destruct H as (r & E & _ & _ & _ & S).
  exists r. split; [exact E | exact S].
Defined.

Lemma category_average_witness :
  forallb (fun t => (0 <=? amount t)%float) scenario = true
  /\ (Z.of_nat (List.length scenario) <=? 4294967295)%Z = true
  /\ plainKeys (map category scenario) = true
  /\ exists r,
      analyzeCategoricalSpending scenario = Returned r
      /\ Forall (fun c =>
                   averagePerTransaction c
                   = toFixedNum
                       (sumList (amountsIn (cName c) scenario)
                        / ofNat (List.length (amountsIn (cName c) scenario)))%float 2)
                r.
Proof.
  split; [reflexivity|]. split; [reflexivity|]. split; [reflexivity|].
  destruct (category_average scenario eq_refl eq_refl eq_refl) as (r & E & F).
  exists r. split; [exact E|].
  eapply Forall_impl; [|exact F].
  intros c H. exact (proj1 H).
Defined.


Lemma over_budget_agrees_witness :
  forallb (fun t => (0 <=? amount t)%float) scenario = true
  /\ (0 <? 250)%float = true
  /\ (250 <? infinity)%float = true
  /\ (isOverBudget (analyzeBudget scenario 250%float) = true
      <-> status (analyzeBudget scenario 250%float) = "Over Budget").
Proof.
  split; [reflexivity|]. split; [reflexivity|]. split; [reflexivity|].
  pose proof (over_budget_agrees scenario 250%float eq_refl eq_refl eq_refl) as H.
  cbv zeta in H. destruct H as [H _]. exact H.
Defined.

Lemma percentage_range_witness :
  forallb (fun t => (0 <=? amount t)%float) scenario = true
  /\ plainKeys (map category scenario) = true
  /\ grandTotal (categoryTotals scenario) = Number 300%float
  /\ (300 <? infinity)%float = true
  /\ exists r,
      analyzeCategoricalSpending scenario = Returned r
      /\ Forall (fun c => (0 <=? percentage c)%float = true
                          /\ (percentage c <=? 100)%float = true) r.
Proof.
  split; [reflexivity|]. split; [reflexivity|]. split; [reflexivity|].
  split; [reflexivity|].
  destruct (percentage_range scenario eq_refl eq_refl) as (T & r & ET & Er & H).
  assert (300%float = T) as E300.
  { assert (grandTotal (categoryTotals scenario) = Number 300%float) as E
        by reflexivity.
    rewrite E in ET. injection ET as ET. exact ET. }
  destruct E300.
  exists r. split; [exact Er | exact (H eq_refl)].
Defined.
